(** * regex-validify: the validator of [src/validators/regExp.ts]

    The class [RegExpValidator] tests strings against regular expressions.
    Its rules are JavaScript [RegExp] values, so the development has three
    layers:

    - [Engine]: the pattern semantics of ECMA-262 (section 22.2.2) for the
      constructs the rules of the repository use, written as a
      list-of-successes backtracking matcher;
    - [Parser]: the pattern grammar (with the Annex B extensions of
      non-unicode patterns), which is what [new RegExp(text)] and a
      regular expression literal run on their source text;
    - [Validator]: the class itself, in a small monad that carries the
      wall clock read by [Date.now()] and the exceptions caught by
      [try {...} catch]. *)

From Stdlib Require Import String Ascii List NArith ZArith Bool Arith Lia.
From Stdlib Require Import DecimalString DecimalPos Permutation.
Import ListNotations.

Set Implicit Arguments.

(** ** Strings

    A JavaScript string is a sequence of UTF-16 code units.  Pattern
    sources and the examples are ASCII and are written as Rocq strings. *)

Definition JsString := list N.

Definition js (s : string) : JsString := map N_of_ascii (list_ascii_of_string s).

Definition jsstring_eqb (a b : JsString) : bool :=
  (length a =? length b)%nat && forallb (fun p => N.eqb (fst p) (snd p)) (combine a b).

(** LineTerminator: LF, CR, LS, PS. *)
Definition is_line_terminator (ch : N) : bool :=
  (ch =? 10)%N || (ch =? 13)%N || (ch =? 8232)%N || (ch =? 8233)%N.

(** ** Patterns *)

Definition CharSet := list (N * N).

Inductive Regex : Type :=
| Empty
| Char (c : N)
| Dot
| Class (invert : bool) (cs : CharSet)
| AssertStart
| AssertEnd
| Seq (a b : Regex)
| Alt (a b : Regex)
| Repeat (min : N) (max : option N) (greedy : bool) (r : Regex)
| Group (index : nat) (r : Regex)
| LookAhead (negative : bool) (r : Regex).

(** The flag sets that occur in the repository: none, [i] and [u].  A
    [RegExp] with one of them has no state: [test] and [match] start at
    index 0 whatever [lastIndex] is.  The flags [g] and [y] (matching
    from [lastIndex], which [test] moves), [m] and [s] are not
    modelled: no rule of the class has them, and what is proved of
    [isValid] is proved for a caller's rule without them. *)
Inductive Flags := flags_none | flags_i | flags_u.

Record RegExp := mkRegExp {
  re_pattern : Regex;
  re_groups : nat;        (* number of capturing groups *)
  re_flags : Flags
}.

(** Indices of the capturing groups inside a term; [RepeatMatcher] clears
    them at the start of every iteration. *)
Fixpoint groups_of (r : Regex) : list nat :=
  match r with
  | Seq a b | Alt a b => groups_of a ++ groups_of b
  | Repeat _ _ _ r | LookAhead _ r => groups_of r
  | Group i r => i :: groups_of r
  | _ => []
  end.

Definition in_ranges (cs : CharSet) (ch : N) : bool :=
  existsb (fun p => (fst p <=? ch)%N && (ch <=? snd p)%N) cs.

Fixpoint range_members (lo : N) (count : nat) : list N :=
  match count with
  | O => []
  | S k => lo :: range_members (N.succ lo) k
  end.

Definition members (cs : CharSet) : list N :=
  flat_map (fun p => range_members (fst p) (N.to_nat (N.succ (snd p) - fst p))) cs.

(** ** The matcher *)

Module Engine.

(** The captures: one optional range of the input per capturing group. *)
Definition Captures := list (option (nat * nat)).

(** A match state: the end index and the captures (the input is fixed). *)
Definition State : Type := (nat * Captures)%type.
Definition endIndex (x : State) : nat := fst x.
Definition captures (x : State) : Captures := snd x.

Fixpoint set_nth (A : Type) (n : nat) (v : A) (l : list A) : list A :=
  match l, n with
  | [], _ => []
  | _ :: t, O => v :: t
  | h :: t, S k => h :: set_nth k v t
  end.

Definition set_capture (i : nat) (range : nat * nat) (caps : Captures) : Captures :=
  set_nth (Nat.pred i) (Some range) caps.

Definition clear_captures (parens : list nat) (caps : Captures) : Captures :=
  fold_left (fun c i => set_nth (Nat.pred i) None c) parens caps.

Section Matcher.

(** Unicode upper-case mapping of the code units from 128 on (the table
    of the run-time; ASCII is written out below). *)
Variable unicode_upper : N -> list N.
Variable ignoreCase : bool.
Variable input : list N.

Definition toUppercase (ch : N) : list N :=
  if (ch <? 128)%N
  then [if (97 <=? ch)%N && (ch <=? 122)%N then (ch - 32)%N else ch]
  else unicode_upper ch.

(** Canonicalize (22.2.2.7.3), non-unicode case. *)
Definition Canonicalize (ch : N) : N :=
  if ignoreCase then
    match toUppercase ch with
    | [cu] => if (128 <=? ch)%N && (cu <? 128)%N then ch else cu
    | _ => ch
    end
  else ch.

Definition char_set_found (cs : CharSet) (ch : N) : bool :=
  if ignoreCase
  then existsb (fun a => (Canonicalize a =? Canonicalize ch)%N) (members cs)
  else in_ranges cs ch.

(** CharacterSetMatcher (22.2.2.7.1). *)
Definition CharacterSetMatcher (test : N -> bool) (x : State) : list State :=
  match nth_error input (endIndex x) with
  | Some ch => if test ch then [(S (endIndex x), captures x)] else []
  | None => []
  end.

Section Repeat.
Variable m : State -> list State.
Variable parens : list nat.

(** RepeatMatcher (22.2.2.3.1).  [fuel] bounds the number of
    iterations; every iteration after the first [min] has to consume
    input, so [min + (length input - endIndex x) + 1] is enough. *)
Fixpoint RepeatMatcher (fuel : nat) (min : N) (max : option N) (greedy : bool)
         (x : State) : list State :=
  match fuel with
  | O => []
  | S fuel' =>
    match max with
    | Some 0%N => [x]
    | _ =>
      let xr := (endIndex x, clear_captures parens (captures x)) in
      let iterate :=
        flat_map (fun y =>
          if (min =? 0)%N && (endIndex y =? endIndex x)%nat then []
          else RepeatMatcher fuel' (N.pred min) (option_map N.pred max) greedy y)
          (m xr) in
      if negb (min =? 0)%N then iterate
      else if greedy then iterate ++ [x]
      else x :: iterate
    end
  end.
End Repeat.

Definition repeat_fuel (min : N) (i : nat) : nat :=
  S (N.to_nat min + (length input - i)).

(** The matcher of a pattern: all the states in which the pattern can
    end when started in [x], in the order in which a backtracking
    matcher reaches them. *)
Fixpoint run (r : Regex) (x : State) {struct r} : list State :=
  match r with
  | Empty => [x]
  | Char c => CharacterSetMatcher (fun ch => (Canonicalize ch =? Canonicalize c)%N) x
  | Dot => CharacterSetMatcher (fun ch => negb (is_line_terminator ch)) x
  | Class invert cs => CharacterSetMatcher (fun ch => xorb invert (char_set_found cs ch)) x
  | AssertStart => if (endIndex x =? 0)%nat then [x] else []
  | AssertEnd => if (endIndex x =? length input)%nat then [x] else []
  | Seq a b => flat_map (run b) (run a x)
  | Alt a b => run a x ++ run b x
  | Repeat min max greedy r' =>
      RepeatMatcher (run r') (groups_of r') (repeat_fuel min (endIndex x)) min max greedy x
  | Group i r' =>
      map (fun y => (endIndex y, set_capture i (endIndex x, endIndex y) (captures y)))
          (run r' x)
  | LookAhead negative r' =>
      match run r' x with
      | [] => if negative then [x] else []
      | y :: _ => if negative then [] else [(endIndex x, captures y)]
      end
  end.

End Matcher.

End Engine.

(** ** [RegExp.prototype.exec], [test] and [String.prototype.match]

    The rules of the repository carry neither the [g] nor the [y] flag, so
    [lastIndex] stays 0 and [exec] has no state: it tries the start
    positions from left to right and returns the first success of the
    matcher. *)

Module RegExpObject.

Section Exec.
Variable unicode_upper : N -> list N.

Definition is_high_surrogate (c : N) : bool := (55296 <=? c)%N && (c <=? 56319)%N.
Definition is_low_surrogate (c : N) : bool := (56320 <=? c)%N && (c <=? 57343)%N.

(** With the [u] flag the input is a list of code points. *)
Fixpoint utf16_decode (s : list N) : list N :=
  match s with
  | hi :: ((lo :: t) as rest) =>
      if is_high_surrogate hi && is_low_surrogate lo
      then (65536 + (hi - 55296) * 1024 + (lo - 56320))%N :: utf16_decode t
      else hi :: utf16_decode rest
  | _ => s
  end.

Definition utf16_encode_char (cp : N) : list N :=
  if (65536 <=? cp)%N
  then [(55296 + (cp - 65536) / 1024)%N; (56320 + (cp - 65536) mod 1024)%N]
  else [cp].

Definition utf16_encode (cps : list N) : JsString := flat_map utf16_encode_char cps.

Definition input_of (f : Flags) (s : JsString) : list N :=
  match f with flags_u => utf16_decode s | _ => s end.

Definition output_of (f : Flags) (cs : list N) : JsString :=
  match f with flags_u => utf16_encode cs | _ => cs end.

Definition ignoreCase_of (f : Flags) : bool :=
  match f with flags_i => true | _ => false end.

Fixpoint first_some (A : Type) (f : nat -> option A) (l : list nat) : option A :=
  match l with
  | [] => None
  | i :: t => match f i with Some r => Some r | None => first_some f t end
  end.

(** The match found at start position [i], if any: start, end, captures. *)
Definition match_at (re : RegExp) (input : list N) (i : nat)
  : option (nat * nat * Engine.Captures) :=
  match Engine.run unicode_upper (ignoreCase_of (re_flags re)) input
          (re_pattern re) (i, repeat None (re_groups re)) with
  | y :: _ => Some (i, fst y, snd y)
  | [] => None
  end.

Definition RegExpBuiltinExec (re : RegExp) (s : JsString)
  : option (nat * nat * Engine.Captures) :=
  let input := input_of (re_flags re) s in
  first_some (match_at re input) (seq 0 (S (length input))).

Definition substring (input : list N) (range : nat * nat) : list N :=
  firstn (snd range - fst range) (skipn (fst range) input).

(** The array [exec] returns: the matched text, then one entry per
    capturing group ([None] for a group that did not take part). *)
Definition MatchArray := list (option JsString).

Definition exec (re : RegExp) (s : JsString) : option MatchArray :=
  match RegExpBuiltinExec re s with
  | None => None
  | Some (i, e, caps) =>
      let input := input_of (re_flags re) s in
      Some (map (option_map (fun rg => output_of (re_flags re) (substring input rg)))
                (Some (i, e) :: caps))
  end.

(** [re.test(s)] *)
Definition test (re : RegExp) (s : JsString) : bool :=
  match RegExpBuiltinExec re s with Some _ => true | None => false end.

(** [s.match(re)] for a [re] without the [g] flag is [re.exec(s)]. *)
Definition string_match (s : JsString) (re : RegExp) : option MatchArray := exec re s.

End Exec.

End RegExpObject.

(** ** The pattern grammar

    [parse] reads a pattern source from left to right and keeps the open
    groups on a stack.  Non-unicode patterns follow Annex B.1.2: a brace
    that does not open a well-formed quantifier, a closing brace and a
    closing bracket are ordinary characters, and every character may be
    escaped.  Constructs no rule of the repository uses (back-references,
    named groups, look-behind, word boundaries, control and octal escapes,
    property escapes) are reported as [Unsupported]. *)

Module Parser.

Inductive ParseResult :=
| Parsed (r : Regex) (groups : nat)
| SyntaxError (message : string)
| Unsupported (construct : string).

Inductive TermKind :=
| quantifiable     (* an atom *)
| quantified       (* an atom with its quantifier, which [?] can still make lazy *)
| complete.        (* an assertion, or a term with a lazy quantifier *)

Definition Term := (Regex * TermKind)%type.

Inductive GroupKind :=
| capturing (index : nat)
| noncapturing
| lookahead (negative : bool).

Inductive ClassItem :=
| CAtom (c : N)
| CDash                  (* an unescaped [-] *)
| CSet (cs : CharSet).   (* a class escape *)

Inductive Mode :=
| Normal
| Escape
| InClass (invert : bool) (items : list ClassItem)
| ClassEscape (invert : bool) (items : list ClassItem).

Record PState := mkPState {
  ps_mode : Mode;
  ps_skip : nat;                                             (* characters already read ahead *)
  ps_stack : list (GroupKind * list Regex * list Term);      (* the enclosing groups *)
  ps_alts : list Regex;                                      (* finished alternatives, last first *)
  ps_seq : list Term;                                        (* terms of the current alternative, last first *)
  ps_groups : nat
}.

Definition initial : PState := mkPState Normal 0 [] [] [] 0.

Definition digit_set : CharSet := [(48, 57)]%N.
Definition word_set : CharSet := [(48, 57); (65, 90); (95, 95); (97, 122)]%N.
Definition space_set : CharSet :=
  [(9, 13); (32, 32); (160, 160); (5760, 5760); (8192, 8202); (8232, 8233);
   (8239, 8239); (8287, 8287); (12288, 12288); (65279, 65279)]%N.

Fixpoint complement (lo : N) (cs : CharSet) (top : N) : CharSet :=
  match cs with
  | [] => if (lo <=? top)%N then [(lo, top)] else []
  | (a, b) :: t => (if (lo <? a)%N then [(lo, a - 1)%N] else []) ++ complement (b + 1)%N t top
  end.

Definition top_char (u : bool) : N := if u then 1114111%N else 65535%N.

Fixpoint seq_of (l : list Regex) : Regex :=
  match l with
  | [] => Empty
  | [r] => r
  | r :: t => Seq r (seq_of t)
  end.

Fixpoint alt_of (l : list Regex) : Regex :=
  match l with
  | [] => Empty
  | [r] => r
  | r :: t => Alt r (alt_of t)
  end.

Definition alternative (terms : list Term) : Regex := seq_of (rev (map fst terms)).

Definition disjunction (alts : list Regex) (terms : list Term) : Regex :=
  alt_of (rev (alternative terms :: alts)).

Definition is_digit (c : ascii) : bool :=
  let n := N_of_ascii c in (48 <=? n)%N && (n <=? 57)%N.

Definition hex_value (c : ascii) : option N :=
  let n := N_of_ascii c in
  if (48 <=? n)%N && (n <=? 57)%N then Some (n - 48)%N
  else if (65 <=? n)%N && (n <=? 70)%N then Some (n - 55)%N
  else if (97 <=? n)%N && (n <=? 102)%N then Some (n - 87)%N
  else None.

(** DecimalDigits: the value read, the number of digits, the text left. *)
Fixpoint read_digits (s : string) (acc : N) (n : nat) : N * nat * string :=
  match s with
  | String c s' =>
      if is_digit c then read_digits s' (10 * acc + (N_of_ascii c - 48))%N (S n)
      else (acc, n, s)
  | EmptyString => (acc, n, s)
  end.

Fixpoint read_hex (s : string) (acc : N) (n : nat) : N * nat * string :=
  match s with
  | String c s' =>
      match hex_value c with
      | Some v => read_hex s' (16 * acc + v)%N (S n)
      | None => (acc, n, s)
      end
  | EmptyString => (acc, n, s)
  end.

(** The text after an opening brace, when it completes a quantifier
    [{n}], [{n,}] or [{n,m}]: the bounds and the number of characters. *)
Definition braced_quantifier (s : string) : option (N * option N * nat) :=
  let '(lo, n1, s1) := read_digits s 0 0 in
  if (n1 =? 0)%nat then None else
  match s1 with
  | String "}" _ => Some (lo, Some lo, n1 + 1)
  | String "," (String "}" _) => Some (lo, None, n1 + 2)
  | String "," s2 =>
      let '(hi, n2, s3) := read_digits s2 0 0 in
      if (n2 =? 0)%nat then None else
      match s3 with
      | String "}" _ => Some (lo, Some hi, n1 + 1 + n2 + 1)
      | _ => None
      end
  | _ => None
  end.

Definition fixed_hex (digits : nat) (s : string) : option N :=
  let '(v, n, _) := read_hex (substring 0 digits s) 0 0 in
  if (n =? digits)%nat then Some v else None.

Inductive EscapeResult :=
| EscChar (c : N) (skip : nat)
| EscSet (invert : bool) (cs : CharSet)
| EscError (e : ParseResult).

Definition is_syntax_character (c : ascii) : bool :=
  existsb (Ascii.eqb c) (list_ascii_of_string "^$\.*+?()[]{}|/").

(** CharacterEscape and CharacterClassEscape, after the backslash. *)
Definition escape (u : bool) (c : ascii) (rest : string) : EscapeResult :=
  if Ascii.eqb c "d" then EscSet false digit_set
  else if Ascii.eqb c "D" then EscSet true digit_set
  else if Ascii.eqb c "w" then EscSet false word_set
  else if Ascii.eqb c "W" then EscSet true word_set
  else if Ascii.eqb c "s" then EscSet false space_set
  else if Ascii.eqb c "S" then EscSet true space_set
  else if Ascii.eqb c "t" then EscChar 9 0
  else if Ascii.eqb c "n" then EscChar 10 0
  else if Ascii.eqb c "v" then EscChar 11 0
  else if Ascii.eqb c "f" then EscChar 12 0
  else if Ascii.eqb c "r" then EscChar 13 0
  else if Ascii.eqb c "0" then
    match rest with
    | String d _ => if is_digit d then EscError (Unsupported "octal escape") else EscChar 0 0
    | EmptyString => EscChar 0 0
    end
  else if is_digit c then EscError (Unsupported "back-reference")
  else if Ascii.eqb c "c" then EscError (Unsupported "control escape")
  else if Ascii.eqb c "k" then
    if u then EscError (Unsupported "named back-reference") else EscChar (N_of_ascii c) 0
  else if Ascii.eqb c "p" || Ascii.eqb c "P" then
    if u then EscError (Unsupported "property escape") else EscChar (N_of_ascii c) 0
  else if Ascii.eqb c "x" then
    match fixed_hex 2 rest with
    | Some v => EscChar v 2
    | None => if u then EscError (SyntaxError "Invalid escape") else EscChar (N_of_ascii c) 0
    end
  else if Ascii.eqb c "u" then
    match rest with
    | String "{" digits =>
        if u then
          match read_hex digits 0 0 with
          | (v, S n, String "}" _) =>
              if (v <=? 1114111)%N then EscChar v (S n + 2)
              else EscError (SyntaxError "Invalid Unicode escape")
          | _ => EscError (SyntaxError "Invalid Unicode escape")
          end
        else EscChar (N_of_ascii c) 0
    | _ =>
        match fixed_hex 4 rest with
        | Some v =>
            if u && (55296 <=? v)%N && (v <=? 57343)%N
            then EscError (Unsupported "surrogate escape")
            else EscChar v 4
        | None => if u then EscError (SyntaxError "Invalid Unicode escape")
                  else EscChar (N_of_ascii c) 0
        end
    end
  else if u && negb (is_syntax_character c) then EscError (SyntaxError "Invalid escape")
  else EscChar (N_of_ascii c) 0.

Definition item_char (it : ClassItem) : option N :=
  match it with CAtom c => Some c | CDash => Some 45%N | CSet _ => None end.

Definition item_set (it : ClassItem) : CharSet :=
  match it with CAtom c => [(c, c)] | CDash => [(45, 45)%N] | CSet cs => cs end.

(** ClassRanges: [None] is a syntax error (range out of order, or a class
    escape as a range bound in a unicode pattern). *)
Fixpoint class_ranges (u : bool) (items : list ClassItem) : option CharSet :=
  match items with
  | a :: CDash :: b :: rest =>
      match item_char a, item_char b with
      | Some lo, Some hi =>
          if (hi <? lo)%N then None else option_map (cons (lo, hi)) (class_ranges u rest)
      | _, _ =>
          if u then None
          else option_map (app (item_set a ++ [(45, 45)%N] ++ item_set b)) (class_ranges u rest)
      end
  | a :: rest => option_map (app (item_set a)) (class_ranges u rest)
  | [] => Some []
  end.

Definition with_mode (m : Mode) (st : PState) : PState :=
  mkPState m (ps_skip st) (ps_stack st) (ps_alts st) (ps_seq st) (ps_groups st).

Definition with_skip (n : nat) (st : PState) : PState :=
  mkPState (ps_mode st) n (ps_stack st) (ps_alts st) (ps_seq st) (ps_groups st).

Definition with_seq (terms : list Term) (st : PState) : PState :=
  mkPState (ps_mode st) (ps_skip st) (ps_stack st) (ps_alts st) terms (ps_groups st).

Definition push_term (t : Term) (st : PState) : PState := with_seq (t :: ps_seq st) st.

Definition atom (r : Regex) (st : PState) : PState + ParseResult :=
  inl (push_term (r, quantifiable) st).

Definition open_group (k : GroupKind) (groups : nat) (skip : nat) (st : PState) : PState :=
  mkPState Normal skip ((k, ps_alts st, ps_seq st) :: ps_stack st) [] [] groups.

Definition close_group (u : bool) (st : PState) : PState + ParseResult :=
  match ps_stack st with
  | [] => inr (SyntaxError "Unmatched ')'")
  | (k, alts, terms) :: stack =>
      let body := disjunction (ps_alts st) (ps_seq st) in
      let t := match k with
               | capturing i => (Group i body, quantifiable)
               | noncapturing => (body, quantifiable)
               | lookahead neg => (LookAhead neg body, if u then complete else quantifiable)
               end in
      inl (mkPState Normal 0 stack alts (t :: terms) (ps_groups st))
  end.

Definition quantify (min : N) (max : option N) (st : PState) : PState + ParseResult :=
  match ps_seq st with
  | (r, quantifiable) :: terms =>
      if match max with Some hi => (hi <? min)%N | None => false end
      then inr (SyntaxError "numbers out of order in {} quantifier")
      else inl (with_seq ((Repeat min max true r, quantified) :: terms) st)
  | _ => inr (SyntaxError "Nothing to repeat")
  end.

Definition make_lazy (r : Regex) : Regex :=
  match r with Repeat min max _ r' => Repeat min max false r' | _ => r end.

Definition normal_step (u : bool) (c : ascii) (rest : string) (st : PState)
  : PState + ParseResult :=
  if Ascii.eqb c "\" then inl (with_mode Escape st)
  else if Ascii.eqb c "[" then
    match rest with
    | String "^" _ => inl (with_skip 1 (with_mode (InClass true []) st))
    | _ => inl (with_mode (InClass false []) st)
    end
  else if Ascii.eqb c "(" then
    match rest with
    | String "?" (String ":" _) => inl (open_group noncapturing (ps_groups st) 2 st)
    | String "?" (String "=" _) => inl (open_group (lookahead false) (ps_groups st) 2 st)
    | String "?" (String "!" _) => inl (open_group (lookahead true) (ps_groups st) 2 st)
    | String "?" (String "<" _) => inr (Unsupported "look-behind or named group")
    | String "?" _ => inr (SyntaxError "Invalid group")
    | _ => inl (open_group (capturing (S (ps_groups st))) (S (ps_groups st)) 0 st)
    end
  else if Ascii.eqb c ")" then close_group u st
  else if Ascii.eqb c "|" then
    inl (mkPState Normal 0 (ps_stack st) (alternative (ps_seq st) :: ps_alts st) []
                  (ps_groups st))
  else if Ascii.eqb c "*" then quantify 0 None st
  else if Ascii.eqb c "+" then quantify 1 None st
  else if Ascii.eqb c "?" then
    match ps_seq st with
    | (r, quantified) :: terms => inl (with_seq ((make_lazy r, complete) :: terms) st)
    | _ => quantify 0 (Some 1%N) st
    end
  else if Ascii.eqb c "{" then
    match braced_quantifier rest with
    | Some (lo, hi, n) =>
        match quantify lo hi st with
        | inl st' => inl (with_skip n st')
        | inr e => inr e
        end
    | None => if u then inr (SyntaxError "Incomplete quantifier")
              else atom (Char (N_of_ascii c)) st
    end
  else if Ascii.eqb c "}" || Ascii.eqb c "]" then
    if u then inr (SyntaxError "Lone quantifier brackets") else atom (Char (N_of_ascii c)) st
  else if Ascii.eqb c "^" then inl (push_term (AssertStart, complete) st)
  else if Ascii.eqb c "$" then inl (push_term (AssertEnd, complete) st)
  else if Ascii.eqb c "." then atom Dot st
  else atom (Char (N_of_ascii c)) st.

Definition step (u : bool) (c : ascii) (rest : string) (st : PState)
  : PState + ParseResult :=
  match ps_mode st with
  | Normal => normal_step u c rest st
  | Escape =>
      if Ascii.eqb c "b" || Ascii.eqb c "B" then inr (Unsupported "word boundary")
      else
        match escape u c rest with
        | EscChar v n => inl (with_skip n (push_term (Char v, quantifiable) (with_mode Normal st)))
        | EscSet inv cs => inl (push_term (Class inv cs, quantifiable) (with_mode Normal st))
        | EscError e => inr e
        end
  | InClass inv items =>
      if Ascii.eqb c "]" then
        match class_ranges u (rev items) with
        | Some cs => inl (push_term (Class inv cs, quantifiable) (with_mode Normal st))
        | None => inr (SyntaxError "Invalid character class")
        end
      else if Ascii.eqb c "\" then inl (with_mode (ClassEscape inv items) st)
      else if Ascii.eqb c "-" then inl (with_mode (InClass inv (CDash :: items)) st)
      else inl (with_mode (InClass inv (CAtom (N_of_ascii c) :: items)) st)
  | ClassEscape inv items =>
      if Ascii.eqb c "b" then inl (with_mode (InClass inv (CAtom 8 :: items)) st)
      else if Ascii.eqb c "-" then inl (with_mode (InClass inv (CAtom 45 :: items)) st)
      else
        match escape u c rest with
        | EscChar v n => inl (with_skip n (with_mode (InClass inv (CAtom v :: items)) st))
        | EscSet false cs => inl (with_mode (InClass inv (CSet cs :: items)) st)
        | EscSet true cs =>
            inl (with_mode (InClass inv (CSet (complement 0 cs (top_char u)) :: items)) st)
        | EscError e => inr e
        end
  end.

Definition finish (st : PState) : ParseResult :=
  match ps_mode st, ps_stack st with
  | Normal, [] => Parsed (disjunction (ps_alts st) (ps_seq st)) (ps_groups st)
  | Normal, _ :: _ => SyntaxError "Unterminated group"
  | Escape, _ => SyntaxError "\ at end of pattern"
  | _, _ => SyntaxError "Unterminated character class"
  end.

Fixpoint parse_loop (u : bool) (s : string) (st : PState) : ParseResult :=
  match s with
  | EmptyString => finish st
  | String c rest =>
      match ps_skip st with
      | S k => parse_loop u rest (with_skip k st)
      | O =>
          match step u c rest st with
          | inl st' => parse_loop u rest st'
          | inr e => e
          end
      end
  end.

Definition parse (source : string) (u : bool) : ParseResult := parse_loop u source initial.

End Parser.

(** ** The run-time around the validator

    [Date.now()] reads a wall clock that the program does not control, and
    [try {...} catch] intercepts exceptions.  Both are explicit here: a
    computation takes the state of the world and returns a value or a
    thrown error, with the new state. *)

Module Runtime.

(** An [Error] object: its [name] and [message]. *)
Record JsError := mkError { err_name : string; err_message : string }.

Definition TypeError (msg : string) : JsError := mkError "TypeError" msg.
Definition SyntaxError (msg : string) : JsError := mkError "SyntaxError" msg.

(** [Error.prototype.toString], which a template literal applies. *)
Definition error_to_string (e : JsError) : string :=
  if String.eqb (err_name e) EmptyString then err_message e
  else if String.eqb (err_message e) EmptyString then err_name e
  else (err_name e ++ ": " ++ err_message e)%string.

(** The clock: the time now, in milliseconds, and how much time passes
    during each of the coming timed events (a reading of the clock, the
    evaluation of a pattern).  Nothing is assumed about the amounts. *)
Record World := mkWorld { now : Z; ticks : list Z }.

Definition elapse (w : World) : World :=
  mkWorld (now w + hd 0%Z (ticks w)) (tl (ticks w)).

Inductive Outcome (A : Type) : Type :=
| Ok (a : A)
| Throw (e : JsError).
Arguments Throw {A} e.

Definition M (A : Type) : Type := World -> Outcome A * World.

Definition ret (A : Type) (a : A) : M A := fun w => (Ok a, w).

Definition bind (A B : Type) (c : M A) (k : A -> M B) : M B :=
  fun w => match c w with
           | (Ok a, w') => k a w'
           | (Throw e, w') => (Throw e, w')
           end.

Definition throw (A : Type) (e : JsError) : M A := fun w => (Throw e, w).
Arguments throw {A} e.

Definition try_catch (A : Type) (body : M A) (handler : JsError -> M A) : M A :=
  fun w => match body w with
           | (Ok a, w') => (Ok a, w')
           | (Throw e, w') => handler e w'
           end.

(** [Date.now()] *)
Definition Date_now : M Z := fun w => (Ok (now w), elapse w).

End Runtime.

Declare Scope js_scope.
Delimit Scope js_scope with js.
Notation "x <- c ;; k" := (Runtime.bind c (fun x => k))
  (at level 61, c at next level, right associativity) : js_scope.

(** ** The validator *)

Module Validator.

Import Runtime RegExpObject.
Local Open Scope string_scope.
Local Open Scope js_scope.

(** [type ValidatorMode = 'verbose' | undefined] *)
Inductive ValidatorMode := mode_verbose | mode_undefined.

(** [interface ValidationResult]: [message] and [matches] are optional
    properties, and [matches] can be [null]. *)
Record ValidationResult := mkResult {
  isValid_field : bool;
  message : option string;
  matches : option (option MatchArray)
}.

(** [boolean | ValidationResult] *)
Inductive Result :=
| RBool (b : bool)
| RRecord (r : ValidationResult).

(** [interface ValidatorOptions]; [None] is a property that is not given. *)
Record ValidatorOptions := mkOptions {
  timeout : option Z;
  caseSensitive : option bool;
  multiline : option bool;
  unicode : option bool
}.

Definition no_options : ValidatorOptions := mkOptions None None None None.

Definition or_default (A : Type) (d : A) (o : option A) : A :=
  match o with Some a => a | None => d end.

(** The instance: its [options] after the constructor has merged the
    caller's properties over the defaults. *)
Record RegExpValidator := mkValidator { options : ValidatorOptions }.

Definition constructor (options : ValidatorOptions) : RegExpValidator :=
  mkValidator
    (mkOptions (Some (or_default 5000%Z (timeout options)))
               (Some (or_default true (caseSensitive options)))
               (Some (or_default false (multiline options)))
               (Some (or_default true (unicode options)))).

(** What can reach the [pattern] parameter of [validate]: a [RegExp], the
    [undefined] of a missed table lookup, a member of [Object.prototype]
    found through the prototype chain of a table, or an object whose
    [test] throws. *)
Inductive JsValue :=
| VRegExp (re : RegExp)
| VUndefined
| VInherited (key : string)
| VThrowing (e : JsError).

Definition truthy (v : JsValue) : bool :=
  match v with VUndefined => false | _ => true end.

(** [a || b] *)
Definition js_or (a b : JsValue) : JsValue := if truthy a then a else b.

(** An object literal whose properties are [RegExp]s. *)
Definition Table := list (string * RegExp).

Definition object_prototype_keys : list string :=
  ["constructor"; "__defineGetter__"; "__defineSetter__"; "hasOwnProperty";
   "__lookupGetter__"; "__lookupSetter__"; "isPrototypeOf"; "propertyIsEnumerable";
   "toString"; "valueOf"; "__proto__"; "toLocaleString"]%string.

Fixpoint own_property (t : Table) (key : string) : option RegExp :=
  match t with
  | [] => None
  | (k, re) :: t' => if String.eqb k key then Some re else own_property t' key
  end.

(** [table[key]]: an own property, else the prototype chain, else
    [undefined]. *)
Definition get (t : Table) (key : string) : JsValue :=
  match own_property t key with
  | Some re => VRegExp re
  | None =>
      if existsb (String.eqb key) object_prototype_keys then VInherited key
      else VUndefined
  end.

Definition is_unicode (f : Flags) : bool :=
  match f with flags_u => true | _ => false end.

(** A regular expression literal [/source/flags].  A literal that does
    not parse would stop the module from loading; [catalog_parses] below
    shows that the fallback is never used. *)
Definition regexp_literal (source : string) (f : Flags) : RegExp :=
  match Parser.parse source (is_unicode f) with
  | Parser.Parsed r g => mkRegExp r g f
  | _ => mkRegExp (Class false []) 0 f
  end.

(** [new RegExp(source)].  A construct outside the modelled fragment is
    reported as a fault of its own name. *)
Definition RegExp_new (source : string) : M RegExp :=
  match Parser.parse source false with
  | Parser.Parsed r g => ret (mkRegExp r g flags_none)
  | Parser.SyntaxError msg =>
      throw (SyntaxError ("Invalid regular expression: /" ++ source ++ "/: " ++ msg)%string)
  | Parser.Unsupported c => throw (mkError "NotModelled" c)
  end.

Definition dquote : string := String (ascii_of_N 34) EmptyString.

Definition patterns : Table :=
  [ ("email", regexp_literal "^[a-zA-Z0-9._%+-]+@[a-zA-Z0-9.-]+\.[a-zA-Z]{2,}$" flags_none);
  ("date", regexp_literal "^(0[1-9]|[12][0-9]|3[01])\/(0[1-9]|1[0-2])\/\d{4}$" flags_none);
  ("ipv4", regexp_literal "^(25[0-5]|2[0-4][0-9]|[01]?[0-9][0-9]?)\.(25[0-5]|2[0-4][0-9]|[01]?[0-9][0-9]?)\.(25[0-5]|2[0-4][0-9]|[01]?[0-9][0-9]?)\.(25[0-5]|2[0-4][0-9]|[01]?[0-9][0-9]?)$" flags_none);
  ("ipv6", regexp_literal "^(?:[0-9a-fA-F]{1,4}:){7}[0-9a-fA-F]{1,4}$" flags_none);
  ("macAddress", regexp_literal "^([0-9A-Fa-f]{2}[:-]){5}([0-9A-Fa-f]{2})$" flags_none);
  ("url", regexp_literal "^(https?:\/\/)(localhost|\d{1,3}(\.\d{1,3}){3}|([a-zA-Z0-9.-]+\.[a-zA-Z]{2,}))(:\d{1,5})?(\/[^\s]*)?$" flags_none);
  ("username", regexp_literal "^[a-zA-Z0-9._-]{3,16}$" flags_none);
  ("hexColor", regexp_literal "^#?([a-fA-F0-9]{6}|[a-fA-F0-9]{3})$" flags_none);
  ("onlyIntegers", regexp_literal "^-?\d+$" flags_none);
  ("onlyAlpha", regexp_literal "^[a-zA-Z]+$" flags_none);
  ("emoji", regexp_literal "^[\u{1F600}-\u{1F64F}\u{1F300}-\u{1F5FF}\u{1F680}-\u{1F6FF}\u{1F700}-\u{1F77F}\u{1F780}-\u{1F7FF}\u{1F800}-\u{1F8FF}\u{1F900}-\u{1F9FF}\u{1FA00}-\u{1FA6F}\u{1FA70}-\u{1FAFF}\u{2600}-\u{26FF}\u{2700}-\u{27BF}\u{2300}-\u{23FF}\u{2B50}\u{203C}\u{2049}\u{2122}\u{2139}]+$" flags_u);
  ("ansiArt", regexp_literal "^[\x20-\x7E\x0A\x0D]+$" flags_none);
  ("jwt", regexp_literal "^[A-Za-z0-9-_]+\.[A-Za-z0-9-_]+\.[A-Za-z0-9-_]*$" flags_none);
  ("domain", regexp_literal "^(?:[a-zA-Z0-9](?:[a-zA-Z0-9-]{0,61}[a-zA-Z0-9])?\.)+[a-zA-Z]{2,}$" flags_none);
  ("semver", regexp_literal "^(0|[1-9]\d*)\.(0|[1-9]\d*)\.(0|[1-9]\d*)(?:-((?:0|[1-9]\d*|\d*[a-zA-Z-][0-9a-zA-Z-]*)(?:\.(?:0|[1-9]\d*|\d*[a-zA-Z-][0-9a-zA-Z-]*))*))?(?:\+([0-9a-zA-Z-]+(?:\.[0-9a-zA-Z-]+)*))?$" flags_none);
  ("phone", regexp_literal "^(?:\+?([1-9]\d{0,2}))?[-.\s]?\(?\d{2,4}\)?[-.\s]?\d{6,10}$" flags_none);
  ("creditCard", regexp_literal "^(?:4[0-9]{12}(?:[0-9]{3})?|5[1-5][0-9]{14}|3[47][0-9]{13}|6(?:011|5[0-9]{2})[0-9]{12})$" flags_none);
  ("ssn", regexp_literal "^(?!000|666|9\d{2})\d{3}-(?!00)\d{2}-(?!0000)\d{4}$" flags_none);
  ("isbn", regexp_literal "^(?:\d[- ]?){9}[\dXx]$|^(?:\d[- ]?){13}$" flags_none);
  ("time", regexp_literal "^(?:[01]\d|2[0-3]):[0-5]\d(:[0-5]\d)?( ?(?:AM|PM))?$" flags_i);
  ("positiveInteger", regexp_literal "^\d+$" flags_none);
  ("negativeInteger", regexp_literal "^-\d+$" flags_none);
  ("nonZeroInteger", regexp_literal "^-?[1-9]\d*$" flags_none);
  ("float", regexp_literal "^-?\d+(\.\d+)?$" flags_none);
  ("positiveFloat", regexp_literal "^\d+(\.\d+)?$" flags_none);
  ("negativeFloat", regexp_literal "^-\d+(\.\d+)?$" flags_none);
  ("alphanumeric", regexp_literal "^[a-zA-Z0-9]+$" flags_none);
  ("hexadecimal", regexp_literal "^[0-9a-fA-F]+$" flags_none);
  ("binary", regexp_literal "^[01]+$" flags_none);
  ("md5", regexp_literal "^[a-f0-9]{32}$" flags_i);
  ("sha1", regexp_literal "^[a-f0-9]{40}$" flags_i);
  ("sha256", regexp_literal "^[a-f0-9]{64}$" flags_i);
  ("htmlTag", regexp_literal "<\/?[a-z][^>]*>" flags_i);
  ("filePath", regexp_literal ("^(?:[a-zA-Z]:)?(?:\/|\\)?(?:[^\\/:*?" ++ dquote ++ "<>|\r\n]+(?:\/|\\)?)+$") flags_none);
  ("fileName", regexp_literal ("^[^\\/:*?" ++ dquote ++ "<>|\r\n]+\.[^\\/:*?" ++ dquote ++ "<>|\r\n]+$") flags_none);
  ("kebabCase", regexp_literal "^[a-z][a-z0-9]*(?:-[a-z0-9]+)*$" flags_none);
  ("camelCase", regexp_literal "^[a-z][a-zA-Z0-9]*$" flags_none);
  ("snakeCase", regexp_literal "^[a-z][a-z0-9]*(?:_[a-z0-9]+)*$" flags_none);
  ("pascalCase", regexp_literal "^[A-Z][a-zA-Z0-9]*$" flags_none) ].

Definition complexPatterns_postalCode : Table :=
  [ ("US", regexp_literal "^\d{5}(-\d{4})?$" flags_none);
  ("UK", regexp_literal "^[A-Z]{1,2}\d[A-Z\d]? ?\d[A-Z]{2}$" flags_i);
  ("CA", regexp_literal "^[ABCEGHJ-NPRSTVXY]\d[ABCEGHJ-NPRSTV-Z] ?\d[ABCEGHJ-NPRSTV-Z]\d$" flags_i);
  ("ANY", regexp_literal "^[A-Z0-9]{3,10}$" flags_i) ].

Definition complexPatterns_crypto : Table :=
  [ ("BTC", regexp_literal "^[13][a-km-zA-HJ-NP-Z1-9]{25,34}$" flags_none);
  ("ETH", regexp_literal "^0x[a-fA-F0-9]{40}$" flags_none) ].

Definition complexPatterns_password : Table :=
  [ ("simple", regexp_literal "^.{6,}$" flags_none);
  ("medium", regexp_literal "^.{8,}$" flags_none);
  ("complex", regexp_literal ("^(?=.*[a-z])(?=.*[A-Z])(?=.*\d)(?=.*[@$!%*?&])[A-Za-z\d@$!%*?&!@#%^&*()_+\-=~`{}[\]:;" ++ dquote ++ "'<>,.?\/]{8,}$") flags_none) ].

Definition complexPatterns_coordinates : Table :=
  [ ("latitude", regexp_literal "^-?([1-8]?\d(?:\.\d+)?|90(?:\.0+)?)$" flags_none);
  ("longitude", regexp_literal "^-?((1[0-7]|[1-9])?\d(?:\.\d+)?|180(?:\.0+)?)$" flags_none) ].

(** [pattern.test]: the property read and the call fault unless the
    receiver is a [RegExp].  (The wording of the messages is V8's.) *)
Definition test_receiver (pattern : JsValue) : M RegExp :=
  match pattern with
  | VRegExp re => ret re
  | VUndefined => throw (TypeError "Cannot read properties of undefined (reading 'test')")
  | VInherited _ => throw (TypeError "pattern.test is not a function")
  | VThrowing e => throw e
  end.

(** The two evaluations of the pattern; each takes its time. *)
Definition RegExp_test (up : N -> list N) (re : RegExp) (value : JsString) : M bool :=
  fun w => (Ok (test up re value), elapse w).

Definition String_match (up : N -> list N) (value : JsString) (re : RegExp)
  : M (option MatchArray) :=
  fun w => (Ok (string_match up value re), elapse w).

(** A Number, in the form in which Number::toString reads it
    (ECMA-262, 6.1.6.1.20): not a number, an infinity, a zero, or the
    finite value [s * 10^e] or its opposite, where [s] is the shortest
    string of decimal digits that denotes the value, so that [10] does
    not divide [s].  With [k] the number of digits of [s], the [n] of
    the standard is [e + k].  [8] is [Finite false 8 0], [1e21] is
    [Finite false 1 21] and [-1.5] is [Finite true 15 (-1)]. *)
Inductive JsNumber :=
| NaN
| Infinity (negative : bool)
| Zero (negative : bool)
| Finite (negative : bool) (s : positive) (e : Z).

(** The [options] parameter of [isStrongPassword]; [None] is a property
    that is not given. *)
Record PasswordOptions := mkPasswordOptions {
  minLength : option JsNumber;
  requireUppercase : option bool;
  requireNumbers : option bool;
  requireSpecialChars : option bool
}.

Definition no_password_options : PasswordOptions :=
  mkPasswordOptions None None None None.

(** The constant [uuidPattern] of [isValidUUID]. *)
Definition uuidPattern : RegExp :=
  regexp_literal
    "^[0-9a-f]{8}-[0-9a-f]{4}-[1-5][0-9a-f]{3}-[89ab][0-9a-f]{3}-[0-9a-f]{12}$" flags_i.

Section Methods.

(** The case mapping of the run-time for the code units from 128 on. *)
Variable unicode_upper : N -> list N.

Variable this : RegExpValidator.

(** [this.options.timeout || 5000] *)
Definition budget : Z :=
  match timeout (options this) with
  | Some t => if (t =? 0)%Z then 5000%Z else t
  | None => 5000%Z
  end.

Definition validate (value : JsString) (pattern : JsValue) (mode : ValidatorMode)
  : M Result :=
  startTime <- Date_now ;;
  try_catch
    (t <- Date_now ;;
     if (t - startTime >? budget)%Z then
       ret (match mode with
            | mode_verbose =>
                RRecord (mkResult false (Some "Validation timeout exceeded") None)
            | mode_undefined => RBool false
            end)
     else
       re <- test_receiver pattern ;;
       isValid <- RegExp_test unicode_upper re value ;;
       match mode with
       | mode_verbose =>
           found <- String_match unicode_upper value re ;;
           ret (RRecord (mkResult isValid
                           (Some (if isValid then "Validation successful"
                                  else "Validation failed"))
                           (Some found)))
       | mode_undefined => ret (RBool isValid)
       end)
    (fun error =>
       ret (match mode with
            | mode_verbose =>
                RRecord (mkResult false
                           (Some ("Validation error: " ++ error_to_string error)) None)
            | mode_undefined => RBool false
            end)).

Definition isValid (value : JsString) (pattern : JsValue) (mode : ValidatorMode)
  : M Result :=
  validate value pattern mode.

Definition isValidEmail (email : JsString) (mode : ValidatorMode) : M Result :=
  validate email (get patterns "email") mode.

Definition isValidIPv4 (ip : JsString) (mode : ValidatorMode) : M Result :=
  validate ip (get patterns "ipv4") mode.

Definition isValidIPv6 (ip : JsString) (mode : ValidatorMode) : M Result :=
  validate ip (get patterns "ipv6") mode.

Definition isValidMacAddress (mac : JsString) (mode : ValidatorMode) : M Result :=
  validate mac (get patterns "macAddress") mode.

Definition isValidUrl (url : JsString) (mode : ValidatorMode) : M Result :=
  validate url (get patterns "url") mode.

Definition isValidUsername (name : JsString) (mode : ValidatorMode) : M Result :=
  validate name (get patterns "username") mode.

Definition isValidHexColor (color : JsString) (mode : ValidatorMode) : M Result :=
  validate color (get patterns "hexColor") mode.

Definition isInteger (value : JsString) (mode : ValidatorMode) : M Result :=
  validate value (get patterns "onlyIntegers") mode.

Definition isAlpha (value : JsString) (mode : ValidatorMode) : M Result :=
  validate value (get patterns "onlyAlpha") mode.

Definition isEmoji (value : JsString) (mode : ValidatorMode) : M Result :=
  validate value (get patterns "emoji") mode.

Definition isAnsiArt (value : JsString) (mode : ValidatorMode) : M Result :=
  validate value (get patterns "ansiArt") mode.

Definition isValidJwt (jwt : JsString) (mode : ValidatorMode) : M Result :=
  validate jwt (get patterns "jwt") mode.

Definition isValidDomain (domain : JsString) (mode : ValidatorMode) : M Result :=
  validate domain (get patterns "domain") mode.

Definition isValidSemver (version : JsString) (mode : ValidatorMode) : M Result :=
  validate version (get patterns "semver") mode.

Definition isValidPhoneNumber (phone : JsString) (mode : ValidatorMode) : M Result :=
  validate phone (get patterns "phone") mode.

Definition isValidCreditCard (card : JsString) (mode : ValidatorMode) : M Result :=
  validate card (get patterns "creditCard") mode.

Definition isValidSSN (ssn : JsString) (mode : ValidatorMode) : M Result :=
  validate ssn (get patterns "ssn") mode.

Definition isValidISBN (isbn : JsString) (mode : ValidatorMode) : M Result :=
  validate isbn (get patterns "isbn") mode.

Definition isValidTime (time : JsString) (mode : ValidatorMode) : M Result :=
  validate time (get patterns "time") mode.

Definition isPositiveInteger (value : JsString) (mode : ValidatorMode) : M Result :=
  validate value (get patterns "positiveInteger") mode.

Definition isNegativeInteger (value : JsString) (mode : ValidatorMode) : M Result :=
  validate value (get patterns "negativeInteger") mode.

Definition isNonZeroInteger (value : JsString) (mode : ValidatorMode) : M Result :=
  validate value (get patterns "nonZeroInteger") mode.

Definition isFloat (value : JsString) (mode : ValidatorMode) : M Result :=
  validate value (get patterns "float") mode.

Definition isPositiveFloat (value : JsString) (mode : ValidatorMode) : M Result :=
  validate value (get patterns "positiveFloat") mode.

Definition isNegativeFloat (value : JsString) (mode : ValidatorMode) : M Result :=
  validate value (get patterns "negativeFloat") mode.

Definition isAlphanumeric (value : JsString) (mode : ValidatorMode) : M Result :=
  validate value (get patterns "alphanumeric") mode.

Definition isHexadecimal (value : JsString) (mode : ValidatorMode) : M Result :=
  validate value (get patterns "hexadecimal") mode.

Definition isBinary (value : JsString) (mode : ValidatorMode) : M Result :=
  validate value (get patterns "binary") mode.

Definition isValidMD5 (value : JsString) (mode : ValidatorMode) : M Result :=
  validate value (get patterns "md5") mode.

Definition isValidSHA1 (value : JsString) (mode : ValidatorMode) : M Result :=
  validate value (get patterns "sha1") mode.

Definition isValidSHA256 (value : JsString) (mode : ValidatorMode) : M Result :=
  validate value (get patterns "sha256") mode.

Definition containsHtmlTag (value : JsString) (mode : ValidatorMode) : M Result :=
  validate value (get patterns "htmlTag") mode.

Definition isValidFilePath (value : JsString) (mode : ValidatorMode) : M Result :=
  validate value (get patterns "filePath") mode.

Definition isValidFileName (value : JsString) (mode : ValidatorMode) : M Result :=
  validate value (get patterns "fileName") mode.

Definition isKebabCase (value : JsString) (mode : ValidatorMode) : M Result :=
  validate value (get patterns "kebabCase") mode.

Definition isCamelCase (value : JsString) (mode : ValidatorMode) : M Result :=
  validate value (get patterns "camelCase") mode.

Definition isSnakeCase (value : JsString) (mode : ValidatorMode) : M Result :=
  validate value (get patterns "snakeCase") mode.

Definition isPascalCase (value : JsString) (mode : ValidatorMode) : M Result :=
  validate value (get patterns "pascalCase") mode.

(** [level] defaults to ['medium']. *)
Definition isValidPassword (password : JsString) (level : option string)
           (mode : ValidatorMode) : M Result :=
  validate password (get complexPatterns_password (or_default "medium" level)) mode.

Definition isValidPostalCode (code : JsString) (country : string) (mode : ValidatorMode)
  : M Result :=
  validate code (get complexPatterns_postalCode country) mode.

Definition isValidCryptoAddress (address : JsString) (type : string)
           (mode : ValidatorMode) : M Result :=
  validate address (get complexPatterns_crypto type) mode.

(** [typeof v === 'boolean'] *)
Definition typeof_boolean (v : Result) : bool :=
  match v with RBool _ => true | RRecord _ => false end.

(** [typeof latValid === 'boolean'
       ? latValid && typeof lngValid === 'boolean' ? lngValid : false
       : false]
    The conditional binds weaker than [&&]: the inner test is
    [latValid && typeof lngValid === 'boolean']. *)
Definition both_valid (latValid lngValid : Result) : bool :=
  match latValid with
  | RBool lat =>
      if lat && typeof_boolean lngValid
      then match lngValid with RBool lng => lng | RRecord _ => false end
      else false
  | RRecord _ => false
  end.

Definition isValidCoordinates (lat lng : JsString) (mode : ValidatorMode) : M Result :=
  latValid <- validate lat (get complexPatterns_coordinates "latitude") mode ;;
  lngValid <- validate lng (get complexPatterns_coordinates "longitude") mode ;;
  ret (match mode with
       | mode_verbose =>
           RRecord (mkResult (both_valid latValid lngValid)
                      (Some "Both latitude and longitude must be valid") None)
       | mode_undefined => RBool (both_valid latValid lngValid)
       end).

Definition date_patterns : Table :=
  [ ("DD/MM/YYYY", regexp_literal "^(0[1-9]|[12][0-9]|3[01])\/(0[1-9]|1[0-2])\/\d{4}$" flags_none);
    ("MM/DD/YYYY", regexp_literal "^(0[1-9]|1[0-2])\/(0[1-9]|[12][0-9]|3[01])\/\d{4}$" flags_none);
    ("YYYY-MM-DD", regexp_literal "^\d{4}-(0[1-9]|1[0-2])-(0[1-9]|[12][0-9]|3[01])$" flags_none);
    ("YYYY/MM/DD", regexp_literal "^\d{4}\/(0[1-9]|1[0-2])\/(0[1-9]|[12][0-9]|3[01])$" flags_none) ].

(** [format] defaults to ['DD/MM/YYYY']. *)
Definition isValidDate (date : JsString) (format : option string) (mode : ValidatorMode)
  : M Result :=
  let format := or_default "DD/MM/YYYY" format in
  let patterns := date_patterns in
  validate date (js_or (get patterns format) (get patterns "DD/MM/YYYY")) mode.

Definition isValidUUID (uuid : JsString) (mode : ValidatorMode) : M Result :=
  validate uuid (VRegExp uuidPattern) mode.

(** The decimal digits of [s]. *)
Definition digits_of (s : positive) : string :=
  DecimalString.NilEmpty.string_of_uint (Pos.to_uint s).

Fixpoint zeros (count : nat) : string :=
  match count with
  | O => ""
  | S count' => String "0" (zeros count')
  end.

(** Number::toString(x, 10) for a finite [x > 0], steps 5 to 12: plain
    digits when [-5 <= n <= 21] (with the zeros that follow them, or
    the point where it belongs, or [0.] and the zeros before them), the
    exponent form otherwise. *)
Definition unsigned_to_string (s : positive) (e : Z) : string :=
  let d := digits_of s in
  let k := Z.of_nat (String.length d) in
  let n := (e + k)%Z in
  if (-5 <=? n)%Z && (n <=? 21)%Z then
    if (k <=? n)%Z then d ++ zeros (Z.to_nat (n - k))
    else if (0 <? n)%Z then
      String.substring 0 (Z.to_nat n) d ++ "."
      ++ String.substring (Z.to_nat n) (Z.to_nat (k - n)) d
    else "0." ++ zeros (Z.to_nat (- n)) ++ d
  else
    let exponentSign := if (n <? 0)%Z then "-" else "+" in
    let exponent :=
      DecimalString.NilEmpty.string_of_uint (N.to_uint (Z.abs_N (n - 1))) in
    if (k =? 1)%Z then d ++ "e" ++ exponentSign ++ exponent
    else String.substring 0 1 d ++ "." ++ String.substring 1 (Z.to_nat (k - 1)) d
         ++ "e" ++ exponentSign ++ exponent.

(** [`${x}`]: ToString of a Number, which is Number::toString(x, 10). *)
Definition number_to_string (x : JsNumber) : string :=
  match x with
  | NaN => "NaN"
  | Zero _ => "0"
  | Infinity negative => if negative then "-Infinity" else "Infinity"
  | Finite negative s e =>
      if negative then "-" ++ unsigned_to_string s e else unsigned_to_string s e
  end.

(** The pattern text [isStrongPassword] assembles.  [opts] is
    [{ minLength: 8, requireUppercase: true, requireNumbers: true,
       requireSpecialChars: true, ...options }]. *)
Definition strong_pattern (options : PasswordOptions) : string :=
  let opts_minLength := or_default (Finite false 8 0) (minLength options) in
  let opts_requireUppercase := or_default true (requireUppercase options) in
  let opts_requireNumbers := or_default true (requireNumbers options) in
  let opts_requireSpecialChars := or_default true (requireSpecialChars options) in
  let pattern := "^" in
  let pattern := if opts_requireUppercase then pattern ++ "(?=.*[A-Z])" else pattern in
  let pattern := if opts_requireNumbers then pattern ++ "(?=.*\d)" else pattern in
  let pattern := if opts_requireSpecialChars then pattern ++ "(?=.*[!@#$%^&*])"
                 else pattern in
  pattern ++ ".{" ++ number_to_string opts_minLength ++ ",}$".

Definition isStrongPassword (password : JsString) (options : PasswordOptions)
           (mode : ValidatorMode) : M Result :=
  re <- RegExp_new (strong_pattern options) ;;
  validate password (VRegExp re) mode.

Definition isValidSlug (slug : JsString) (mode : ValidatorMode) : M Result :=
  let slugPattern := regexp_literal "^[a-z0-9]+(?:-[a-z0-9]+)*$" flags_none in
  validate slug (VRegExp slugPattern) mode.

Definition isBase64 (base64 : JsString) (mode : ValidatorMode) : M Result :=
  let base64Pattern :=
    regexp_literal "^(?:[A-Za-z0-9+/]{4})*(?:[A-Za-z0-9+/]{2}==|[A-Za-z0-9+/]{3}=)?$"
                   flags_none in
  validate base64 (VRegExp base64Pattern) mode.

End Methods.

(** The public operations, each with the arguments it takes besides the
    value and the mode. *)
Inductive Operation :=
| op_isValid (pattern : JsValue)
| op_isValidEmail
| op_isValidIPv4
| op_isValidIPv6
| op_isValidMacAddress
| op_isValidUrl
| op_isValidUsername
| op_isValidHexColor
| op_isInteger
| op_isAlpha
| op_isEmoji
| op_isAnsiArt
| op_isValidJwt
| op_isValidDomain
| op_isValidSemver
| op_isValidPhoneNumber
| op_isValidCreditCard
| op_isValidSSN
| op_isValidISBN
| op_isValidTime
| op_isPositiveInteger
| op_isNegativeInteger
| op_isNonZeroInteger
| op_isFloat
| op_isPositiveFloat
| op_isNegativeFloat
| op_isAlphanumeric
| op_isHexadecimal
| op_isBinary
| op_isValidMD5
| op_isValidSHA1
| op_isValidSHA256
| op_containsHtmlTag
| op_isValidFilePath
| op_isValidFileName
| op_isKebabCase
| op_isCamelCase
| op_isSnakeCase
| op_isPascalCase
| op_isValidPassword (level : option string)
| op_isValidPostalCode (country : string)
| op_isValidCryptoAddress (type : string)
| op_isValidCoordinates (lng : JsString)
| op_isValidDate (format : option string)
| op_isValidUUID
| op_isStrongPassword (options : PasswordOptions)
| op_isValidSlug
| op_isBase64.

Definition call (unicode_upper : N -> list N) (this : RegExpValidator) (op : Operation)
           (value : JsString) (mode : ValidatorMode) : M Result :=
  match op with
  | op_isValid pattern => isValid unicode_upper this value pattern mode
  | op_isValidEmail => isValidEmail unicode_upper this value mode
  | op_isValidIPv4 => isValidIPv4 unicode_upper this value mode
  | op_isValidIPv6 => isValidIPv6 unicode_upper this value mode
  | op_isValidMacAddress => isValidMacAddress unicode_upper this value mode
  | op_isValidUrl => isValidUrl unicode_upper this value mode
  | op_isValidUsername => isValidUsername unicode_upper this value mode
  | op_isValidHexColor => isValidHexColor unicode_upper this value mode
  | op_isInteger => isInteger unicode_upper this value mode
  | op_isAlpha => isAlpha unicode_upper this value mode
  | op_isEmoji => isEmoji unicode_upper this value mode
  | op_isAnsiArt => isAnsiArt unicode_upper this value mode
  | op_isValidJwt => isValidJwt unicode_upper this value mode
  | op_isValidDomain => isValidDomain unicode_upper this value mode
  | op_isValidSemver => isValidSemver unicode_upper this value mode
  | op_isValidPhoneNumber => isValidPhoneNumber unicode_upper this value mode
  | op_isValidCreditCard => isValidCreditCard unicode_upper this value mode
  | op_isValidSSN => isValidSSN unicode_upper this value mode
  | op_isValidISBN => isValidISBN unicode_upper this value mode
  | op_isValidTime => isValidTime unicode_upper this value mode
  | op_isPositiveInteger => isPositiveInteger unicode_upper this value mode
  | op_isNegativeInteger => isNegativeInteger unicode_upper this value mode
  | op_isNonZeroInteger => isNonZeroInteger unicode_upper this value mode
  | op_isFloat => isFloat unicode_upper this value mode
  | op_isPositiveFloat => isPositiveFloat unicode_upper this value mode
  | op_isNegativeFloat => isNegativeFloat unicode_upper this value mode
  | op_isAlphanumeric => isAlphanumeric unicode_upper this value mode
  | op_isHexadecimal => isHexadecimal unicode_upper this value mode
  | op_isBinary => isBinary unicode_upper this value mode
  | op_isValidMD5 => isValidMD5 unicode_upper this value mode
  | op_isValidSHA1 => isValidSHA1 unicode_upper this value mode
  | op_isValidSHA256 => isValidSHA256 unicode_upper this value mode
  | op_containsHtmlTag => containsHtmlTag unicode_upper this value mode
  | op_isValidFilePath => isValidFilePath unicode_upper this value mode
  | op_isValidFileName => isValidFileName unicode_upper this value mode
  | op_isKebabCase => isKebabCase unicode_upper this value mode
  | op_isCamelCase => isCamelCase unicode_upper this value mode
  | op_isSnakeCase => isSnakeCase unicode_upper this value mode
  | op_isPascalCase => isPascalCase unicode_upper this value mode
  | op_isValidPassword level => isValidPassword unicode_upper this value level mode
  | op_isValidPostalCode country => isValidPostalCode unicode_upper this value country mode
  | op_isValidCryptoAddress type => isValidCryptoAddress unicode_upper this value type mode
  | op_isValidCoordinates lng => isValidCoordinates unicode_upper this value lng mode
  | op_isValidDate format => isValidDate unicode_upper this value format mode
  | op_isValidUUID => isValidUUID unicode_upper this value mode
  | op_isStrongPassword options => isStrongPassword unicode_upper this value options mode
  | op_isValidSlug => isValidSlug unicode_upper this value mode
  | op_isBase64 => isBase64 unicode_upper this value mode
  end.

End Validator.

(** ** End positions

    Whether a pattern matches does not depend on the captures (no rule
    uses a back-reference), so the properties of [test] are proved on the
    end positions alone: [positions r i] lists the indices at which [r]
    can end when started at [i], in the order of [Engine.run]. *)

Module Positions.

Section Positions.
Variable unicode_upper : N -> list N.
Variable ignoreCase : bool.
Variable input : list N.

Definition char_positions (test : N -> bool) (i : nat) : list nat :=
  match nth_error input i with
  | Some ch => if test ch then [S i] else []
  | None => []
  end.

Section Repeat.
Variable p : nat -> list nat.

Fixpoint RepeatPositions (fuel : nat) (min : N) (max : option N) (greedy : bool)
         (i : nat) : list nat :=
  match fuel with
  | O => []
  | S fuel' =>
    match max with
    | Some 0%N => [i]
    | _ =>
      let iterate :=
        flat_map (fun j =>
          if (min =? 0)%N && (j =? i)%nat then []
          else RepeatPositions fuel' (N.pred min) (option_map N.pred max) greedy j)
          (p i) in
      if negb (min =? 0)%N then iterate
      else if greedy then iterate ++ [i]
      else i :: iterate
    end
  end.

(** [k] iterations of [p] lead from [i] to [j]. *)
Fixpoint iterate_reaches (k : nat) (i j : nat) : Prop :=
  match k with
  | O => i = j
  | S k' => exists m, In m (p i) /\ iterate_reaches k' m j
  end.
End Repeat.

Fixpoint positions (r : Regex) (i : nat) {struct r} : list nat :=
  match r with
  | Empty => [i]
  | Char c =>
      char_positions (fun ch => (Engine.Canonicalize unicode_upper ignoreCase ch
                                 =? Engine.Canonicalize unicode_upper ignoreCase c)%N) i
  | Dot => char_positions (fun ch => negb (is_line_terminator ch)) i
  | Class invert cs =>
      char_positions
        (fun ch => xorb invert (Engine.char_set_found unicode_upper ignoreCase cs ch)) i
  | AssertStart => if (i =? 0)%nat then [i] else []
  | AssertEnd => if (i =? length input)%nat then [i] else []
  | Seq a b => flat_map (positions b) (positions a i)
  | Alt a b => positions a i ++ positions b i
  | Repeat min max greedy r' =>
      RepeatPositions (positions r') (Engine.repeat_fuel input min i) min max greedy i
  | Group _ r' => positions r' i
  | LookAhead negative r' =>
      match positions r' i with
      | [] => if negative then [i] else []
      | _ :: _ => if negative then [] else [i]
      end
  end.

(** The test a one-character term applies to the current character. *)
Definition char_test (r : Regex) : option (N -> bool) :=
  match r with
  | Char c => Some (fun ch => (Engine.Canonicalize unicode_upper ignoreCase ch
                               =? Engine.Canonicalize unicode_upper ignoreCase c)%N)
  | Dot => Some (fun ch => negb (is_line_terminator ch))
  | Class invert cs =>
      Some (fun ch => xorb invert (Engine.char_set_found unicode_upper ignoreCase cs ch))
  | _ => None
  end.

(** The tests of a pattern of fixed width, one per character. *)
Fixpoint fixed_tests (r : Regex) : option (list (N -> bool)) :=
  match r with
  | Empty => Some []
  | Char _ | Dot | Class _ _ => option_map (fun t => [t]) (char_test r)
  | Seq a b =>
      match fixed_tests a, fixed_tests b with
      | Some ta, Some tb => Some (ta ++ tb)
      | _, _ => None
      end
  | Group _ r' => fixed_tests r'
  | Repeat min (Some max) _ r' =>
      match fixed_tests r' with
      | Some (t :: ts) =>
          if (min =? max)%N then Some (concat (repeat (t :: ts) (N.to_nat min))) else None
      | _ => None
      end
  | _ => None
  end.

End Positions.

Definition nonempty (A : Type) (l : list A) : bool :=
  match l with [] => false | _ :: _ => true end.

(** The characters of [s] pass the tests [ts], one each, from the left. *)
Fixpoint prefix_ok (ts : list (N -> bool)) (s : list N) : bool :=
  match ts, s with
  | [], _ => true
  | t :: ts', c :: s' => t c && prefix_ok ts' s'
  | _ :: _, [] => false
  end.

End Positions.

Unset Implicit Arguments.

(** * The vocabulary of the claims *)

Module Spec.

Import Runtime RegExpObject Validator.

(** ** The clock *)

(** The time between the two readings of the clock in [validate]. *)
Definition elapsed_before_evaluation (w : World) : Z := (now (elapse w) - now w)%Z.

(** The elapsed-time check of [validate]. *)
Definition guard_trips (this : RegExpValidator) (w : World) : bool :=
  (elapsed_before_evaluation w >? budget this)%Z.

(** No event of the world takes longer than the budget. *)
Definition within_budget (this : RegExpValidator) (w : World) : bool :=
  (0 <=? budget this)%Z && forallb (fun d => (d <=? budget this)%Z) (ticks w).

(** ** The results of [validate] *)

Definition timeout_message : string := "Validation timeout exceeded".

Definition timeout_result (mode : ValidatorMode) : Result :=
  match mode with
  | mode_verbose => RRecord (mkResult false (Some "Validation timeout exceeded"%string) None)
  | mode_undefined => RBool false
  end.

Definition error_result (mode : ValidatorMode) (e : JsError) : Result :=
  match mode with
  | mode_verbose =>
      RRecord (mkResult false (Some ("Validation error: " ++ error_to_string e)%string) None)
  | mode_undefined => RBool false
  end.

Definition match_result (up : N -> list N) (mode : ValidatorMode) (re : RegExp)
           (value : JsString) : Result :=
  match mode with
  | mode_verbose =>
      RRecord (mkResult (test up re value)
                 (Some (if test up re value then "Validation successful"
                        else "Validation failed")%string)
                 (Some (string_match up value re)))
  | mode_undefined => RBool (test up re value)
  end.

(** The fault that evaluating a rule raises, if any. *)
Definition rule_fault (pattern : JsValue) : option JsError :=
  match pattern with
  | VRegExp _ => None
  | VUndefined => Some (TypeError "Cannot read properties of undefined (reading 'test')")
  | VInherited _ => Some (TypeError "pattern.test is not a function")
  | VThrowing e => Some e
  end.

(** The verdict a result carries. *)
Definition accepted (r : Result) : bool :=
  match r with RBool b => b | RRecord rec => isValid_field rec end.

(** A record in verbose mode, a plain boolean otherwise. *)
Definition has_shape (mode : ValidatorMode) (r : Result) : Prop :=
  match mode, r with
  | mode_verbose, RRecord _ => True
  | mode_undefined, RBool _ => True
  | _, _ => False
  end.

(** ** The rules of the tables *)

(** The [RegExp] a lookup yields (for the keys the tables have). *)
Definition rule_of (v : JsValue) : RegExp :=
  match v with VRegExp re => re | _ => mkRegExp (Class false []) 0 flags_none end.

Definition latitude_rule : RegExp := rule_of (get complexPatterns_coordinates "latitude").
Definition longitude_rule : RegExp := rule_of (get complexPatterns_coordinates "longitude").
Definition date_rule (format : string) : RegExp := rule_of (get date_patterns format).

(** A literal that did not parse. *)
Definition is_fallback (re : RegExp) : bool :=
  match re_pattern re with Class false [] => true | _ => false end.

(** A case table in which no code unit from 128 on has an upper case,
    for the closed examples. *)
Definition identity_upper (ch : N) : list N := [ch].

(** ** UUIDs *)

Definition is_hex_digit (ch : N) : bool := in_ranges [(48, 57); (65, 70); (97, 102)]%N ch.
Definition is_hyphen (ch : N) : bool := (ch =? 45)%N.

(** The version nibble is one of [1-5]; the variant nibble one of
    [8 9 a b A B]. *)
Definition version_ok (ch : N) : bool := in_ranges [(49, 53)]%N ch.
Definition variant_ok (ch : N) : bool := in_ranges [(56, 57); (65, 66); (97, 98)]%N ch.

(** First hex digit of the third and of the fourth group. *)
Definition version_nibble (uuid : JsString) : N := nth 14 uuid 0%N.
Definition variant_nibble (uuid : JsString) : N := nth 19 uuid 0%N.

(** The 8-4-4-4-12 layout, with the tests [v] and [r] at the two nibbles. *)
Definition uuid_layout (v r : N -> bool) : list (N -> bool) :=
  repeat is_hex_digit 8 ++ [is_hyphen] ++ repeat is_hex_digit 4 ++ [is_hyphen]
  ++ [v] ++ repeat is_hex_digit 3 ++ [is_hyphen]
  ++ [r] ++ repeat is_hex_digit 3 ++ [is_hyphen] ++ repeat is_hex_digit 12.

(** A string of UUID shape: the layout with any hex digit at the nibbles. *)
Definition uuid_shape (s : JsString) : bool :=
  (length s =? 36)%nat && Positions.prefix_ok (uuid_layout is_hex_digit is_hex_digit) s.

(** The layout with the two nibbles restricted. *)
Definition uuid_valid (s : JsString) : bool :=
  (length s =? 36)%nat && Positions.prefix_ok (uuid_layout version_ok variant_ok) s.

(** ** Password policies *)

Definition no_line_terminator (s : JsString) : bool :=
  forallb (fun c => negb (is_line_terminator c)) s.

(** Some character of [s] is in the set. *)
Definition has_char (cs : CharSet) (s : JsString) : bool := existsb (in_ranges cs) s.

Definition uppercase_letters : CharSet := [(65, 90)]%N.
Definition decimal_digits : CharSet := [(48, 57)]%N.
(** [! @ # $ % ^ & *] *)
Definition special_characters : CharSet :=
  [(33, 33); (64, 64); (35, 35); (36, 36); (37, 37); (94, 94); (38, 38); (42, 42)]%N.

(** The minimum length of the policy: the caller's, else 8. *)
Definition policy_minLength (options : PasswordOptions) : JsNumber :=
  or_default (Finite false 8 0) (minLength options).

(** The value of a Number that is an integer from 0 to [10^21 - 1];
    these are the Numbers that print as a plain string of digits. *)
Definition count_of (x : JsNumber) : option N :=
  match x with
  | Zero _ => Some 0%N
  | Finite false s e =>
      if (0 <=? e)%Z && (e + Z.of_nat (String.length (digits_of s)) <=? 21)%Z
      then Some (Npos s * 10 ^ Z.to_N e)%N
      else None
  | _ => None
  end.

(** The Numbers below zero. *)
Definition is_negative (x : JsNumber) : bool :=
  match x with
  | Infinity negative | Finite negative _ _ => negative
  | _ => false
  end.

(** For a Number that is an integer from [-(10^21 - 1)] to [-1], its
    absolute value. *)
Definition negative_count (x : JsNumber) : option N :=
  match x with
  | Finite true s e => count_of (Finite false s e)
  | _ => None
  end.

(** [len >= x], for a length and a Number. *)
Definition at_least (len : nat) (x : JsNumber) : bool :=
  match x with
  | NaN => false
  | Infinity negative => negative
  | Zero _ => true
  | Finite true _ _ => true
  | Finite false s e =>
      if (0 <=? e)%Z then (Npos s * 10 ^ Z.to_N e <=? N.of_nat len)%N
      else (Npos s <=? N.of_nat len * 10 ^ Z.to_N (- e))%N
  end.

(** The three character-class requirements of the policy. *)
Definition character_requirements (options : PasswordOptions) (password : JsString) : bool :=
  implb (or_default true (requireUppercase options)) (has_char uppercase_letters password)
  && implb (or_default true (requireNumbers options)) (has_char decimal_digits password)
  && implb (or_default true (requireSpecialChars options))
           (has_char special_characters password).

(** All three toggles are off. *)
Definition no_character_requirements (options : PasswordOptions) : bool :=
  negb (or_default true (requireUppercase options))
  && negb (or_default true (requireNumbers options))
  && negb (or_default true (requireSpecialChars options)).

(** Modelled from the words of the specification: the conjunction of the
    minimum length and the character-class requirements. *)
Definition claimed_strong (options : PasswordOptions) (password : JsString) : bool :=
  at_least (length password) (policy_minLength options)
  && character_requirements options password.

(** One character that is no line terminator, then the text [{x,}]. *)
Definition literal_quantifier (x : JsNumber) (password : JsString) : bool :=
  match password with
  | c :: rest =>
      negb (is_line_terminator c)
      && jsstring_eqb rest (js ("{" ++ number_to_string x ++ ",}"))
  | [] => false
  end.

(** The policy of the example of the specification. *)
Definition example_policy : PasswordOptions :=
  mkPasswordOptions (Some (Finite false 6 0)) (Some false) None (Some false).

(** A policy with the minimum [-1] and the three toggles off. *)
Definition negative_policy : PasswordOptions :=
  mkPasswordOptions (Some (Finite true 1 0)) (Some false) (Some false) (Some false).

(** A policy with no minimum and the three toggles off. *)
Definition zero_policy : PasswordOptions :=
  mkPasswordOptions (Some (Zero false)) (Some false) (Some false) (Some false).

(** A policy with the minimum [1e21] and the three toggles off. *)
Definition huge_policy : PasswordOptions :=
  mkPasswordOptions (Some (Finite false 1 21)) (Some false) (Some false) (Some false).

(** A policy with the minimum [-1.5] and the three toggles off. *)
Definition fraction_policy : PasswordOptions :=
  mkPasswordOptions (Some (Finite true 15 (-1))) (Some false) (Some false) (Some false).

End Spec.

(** * The parse trees of the patterns the claims are about *)

Module Shapes.

Import Parser Validator Spec.

(** A sequence of terms, as the parser builds it: [chain rs i j] when
    the terms [rs], one after the other, lead from [i] to [j]. *)
Fixpoint chain (unicode_upper : N -> list N) (ignoreCase : bool) (input : list N)
         (rs : list Regex) (i j : nat) : Prop :=
  match rs with
  | [] => i = j
  | r :: rs' =>
      exists k, In k (Positions.positions unicode_upper ignoreCase input r i)
                /\ chain unicode_upper ignoreCase input rs' k j
  end.

(** A matcher that never moves backwards nor past the end of the input. *)
Definition advancing (input : list N) (m : Engine.State -> list Engine.State) : Prop :=
  forall x y, Engine.endIndex x <= length input -> In y (m x) ->
              Engine.endIndex x <= Engine.endIndex y <= length input.

Definition as_terms (rs : list Regex) : list Term := map (fun r => (r, quantifiable)) rs.

Definition is_lookahead (r : Regex) : Prop := exists body, r = LookAhead false body.

(** [(?=.*[A-Z])], [(?=.*\d)] and [(?=.*[!@#$%^&*])]. *)
Definition upper_lookahead : Regex :=
  LookAhead false (Seq (Repeat 0 None true Dot) (Class false [(65, 90)]%N)).
Definition digit_lookahead : Regex :=
  LookAhead false (Seq (Repeat 0 None true Dot) (Class false [(48, 57)]%N)).
Definition special_lookahead : Regex :=
  LookAhead false
    (Seq (Repeat 0 None true Dot)
         (Class false [(33, 33); (64, 64); (35, 35); (36, 36); (37, 37); (94, 94);
                       (38, 38); (42, 42)]%N)).

Definition strong_lookaheads (options : PasswordOptions) : list Regex :=
  (if or_default true (requireUppercase options) then [upper_lookahead] else [])
  ++ (if or_default true (requireNumbers options) then [digit_lookahead] else [])
  ++ (if or_default true (requireSpecialChars options) then [special_lookahead] else []).

(** The characters that are a term by themselves in a pattern without
    the [u] flag: all but [\ [ ( ) | * + ? { ^ $]. *)
Definition is_plain (c : ascii) : bool :=
  negb (existsb (Ascii.eqb c) (list_ascii_of_string "\[()|*+?{^$")).

(** The term of one character of pattern text. *)
Definition text_atom (c : ascii) : Regex :=
  if Ascii.eqb c "." then Dot else Char (N_of_ascii c).

(** The terms of a pattern text without groups, classes and escapes: a
    term per character, a point being the dot, and a [+] quantifying the
    term before it. *)
Fixpoint text_terms (s : string) : list Regex :=
  match s with
  | EmptyString => []
  | String c rest =>
      match rest with
      | String p rest' =>
          if Ascii.eqb p "+" then Repeat 1 None true (text_atom c) :: text_terms rest'
          else text_atom c :: text_terms rest
      | EmptyString => [text_atom c]
      end
  end.

(** A text of plain characters, a [+] only after one of them. *)
Fixpoint simple_text (s : string) : bool :=
  match s with
  | EmptyString => true
  | String c rest =>
      is_plain c
      && match rest with
         | String p rest' => if Ascii.eqb p "+" then simple_text rest' else simple_text rest
         | EmptyString => true
         end
  end.

Definition all_digits (s : string) : bool := forallb is_digit (list_ascii_of_string s).

(** A text that a [+] does not begin. *)
Definition no_plus_first (s : string) : Prop :=
  match s with
  | String c _ => Ascii.eqb c "+" = false
  | EmptyString => True
  end.

(** A text of plain characters that can follow a term. *)
Definition simple_tail (s : string) : Prop := simple_text s = true /\ no_plus_first s.

(** The terms the text [.{x,}] stands for: a quantified dot when [x]
    prints as a string of digits; else the brace does not open a
    quantifier, and the terms are the dot and those of the text
    [{x,}]. *)
Definition strong_length_terms (x : JsNumber) : list Regex :=
  match count_of x with
  | Some n => [Repeat n None true Dot]
  | None => Dot :: text_terms ("{" ++ number_to_string x ++ ",}")
  end.

(** The rule with the look-aheads in a given order. *)
Definition strong_rule (lookaheads : list Regex) (x : JsNumber) : RegExp :=
  mkRegExp (seq_of (AssertStart :: (lookaheads ++ strong_length_terms x) ++ [AssertEnd]))
           0 flags_none.

Definition strong_regex (options : PasswordOptions) : Regex :=
  seq_of (AssertStart
          :: (strong_lookaheads options
              ++ strong_length_terms (or_default (Finite false 8 0) (minLength options)))
          ++ [AssertEnd]).

(** The text [isStrongPassword] has assembled before the quantifier. *)
Definition strong_prefix (options : PasswordOptions) : string :=
  let pattern := "^"%string in
  let pattern := if or_default true (requireUppercase options)
                 then (pattern ++ "(?=.*[A-Z])")%string else pattern in
  let pattern := if or_default true (requireNumbers options)
                 then (pattern ++ "(?=.*\d)")%string else pattern in
  if or_default true (requireSpecialChars options)
  then (pattern ++ "(?=.*[!@#$%^&*])")%string else pattern.

(** The terms of [uuidPattern] between the anchors. *)
Definition uuid_terms : list Regex :=
  let hex := Class false [(48, 57); (97, 102)]%N in
  [Repeat 8 (Some 8%N) true hex; Char 45;
   Repeat 4 (Some 4%N) true hex; Char 45;
   Class false [(49, 53)]%N; Repeat 3 (Some 3%N) true hex; Char 45;
   Class false [(56, 56); (57, 57); (97, 97); (98, 98)]%N; Repeat 3 (Some 3%N) true hex; Char 45;
   Repeat 12 (Some 12%N) true hex].

End Shapes.

(** * The language of a pattern

    A pattern without assertions matches a piece of the input whatever
    surrounds it.  [Lang r s] says that [r] matches the whole of [s]; it
    is the reading of the pattern that the properties of the single
    validators are stated in. *)

Module Language.

Section Language.
Variable unicode_upper : N -> list N.
Variable ignoreCase : bool.

Fixpoint Lang (r : Regex) (s : list N) : Prop :=
  match r with
  | Empty => s = []
  | Char c =>
      exists ch, s = [ch]
                 /\ (Engine.Canonicalize unicode_upper ignoreCase ch
                     =? Engine.Canonicalize unicode_upper ignoreCase c)%N = true
  | Dot => exists ch, s = [ch] /\ negb (is_line_terminator ch) = true
  | Class invert cs =>
      exists ch, s = [ch]
                 /\ xorb invert (Engine.char_set_found unicode_upper ignoreCase cs ch) = true
  | Seq a b => exists s1 s2, s = s1 ++ s2 /\ Lang a s1 /\ Lang b s2
  | Alt a b => Lang a s \/ Lang b s
  | Repeat min max _ r' =>
      exists pieces,
        s = concat pieces /\ Forall (Lang r') pieces
        /\ N.to_nat min <= length pieces
        /\ match max with Some mx => length pieces <= N.to_nat mx | None => True end
  | Group _ r' => Lang r' s
  | AssertStart | AssertEnd | LookAhead _ _ => False
  end.

End Language.

(** The least number of characters a match of the pattern has. *)
Fixpoint min_width (r : Regex) : nat :=
  match r with
  | Char _ | Dot | Class _ _ => 1
  | Seq a b => min_width a + min_width b
  | Alt a b => Nat.min (min_width a) (min_width b)
  | Repeat min _ _ r' => N.to_nat min * min_width r'
  | Group _ r' => min_width r'
  | Empty | AssertStart | AssertEnd | LookAhead _ _ => 0
  end.

(** Patterns without assertions, in which every quantified term consumes
    input and no quantifier has its bounds out of order (the parser
    rejects those). *)
Fixpoint plain (r : Regex) : bool :=
  match r with
  | Empty | Char _ | Dot | Class _ _ => true
  | Seq a b | Alt a b => plain a && plain b
  | Repeat min max _ r' =>
      plain r' && (0 <? min_width r')
      && match max with Some mx => (min <=? mx)%N | None => true end
  | Group _ r' => plain r'
  | AssertStart | AssertEnd | LookAhead _ _ => false
  end.

(** The characters of [input] from index [i] up to index [j]. *)
Definition slice (input : list N) (i j : nat) : list N :=
  firstn (j - i) (skipn i input).


(** What is between the anchors of a rule [^ ... $]. *)
Fixpoint strip_end (r : Regex) : option Regex :=
  match r with
  | Seq a AssertEnd => Some a
  | Seq a b => option_map (Seq a) (strip_end b)
  | _ => None
  end.

Definition between_anchors (r : Regex) : option Regex :=
  match r with
  | Seq AssertStart b => strip_end b
  | _ => None
  end.

(** The number of characters of every match, for a pattern of fixed
    width. *)
Fixpoint width (r : Regex) : option nat :=
  match r with
  | Empty => Some 0
  | Char _ | Dot | Class _ _ => Some 1
  | Seq a b =>
      match width a, width b with
      | Some n, Some m => Some (n + m)
      | _, _ => None
      end
  | Alt a b =>
      match width a, width b with
      | Some n, Some m => if (n =? m)%nat then Some n else None
      | _, _ => None
      end
  | Repeat min (Some max) _ r' =>
      match width r' with
      | Some n => if (min =? max)%N then Some (N.to_nat min * n) else None
      | None => None
      end
  | Group _ r' => width r'
  | _ => None
  end.

(** ** Layouts

    A pattern whose quantifiers are all bounded matches the strings of a
    finite list of layouts, a layout being a list of tests, one per
    character. *)

Definition Layout := list (N -> bool).

(** Every layout of [la] followed by every layout of [lb]. *)
Definition product (la lb : list Layout) : list Layout :=
  flat_map (fun ta => map (app ta) lb) la.

Fixpoint power (l : list Layout) (k : nat) : list Layout :=
  match k with
  | O => [[]]
  | S k' => product l (power l k')
  end.

Section Layouts.
Variable unicode_upper : N -> list N.
Variable ignoreCase : bool.

Fixpoint layouts (r : Regex) : option (list Layout) :=
  match r with
  | Empty => Some [[]]
  | Char _ | Dot | Class _ _ =>
      option_map (fun t => [[t]]) (Positions.char_test unicode_upper ignoreCase r)
  | Seq a b =>
      match layouts a, layouts b with
      | Some la, Some lb => Some (product la lb)
      | _, _ => None
      end
  | Alt a b =>
      match layouts a, layouts b with
      | Some la, Some lb => Some (la ++ lb)
      | _, _ => None
      end
  | Repeat min (Some max) _ r' =>
      match layouts r' with
      | Some l =>
          Some (flat_map (power l) (seq (N.to_nat min) (S (N.to_nat max) - N.to_nat min)))
      | None => None
      end
  | Group _ r' => layouts r'
  | _ => None
  end.

End Layouts.

(** [s] has the layout [ts]: as many characters, each passing its test. *)
Definition has_layout (ts : Layout) (s : list N) : bool :=
  (length s =? length ts)%nat && Positions.prefix_ok ts s.

Definition has_layout_among (ls : list Layout) (s : list N) : bool :=
  existsb (fun ts => has_layout ts s) ls.

(** The strings with one of the layouts. *)
Definition among (ls : list Layout) (s : list N) : Prop :=
  exists ts, In ts ls /\ has_layout ts s = true.

End Language.

(** * The vocabulary of the further properties *)

Module Formats.

Import Runtime RegExpObject Validator Spec.
Local Open Scope string_scope.

(** The verdict of a call that returns: the boolean, or the [isValid]
    of the record. *)
Definition verdict (o : Outcome Result * World) : option bool :=
  match fst o with
  | Ok r => Some (accepted r)
  | Throw _ => None
  end.

(** What [pattern.test(value)] gives, a fault counting as no match. *)
Definition rule_accepts (up : N -> list N) (pattern : JsValue) (value : JsString) : bool :=
  match pattern with
  | VRegExp re => test up re value
  | _ => false
  end.

Definition is_coordinates (op : Operation) : bool :=
  match op with op_isValidCoordinates _ => true | _ => false end.

(** The rule starts with [^] on every path. *)
Fixpoint starts_anchored (r : Regex) : bool :=
  match r with
  | AssertStart => true
  | Seq a _ => starts_anchored a
  | Alt a b => starts_anchored a && starts_anchored b
  | Group _ r' => starts_anchored r'
  | _ => false
  end.

(** The rule ends with [$] on every path. *)
Fixpoint ends_anchored (r : Regex) : bool :=
  match r with
  | AssertEnd => true
  | Seq _ b => ends_anchored b
  | Alt a b => ends_anchored a && ends_anchored b
  | Group _ r' => ends_anchored r'
  | _ => false
  end.

Definition anchored (re : RegExp) : bool :=
  starts_anchored (re_pattern re) && ends_anchored (re_pattern re).

(** The rule an operation hands to [validate] ([isValidCoordinates]
    hands over two: this is the first). *)
Definition op_pattern (op : Operation) : JsValue :=
  match op with
  | op_isValid pattern => pattern
  | op_isValidEmail => get patterns "email"
  | op_isValidIPv4 => get patterns "ipv4"
  | op_isValidIPv6 => get patterns "ipv6"
  | op_isValidMacAddress => get patterns "macAddress"
  | op_isValidUrl => get patterns "url"
  | op_isValidUsername => get patterns "username"
  | op_isValidHexColor => get patterns "hexColor"
  | op_isInteger => get patterns "onlyIntegers"
  | op_isAlpha => get patterns "onlyAlpha"
  | op_isEmoji => get patterns "emoji"
  | op_isAnsiArt => get patterns "ansiArt"
  | op_isValidJwt => get patterns "jwt"
  | op_isValidDomain => get patterns "domain"
  | op_isValidSemver => get patterns "semver"
  | op_isValidPhoneNumber => get patterns "phone"
  | op_isValidCreditCard => get patterns "creditCard"
  | op_isValidSSN => get patterns "ssn"
  | op_isValidISBN => get patterns "isbn"
  | op_isValidTime => get patterns "time"
  | op_isPositiveInteger => get patterns "positiveInteger"
  | op_isNegativeInteger => get patterns "negativeInteger"
  | op_isNonZeroInteger => get patterns "nonZeroInteger"
  | op_isFloat => get patterns "float"
  | op_isPositiveFloat => get patterns "positiveFloat"
  | op_isNegativeFloat => get patterns "negativeFloat"
  | op_isAlphanumeric => get patterns "alphanumeric"
  | op_isHexadecimal => get patterns "hexadecimal"
  | op_isBinary => get patterns "binary"
  | op_isValidMD5 => get patterns "md5"
  | op_isValidSHA1 => get patterns "sha1"
  | op_isValidSHA256 => get patterns "sha256"
  | op_containsHtmlTag => get patterns "htmlTag"
  | op_isValidFilePath => get patterns "filePath"
  | op_isValidFileName => get patterns "fileName"
  | op_isKebabCase => get patterns "kebabCase"
  | op_isCamelCase => get patterns "camelCase"
  | op_isSnakeCase => get patterns "snakeCase"
  | op_isPascalCase => get patterns "pascalCase"
  | op_isValidPassword level => get complexPatterns_password (or_default "medium" level)
  | op_isValidPostalCode country => get complexPatterns_postalCode country
  | op_isValidCryptoAddress type => get complexPatterns_crypto type
  | op_isValidCoordinates _ => get complexPatterns_coordinates "latitude"
  | op_isValidDate format =>
      js_or (get date_patterns (or_default "DD/MM/YYYY" format))
            (get date_patterns "DD/MM/YYYY")
  | op_isValidUUID => VRegExp uuidPattern
  | op_isStrongPassword options =>
      VRegExp (mkRegExp (Shapes.strong_regex options) 0 flags_none)
  | op_isValidSlug => VRegExp (regexp_literal "^[a-z0-9]+(?:-[a-z0-9]+)*$" flags_none)
  | op_isBase64 =>
      VRegExp (regexp_literal
                 "^(?:[A-Za-z0-9+/]{4})*(?:[A-Za-z0-9+/]{2}==|[A-Za-z0-9+/]{3}=)?$"
                 flags_none)
  end.

(** The operations that hand [validate] a rule of the class, or one
    that the class builds: all but [isValid], whose rule is the
    caller's, and [isValidCoordinates], which hands over two. *)
Definition has_own_rule (op : Operation) : bool :=
  match op with
  | op_isValid _ | op_isValidCoordinates _ => false
  | _ => true
  end.

(** The operations with a rule of the class that is anchored at both
    ends: those with a rule of their own, but [containsHtmlTag]. *)
Definition matches_whole_value (op : Operation) : bool :=
  match op with
  | op_containsHtmlTag => false
  | _ => has_own_rule op
  end.

(** ** Alphabets *)

(** The operations that accept the non-empty strings over a set of
    characters, with the set: [isAlpha], [isAlphanumeric],
    [isHexadecimal], [isBinary], [isPositiveInteger] and [isAnsiArt]. *)
Definition alphabet (op : Operation) : option CharSet :=
  match op with
  | op_isAlpha => Some [(97, 122); (65, 90)]%N
  | op_isAlphanumeric => Some [(97, 122); (65, 90); (48, 57)]%N
  | op_isHexadecimal => Some [(48, 57); (97, 102); (65, 70)]%N
  | op_isBinary => Some [(48, 48); (49, 49)]%N
  | op_isPositiveInteger => Some [(48, 57)]%N
  | op_isAnsiArt => Some [(32, 126); (10, 10); (13, 13)]%N
  | _ => None
  end.

(** Every character of [s] is in the set. *)
Definition all_in (cs : CharSet) (s : JsString) : bool := forallb (in_ranges cs) s.

(** ** Numbers *)

(** A non-empty string of decimal digits. *)
Definition digit_text (s : JsString) : bool :=
  Positions.nonempty s && all_in decimal_digits s.

(** A digit from 1 to 9, then digits. *)
Definition nonzero_text (s : JsString) : bool :=
  match s with
  | c :: t => in_ranges [(49, 57)]%N c && all_in decimal_digits t
  | [] => false
  end.

(** The string cut at the first [sep]. *)
Fixpoint split_at (sep : N) (s : JsString) : option (JsString * JsString) :=
  match s with
  | [] => None
  | c :: t =>
      if (c =? sep)%N then Some ([], t)
      else match split_at sep t with
           | Some (a, b) => Some (c :: a, b)
           | None => None
           end
  end.

(** Digits, or digits, a point and digits. *)
Definition decimal_text (s : JsString) : bool :=
  digit_text s
  || match split_at 46 s with
     | Some (a, b) => digit_text a && digit_text b
     | None => false
     end.

(** A minus sign, then [body]. *)
Definition after_minus (body : JsString -> bool) (s : JsString) : bool :=
  match s with
  | c :: t => (c =? 45)%N && body t
  | [] => false
  end.

(** [body], with or without a minus sign in front. *)
Definition optional_minus (body : JsString -> bool) (s : JsString) : bool :=
  body s || after_minus body s.

(** The operations on numerals, with the texts they accept. *)
Definition number_format (op : Operation) : option (JsString -> bool) :=
  match op with
  | op_isPositiveInteger => Some digit_text
  | op_isNegativeInteger => Some (after_minus digit_text)
  | op_isInteger => Some (optional_minus digit_text)
  | op_isNonZeroInteger => Some (optional_minus nonzero_text)
  | op_isPositiveFloat => Some decimal_text
  | op_isNegativeFloat => Some (after_minus decimal_text)
  | op_isFloat => Some (optional_minus decimal_text)
  | _ => None
  end.

(** ** Digests, user names and passwords *)

(** The digests, with the number of hexadecimal digits of each. *)
Definition digest_length (op : Operation) : option nat :=
  match op with
  | op_isValidMD5 => Some 32
  | op_isValidSHA1 => Some 40
  | op_isValidSHA256 => Some 64
  | _ => None
  end.

(** [n] hexadecimal digits, in either case. *)
Definition hex_text (n : nat) (s : JsString) : bool :=
  (length s =? n)%nat && forallb is_hex_digit s.

(** [a-z A-Z 0-9 . _ -] *)
Definition username_chars : CharSet :=
  [(97, 122); (65, 90); (48, 57); (46, 46); (95, 95); (45, 45)]%N.

Definition username_text (s : JsString) : bool :=
  (3 <=? length s)%nat && (length s <=? 16)%nat && all_in username_chars s.

(** At least [n] characters, none of them a line terminator. *)
Definition long_line (n : nat) (s : JsString) : bool :=
  (n <=? length s)%nat && no_line_terminator s.

Definition lowercase_letters : CharSet := [(97, 122)]%N.

(** [@ $ ! % * ? &], the special characters level ['complex'] asks for. *)
Definition complex_specials : CharSet :=
  [(64, 64); (36, 36); (33, 33); (37, 37); (42, 42); (63, 63); (38, 38)]%N.

(** The characters level ['complex'] allows, as its class lists them. *)
Definition complex_chars : CharSet :=
  [(65, 90); (97, 122); (48, 57); (64, 64); (36, 36); (33, 33); (37, 37); (42, 42);
   (63, 63); (38, 38); (33, 33); (64, 64); (35, 35); (37, 37); (94, 94); (38, 38);
   (42, 42); (40, 40); (41, 41); (95, 95); (43, 43); (45, 45); (61, 61); (126, 126);
   (96, 96); (123, 123); (125, 125); (91, 91); (93, 93); (58, 58); (59, 59); (34, 34);
   (39, 39); (60, 60); (62, 62); (44, 44); (46, 46); (63, 63); (47, 47)]%N.

Definition complex_text (s : JsString) : bool :=
  (8 <=? length s)%nat && all_in complex_chars s
  && has_char lowercase_letters s && has_char uppercase_letters s
  && has_char decimal_digits s && has_char complex_specials s.

(** The texts of the three levels of [isValidPassword]. *)
Definition password_level (level : option string) : option (JsString -> bool) :=
  let level := or_default "medium" level in
  if String.eqb level "simple" then Some (long_line 6)
  else if String.eqb level "medium" then Some (long_line 8)
  else if String.eqb level "complex" then Some complex_text
  else None.

(** [weaker] asks for no more than [policy]: both minimum lengths are
    integers from 0 to [10^21 - 1], that of [weaker] the smaller, and
    [weaker] has no requirement switched on that [policy] has off. *)
Definition policy_weaker (weaker policy : PasswordOptions) : bool :=
  match count_of (policy_minLength weaker), count_of (policy_minLength policy) with
  | Some a, Some b => (a <=? b)%N
  | _, _ => false
  end
  && implb (or_default true (requireUppercase weaker))
           (or_default true (requireUppercase policy))
  && implb (or_default true (requireNumbers weaker))
           (or_default true (requireNumbers policy))
  && implb (or_default true (requireSpecialChars weaker))
           (or_default true (requireSpecialChars policy)).

(** The parse tree of level ['complex']. *)
Definition complex_lookaheads : list Regex :=
  [LookAhead false (Seq (Repeat 0 None true Dot) (Class false lowercase_letters));
   LookAhead false (Seq (Repeat 0 None true Dot) (Class false uppercase_letters));
   LookAhead false (Seq (Repeat 0 None true Dot) (Class false decimal_digits));
   LookAhead false (Seq (Repeat 0 None true Dot) (Class false complex_specials))].

Definition complex_rule : RegExp :=
  mkRegExp
    (Parser.seq_of
       (AssertStart
        :: (complex_lookaheads ++ [Repeat 8 None true (Class false complex_chars)])
        ++ [AssertEnd]))
    0 flags_none.

(** ** Tests on one character *)

Definition is_char (c : N) : N -> bool := fun ch => (ch =? c)%N.
Definition digit : N -> bool := in_ranges [(48, 57)]%N.
(** A letter of either case. *)
Definition letter : N -> bool := in_ranges [(65, 90); (97, 122)]%N.
Definition letter_or_digit : N -> bool := in_ranges [(65, 90); (97, 122); (48, 57)]%N.

(** ** Addresses *)

(** [:] or [-] *)
Definition is_mac_separator : N -> bool := in_ranges [(58, 58); (45, 45)]%N.

(** Six pairs of hexadecimal digits, a separator after each but the
    last. *)
Definition mac_layout : Language.Layout :=
  (concat (repeat [is_hex_digit; is_hex_digit; is_mac_separator] 5)
   ++ [is_hex_digit; is_hex_digit])%list.

(** [0x] and forty hexadecimal digits. *)
Definition eth_layout : Language.Layout :=
  ([is_char 48; is_char 120] ++ repeat is_hex_digit 40)%list.

(** The Base58 alphabet: digits and letters without [0 O I l]. *)
Definition base58_chars : CharSet :=
  [(97, 107); (109, 122); (65, 72); (74, 78); (80, 90); (49, 57)]%N.

(** [1] or [3], then 25 to 34 characters of the Base58 alphabet. *)
Definition btc_text (s : JsString) : bool :=
  match s with
  | c :: t =>
      in_ranges [(49, 49); (51, 51)]%N c
      && ((25 <=? length t)%nat && (length t <=? 34)%nat && all_in base58_chars t)
  | [] => false
  end.

(** The texts of the two kinds of [isValidCryptoAddress]. *)
Definition crypto_format (type : string) : option (JsString -> bool) :=
  if String.eqb type "BTC" then Some btc_text
  else if String.eqb type "ETH" then Some (Language.has_layout eth_layout)
  else None.

(** ** Postal codes and colours *)

(** The first letter of a Canadian code: none of [D F I O Q U W Z]. *)
Definition ca_first : N -> bool :=
  in_ranges [(65, 67); (69, 69); (71, 72); (74, 78); (80, 80); (82, 84); (86, 86);
             (88, 89); (97, 99); (101, 101); (103, 104); (106, 110); (112, 112);
             (114, 116); (118, 118); (120, 121)]%N.

(** The other letters of a Canadian code: none of [D F I O Q U]. *)
Definition ca_letter : N -> bool :=
  in_ranges [(65, 67); (69, 69); (71, 72); (74, 78); (80, 80); (82, 84); (86, 90);
             (97, 99); (101, 101); (103, 104); (106, 110); (112, 112); (114, 116);
             (118, 122)]%N.

Definition optional (ts : Language.Layout) : list Language.Layout := [[]; ts].

(** The layouts of the four kinds of [isValidPostalCode]. *)
Definition postal_layouts (country : string) : option (list Language.Layout) :=
  if String.eqb country "US" then
    Some (Language.product [repeat digit 5] (optional (is_char 45 :: repeat digit 4)))
  else if String.eqb country "UK" then
    Some (Language.product [[letter]; [letter; letter]]
            (Language.product [[digit]]
               (Language.product (optional [letter_or_digit])
                  (Language.product (optional [is_char 32])
                     [[digit; letter; letter]]))))
  else if String.eqb country "CA" then
    Some (Language.product [[ca_first; digit; ca_letter]]
            (Language.product (optional [is_char 32]) [[digit; ca_letter; digit]]))
  else if String.eqb country "ANY" then
    Some (map (repeat letter_or_digit) (seq 3 8))
  else None.

(** An optional [#], then six or three hexadecimal digits. *)
Definition hex_color_layouts : list Language.Layout :=
  Language.product (optional [is_char 35]) [repeat is_hex_digit 6; repeat is_hex_digit 3].

(** ** Dates and times *)

(** The number that a string of decimal digits stands for. *)
Definition decimal_value (s : JsString) : N :=
  fold_left (fun acc c => (10 * acc + (c - 48))%N) s 0%N.

(** [n] decimal digits that stand for a number from [lo] to [hi]. *)
Definition digits_between (n : nat) (lo hi : N) (s : JsString) : bool :=
  (length s =? n)%nat && forallb digit s
  && ((lo <=? decimal_value s)%N && (decimal_value s <=? hi)%N).

(** The [n] characters of [s] from index [i] on. *)
Definition field (s : JsString) (i n : nat) : JsString := firstn n (skipn i s).

Definition day_text : JsString -> bool := digits_between 2 1 31.
Definition month_text : JsString -> bool := digits_between 2 1 12.
Definition year_text : JsString -> bool := Language.has_layout (repeat digit 4).
(** The one character [c]. *)
Definition separator (c : N) : JsString -> bool := Language.has_layout [is_char c].

(** The texts of the four formats of [isValidDate]; the format left out
    is ['DD/MM/YYYY']. *)
Definition date_format (format : option string) : option (JsString -> bool) :=
  let format := or_default "DD/MM/YYYY" format in
  if String.eqb format "DD/MM/YYYY" then
    Some (fun s => day_text (field s 0 2) && separator 47 (field s 2 1)
                   && month_text (field s 3 2) && separator 47 (field s 5 1)
                   && year_text (skipn 6 s))
  else if String.eqb format "MM/DD/YYYY" then
    Some (fun s => month_text (field s 0 2) && separator 47 (field s 2 1)
                   && day_text (field s 3 2) && separator 47 (field s 5 1)
                   && year_text (skipn 6 s))
  else if String.eqb format "YYYY-MM-DD" then
    Some (fun s => year_text (field s 0 4) && separator 45 (field s 4 1)
                   && month_text (field s 5 2) && separator 45 (field s 7 1)
                   && day_text (skipn 8 s))
  else if String.eqb format "YYYY/MM/DD" then
    Some (fun s => year_text (field s 0 4) && separator 47 (field s 4 1)
                   && month_text (field s 5 2) && separator 47 (field s 7 1)
                   && day_text (skipn 8 s))
  else None.

(** [a] or [p] of either case, then [m] of either case. *)
Definition meridiem : list Language.Layout :=
  [[in_ranges [(65, 65); (97, 97)]%N; in_ranges [(77, 77); (109, 109)]%N];
   [in_ranges [(80, 80); (112, 112)]%N; in_ranges [(77, 77); (109, 109)]%N]].

(** Hours from 00 to 23, minutes from 00 to 59, then optionally the
    seconds from 00 to 59, then optionally AM or PM, with or without a
    space before it. *)
Definition time_layouts : list Language.Layout :=
  Language.product [[in_ranges [(48, 49)]%N; digit]; [is_char 50; in_ranges [(48, 51)]%N]]
    (Language.product [[is_char 58]]
       (Language.product [[in_ranges [(48, 53)]%N]]
          (Language.product [[digit]]
             (Language.product (optional [is_char 58; in_ranges [(48, 53)]%N; digit])
                ([] :: Language.product (optional [is_char 32]) meridiem))))).

(** The parse trees of [0[1-9]|[12][0-9]|3[01]] and of [0[1-9]|1[0-2]]. *)
Definition DAY : Regex :=
  Alt (Seq (Char 48) (Class false [(49, 57)]%N))
      (Alt (Seq (Class false [(49, 49); (50, 50)]%N) (Class false [(48, 57)]%N))
           (Seq (Char 51) (Class false [(48, 48); (49, 49)]%N))).

Definition MONTH : Regex :=
  Alt (Seq (Char 48) (Class false [(49, 57)]%N)) (Seq (Char 49) (Class false [(48, 50)]%N)).

(** ** Texts made of segments *)

(** The segments of [s] between the occurrences of [sep]. *)
Fixpoint split_all (sep : N) (s : JsString) : list JsString :=
  match s with
  | [] => [[]]
  | c :: t =>
      if (c =? sep)%N then [] :: split_all sep t
      else match split_all sep t with
           | g :: gs => (c :: g) :: gs
           | [] => [[c]]
           end
  end.

(** The segments put together again, [sep] between them. *)
Definition join (sep : N) (gs : list JsString) : JsString :=
  match gs with
  | [] => []
  | g :: gs' => (g ++ concat (map (cons sep) gs'))%list
  end.

Definition sep_free (sep : N) (s : JsString) : bool :=
  forallb (fun c => negb (c =? sep)%N) s.

(** One to three digits that stand for a number up to 255. *)
Definition octet (t : JsString) : bool :=
  (1 <=? length t)%nat && (length t <=? 3)%nat && forallb digit t
  && (decimal_value t <=? 255)%N.

(** Four octets with points between them. *)
Definition ipv4_text (s : JsString) : bool :=
  match split_all 46 s with
  | [a; b; c; d] => octet a && octet b && octet c && octet d
  | _ => false
  end.

(** One to four hexadecimal digits. *)
Definition hextet (t : JsString) : bool :=
  (1 <=? length t)%nat && (length t <=? 4)%nat && forallb is_hex_digit t.

(** Eight groups with colons between them. *)
Definition ipv6_text (s : JsString) : bool :=
  (length (split_all 58 s) =? 8)%nat && forallb hextet (split_all 58 s).

(** [A-Z a-z 0-9 - _] *)
Definition base64url_chars : CharSet := [(65, 90); (97, 122); (48, 57); (45, 45); (95, 95)]%N.

(** Three segments with points between them, the first two not empty. *)
Definition jwt_text (s : JsString) : bool :=
  match split_all 46 s with
  | [a; b; c] =>
      Positions.nonempty a && all_in base64url_chars a
      && (Positions.nonempty b && all_in base64url_chars b)
      && all_in base64url_chars c
  | _ => false
  end.

(** [a-z 0-9] *)
Definition lower_alnum : CharSet := [(97, 122); (48, 57)]%N.
(** [a-z A-Z 0-9] *)
Definition alnum : CharSet := [(97, 122); (65, 90); (48, 57)]%N.

(** A non-empty string of lowercase letters and digits. *)
Definition word (t : JsString) : bool := Positions.nonempty t && all_in lower_alnum t.

(** A character of [first], then characters of [rest]. *)
Definition headed (first rest : CharSet) (t : JsString) : bool :=
  match t with
  | c :: r => in_ranges first c && all_in rest r
  | [] => false
  end.

(** Segments between occurrences of [sep]: the first passes [first], the
    others pass [others]. *)
Definition segmented (sep : N) (first others : JsString -> bool) (s : JsString) : bool :=
  match split_all sep s with
  | a :: bs => first a && forallb others bs
  | [] => false
  end.

(** The texts of the identifier formats. *)
Definition identifier_format (op : Operation) : option (JsString -> bool) :=
  match op with
  | op_isValidSlug => Some (segmented 45 word word)
  | op_isKebabCase => Some (segmented 45 (headed lowercase_letters lower_alnum) word)
  | op_isSnakeCase => Some (segmented 95 (headed lowercase_letters lower_alnum) word)
  | op_isCamelCase => Some (headed lowercase_letters alnum)
  | op_isPascalCase => Some (headed uppercase_letters alnum)
  | _ => None
  end.

(** The parse tree of [25[0-5]|2[0-4][0-9]|[01]?[0-9][0-9]?]. *)
Definition OCTET : Regex :=
  Alt (Seq (Char 50) (Seq (Char 53) (Class false [(48, 53)]%N)))
      (Alt (Seq (Char 50) (Seq (Class false [(48, 52)]%N) (Class false [(48, 57)]%N)))
           (Seq (Repeat 0 (Some 1%N) true (Class false [(48, 48); (49, 49)]%N))
                (Seq (Class false [(48, 57)]%N)
                     (Repeat 0 (Some 1%N) true (Class false [(48, 57)]%N))))).

(** ** Payment cards and emoji *)

(** Visa: [4] and 12 or 15 digits.  MasterCard: [51] to [55] and 14
    digits.  American Express: [34] or [37] and 13 digits.  Discover:
    [6011] or [65] and two digits, then 12 digits. *)
Definition card_layouts : list Language.Layout :=
  (Language.product [[is_char 52]]
     (Language.product [repeat digit 12] (optional (repeat digit 3)))
   ++ [is_char 53 :: in_ranges [(49, 53)]%N :: repeat digit 14]
   ++ [is_char 51 :: in_ranges [(52, 52); (55, 55)]%N :: repeat digit 13]
   ++ Language.product [[is_char 54]]
        (Language.product [[is_char 48; is_char 49; is_char 49]; [is_char 53; digit; digit]]
           [repeat digit 12]))%list.

(** The blocks of code points that [isEmoji] lists. *)
Definition emoji_blocks : CharSet :=
  [(128512, 128591); (127744, 128511); (128640, 128767); (128768, 128895);
   (128896, 129023); (129024, 129279); (129280, 129535); (129536, 129647);
   (129648, 129791); (9728, 9983); (9984, 10175); (8960, 9215); (11088, 11088);
   (8252, 8252); (8265, 8265); (8482, 8482); (8505, 8505)]%N.

(** A non-empty string all of whose code points are in the blocks. *)
Definition emoji_text (s : JsString) : bool :=
  Positions.nonempty s && all_in emoji_blocks (utf16_decode s).

(** ** E-mail addresses *)

Definition local_chars : CharSet :=
  [(97, 122); (65, 90); (48, 57); (46, 46); (95, 95); (37, 37); (43, 43); (45, 45)]%N.

Definition host_chars : CharSet := [(97, 122); (65, 90); (48, 57); (46, 46); (45, 45)]%N.

Definition latin_letters : CharSet := [(97, 122); (65, 90)]%N.

(** The string cut at the last [sep]. *)
Definition split_last (sep : N) (s : JsString) : option (JsString * JsString) :=
  match split_at sep (rev s) with
  | Some (b, a) => Some (rev a, rev b)
  | None => None
  end.

(** Host characters, not none, then a point and two letters or more
    that end the text. *)
Definition host_text (h : JsString) : bool :=
  match split_last 46 h with
  | Some (d, tld) =>
      Positions.nonempty d && all_in host_chars d
      && (2 <=? length tld)%nat && all_in latin_letters tld
  | None => false
  end.

(** Local characters, not none, the only [@], and a host. *)
Definition email_text (s : JsString) : bool :=
  match split_at 64 s with
  | Some (l, h) => Positions.nonempty l && all_in local_chars l && host_text h
  | None => false
  end.

(** ** Social security numbers *)

(** Three digits, a hyphen, two digits, a hyphen and four digits. *)
Definition ssn_layout : Language.Layout :=
  (repeat digit 3 ++ [is_char 45] ++ repeat digit 2 ++ [is_char 45] ++ repeat digit 4)%list.

(** The areas that the rule refuses: [000], [666] and [900] to [999]. *)
Definition refused_areas : list Language.Layout :=
  [[is_char 48; is_char 48; is_char 48]; [is_char 54; is_char 54; is_char 54];
   [is_char 57; digit; digit]].

Definition ssn_text (s : JsString) : bool :=
  Language.has_layout ssn_layout s
  && negb (Language.has_layout_among refused_areas (field s 0 3))
  && negb (Language.has_layout_among [repeat (is_char 48) 2] (field s 4 2))
  && negb (Language.has_layout_among [repeat (is_char 48) 4] (field s 7 4)).

(** The terms of the rule between its anchors. *)
Definition ssn_terms : list Regex :=
  [LookAhead true
     (Alt (Seq (Char 48) (Seq (Char 48) (Char 48)))
        (Alt (Seq (Char 54) (Seq (Char 54) (Char 54)))
           (Seq (Char 57) (Repeat 2 (Some 2%N) true (Class false [(48, 57)]%N)))));
   Repeat 3 (Some 3%N) true (Class false [(48, 57)]%N);
   Char 45;
   LookAhead true (Seq (Char 48) (Char 48));
   Repeat 2 (Some 2%N) true (Class false [(48, 57)]%N);
   Char 45;
   LookAhead true (Seq (Char 48) (Seq (Char 48) (Seq (Char 48) (Char 48))));
   Repeat 4 (Some 4%N) true (Class false [(48, 57)]%N)].

Definition ssn_rule : RegExp :=
  mkRegExp (Parser.seq_of (AssertStart :: ssn_terms ++ [AssertEnd])%list) 0 flags_none.

(** ** Base64 *)

Definition base64_chars : CharSet := [(65, 90); (97, 122); (48, 57); (43, 43); (47, 47)]%N.

(** The last two characters: both of the alphabet, or one of it and
    [=], or [==]. *)
Definition base64_endings : list Language.Layout :=
  [[in_ranges base64_chars; in_ranges base64_chars];
   [in_ranges base64_chars; is_char 61];
   [is_char 61; is_char 61]].

(** A multiple of four characters, of the alphabet but for the last
    two, which are one of the endings. *)
Definition base64_text (s : JsString) : bool :=
  (length s mod 4 =? 0)%nat
  && match rev s with
     | [] => true
     | [_] => false
     | y :: x :: r => all_in base64_chars r && Language.has_layout_among base64_endings [x; y]
     end.

(** ** HTML tags *)

(** A letter, and a [>] somewhere after it. *)
Definition opens (u : JsString) : bool :=
  match u with
  | l :: r => letter l && existsb (is_char 62) r
  | [] => false
  end.

(** A tag starts here: [<], or [</], then a letter, and a [>] later. *)
Definition tag_at (t : JsString) : bool :=
  match t with
  | c :: u =>
      is_char 60 c
      && (opens u || match u with d :: v => is_char 47 d && opens v | [] => false end)
  | [] => false
  end.

(** A tag starts somewhere in the string. *)
Fixpoint html_text (s : JsString) : bool :=
  match s with
  | [] => false
  | _ :: t => tag_at s || html_text t
  end.

End Formats.

(** * Facts about the engine, the parser and the validator *)

Module EngineFacts.
Import Engine Positions.

Lemma map_flat_map (A B C : Type) (f : B -> C) (g : A -> list B) (l : list A) :
  map f (flat_map g l) = flat_map (fun a => map f (g a)) l.
Proof.
  induction l as [|a l IH]; simpl; [reflexivity|].
  now rewrite map_app, IH.
Qed.

Lemma flat_map_map (A B C : Type) (f : A -> B) (g : B -> list C) (l : list A) :
  flat_map g (map f l) = flat_map (fun a => g (f a)) l.
Proof.
  induction l as [|a l IH]; simpl; [reflexivity|]. now rewrite IH.
Qed.

Lemma skipn_nth_error (A : Type) (l : list A) : forall i,
  skipn i l = match nth_error l i with Some c => c :: skipn (S i) l | None => [] end.
Proof.
  induction l as [|a l IH]; intros [|i]; try reflexivity.
  cbn [skipn nth_error]. rewrite IH. reflexivity.
Qed.

Lemma prefix_ok_app ta tb : forall s,
  prefix_ok (ta ++ tb) s = prefix_ok ta s && prefix_ok tb (skipn (length ta) s).
Proof.
  induction ta as [|t ta IH]; intros s; [reflexivity|].
  destruct s as [|c s]; [reflexivity|].
  cbn [app prefix_ok length skipn]. rewrite IH. apply andb_assoc.
Qed.

Lemma prefix_ok_length ts : forall s, prefix_ok ts s = true -> length ts <= length s.
Proof.
  induction ts as [|t ts IH]; intros s H; [simpl; lia|].
  destruct s as [|c s]; [discriminate|].
  cbn [prefix_ok] in H. apply andb_prop in H as [_ H]. apply IH in H. simpl. lia.
Qed.

Lemma prefix_ok_nth ts : forall s k,
  prefix_ok ts s = true -> k < length ts ->
  nth k ts (fun _ => true) (nth k s 0%N) = true.
Proof.
  induction ts as [|t ts IH]; intros s k H Hk; [simpl in Hk; lia|].
  destruct s as [|c s]; [discriminate|].
  cbn [prefix_ok] in H. apply andb_prop in H as [H1 H2].
  destruct k as [|k]; [exact H1|]. cbn [nth]. apply IH; [exact H2|simpl in Hk; lia].
Qed.

Section Facts.
Variable unicode_upper : N -> list N.
Variable ignoreCase : bool.
Variable input : list N.

Local Abbreviation run := (Engine.run unicode_upper ignoreCase input).
Local Abbreviation positions := (Positions.positions unicode_upper ignoreCase input).
Local Abbreviation chain := (Shapes.chain unicode_upper ignoreCase input).

Lemma CharacterSetMatcher_positions test x :
  map fst (CharacterSetMatcher input test x) = char_positions input test (fst x).
Proof.
  unfold CharacterSetMatcher, char_positions, endIndex.
  destruct (nth_error input (fst x)) as [ch|]; [|reflexivity].
  now destruct (test ch).
Qed.

Lemma RepeatMatcher_positions m parens p greedy :
  (forall x, map fst (m x) = p (fst x)) ->
  forall fuel min max x,
    map fst (RepeatMatcher m parens fuel min max greedy x)
    = RepeatPositions p fuel min max greedy (fst x).
Proof.
  intros Hm. induction fuel as [|fuel IH]; intros min max x; [reflexivity|].
  cbn [RepeatMatcher RepeatPositions].
  assert (Hit : map fst
              (flat_map (fun y => if (min =? 0)%N && (endIndex y =? endIndex x)%nat then []
                                  else RepeatMatcher m parens fuel (N.pred min)
                                         (option_map N.pred max) greedy y)
                        (m (endIndex x, clear_captures parens (captures x))))
            = flat_map (fun j => if (min =? 0)%N && (j =? fst x)%nat then []
                                 else RepeatPositions p fuel (N.pred min)
                                        (option_map N.pred max) greedy j)
                       (p (fst x))).
  { rewrite map_flat_map.
    rewrite <- (Hm (endIndex x, clear_captures parens (captures x))) at 1.
    cbn [fst]. unfold endIndex at 3.
    rewrite flat_map_map. apply flat_map_ext. intros y.
    unfold endIndex. destruct ((min =? 0)%N && (fst y =? fst x)%nat); [reflexivity|].
    apply IH. }
  destruct max as [[|mx]|]; try reflexivity.
  - destruct (negb (min =? 0)%N); [exact Hit|].
    destruct greedy; cbv iota; [rewrite map_app|rewrite map_cons]; f_equal; exact Hit.
  - destruct (negb (min =? 0)%N); [exact Hit|].
    destruct greedy; cbv iota; [rewrite map_app|rewrite map_cons]; f_equal; exact Hit.
Qed.

(** The end indices of the matcher are the end positions. *)
Lemma run_positions r : forall x, map fst (run r x) = positions r (fst x).
Proof.
  induction r as [ |c| |inv cs| | |a IHa b IHb|a IHa b IHb|min max greedy r IH|k r IH|neg r IH];
    intros x; cbn [Engine.run Positions.positions].
  - reflexivity.
  - apply CharacterSetMatcher_positions.
  - apply CharacterSetMatcher_positions.
  - apply CharacterSetMatcher_positions.
  - unfold endIndex. now destruct (fst x =? 0)%nat.
  - unfold endIndex. now destruct (fst x =? length input)%nat.
  - rewrite map_flat_map, <- IHa, flat_map_map. apply flat_map_ext. intros y. apply IHb.
  - now rewrite map_app, IHa, IHb.
  - apply RepeatMatcher_positions. exact IH.
  - rewrite map_map. cbn [fst]. unfold endIndex. rewrite <- IH. apply map_ext. reflexivity.
  - specialize (IH x). destruct (run r x) as [|y l]; cbn [map] in IH; rewrite <- IH.
    + now destruct neg.
    + now destruct neg.
Qed.

Lemma nonempty_In (l : list nat) : nonempty l = true <-> exists j, In j l.
Proof.
  destruct l as [|a l]; simpl; split; try discriminate.
  - intros [j []].
  - intros _. exists a. now left.
  - reflexivity.
Qed.

Lemma in_positions_Seq a b i j :
  In j (positions (Seq a b) i) <-> exists k, In k (positions a i) /\ In j (positions b k).
Proof. cbn [Positions.positions]. apply in_flat_map. Qed.

Lemma in_positions_AssertEnd i j :
  In j (positions AssertEnd i) <-> i = length input /\ j = i.
Proof.
  cbn [Positions.positions]. destruct (Nat.eqb_spec i (length input)); simpl; intuition.
Qed.

Lemma in_char_positions test i j :
  In j (char_positions input test i)
  <-> j = S i /\ exists ch, nth_error input i = Some ch /\ test ch = true.
Proof.
  unfold char_positions. destruct (nth_error input i) as [ch|].
  - destruct (test ch) eqn:E; simpl.
    + split; [intros [<-|[]]; eauto|intros [-> _]; now left].
    + split; [intros []|]. intros [_ (ch' & H & H')]. congruence.
  - simpl. split; [intros []|]. intros [_ (ch' & H & _)]. discriminate.
Qed.

Lemma char_positions_progress test i j :
  In j (char_positions input test i) -> i < j <= length input.
Proof.
  intros H. apply in_char_positions in H as [-> (ch & H & _)].
  assert (i < length input) by (apply nth_error_Some; congruence). lia.
Qed.

(** Repetition of a term that always consumes input: the end positions
    are those reached by a number of iterations within the bounds. *)
Lemma RepeatPositions_spec p greedy :
  (forall i j, In j (p i) -> i < j <= length input) ->
  forall fuel min max i j,
    N.to_nat min + (length input - i) < fuel ->
    (forall mx, max = Some mx -> (min <= mx)%N) ->
    (In j (RepeatPositions p fuel min max greedy i)
     <-> exists k, N.to_nat min <= k
                   /\ (forall mx, max = Some mx -> k <= N.to_nat mx)
                   /\ iterate_reaches p k i j).
Proof.
  intros Hp. induction fuel as [|fuel IH]; intros min max i j Hfuel Hmax; [lia|].
  cbn [RepeatPositions].
  set (iter := flat_map _ (p i)).
  assert (Hiter : max <> Some 0%N ->
    (In j iter
     <-> exists k, N.to_nat (N.pred min) <= k
                 /\ (forall mx, max = Some mx -> S k <= N.to_nat mx)
                 /\ iterate_reaches p (S k) i j)).
  { intros Hnz. unfold iter. rewrite in_flat_map. split.
    - intros (m & Hm & Hj).
      pose proof (Hp _ _ Hm) as Hlt.
      replace (m =? i)%nat with false in Hj by (symmetry; apply Nat.eqb_neq; lia).
      rewrite andb_false_r in Hj.
      apply IH in Hj.
      + destruct Hj as (k & Hk1 & Hk2 & Hk3). exists k. split; [exact Hk1|]. split.
        * intros mx ->. specialize (Hk2 (N.pred mx) eq_refl).
          assert (mx <> 0%N) by congruence. lia.
        * cbn [iterate_reaches]. eauto.
      + lia.
      + intros mx Hmx. destruct max as [mx'|]; [|discriminate].
        injection Hmx as <-. specialize (Hmax mx' eq_refl). lia.
    - intros (k & Hk1 & Hk2 & m & Hm & Hk3). exists m. split; [exact Hm|].
      pose proof (Hp _ _ Hm) as Hlt.
      replace (m =? i)%nat with false by (symmetry; apply Nat.eqb_neq; lia).
      rewrite andb_false_r.
      apply IH.
      + lia.
      + intros mx Hmx. destruct max as [mx'|]; [|discriminate].
        injection Hmx as <-. specialize (Hmax mx' eq_refl). lia.
      + exists k. split; [exact Hk1|]. split; [|exact Hk3].
        intros mx Hmx. destruct max as [mx'|]; [|discriminate].
        injection Hmx as <-. specialize (Hk2 mx' eq_refl). lia. }
  clearbody iter.
  assert (Hbody :
    max <> Some 0%N ->
    (In j (if negb (min =? 0)%N then iter else if greedy then iter ++ [i] else i :: iter)
     <-> exists k, N.to_nat min <= k
                   /\ (forall mx, max = Some mx -> k <= N.to_nat mx)
                   /\ iterate_reaches p k i j)).
  { intros Hnz. specialize (Hiter Hnz).
    destruct (N.eqb_spec min 0) as [Hz|Hz]; cbn [negb].
    - assert (Hin : In j (if greedy then iter ++ [i] else i :: iter) <-> i = j \/ In j iter).
      { destruct greedy; [rewrite in_app_iff|]; simpl; tauto. }
      rewrite Hin, Hiter. subst min. split.
      + intros [<-|(k & Hk1 & Hk2 & Hk3)].
        * exists 0. split; [lia|]. split; [intros; lia|reflexivity].
        * exists (S k). split; [lia|]. split; [exact Hk2|exact Hk3].
      + intros ([|k] & Hk1 & Hk2 & Hk3).
        * left. exact Hk3.
        * right. exists k. split; [simpl; lia|]. split; [exact Hk2|exact Hk3].
    - rewrite Hiter. split.
      + intros (k & Hk1 & Hk2 & Hk3). exists (S k). split; [lia|]. split; [exact Hk2|exact Hk3].
      + intros ([|k] & Hk1 & Hk2 & Hk3); [lia|].
        exists k. split; [lia|]. split; [exact Hk2|exact Hk3]. }
  destruct max as [[|mx]|].
  - specialize (Hmax 0%N eq_refl). assert (min = 0%N) by lia. subst min. simpl. split.
    + intros [<-|[]]. exists 0. split; [lia|]. split; [intros; lia|reflexivity].
    + intros ([|k] & Hk1 & Hk2 & Hk3).
      * left. exact Hk3.
      * specialize (Hk2 0%N eq_refl). lia.
  - apply Hbody. discriminate.
  - apply Hbody. discriminate.
Qed.

Lemma iterate_char_reaches test k : forall i j,
  iterate_reaches (char_positions input test) k i j
  <-> j = i + k /\ forall t, i <= t < j ->
                    exists ch, nth_error input t = Some ch /\ test ch = true.
Proof.
  induction k as [|k IH]; intros i j; cbn [iterate_reaches].
  - split; [intros <-; split; [lia|intros; lia]|intros [-> _]; lia].
  - split.
    + intros (m & Hm & Hk). apply in_char_positions in Hm as [-> Hch].
      apply IH in Hk as [-> Hall]. split; [lia|].
      intros t Ht. destruct (Nat.eq_dec t i) as [->|]; [exact Hch|]. apply Hall. lia.
    + intros [-> Hall]. exists (S i). split.
      * apply in_char_positions. split; [reflexivity|]. apply Hall. lia.
      * apply IH. split; [lia|]. intros t Ht. apply Hall. lia.
Qed.

Lemma positions_char_test r test i :
  char_test unicode_upper ignoreCase r = Some test ->
  positions r i = char_positions input test i.
Proof. destruct r; simpl; intros [= <-]; reflexivity. Qed.

Lemma iterate_reaches_ext p q k :
  (forall i, p i = q i) ->
  forall a b, iterate_reaches p k a b <-> iterate_reaches q k a b.
Proof.
  intros E. induction k as [|k IH]; intros a b; cbn [iterate_reaches]; [tauto|].
  rewrite E. split; intros (m & Hm & Hk); exists m; (split; [exact Hm|]); now apply IH.
Qed.

(** A quantified one-character term. *)
Lemma in_positions_Repeat_char r test min max greedy i j :
  char_test unicode_upper ignoreCase r = Some test ->
  (forall mx, max = Some mx -> (min <= mx)%N) ->
  (In j (positions (Repeat min max greedy r) i)
   <-> exists k, j = i + k /\ N.to_nat min <= k
                 /\ (forall mx, max = Some mx -> k <= N.to_nat mx)
                 /\ forall t, i <= t < j ->
                      exists ch, nth_error input t = Some ch /\ test ch = true).
Proof.
  intros Ht Hmax. cbn [Positions.positions].
  rewrite (RepeatPositions_spec (positions r) greedy).
  - split; intros (k & H); exists k.
    + destruct H as (H1 & H2 & H3).
      apply (iterate_reaches_ext _ _ k (fun a => positions_char_test r test a Ht)) in H3.
      apply iterate_char_reaches in H3 as [-> Hall]. repeat split; auto.
    + destruct H as (-> & H1 & H2 & H3). repeat split; auto.
      apply (iterate_reaches_ext _ _ k (fun a => positions_char_test r test a Ht)).
      apply iterate_char_reaches. split; [reflexivity|exact H3].
  - intros a b. rewrite (positions_char_test _ _ _ Ht). apply char_positions_progress.
  - unfold repeat_fuel. lia.
  - exact Hmax.
Qed.

Lemma iterate_fixed_reaches p ts :
  (forall i j, In j (p i) <-> j = i + length ts /\ prefix_ok ts (skipn i input) = true) ->
  forall n i j,
    iterate_reaches p n i j
    <-> j = i + length (concat (repeat ts n))
        /\ prefix_ok (concat (repeat ts n)) (skipn i input) = true.
Proof.
  intros Hp. induction n as [|n IH]; intros i j; cbn [iterate_reaches repeat concat].
  - simpl. split; [intros <-; split; [lia|reflexivity]|intros [-> _]; lia].
  - rewrite length_app, prefix_ok_app. split.
    + intros (m & Hm & Hk). apply Hp in Hm as [-> Hm]. apply IH in Hk as [-> Hk].
      split; [lia|]. rewrite Hm. rewrite skipn_skipn in *.
      now rewrite (Nat.add_comm (length ts) i).
    + intros [-> H]. apply andb_prop in H as [H1 H2]. exists (i + length ts). split.
      * apply Hp. now split.
      * apply IH. split; [lia|]. rewrite skipn_skipn in H2.
        now rewrite (Nat.add_comm i (length ts)).
Qed.

(** A pattern of fixed width ends in one place: after its characters,
    when each passes its test. *)
Lemma positions_fixed r : forall ts,
  fixed_tests unicode_upper ignoreCase r = Some ts ->
  forall i j, In j (positions r i)
              <-> j = i + length ts /\ prefix_ok ts (skipn i input) = true.
Proof.
  assert (Hchar : forall r test, char_test unicode_upper ignoreCase r = Some test ->
            forall i j, In j (positions r i)
              <-> j = i + 1 /\ prefix_ok [test] (skipn i input) = true).
  { intros r0 test Ht i j. rewrite (positions_char_test _ _ _ Ht), in_char_positions.
    rewrite skipn_nth_error. destruct (nth_error input i) as [ch|].
    - cbn [prefix_ok]. rewrite andb_true_r. split.
      + intros [-> (ch' & [= <-] & H)]. split; [lia|exact H].
      + intros [-> H]. split; [lia|]. eauto.
    - cbn [prefix_ok]. split; [intros [_ (ch & H & _)]; discriminate|intros [_ H]; discriminate]. }
  induction r as [ |c| |inv cs| | |a IHa b IHb|a IHa b IHb|min max greedy r IH|k r IH|neg r IH];
    intros ts Hts i j; cbn [fixed_tests] in Hts; try discriminate.
  - injection Hts as <-. simpl. split; [intros [<-|[]]; split; [lia|reflexivity]|].
    intros [-> _]. left. lia.
  - cbn [char_test option_map] in Hts. injection Hts as <-. now apply Hchar.
  - cbn [char_test option_map] in Hts. injection Hts as <-. now apply Hchar.
  - cbn [char_test option_map] in Hts. injection Hts as <-. now apply Hchar.
  - destruct (fixed_tests unicode_upper ignoreCase a) as [ta|]; [|discriminate].
    destruct (fixed_tests unicode_upper ignoreCase b) as [tb|]; [|discriminate].
    injection Hts as <-. rewrite in_positions_Seq, length_app, prefix_ok_app. split.
    + intros (m & Hm & Hj). apply (IHa _ eq_refl) in Hm as [-> Hm].
      apply (IHb _ eq_refl) in Hj as [-> Hj]. split; [lia|].
      rewrite Hm, skipn_skipn. now rewrite (Nat.add_comm (length ta) i).
    + intros [-> H]. apply andb_prop in H as [H1 H2]. exists (i + length ta). split.
      * apply (IHa _ eq_refl). now split.
      * apply (IHb _ eq_refl). split; [lia|]. rewrite skipn_skipn in H2.
        now rewrite (Nat.add_comm i (length ta)).
  - destruct max as [max|]; [|discriminate].
    destruct (fixed_tests unicode_upper ignoreCase r) as [[|t tr]|]; try discriminate.
    destruct (N.eqb_spec min max) as [<-|]; [|discriminate].
    injection Hts as <-. cbn [Positions.positions].
    rewrite (RepeatPositions_spec (positions r) greedy).
    + split.
      * intros (n & H1 & H2 & H3). specialize (H2 min eq_refl).
        assert (n = N.to_nat min) by lia. subst n.
        now apply (iterate_fixed_reaches (positions r) (t :: tr) (IH _ eq_refl)).
      * intros H. exists (N.to_nat min). split; [lia|]. split.
        -- intros mx [= <-]. lia.
        -- now apply (iterate_fixed_reaches (positions r) (t :: tr) (IH _ eq_refl)).
    + intros a b H. apply (IH _ eq_refl) in H as [-> H].
      apply prefix_ok_length in H. rewrite length_skipn in H. simpl in *. lia.
    + unfold repeat_fuel. lia.
    + intros mx [= <-]. lia.
  - cbn [Positions.positions]. now apply IH.
Qed.

Lemma positions_seq_of rs : forall i j,
  In j (positions (Parser.seq_of rs) i) <-> chain rs i j.
Proof.
  induction rs as [|r rs IH]; intros i j.
  - simpl. intuition.
  - destruct rs as [|r' rs].
    + cbn [Parser.seq_of Shapes.chain]. split.
      * intros H. exists j. now split.
      * intros (k & H & <-). exact H.
    + change (Parser.seq_of (r :: r' :: rs)) with (Seq r (Parser.seq_of (r' :: rs))).
      rewrite in_positions_Seq. cbn [Shapes.chain] in *.
      split; intros (k & Hk & H); exists k; (split; [exact Hk|]); now apply IH.
Qed.

Lemma chain_app a b : forall i j,
  chain (a ++ b) i j <-> exists k, chain a i k /\ chain b k j.
Proof.
  induction a as [|r a IH]; intros i j; cbn [app Shapes.chain].
  - split; [intros H; now exists i|intros (k & <- & H); exact H].
  - split.
    + intros (k & Hk & H). apply IH in H as (m & H1 & H2). exists m. split; [|exact H2].
      exists k. now split.
    + intros (m & (k & Hk & H1) & H2). exists k. split; [exact Hk|]. apply IH. now exists m.
Qed.

Lemma chain_AssertStart rs i j :
  chain (AssertStart :: rs) i j <-> i = 0 /\ chain rs 0 j.
Proof.
  cbn [Shapes.chain Positions.positions]. destruct (Nat.eqb_spec i 0) as [->|Hi].
  - split; [intros (k & [<-|[]] & H); now split|intros [_ H]; exists 0; split; [now left|exact H]].
  - split; [intros (k & [] & _)|intros [-> _]; now elim Hi].
Qed.

Lemma chain_AssertEnd i j :
  chain [AssertEnd] i j <-> i = length input /\ j = i.
Proof.
  cbn [Shapes.chain]. split.
  - intros (k & Hk & <-). now apply in_positions_AssertEnd in Hk as [-> ->].
  - intros [-> ->]. exists (length input). split; [|reflexivity].
    apply in_positions_AssertEnd. now split.
Qed.

Lemma chain_LookAhead r rs i j :
  chain (LookAhead false r :: rs) i j <-> (exists k, In k (positions r i)) /\ chain rs i j.
Proof.
  cbn [Shapes.chain Positions.positions]. destruct (positions r i) as [|a l] eqn:E.
  - split; [intros (k & [] & _)|intros [(k & []) _]].
  - split.
    + intros (k & [<-|[]] & H). split; [|exact H]. exists a. now left.
    + intros [_ H]. exists i. split; [now left|exact H].
Qed.

End Facts.

Section TestFacts.
Variable unicode_upper : N -> list N.
Import RegExpObject.

Lemma first_some_Some (A : Type) (f : nat -> option A) l :
  (exists r, first_some f l = Some r) <-> exists i, In i l /\ exists r, f i = Some r.
Proof.
  induction l as [|a l IH]; cbn [first_some].
  - split; [intros [r [=]]|intros (i & [] & _)].
  - destruct (f a) as [r|] eqn:E.
    + split; [intros _; exists a; split; [now left|eauto]|intros _; eauto].
    + rewrite IH. split.
      * intros (i & Hi & H). exists i. split; [now right|exact H].
      * intros (i & [<-|Hi] & r & H); [congruence|]. exists i. split; eauto.
Qed.

Lemma match_at_Some re input i :
  (exists r, match_at unicode_upper re input i = Some r)
  <-> exists j, In j (Positions.positions unicode_upper (ignoreCase_of (re_flags re)) input
                       (re_pattern re) i).
Proof.
  unfold match_at.
  pose proof (run_positions unicode_upper (ignoreCase_of (re_flags re)) input
                (re_pattern re) (i, repeat None (re_groups re))) as H.
  cbn [fst] in H. rewrite <- H.
  destruct (Engine.run _ _ _ _ _) as [|y l]; cbn [map].
  - split; [intros [r [=]]|intros [j []]].
  - split; [intros _; exists (fst y); now left|intros _; eauto].
Qed.

(** [test] succeeds when the pattern has an end position from some
    start position. *)
Lemma test_true_iff re s :
  test unicode_upper re s = true
  <-> exists i j, i <= length (input_of (re_flags re) s)
                  /\ In j (Positions.positions unicode_upper (ignoreCase_of (re_flags re))
                             (input_of (re_flags re) s) (re_pattern re) i).
Proof.
  unfold test, RegExpBuiltinExec.
  set (input := input_of (re_flags re) s).
  assert (H : (exists r, first_some (match_at unicode_upper re input)
                           (seq 0 (S (length input))) = Some r)
              <-> exists i j, i <= length input
                  /\ In j (Positions.positions unicode_upper (ignoreCase_of (re_flags re))
                             input (re_pattern re) i)).
  { rewrite first_some_Some. split.
    - intros (i & Hi & Hr). apply match_at_Some in Hr as [j Hj].
      apply in_seq in Hi. exists i, j. split; [lia|exact Hj].
    - intros (i & j & Hi & Hj). exists i. split; [apply in_seq; lia|].
      apply match_at_Some. now exists j. }
  rewrite <- H. destruct (first_some _ _) as [r|].
  - split; eauto.
  - split; [discriminate|intros [r [=]]].
Qed.

(** A pattern [^ ... $]. *)
Lemma test_anchored re s mids :
  re_pattern re = Parser.seq_of (AssertStart :: mids ++ [AssertEnd]) ->
  (test unicode_upper re s = true
   <-> Shapes.chain unicode_upper (ignoreCase_of (re_flags re)) (input_of (re_flags re) s) mids
         0 (length (input_of (re_flags re) s))).
Proof.
  intros Hre. rewrite test_true_iff, Hre. split.
  - intros (i & j & _ & H). apply positions_seq_of, chain_AssertStart in H as [-> H].
    apply chain_app in H as (k & H1 & H2). apply chain_AssertEnd in H2 as [-> ->]. exact H1.
  - intros H. exists 0, (length (input_of (re_flags re) s)). split; [lia|].
    apply positions_seq_of, chain_AssertStart. split; [reflexivity|].
    apply chain_app. eexists. split; [exact H|]. now apply chain_AssertEnd.
Qed.

End TestFacts.
End EngineFacts.

Module FuelFacts.
Import Engine.

Lemma flat_map_ext_in (A B : Type) (f g : A -> list B) (l : list A) :
  (forall a, In a l -> f a = g a) -> flat_map f l = flat_map g l.
Proof.
  induction l as [|a l IH]; intros H; [reflexivity|].
  cbn [flat_map]. rewrite (H a) by now left. rewrite IH; [reflexivity|].
  intros b Hb. apply H. now right.
Qed.

Section Fuel.
Variable unicode_upper : N -> list N.
Variable ignoreCase : bool.
Variable input : list N.

Local Abbreviation run := (Engine.run unicode_upper ignoreCase input).
Local Abbreviation advancing := (Shapes.advancing input).

Lemma RepeatMatcher_advancing m parens greedy :
advancing m ->
forall fuel min max, advancing (RepeatMatcher m parens fuel min max greedy).
Proof.
intros Hm. induction fuel as [|fuel IH]; intros min max x y Hx Hy; [destruct Hy|].
cbn [RepeatMatcher] in Hy.
set (iter := flat_map _ (m _)) in Hy.
assert (Hiter : In y iter -> endIndex x <= endIndex y <= length input).
{ unfold iter. intros H. apply in_flat_map in H as (z & Hz & H).
  apply Hm in Hz; [|exact Hx]. cbn [endIndex fst] in Hz.
  destruct ((min =? 0)%N && (endIndex z =? endIndex x)%nat); [destruct H|].
  apply IH in H; [|lia]. unfold endIndex in *. lia. }
clearbody iter.
assert (Hself : In y [x] -> endIndex x <= endIndex y <= length input).
{ intros [<-|[]]. lia. }
destruct max as [[|mx]|]; try (now apply Hself);
  destruct (negb (min =? 0)%N); try (now apply Hiter);
  destruct greedy;
  try (apply in_app_iff in Hy as [Hy|Hy]; [now apply Hiter|now apply Hself]);
  (destruct Hy as [<-|Hy]; [lia|now apply Hiter]).
Qed.

Lemma CharacterSetMatcher_advancing test : advancing (CharacterSetMatcher input test).
Proof.
intros x y Hx Hy. unfold CharacterSetMatcher in Hy.
destruct (nth_error input (endIndex x)) as [ch|] eqn:E; [|destruct Hy].
assert (endIndex x < length input) by (apply nth_error_Some; congruence).
destruct (test ch); [|destruct Hy]. destruct Hy as [<-|[]]. cbn. lia.
Qed.

Lemma run_advancing r : advancing (run r).
Proof.
induction r as [ |c| |inv cs| | |a IHa b IHb|a IHa b IHb|min max greedy r IH|k r IH|neg r IH];
  intros x y Hx Hy; cbn [Engine.run] in Hy.
- destruct Hy as [<-|[]]. lia.
- now apply CharacterSetMatcher_advancing in Hy.
- now apply CharacterSetMatcher_advancing in Hy.
- now apply CharacterSetMatcher_advancing in Hy.
- destruct (endIndex x =? 0)%nat; [|destruct Hy]. destruct Hy as [<-|[]]. lia.
- destruct (endIndex x =? length input)%nat; [|destruct Hy]. destruct Hy as [<-|[]]. lia.
- apply in_flat_map in Hy as (z & Hz & Hy). apply IHa in Hz; [|exact Hx].
  apply IHb in Hy; lia.
- apply in_app_iff in Hy as [Hy|Hy]; [now apply IHa|now apply IHb].
- eapply RepeatMatcher_advancing; eassumption.
- apply in_map_iff in Hy as (z & <- & Hz). apply IH in Hz; [|exact Hx]. exact Hz.
- destruct (run r x) as [|z l]; destruct neg; try destruct Hy as [<-|[]];
    try destruct Hy; cbn; lia.
Qed.

(** The fuel [repeat_fuel] gives [RepeatMatcher] is never used up: with
  any larger amount the result is the same. *)
Lemma RepeatMatcher_fuel m parens greedy :
advancing m ->
forall fuel fuel' min max x,
  endIndex x <= length input ->
  repeat_fuel input min (endIndex x) <= fuel ->
  repeat_fuel input min (endIndex x) <= fuel' ->
  RepeatMatcher m parens fuel min max greedy x
  = RepeatMatcher m parens fuel' min max greedy x.
Proof.
intros Hm. unfold repeat_fuel.
induction fuel as [|fuel IH]; intros fuel' min max x Hx Hf Hf'; [lia|].
destruct fuel' as [|fuel']; [lia|].
cbn [RepeatMatcher].
assert (Hiter :
  flat_map (fun y => if (min =? 0)%N && (endIndex y =? endIndex x)%nat then []
                     else RepeatMatcher m parens fuel (N.pred min)
                            (option_map N.pred max) greedy y)
           (m (endIndex x, clear_captures parens (captures x)))
  = flat_map (fun y => if (min =? 0)%N && (endIndex y =? endIndex x)%nat then []
                       else RepeatMatcher m parens fuel' (N.pred min)
                              (option_map N.pred max) greedy y)
             (m (endIndex x, clear_captures parens (captures x)))).
{ apply flat_map_ext_in. intros y Hy. apply Hm in Hy; [|exact Hx].
  cbn [endIndex fst] in Hy.
  destruct (N.eqb_spec min 0) as [Hz|Hz]; cbn [andb].
  - destruct (Nat.eqb_spec (endIndex y) (endIndex x)) as [|Hne]; [reflexivity|].
    unfold endIndex in *. apply IH; lia.
  - unfold endIndex in *. apply IH; lia. }
destruct max as [[|mx]|]; [reflexivity| |]; now rewrite Hiter.
Qed.

Lemma run_Repeat_fuel r min max greedy x extra :
endIndex x <= length input ->
run (Repeat min max greedy r) x
= RepeatMatcher (run r) (groups_of r) (repeat_fuel input min (endIndex x) + extra)
                min max greedy x.
Proof.
intros Hx. cbn [Engine.run]. apply RepeatMatcher_fuel; [apply run_advancing|exact Hx|lia|lia].
Qed.

End Fuel.
End FuelFacts.

Module ParserFacts.
Import Parser Shapes.

Lemma read_digits_uint_acc d : forall rest a n,
  read_digits (NilEmpty.string_of_uint d ++ rest) (Npos a) n
  = read_digits rest (Npos (Pos.of_uint_acc d a))
                (n + String.length (NilEmpty.string_of_uint d)).
Proof.
  induction d; intros rest a n;
    cbn [NilEmpty.string_of_uint append read_digits String.length Pos.of_uint_acc];
    try (change (is_digit _) with true; cbv iota;
         match goal with
         | |- read_digits _ ?acc _ = read_digits _ (N.pos (Pos.of_uint_acc _ ?p)) _ =>
             replace acc with (N.pos p)
               by (match goal with
                   | |- context [(N_of_ascii ?c - 48)%N] =>
                       let v := eval vm_compute in (N_of_ascii c - 48)%N in
                       change (N_of_ascii c - 48)%N with v
                   end; lia)
         end;
         rewrite IHd; f_equal; lia).
  now rewrite Nat.add_0_r.
Qed.

Lemma read_digits_uint d : forall rest n,
  read_digits (NilEmpty.string_of_uint d ++ rest) 0 n
  = read_digits rest (Pos.of_uint d) (n + String.length (NilEmpty.string_of_uint d)).
Proof.
  induction d; intros rest n;
    cbn [NilEmpty.string_of_uint append read_digits String.length Pos.of_uint];
    try (change (is_digit _) with true; cbv iota;
         match goal with
         | |- read_digits _ (10 * 0 + _)%N _ = _ =>
             change (10 * 0 + (N_of_ascii _ - 48))%N with 0%N || idtac
         end).
  - now rewrite Nat.add_0_r.
  - rewrite IHd. f_equal. lia.
  - change (10 * 0 + (N_of_ascii "1" - 48))%N with (Npos 1).
    rewrite read_digits_uint_acc. f_equal. lia.
  - change (10 * 0 + (N_of_ascii "2" - 48))%N with (Npos 2).
    rewrite read_digits_uint_acc. f_equal. lia.
  - change (10 * 0 + (N_of_ascii "3" - 48))%N with (Npos 3).
    rewrite read_digits_uint_acc. f_equal. lia.
  - change (10 * 0 + (N_of_ascii "4" - 48))%N with (Npos 4).
    rewrite read_digits_uint_acc. f_equal. lia.
  - change (10 * 0 + (N_of_ascii "5" - 48))%N with (Npos 5).
    rewrite read_digits_uint_acc. f_equal. lia.
  - change (10 * 0 + (N_of_ascii "6" - 48))%N with (Npos 6).
    rewrite read_digits_uint_acc. f_equal. lia.
  - change (10 * 0 + (N_of_ascii "7" - 48))%N with (Npos 7).
    rewrite read_digits_uint_acc. f_equal. lia.
  - change (10 * 0 + (N_of_ascii "8" - 48))%N with (Npos 8).
    rewrite read_digits_uint_acc. f_equal. lia.
  - change (10 * 0 + (N_of_ascii "9" - 48))%N with (Npos 9).
    rewrite read_digits_uint_acc. f_equal. lia.
Qed.

Lemma string_of_uint_nonempty p :
  0 < String.length (NilEmpty.string_of_uint (Pos.to_uint p)).
Proof.
  pose proof (Unsigned.to_uint_nonnil p) as H.
  destruct (Pos.to_uint p); [congruence| |..]; simpl; lia.
Qed.

Import Validator Spec.

Lemma append_assoc (a b c : string) : ((a ++ b) ++ c = a ++ (b ++ c))%string.
Proof. induction a as [|x a IH]; cbn [append]; [reflexivity|now rewrite IH]. Qed.

Lemma length_append (a b : string) :
  String.length (a ++ b) = String.length a + String.length b.
Proof. induction a as [|x a IH]; cbn [append String.length]; [reflexivity|now rewrite IH]. Qed.

Lemma length_zeros k : String.length (zeros k) = k.
Proof. induction k as [|k IH]; cbn [zeros String.length]; [reflexivity|now rewrite IH]. Qed.

(** The digits that a reader stops after. *)
Lemma read_digits_stop c rest acc n :
  is_digit c = false -> read_digits (String c rest) acc n = (acc, n, String c rest).
Proof. intros H. cbn [read_digits]. now rewrite H. Qed.

Lemma read_digits_zeros k : forall rest acc n,
  read_digits (zeros k ++ rest) acc n = read_digits rest (acc * 10 ^ N.of_nat k)%N (n + k).
Proof.
  induction k as [|k IH]; intros rest acc n.
  - cbn [zeros append]. rewrite Nat.add_0_r. f_equal. change (10 ^ N.of_nat 0)%N with 1%N. lia.
  - cbn [zeros append read_digits]. change (is_digit "0") with true. cbv iota.
    rewrite IH. change (N_of_ascii "0" - 48)%N with 0%N. f_equal.
    + rewrite Nat2N.inj_succ, N.pow_succ_r'. lia.
    + lia.
Qed.

Lemma js_String c s : js (String c s) = N_of_ascii c :: js s.
Proof. reflexivity. Qed.

(** ** The text of a Number *)

Lemma digit_plain c : is_digit c = true -> is_plain c = true.
Proof.
  destruct c as [[] [] [] [] [] [] [] []]; try discriminate; reflexivity.
Qed.

Lemma plain_no_plus c : is_plain c = true -> Ascii.eqb c "+" = false.
Proof.
  destruct c as [[] [] [] [] [] [] [] []]; try discriminate; reflexivity.
Qed.

Lemma all_digits_uint d : all_digits (NilEmpty.string_of_uint d) = true.
Proof. induction d; cbn [NilEmpty.string_of_uint]; [reflexivity|..]; exact IHd. Qed.

Lemma all_digits_zeros k : all_digits (zeros k) = true.
Proof. induction k as [|k IH]; [reflexivity|exact IH]. Qed.

Lemma all_digits_substring s : forall n m,
  all_digits s = true -> all_digits (String.substring n m s) = true.
Proof.
  induction s as [|c s IH]; intros n m H.
  - destruct n, m; reflexivity.
  - unfold all_digits in H. cbn [list_ascii_of_string forallb] in H.
    apply andb_prop in H as [Hc Hs]. destruct n as [|n].
    + destruct m as [|m]; [reflexivity|]. cbn [String.substring].
      unfold all_digits. cbn [list_ascii_of_string forallb]. rewrite Hc.
      exact (IH 0 m Hs).
    + cbn [String.substring]. exact (IH n m Hs).
Qed.

Lemma simple_text_cons c u :
  is_plain c = true -> no_plus_first u -> simple_text (String c u) = simple_text u.
Proof.
  intros Hc Hu. cbn [simple_text]. rewrite Hc. cbn [andb].
  destruct u as [|p u']; [reflexivity|]. cbn [no_plus_first] in Hu. now rewrite Hu.
Qed.

Lemma simple_tail_plain c u :
  is_plain c = true -> simple_tail u -> simple_tail (String c u).
Proof.
  intros Hc [Hu Hp]. split.
  - now rewrite simple_text_cons.
  - now apply plain_no_plus.
Qed.

Lemma simple_tail_digits a : forall u,
  all_digits a = true -> simple_tail u -> simple_tail (a ++ u).
Proof.
  induction a as [|c a IH]; intros u Ha Hu; [exact Hu|].
  unfold all_digits in Ha. cbn [list_ascii_of_string forallb] in Ha.
  apply andb_prop in Ha as [Hc Ha]. cbn [append].
  apply simple_tail_plain; [now apply digit_plain|]. now apply IH.
Qed.

(** A quantified [e]. *)
Lemma simple_tail_exponent u :
  simple_text u = true -> simple_tail (String "e" (String "+" u)).
Proof. intros Hu. split; [exact Hu|reflexivity]. Qed.

Lemma simple_tail_end : simple_tail ",}".
Proof. split; reflexivity. Qed.

Lemma text_terms_cons c u :
  no_plus_first u -> text_terms (String c u) = text_atom c :: text_terms u.
Proof.
  intros Hu. cbn [text_terms]. destruct u as [|p u']; [reflexivity|].
  cbn [no_plus_first] in Hu. now rewrite Hu.
Qed.

(** The text of a positive Number, before what can follow a term. *)
Lemma unsigned_simple_tail s e u :
  simple_tail u -> simple_tail (unsigned_to_string s e ++ u).
Proof.
  intros Hu. unfold unsigned_to_string.
  pose proof (all_digits_uint (Pos.to_uint s)) as Hd. fold (digits_of s) in Hd.
  set (d := digits_of s) in *. set (k := Z.of_nat (String.length d)).
  destruct ((-5 <=? e + k)%Z && (e + k <=? 21)%Z).
  - destruct (k <=? e + k)%Z.
    + rewrite append_assoc. apply simple_tail_digits; [exact Hd|].
      apply simple_tail_digits; [apply all_digits_zeros|exact Hu].
    + destruct (0 <? e + k)%Z.
      * rewrite !append_assoc.
        apply simple_tail_digits; [now apply all_digits_substring|].
        apply simple_tail_plain; [reflexivity|].
        apply simple_tail_digits; [now apply all_digits_substring|exact Hu].
      * change ("0." ++ zeros (Z.to_nat (- (e + k))) ++ d)%string
          with (String "0" (String "." (zeros (Z.to_nat (- (e + k))) ++ d))).
        cbn [append]. apply simple_tail_plain; [reflexivity|].
        apply simple_tail_plain; [reflexivity|]. rewrite append_assoc.
        apply simple_tail_digits; [apply all_digits_zeros|].
        apply simple_tail_digits; [exact Hd|exact Hu].
  - set (x := NilEmpty.string_of_uint (N.to_uint (Z.abs_N (e + k - 1)))).
    assert (Hx : all_digits x = true) by apply all_digits_uint.
    assert (Hexp : simple_tail
                     (String "e" ((if (e + k <? 0)%Z then "-" else "+") ++ x ++ u))).
    { destruct (e + k <? 0)%Z.
      - change ("-" ++ x ++ u)%string with (String "-" (x ++ u)).
        apply simple_tail_plain; [reflexivity|]. apply simple_tail_plain; [reflexivity|].
        now apply simple_tail_digits.
      - change ("+" ++ x ++ u)%string with (String "+" (x ++ u)).
        apply simple_tail_exponent. now apply simple_tail_digits. }
    destruct (k =? 1)%Z.
    + rewrite !append_assoc. cbn [append].
      apply simple_tail_digits; [exact Hd|exact Hexp].
    + rewrite !append_assoc. cbn [append].
      apply simple_tail_digits; [now apply all_digits_substring|].
      apply simple_tail_plain; [reflexivity|].
      apply simple_tail_digits; [now apply all_digits_substring|].
      exact Hexp.
Qed.

Lemma number_simple_tail x u : simple_tail u -> simple_tail (number_to_string x ++ u).
Proof.
  intros Hu. destruct x as [|[]|neg|[] s e]; cbn [number_to_string].
  - change ("NaN" ++ u)%string with (String "N" (String "a" (String "N" u))).
    now repeat (apply simple_tail_plain; [reflexivity|]).
  - change ("-Infinity" ++ u)%string
      with (String "-" (String "I" (String "n" (String "f" (String "i" (String "n"
             (String "i" (String "t" (String "y" u))))))))).
    now repeat (apply simple_tail_plain; [reflexivity|]).
  - change ("Infinity" ++ u)%string
      with (String "I" (String "n" (String "f" (String "i" (String "n"
             (String "i" (String "t" (String "y" u)))))))).
    now repeat (apply simple_tail_plain; [reflexivity|]).
  - change ("0" ++ u)%string with (String "0" u). now apply simple_tail_plain.
  - change (("-" ++ unsigned_to_string s e) ++ u)%string
      with (String "-" (unsigned_to_string s e ++ u)).
    apply simple_tail_plain; [reflexivity|]. now apply unsigned_simple_tail.
  - now apply unsigned_simple_tail.
Qed.

(** A Number that is a count prints as its digits. *)
Lemma count_to_string x n :
  count_of x = Some n ->
  forall rest acc,
    read_digits (number_to_string x ++ rest) 0 acc
    = read_digits rest n (acc + String.length (number_to_string x))
    /\ 0 < String.length (number_to_string x).
Proof.
  destruct x as [| |neg|[] s e]; cbn [count_of]; try discriminate.
  - intros [= <-] rest acc. cbn [number_to_string]. split; [|cbn; lia].
    change ("0" ++ rest)%string with (String "0" rest). cbn [read_digits].
    change (is_digit "0") with true. cbv iota.
    change (10 * 0 + (N_of_ascii "0" - 48))%N with 0%N. f_equal. cbn. lia.
  - set (k := Z.of_nat (String.length (digits_of s))).
    destruct (Z.leb_spec 0 e) as [He|]; [|discriminate].
    destruct (Z.leb_spec (e + k) 21) as [Hk|]; [|discriminate].
    cbn [andb]. intros [= <-] rest acc. cbn [number_to_string]. unfold unsigned_to_string.
    fold k.
    replace ((-5 <=? e + k)%Z && (e + k <=? 21)%Z) with true
      by (symmetry; apply andb_true_intro; split; apply Z.leb_le; lia).
    replace (k <=? e + k)%Z with true by (symmetry; apply Z.leb_le; lia).
    replace (e + k - k)%Z with e by lia. split.
    + rewrite append_assoc. unfold digits_of. rewrite read_digits_uint, read_digits_zeros.
      rewrite Unsigned.of_to, length_append, length_zeros, Z_nat_N.
      f_equal. lia.
    + rewrite length_append. pose proof (string_of_uint_nonempty s). unfold digits_of. lia.
Qed.

Lemma count_text s e n :
  count_of (Finite false s e) = Some n ->
  unsigned_to_string s e = (digits_of s ++ zeros (Z.to_nat e))%string.
Proof.
  cbn [count_of]. set (k := Z.of_nat (String.length (digits_of s))).
  destruct (Z.leb_spec 0 e) as [He|]; [|discriminate].
  destruct (Z.leb_spec (e + k) 21) as [Hk|]; [|discriminate].
  intros _. unfold unsigned_to_string. fold k.
  replace ((-5 <=? e + k)%Z && (e + k <=? 21)%Z) with true
    by (symmetry; apply andb_true_intro; split; apply Z.leb_le; lia).
  replace (k <=? e + k)%Z with true by (symmetry; apply Z.leb_le; lia).
  now replace (e + k - k)%Z with e by lia.
Qed.

(** A text without point and [+] stands for its characters. *)
Lemma text_terms_literal s :
  forallb (fun c => negb (Ascii.eqb c "." || Ascii.eqb c "+")) (list_ascii_of_string s) = true ->
  text_terms s = map Char (js s).
Proof.
  induction s as [|c rest IH]; [reflexivity|].
  cbn [list_ascii_of_string forallb]. intros H. apply andb_prop in H as [Hc Hrest].
  apply negb_true_iff, orb_false_elim in Hc as [Hdot _].
  rewrite js_String. cbn [map text_terms]. specialize (IH Hrest).
  unfold text_atom. rewrite Hdot. destruct rest as [|p rest']; [reflexivity|].
  cbn [list_ascii_of_string forallb] in Hrest. apply andb_prop in Hrest as [Hp _].
  apply negb_true_iff, orb_false_elim in Hp as [_ Hplus]. rewrite Hplus.
  now rewrite IH.
Qed.

Lemma literal_digits a b :
  all_digits a = true ->
  forallb (fun c => negb (Ascii.eqb c "." || Ascii.eqb c "+")) (list_ascii_of_string b) = true ->
  forallb (fun c => negb (Ascii.eqb c "." || Ascii.eqb c "+"))
          (list_ascii_of_string (a ++ b)) = true.
Proof.
  induction a as [|c a IH]; intros Ha Hb; [exact Hb|].
  unfold all_digits in Ha. cbn [list_ascii_of_string forallb] in Ha.
  apply andb_prop in Ha as [Hc Ha]. cbn [append list_ascii_of_string forallb].
  rewrite (IH Ha Hb), andb_true_r.
  destruct c as [[] [] [] [] [] [] [] []]; try discriminate Hc; reflexivity.
Qed.

(** The text [{x,}] of a negative integer stands for its characters. *)
Lemma negative_count_terms x n :
  negative_count x = Some n ->
  text_terms ("{" ++ number_to_string x ++ ",}")
  = map Char (js ("{" ++ number_to_string x ++ ",}")).
Proof.
  destruct x as [| | |[] s e]; try discriminate. cbn [negative_count]. intros H.
  apply text_terms_literal. cbn [number_to_string]. rewrite (count_text s e n H).
  change ("{" ++ ("-" ++ digits_of s ++ zeros (Z.to_nat e)) ++ ",}")%string
    with (String "{" (String "-" ((digits_of s ++ zeros (Z.to_nat e)) ++ ",}"))).
  cbn [list_ascii_of_string forallb]. change (negb _ && (negb _ && ?b)) with b.
  rewrite append_assoc.
  apply literal_digits; [apply all_digits_uint|].
  apply literal_digits; [apply all_digits_zeros|reflexivity].
Qed.

Lemma braced_quantifier_count x n rest :
  count_of x = Some n ->
  braced_quantifier (number_to_string x ++ String "," (String "}" rest))
  = Some (n, None, String.length (number_to_string x) + 2).
Proof.
  intros H. unfold braced_quantifier.
  destruct (count_to_string x n H (String "," (String "}" rest)) 0) as [-> Hlen].
  rewrite read_digits_stop by reflexivity. cbn [Nat.add].
  destruct (Nat.eqb_spec (String.length (number_to_string x)) 0); [lia|reflexivity].
Qed.

(** Digits that a point or an [e] follows are no quantifier. *)
Lemma braced_quantifier_stops a c rest :
  all_digits a = true -> c = "."%char \/ c = "e"%char ->
  braced_quantifier (a ++ String c rest) = None.
Proof.
  intros Ha Hc. unfold braced_quantifier.
  assert (H : forall acc n, exists v,
             read_digits (a ++ String c rest) acc n
             = (v, n + String.length a, String c rest)).
  { clear -Ha Hc. induction a as [|x a IH]; intros acc n.
    - exists acc. cbn [append String.length]. rewrite Nat.add_0_r.
      apply read_digits_stop. now destruct Hc as [-> | ->].
    - unfold all_digits in Ha. cbn [list_ascii_of_string forallb] in Ha.
      apply andb_prop in Ha as [Hx Ha]. cbn [append read_digits String.length].
      rewrite Hx. destruct (IH Ha (10 * acc + (N_of_ascii x - 48))%N (S n)) as [v Hv].
      exists v. rewrite Hv. f_equal. f_equal. lia. }
  destruct (H 0%N 0) as [v ->].
  destruct (0 + String.length a =? 0)%nat; [reflexivity|].
  now destruct Hc as [-> | ->].
Qed.

(** The text of a Number that is no count completes no quantifier. *)
Lemma braced_quantifier_text x rest :
  count_of x = None ->
  braced_quantifier (number_to_string x ++ String "," (String "}" rest)) = None.
Proof.
  destruct x as [|[]|neg|[] s e]; cbn [count_of number_to_string]; try discriminate;
    try (intros _; reflexivity).
  set (k := Z.of_nat (String.length (digits_of s))).
  pose proof (all_digits_uint (Pos.to_uint s)) as Hd. fold (digits_of s) in Hd.
  intros H. unfold unsigned_to_string. fold k.
  destruct (Z.leb_spec (-5) (e + k)) as [H5|H5]; cbn [andb].
  - destruct (Z.leb_spec (e + k) 21) as [H21|H21].
    + destruct (Z.leb_spec k (e + k)) as [Hk|Hk].
      * replace (0 <=? e)%Z with true in H by (symmetry; apply Z.leb_le; lia).
        discriminate H.
      * destruct (0 <? e + k)%Z.
        -- rewrite !append_assoc. apply braced_quantifier_stops;
             [now apply all_digits_substring|now left].
        -- reflexivity.
    + destruct (k =? 1)%Z.
      * rewrite !append_assoc. apply braced_quantifier_stops; [exact Hd|now right].
      * rewrite !append_assoc. apply braced_quantifier_stops;
          [now apply all_digits_substring|now left].
  - destruct (k =? 1)%Z.
    + rewrite !append_assoc. apply braced_quantifier_stops; [exact Hd|now right].
    + rewrite !append_assoc. apply braced_quantifier_stops;
        [now apply all_digits_substring|now left].
Qed.

Ltac eval_eqb :=
  repeat match goal with
         | |- context [Ascii.eqb ?a ?b] =>
             let v := eval vm_compute in (Ascii.eqb a b) in
             change (Ascii.eqb a b) with v
         end.

Lemma with_skip_same st : with_skip (ps_skip st) st = st.
Proof. now destruct st. Qed.

(** Characters that were read ahead are passed over. *)
Lemma parse_loop_skip u s1 : forall s2 st k,
  ps_skip st = String.length s1 + k ->
  parse_loop u (s1 ++ s2) st = parse_loop u s2 (with_skip k st).
Proof.
  induction s1 as [|c s1 IH]; intros s2 st k Hk; cbn [append String.length] in *.
  - cbn in Hk. subst k. now rewrite with_skip_same.
  - cbn [parse_loop]. rewrite Hk. cbn [Nat.add].
    rewrite (IH s2 (with_skip (String.length s1 + k) st) k) by reflexivity.
    reflexivity.
Qed.

(** The end of the assembled pattern, for a minimum that is a count: a
    quantified dot, then the end anchor. *)
Lemma parse_loop_length_tail x n stack alts terms g :
  count_of x = Some n ->
  parse_loop false (".{" ++ number_to_string x ++ ",}$")
             (mkPState Normal 0 stack alts terms g)
  = finish (mkPState Normal 0 stack alts
              ((AssertEnd, complete) :: (Repeat n None true Dot, quantified) :: terms)
              g).
Proof.
  intros Hx.
  change (".{" ++ number_to_string x ++ ",}$")%string
    with (String "." (String "{" (number_to_string x ++ String "," (String "}" "$")))).
  cbn [parse_loop ps_skip step ps_mode].
  change (normal_step false "." ?r ?st) with (atom Dot st).
  unfold atom, push_term, with_seq.
  cbn [parse_loop ps_mode ps_skip ps_stack ps_alts ps_seq ps_groups step].
  unfold normal_step. eval_eqb. cbv iota.
  rewrite (braced_quantifier_count x n _ Hx).
  cbn [quantify ps_seq with_seq with_skip ps_mode ps_skip ps_stack ps_alts ps_groups].
  change (number_to_string x ++ String "," (String "}" "$"))%string
    with (number_to_string x ++ (",}" ++ "$"))%string.
  rewrite <- append_assoc.
  rewrite (parse_loop_skip false (number_to_string x ++ ",}") "$" _ 0).
  - reflexivity.
  - cbn [ps_skip]. rewrite length_append. simpl. lia.
Qed.

Lemma strong_pattern_prefix options :
  strong_pattern options
  = (strong_prefix options
     ++ ".{" ++ number_to_string (or_default (Finite false 8 0) (minLength options))
     ++ ",}$")%string.
Proof. reflexivity. Qed.

Lemma parse_loop_strong_prefix options tail :
  parse_loop false (strong_prefix options ++ tail) initial
  = parse_loop false tail
      (mkPState Normal 0 [] []
                (rev ((AssertStart, complete) :: as_terms (strong_lookaheads options))) 0).
Proof.
  unfold strong_prefix, strong_lookaheads.
  destruct (or_default true (requireUppercase options)),
           (or_default true (requireNumbers options)),
           (or_default true (requireSpecialChars options)); reflexivity.
Qed.

(** A plain character is a term. *)
Lemma normal_step_plain c rest st :
  is_plain c = true -> normal_step false c rest st = atom (text_atom c) st.
Proof.
  destruct c as [[] [] [] [] [] [] [] []]; try discriminate; intros _; reflexivity.
Qed.

Lemma parse_loop_plain c rest stack alts terms g :
  is_plain c = true ->
  parse_loop false (String c rest) (mkPState Normal 0 stack alts terms g)
  = parse_loop false rest (mkPState Normal 0 stack alts ((text_atom c, quantifiable) :: terms) g).
Proof.
  intros Hc. cbn [parse_loop ps_skip step ps_mode]. now rewrite (normal_step_plain c _ _ Hc).
Qed.

Lemma parse_loop_plus r rest stack alts terms g :
  parse_loop false (String "+" rest) (mkPState Normal 0 stack alts ((r, quantifiable) :: terms) g)
  = parse_loop false rest
      (mkPState Normal 0 stack alts ((Repeat 1 None true r, quantified) :: terms) g).
Proof. reflexivity. Qed.

(** A text of plain characters parses into its terms. *)
Lemma parse_loop_text fuel : forall s stack alts terms g,
  String.length s <= fuel -> simple_text s = true ->
  exists T,
    map fst T = rev (text_terms s)
    /\ parse_loop false (s ++ "$") (mkPState Normal 0 stack alts terms g)
       = finish (mkPState Normal 0 stack alts ((AssertEnd, complete) :: T ++ terms) g).
Proof.
  induction fuel as [|fuel IH]; intros s stack alts terms g Hlen Hs.
  - destruct s; [|cbn in Hlen; lia]. exists []. split; reflexivity.
  - destruct s as [|c rest]; [exists []; split; reflexivity|].
    cbn [simple_text] in Hs. apply andb_prop in Hs as [Hc Hrest].
    cbn [append]. rewrite (parse_loop_plain c _ _ _ _ _ Hc).
    destruct rest as [|p rest'].
    + exists [(text_atom c, quantifiable)]. split; reflexivity.
    + cbn [text_terms]. destruct (Ascii.eqb p "+") eqn:Ep.
      * apply Ascii.eqb_eq in Ep. subst p. cbn [append]. rewrite parse_loop_plus.
        destruct (IH rest' stack alts ((Repeat 1 None true (text_atom c), quantified) :: terms)
                    g) as (T & HT & ->); [cbn in Hlen; lia|exact Hrest|].
        exists (T ++ [(Repeat 1 None true (text_atom c), quantified)]). split.
        -- rewrite map_app, HT. reflexivity.
        -- now rewrite <- app_assoc.
      * destruct (IH (String p rest') stack alts ((text_atom c, quantifiable) :: terms) g)
          as (T & HT & ->); [cbn in Hlen |- *; lia|exact Hrest|].
        exists (T ++ [(text_atom c, quantifiable)]). split.
        -- rewrite map_app, HT. reflexivity.
        -- now rewrite <- app_assoc.
Qed.

Lemma parse_loop_brace rest stack alts terms g :
  braced_quantifier rest = None ->
  parse_loop false (String "{" rest) (mkPState Normal 0 stack alts terms g)
  = parse_loop false rest
      (mkPState Normal 0 stack alts ((Char (N_of_ascii "{"), quantifiable) :: terms) g).
Proof.
  intros H. cbn [parse_loop ps_skip step ps_mode]. unfold normal_step. eval_eqb. cbv iota.
  now rewrite H.
Qed.

(** The end of the assembled pattern, for a minimum that is no count:
    the dot, the brace and the text of the Number as they stand. *)
Lemma parse_loop_literal_tail x stack alts terms g :
  count_of x = None ->
  exists T,
    map fst T = rev (Dot :: text_terms ("{" ++ number_to_string x ++ ",}"))
    /\ parse_loop false (".{" ++ number_to_string x ++ ",}$")
                  (mkPState Normal 0 stack alts terms g)
       = finish (mkPState Normal 0 stack alts ((AssertEnd, complete) :: T ++ terms) g).
Proof.
  intros Hx.
  change (".{" ++ number_to_string x ++ ",}$")%string
    with (String "." (String "{" (number_to_string x ++ String "," (String "}" "$")))).
  rewrite (parse_loop_plain "." _ _ _ _ _ eq_refl).
  rewrite (parse_loop_brace _ _ _ _ _ (braced_quantifier_text x _ Hx)).
  destruct (number_simple_tail x ",}" simple_tail_end) as [Hs Hp].
  replace (number_to_string x ++ String "," (String "}" "$"))%string
    with ((number_to_string x ++ ",}") ++ "$")%string
    by (now rewrite append_assoc).
  destruct (parse_loop_text _ (number_to_string x ++ ",}") stack alts
              ((Char (N_of_ascii "{"), quantifiable) :: (text_atom ".", quantifiable) :: terms)
              g (le_n _) Hs) as (T & HT & ->).
  exists (T ++ [(Char (N_of_ascii "{"), quantifiable); (Dot, quantifiable)]). split.
  - rewrite map_app, HT.
    change ("{" ++ number_to_string x ++ ",}")%string
      with (String "{" (number_to_string x ++ ",}")).
    rewrite (text_terms_cons "{" _ Hp). cbn [rev map fst].
    now rewrite <- app_assoc.
  - now rewrite <- app_assoc.
Qed.

Lemma map_fst_as_terms rs : map fst (as_terms rs) = rs.
Proof. unfold as_terms. rewrite map_map. cbn [fst]. apply map_id. Qed.

(** [new RegExp] accepts every pattern [isStrongPassword] assembles,
    whatever Number [minLength] is. *)
Lemma parse_strong_pattern options :
  parse (strong_pattern options) false = Parsed (strong_regex options) 0.
Proof.
  rewrite strong_pattern_prefix. unfold parse. rewrite parse_loop_strong_prefix.
  unfold strong_regex, strong_length_terms.
  set (x := or_default (Finite false 8 0) (minLength options)).
  set (las := strong_lookaheads options).
  destruct (count_of x) as [n|] eqn:Hx.
  - rewrite (parse_loop_length_tail x n _ _ _ _ Hx).
    cbn [finish ps_mode ps_stack ps_alts ps_seq ps_groups].
    unfold disjunction, alternative. cbn [rev app alt_of map fst].
    rewrite map_app, rev_app_distr, map_rev, rev_involutive.
    cbn [map fst rev app]. rewrite map_fst_as_terms.
    rewrite <- !app_assoc. reflexivity.
  - destruct (parse_loop_literal_tail x [] []
                (rev ((AssertStart, complete) :: as_terms las)) 0 Hx) as (T & HT & ->).
    cbn [finish ps_mode ps_stack ps_alts ps_seq ps_groups].
    unfold disjunction, alternative. cbn [rev app alt_of].
    rewrite map_cons. cbn [fst rev].
    rewrite !map_app, HT, !rev_app_distr, !map_rev, !rev_involutive.
    cbn [map fst rev app]. rewrite !map_fst_as_terms.
    rewrite <- !app_assoc. reflexivity.
Qed.

End ParserFacts.

Module ValidatorFacts.
Import Runtime RegExpObject Validator Spec.

Section Facts.
Variable up : N -> list N.
Variable this : RegExpValidator.

Lemma elapsed_hd w : elapsed_before_evaluation w = hd 0%Z (ticks w).
Proof. unfold elapsed_before_evaluation, elapse. cbn [now]. lia. Qed.

Lemma within_budget_guard w : within_budget this w = true -> guard_trips this w = false.
Proof.
  unfold within_budget, guard_trips. rewrite elapsed_hd. intros H.
  apply andb_prop in H as [H0 H]. apply Z.leb_le in H0.
  destruct (ticks w) as [|d l]; cbn [hd forallb] in *.
  - rewrite Z.gtb_ltb. now apply Z.ltb_ge.
  - apply andb_prop in H as [H _]. apply Z.leb_le in H. rewrite Z.gtb_ltb. now apply Z.ltb_ge.
Qed.

Lemma within_budget_elapse w : within_budget this w = true -> within_budget this (elapse w) = true.
Proof.
  unfold within_budget, elapse. cbn [ticks]. intros H.
  apply andb_prop in H as [H0 H]. rewrite H0. cbn [andb].
  destruct (ticks w) as [|d l]; [reflexivity|].
  cbn [forallb tl] in *. now apply andb_prop in H as [_ H].
Qed.

(** [validate], evaluated: the check on the clock, then the rule. *)
Lemma validate_eval value pattern mode w :
  validate up this value pattern mode w
  = if guard_trips this w then (Ok (timeout_result mode), elapse (elapse w))
    else match pattern with
         | VRegExp re =>
             (Ok (match_result up mode re value),
              match mode with
              | mode_verbose => elapse (elapse (elapse (elapse w)))
              | mode_undefined => elapse (elapse (elapse w))
              end)
         | _ => (Ok (error_result mode (or_default (TypeError "") (rule_fault pattern))),
                 elapse (elapse w))
         end.
Proof.
  unfold validate, bind, try_catch, Date_now, guard_trips, elapsed_before_evaluation.
  destruct (now (elapse w) - now w >? budget this)%Z.
  - now destruct mode.
  - destruct pattern, mode; reflexivity.
Qed.

Lemma validate_returns value pattern mode w :
  exists r w', validate up this value pattern mode w = (Ok r, w') /\ has_shape mode r.
Proof.
  rewrite validate_eval. destruct (guard_trips this w).
  - eexists _, _. split; [reflexivity|]. now destruct mode.
  - destruct pattern; eexists _, _; (split; [reflexivity|]); now destruct mode.
Qed.

End Facts.
End ValidatorFacts.

Module CaseFacts.
Import Engine Positions EngineFacts.

Lemma in_range_members x : forall n lo,
  In x (range_members lo n) <-> (lo <= x < lo + N.of_nat n)%N.
Proof.
  induction n as [|n IH]; intros lo; cbn [range_members In].
  - lia.
  - rewrite IH. lia.
Qed.

Lemma forall_ascii (P : N -> bool) :
  forallb P (range_members 0 128) = true ->
  forall ch, (ch < 128)%N -> P ch = true.
Proof.
  intros H ch Hch. rewrite forallb_forall in H. apply H.
  apply in_range_members. lia.
Qed.

Section Canonicalize.
Variable up : N -> list N.

Lemma Canonicalize_ascii a : (a < 128)%N -> (Canonicalize up true a < 128)%N.
Proof.
  intros Ha. unfold Canonicalize, toUppercase.
  destruct (N.ltb_spec a 128) as [_|]; [|lia].
  replace (128 <=? a)%N with false by (symmetry; apply N.leb_gt; exact Ha).
  cbn [andb]. destruct ((97 <=? a)%N && (a <=? 122)%N); lia.
Qed.

Lemma Canonicalize_nonascii ch : (128 <= ch)%N -> (128 <= Canonicalize up true ch)%N.
Proof.
  intros Hch. unfold Canonicalize, toUppercase.
  destruct (N.ltb_spec ch 128) as [|_]; [lia|].
  destruct (up ch) as [|cu [|? ?]]; try exact Hch.
  replace (128 <=? ch)%N with true by (symmetry; apply N.leb_le; exact Hch).
  cbn [andb]. destruct (N.ltb_spec cu 128); [exact Hch|assumption].
Qed.

(** A class of ASCII characters, matched without regard to case, is
    what its table on ASCII says and has no other member. *)
Lemma char_set_found_ignoreCase cs (spec : N -> bool) :
  forallb (fun a => (a <? 128)%N) (members cs) = true ->
  forallb (fun ch => Bool.eqb (char_set_found up true cs ch) (spec ch))
          (range_members 0 128) = true ->
  (forall ch, (128 <= ch)%N -> spec ch = false) ->
  forall ch, char_set_found up true cs ch = spec ch.
Proof.
  intros Hmem Hascii Hspec ch. destruct (N.ltb_spec ch 128) as [Hlt|Hge].
  - apply eqb_prop. now apply (forall_ascii _ Hascii).
  - rewrite (Hspec ch Hge). unfold char_set_found.
    apply not_true_is_false. intros H. apply existsb_exists in H as (a & Ha & H).
    rewrite forallb_forall in Hmem. apply Hmem, N.ltb_lt in Ha.
    apply N.eqb_eq in H.
    pose proof (Canonicalize_ascii a Ha). pose proof (Canonicalize_nonascii ch Hge). lia.
Qed.

Lemma char_ignoreCase c (spec : N -> bool) :
  (c < 128)%N ->
  forallb (fun ch => Bool.eqb (Canonicalize up true ch =? Canonicalize up true c)%N (spec ch))
          (range_members 0 128) = true ->
  (forall ch, (128 <= ch)%N -> spec ch = false) ->
  forall ch, (Canonicalize up true ch =? Canonicalize up true c)%N = spec ch.
Proof.
  intros Hc Hascii Hspec ch. destruct (N.ltb_spec ch 128) as [Hlt|Hge].
  - apply eqb_prop. now apply (forall_ascii _ Hascii).
  - rewrite (Hspec ch Hge). apply N.eqb_neq.
    pose proof (Canonicalize_ascii c Hc). pose proof (Canonicalize_nonascii ch Hge). lia.
Qed.
End Canonicalize.

Lemma in_ranges_ascii cs :
  forallb (fun p => (snd p <? 128)%N) cs = true ->
  forall ch, (128 <= ch)%N -> in_ranges cs ch = false.
Proof.
  intros H ch Hch. unfold in_ranges. apply not_true_is_false. intros E.
  apply existsb_exists in E as (p & Hp & E). rewrite forallb_forall in H.
  apply H, N.ltb_lt in Hp. apply andb_prop in E as [_ E]. apply N.leb_le in E. lia.
Qed.

Lemma prefix_ok_ext ts ts' :
  Forall2 (fun t t' => forall c : N, t c = t' c) ts ts' ->
  forall s, prefix_ok ts s = prefix_ok ts' s.
Proof.
  induction 1 as [|t t' ts ts' Ht _ IH]; intros s; [reflexivity|].
  destruct s as [|c s]; [reflexivity|]. cbn [prefix_ok]. now rewrite Ht, IH.
Qed.

End CaseFacts.

Module UuidFacts.
Import Engine Positions Shapes EngineFacts CaseFacts RegExpObject Runtime Validator Spec
       ValidatorFacts.

Lemma uuidPattern_terms :
  re_pattern uuidPattern = Parser.seq_of (AssertStart :: uuid_terms ++ [AssertEnd])
  /\ re_flags uuidPattern = flags_i.
Proof. split; vm_compute; reflexivity. Qed.

Section Uuid.
Variable up : N -> list N.

Lemma hex_class_spec ch :
  xorb false (char_set_found up true [(48, 57); (97, 102)]%N ch) = is_hex_digit ch.
Proof.
  rewrite xorb_false_l. revert ch. apply char_set_found_ignoreCase.
  - vm_compute. reflexivity.
  - vm_compute. reflexivity.
  - apply in_ranges_ascii. reflexivity.
Qed.

Lemma version_class_spec ch :
  xorb false (char_set_found up true [(49, 53)]%N ch) = version_ok ch.
Proof.
  rewrite xorb_false_l. revert ch. apply char_set_found_ignoreCase.
  - vm_compute. reflexivity.
  - vm_compute. reflexivity.
  - apply in_ranges_ascii. reflexivity.
Qed.

Lemma variant_class_spec ch :
  xorb false (char_set_found up true [(56, 56); (57, 57); (97, 97); (98, 98)]%N ch)
  = variant_ok ch.
Proof.
  rewrite xorb_false_l. revert ch. apply char_set_found_ignoreCase.
  - vm_compute. reflexivity.
  - vm_compute. reflexivity.
  - apply in_ranges_ascii. reflexivity.
Qed.

Lemma hyphen_spec ch :
  (Canonicalize up true ch =? Canonicalize up true 45)%N = is_hyphen ch.
Proof.
  revert ch. apply char_ignoreCase.
  - reflexivity.
  - vm_compute. reflexivity.
  - intros ch Hch. apply N.eqb_neq. lia.
Qed.

Lemma uuid_fixed_tests :
  exists ts, fixed_tests up true (Parser.seq_of uuid_terms) = Some ts
             /\ Forall2 (fun t t' => forall c : N, t c = t' c) ts
                        (uuid_layout version_ok variant_ok).
Proof.
  eexists. split.
  - cbv [uuid_terms Parser.seq_of fixed_tests char_test option_map N.eqb Pos.eqb
         N.to_nat Pos.to_nat Pos.iter_op Nat.add repeat concat app].
    reflexivity.
  - cbv [uuid_layout repeat app].
    repeat (constructor;
            [first [exact hex_class_spec | exact version_class_spec
                   | exact variant_class_spec | exact hyphen_spec]|]).
    constructor.
Qed.

(** [uuidPattern] accepts exactly the strings of the 8-4-4-4-12 layout
    whose version nibble is in [1-5] and whose variant nibble is one of
    [8 9 a b], in either case. *)
Lemma uuidPattern_spec s : test up uuidPattern s = uuid_valid s.
Proof.
  apply eq_iff_eq_true.
  destruct uuidPattern_terms as [Hterms Hflags].
  rewrite (test_anchored up uuidPattern s uuid_terms Hterms), Hflags.
  cbn [input_of ignoreCase_of].
  rewrite <- positions_seq_of.
  destruct uuid_fixed_tests as (ts & Hts & Hext).
  rewrite (positions_fixed up true s _ ts Hts). cbn [skipn Nat.add].
  rewrite (prefix_ok_ext _ _ Hext).
  assert (Hlen : length ts = 36).
  { apply Forall2_length in Hext. rewrite Hext. reflexivity. }
  rewrite Hlen. unfold uuid_valid. rewrite andb_true_iff, Nat.eqb_eq. tauto.
Qed.

End Uuid.

Lemma prefix_ok_iff ts : forall s,
  prefix_ok ts s = true
  <-> length ts <= length s
      /\ forall k, k < length ts -> nth k ts (fun _ => true) (nth k s 0%N) = true.
Proof.
  induction ts as [|t ts IH]; intros s.
  - cbn. split; [intros _; split; [lia|intros; lia]|reflexivity].
  - destruct s as [|c s].
    + cbn. split; [discriminate|intros [H _]; lia].
    + cbn [prefix_ok length]. rewrite andb_true_iff, IH. split.
      * intros [Ht [Hlen Hall]]. split; [lia|]. intros [|k] Hk; [exact Ht|].
        cbn [nth]. apply Hall. lia.
      * intros [Hlen Hall]. split; [apply (Hall 0); lia|]. split; [lia|].
        intros k Hk. apply (Hall (S k)). lia.
Qed.

Lemma version_is_hex ch : version_ok ch = true -> is_hex_digit ch = true.
Proof.
  unfold version_ok, is_hex_digit, in_ranges. cbn [existsb fst snd].
  rewrite !orb_false_r, !orb_true_iff, !andb_true_iff, !N.leb_le. lia.
Qed.

Lemma variant_is_hex ch : variant_ok ch = true -> is_hex_digit ch = true.
Proof.
  unfold variant_ok, is_hex_digit, in_ranges. cbn [existsb fst snd].
  rewrite !orb_false_r, !orb_true_iff, !andb_true_iff, !N.leb_le. lia.
Qed.

(** The accepted strings are those of UUID shape with both nibbles in
    their range. *)
Lemma uuid_valid_shape s :
  uuid_valid s
  = uuid_shape s && version_ok (version_nibble s) && variant_ok (variant_nibble s).
Proof.
  apply eq_iff_eq_true. unfold uuid_valid, uuid_shape, version_nibble, variant_nibble.
  rewrite !andb_true_iff, !prefix_ok_iff, Nat.eqb_eq.
  change (length (uuid_layout version_ok variant_ok)) with 36.
  change (length (uuid_layout is_hex_digit is_hex_digit)) with 36.
  split.
  - intros [Hlen [_ Hall]].
    assert (H14 : version_ok (nth 14 s 0%N) = true) by (apply (Hall 14); repeat constructor).
    assert (H19 : variant_ok (nth 19 s 0%N) = true) by (apply (Hall 19); repeat constructor).
    split; [split; [split; [exact Hlen|split; [apply Nat.eq_le_incl; symmetry; exact Hlen|]]|exact H14]|exact H19].
    intros k Hk. specialize (Hall k Hk).
    do 36 (destruct k as [|k]; [first [exact Hall | now apply version_is_hex
                                      | now apply variant_is_hex]|]).
    exfalso. clear - Hk. lia.
  - intros [[[Hlen [_ Hall]] H14] H19].
    split; [exact Hlen|split; [apply Nat.eq_le_incl; symmetry; exact Hlen|]].
    intros k Hk. specialize (Hall k Hk).
    do 36 (destruct k as [|k]; [first [exact Hall | exact H14 | exact H19]|]).
    exfalso. clear - Hk. lia.
Qed.

Lemma isValidUUID_accepted up this uuid mode w :
  exists r w',
    isValidUUID up this uuid mode w = (Ok r, w')
    /\ accepted r = negb (guard_trips this w) && uuid_valid uuid.
Proof.
  unfold isValidUUID. rewrite validate_eval. destruct (guard_trips this w).
  - eexists _, _. split; [reflexivity|]. now destruct mode.
  - eexists _, _. split; [reflexivity|]. rewrite <- (uuidPattern_spec up). now destruct mode.
Qed.

End UuidFacts.

Module StrongFacts.
Import Engine Positions Shapes EngineFacts RegExpObject Runtime Validator Spec
       ValidatorFacts ParserFacts.

Lemma jsstring_eqb_eq a : forall b, jsstring_eqb a b = true <-> a = b.
Proof.
  unfold jsstring_eqb. induction a as [|x a IH]; intros [|y b].
  - cbn. tauto.
  - cbn. split; discriminate.
  - cbn. split; discriminate.
  - cbn [length combine forallb fst snd Nat.eqb].
    specialize (IH b). rewrite !andb_true_iff in *. rewrite N.eqb_eq. split.
    + intros [Hlen [-> Hall]]. f_equal. apply IH. now split.
    + intros [= -> ->]. split; [apply Nat.eqb_refl|]. split; [reflexivity|].
      now apply IH.
Qed.

Section Strong.
Variable up : N -> list N.
Variable s : JsString.

Local Abbreviation positions := (Positions.positions up false s).
Local Abbreviation chain := (Shapes.chain up false s).

Lemma forallb_nth_error (P : N -> bool) :
  forallb P s = true
  <-> forall t, t < length s -> exists c, nth_error s t = Some c /\ P c = true.
Proof.
  rewrite forallb_forall. split.
  - intros H t Ht. destruct (nth_error s t) as [c|] eqn:E.
    + exists c. split; [reflexivity|]. apply H. eapply nth_error_In; eassumption.
    + apply nth_error_None in E. lia.
  - intros H c Hc. apply In_nth_error in Hc as [t Ht].
    assert (t < length s) by (apply nth_error_Some; congruence).
    destruct (H t) as (c' & E & HP); [assumption|]. congruence.
Qed.

(** [.{n,}] then the end: at least [n] characters, none of them a line
    terminator. *)
Lemma chain_quantified_dot n :
  chain [Repeat n None true Dot] 0 (length s)
  <-> N.to_nat n <= length s /\ no_line_terminator s = true.
Proof.
  cbn [Shapes.chain].
  assert (H : (exists k, In k (positions (Repeat n None true Dot) 0) /\ k = length s)
              <-> In (length s) (positions (Repeat n None true Dot) 0)).
  { split; [intros (k & H & ->); exact H|intros H; eauto]. }
  rewrite H.
  rewrite (in_positions_Repeat_char up false s Dot
             (fun ch => negb (is_line_terminator ch)) n None true 0 (length s) eq_refl)
    by discriminate.
  unfold no_line_terminator. rewrite forallb_nth_error. split.
  - intros (k & Hk & Hn & _ & Hall). split; [lia|]. intros t Ht. apply Hall. lia.
  - intros [Hn Hall]. exists (length s). split; [reflexivity|]. split; [exact Hn|].
    split; [discriminate|]. intros t Ht. apply Hall. lia.
Qed.

(** [(?=.*[...])] at the start of a string without line terminators:
    some character is in the class. *)
Lemma lookahead_class cs :
  no_line_terminator s = true ->
  ((exists k, In k (positions (Seq (Repeat 0 None true Dot) (Class false cs)) 0))
   <-> has_char cs s = true).
Proof.
  intros Hlt. unfold has_char. rewrite existsb_exists. split.
  - intros (k & Hk). apply in_positions_Seq in Hk as (m & Hm & Hk).
    cbn [Positions.positions] in Hk. apply in_char_positions in Hk as (_ & ch & Hch & Hin).
    exists ch. split; [eapply nth_error_In; eassumption|].
    now rewrite xorb_false_l in Hin.
  - intros (ch & Hch & Hin). apply In_nth_error in Hch as [m Hm].
    exists (S m). apply in_positions_Seq. exists m. split.
    + apply (in_positions_Repeat_char up false s Dot
               (fun c => negb (is_line_terminator c)) 0 None true 0 m eq_refl);
        [discriminate|].
      exists m. split; [reflexivity|]. split; [simpl; lia|]. split; [discriminate|].
      intros t Ht. unfold no_line_terminator in Hlt.
      apply (proj1 (forallb_nth_error _) Hlt).
      assert (m < length s) by (apply nth_error_Some; congruence). lia.
    + cbn [Positions.positions]. apply in_char_positions. split; [reflexivity|].
      exists ch. split; [exact Hm|]. now rewrite xorb_false_l.
Qed.

(** Look-aheads at the head of a sequence are conditions on the start
    position, whatever their order. *)
Lemma chain_lookaheads las rest i j :
  Forall (fun r => exists body, r = LookAhead false body) las ->
  (chain (las ++ rest) i j
   <-> Forall (fun r => exists k, In k (positions r i)) las /\ chain rest i j).
Proof.
  induction 1 as [|r las [body ->] _ IH]; cbn [app].
  - split; [intros H; split; [constructor|exact H]|intros [_ H]; exact H].
  - rewrite chain_LookAhead, IH. split.
    + intros [Hb [Hlas Hrest]]. split; [|exact Hrest]. constructor; [|exact Hlas].
      cbn [Positions.positions]. destruct Hb as [k Hk].
      destruct (Positions.positions up false s body i); [destruct Hk|].
      exists i. now left.
    + intros [Hall Hrest]. inversion Hall as [|? ? Hr Hlas]; subst.
      split; [|split; [exact Hlas|exact Hrest]].
      cbn [Positions.positions] in Hr. destruct Hr as [k Hk].
      destruct (Positions.positions up false s body i) as [|a l]; [destruct Hk|].
      exists a. now left.
Qed.

Lemma Canonicalize_sensitive ch : Canonicalize up false ch = ch.
Proof. reflexivity. Qed.

(** A run of character terms matches that very text. *)
Lemma chain_chars cs : forall i j,
  chain (map Char cs) i j
  <-> j = i + length cs /\ firstn (length cs) (skipn i s) = cs.
Proof.
  induction cs as [|c cs IH]; intros i j; cbn [map Shapes.chain length firstn].
  - split; [intros <-; split; [lia|reflexivity]|intros [-> _]; lia].
  - split.
    + intros (k & Hk & Hrest). cbn [Positions.positions] in Hk.
      apply in_char_positions in Hk as (-> & ch & Hch & Heq).
      apply N.eqb_eq in Heq. rewrite !Canonicalize_sensitive in Heq. subst ch.
      apply IH in Hrest as [-> Hrest]. split; [lia|].
      rewrite skipn_nth_error, Hch. cbn [firstn]. now rewrite Hrest.
    + intros [-> H]. rewrite skipn_nth_error in H.
      destruct (nth_error s i) as [ch|] eqn:Hch; [|discriminate].
      cbn [firstn] in H. injection H as -> H.
      exists (S i). split.
      * cbn [Positions.positions]. apply in_char_positions. split; [reflexivity|].
        exists c. split; [exact Hch|]. apply N.eqb_refl.
      * apply IH. split; [lia|exact H].
Qed.

(** A dot and a run of character terms, from start to end. *)
Lemma chain_dot_chars cs :
  chain (Dot :: map Char cs) 0 (length s)
  <-> exists c, s = c :: cs /\ negb (is_line_terminator c) = true.
Proof.
  cbn [Shapes.chain Positions.positions]. split.
  - intros (k & Hk & Hrest). apply in_char_positions in Hk as (-> & c & Hc & Hlt).
    apply chain_chars in Hrest as [Hlen Hrest].
    destruct s as [|c' s']; [discriminate|]. cbn in Hc. injection Hc as ->.
    cbn [skipn length] in *. exists c. split; [|exact Hlt]. f_equal.
    rewrite <- Hrest. symmetry. apply firstn_all2. lia.
  - intros (c & Hs & Hlt). exists 1. split.
    + apply in_char_positions. split; [reflexivity|]. exists c. rewrite Hs. now split.
    + apply chain_chars. rewrite Hs. cbn [length skipn]. split; [lia|]. apply firstn_all.
Qed.

End Strong.

Section StrongPattern.
Variable up : N -> list N.

Lemma strong_lookaheads_are_lookaheads options :
  Forall is_lookahead (strong_lookaheads options).
Proof.
  unfold strong_lookaheads.
  destruct (or_default true (requireUppercase options)),
           (or_default true (requireNumbers options)),
           (or_default true (requireSpecialChars options));
    cbn [app]; repeat constructor; eexists; reflexivity.
Qed.

Lemma lookahead_holds s body i :
  (exists k, In k (Positions.positions up false s (LookAhead false body) i))
  <-> exists k, In k (Positions.positions up false s body i).
Proof.
  cbn [Positions.positions].
  destruct (Positions.positions up false s body i) as [|a l].
  - split; intros [k []].
  - split; intros _; [exists a|exists i]; now left.
Qed.

Lemma strong_lookaheads_hold options s :
  no_line_terminator s = true ->
  (Forall (fun r => exists k, In k (Positions.positions up false s r 0))
          (strong_lookaheads options)
   <-> character_requirements options s = true).
Proof.
  intros Hlt. unfold strong_lookaheads, character_requirements.
  pose proof (lookahead_class up s uppercase_letters Hlt) as HU.
  pose proof (lookahead_class up s decimal_digits Hlt) as HN.
  pose proof (lookahead_class up s special_characters Hlt) as HS.
  destruct (or_default true (requireUppercase options)),
           (or_default true (requireNumbers options)),
           (or_default true (requireSpecialChars options));
    cbn [app implb];
    rewrite ?Forall_cons_iff, ?Forall_nil_iff, ?andb_true_iff;
    unfold upper_lookahead, digit_lookahead, special_lookahead;
    rewrite ?lookahead_holds;
    change [(65, 90)]%N with uppercase_letters;
    change [(48, 57)]%N with decimal_digits;
    change [(33, 33); (64, 64); (35, 35); (36, 36); (37, 37); (94, 94); (38, 38);
            (42, 42)]%N with special_characters;
    rewrite ?HU, ?HN, ?HS; tauto.
Qed.

Lemma strong_rule_test las n s :
  test up (strong_rule las n) s = true
  <-> Shapes.chain up false s (las ++ strong_length_terms n) 0 (length s).
Proof. apply (test_anchored up (strong_rule las n) s _ eq_refl). Qed.

Lemma at_least_count x n len :
  count_of x = Some n -> at_least len x = (n <=? N.of_nat len)%N.
Proof.
  destruct x as [| |neg|[] s e]; cbn [count_of at_least]; try discriminate.
  - intros [= <-]. symmetry. apply N.leb_le. lia.
  - destruct (0 <=? e)%Z; [|discriminate]. cbn [andb].
    destruct (_ <=? 21)%Z; [|discriminate]. now intros [= <-].
Qed.

(** With a minimum that is a count the assembled pattern accepts the
    strings without line terminator that satisfy the conjunction, in
    whatever order the look-aheads are. *)
Lemma strong_rule_count options n las s :
  count_of (policy_minLength options) = Some n ->
  Permutation las (strong_lookaheads options) ->
  test up (strong_rule las (policy_minLength options)) s
  = no_line_terminator s && claimed_strong options s.
Proof.
  intros Hn Hperm. apply eq_iff_eq_true.
  rewrite strong_rule_test, chain_lookaheads
    by (apply (Permutation_Forall (Permutation_sym Hperm)),
              strong_lookaheads_are_lookaheads).
  unfold strong_length_terms. rewrite Hn.
  rewrite chain_quantified_dot. unfold claimed_strong.
  rewrite (at_least_count _ n _ Hn), !andb_true_iff, N.leb_le.
  split.
  - intros [Hall [Hlen Hlt]]. split; [exact Hlt|]. split; [lia|].
    apply (strong_lookaheads_hold options s Hlt).
    apply (Permutation_Forall Hperm Hall).
  - intros [Hlt [Hlen Hreq]]. split; [|split; [lia|exact Hlt]].
    apply (Permutation_Forall (Permutation_sym Hperm)).
    now apply (strong_lookaheads_hold options s Hlt).
Qed.

Lemma negative_count_no_count x n : negative_count x = Some n -> count_of x = None.
Proof. destruct x as [| | |[] s e]; try discriminate. reflexivity. Qed.

(** With a minimum that is a negative integer the text of the
    quantifier is matched as it stands. *)
Lemma strong_rule_negative options n s :
  negative_count (policy_minLength options) = Some n ->
  test up (strong_rule (strong_lookaheads options) (policy_minLength options)) s = true
  <-> Forall (fun r => exists k, In k (Positions.positions up false s r 0))
             (strong_lookaheads options)
      /\ literal_quantifier (policy_minLength options) s = true.
Proof.
  intros Hn.
  rewrite strong_rule_test, chain_lookaheads by apply strong_lookaheads_are_lookaheads.
  unfold strong_length_terms.
  rewrite (negative_count_no_count _ n Hn), (negative_count_terms _ n Hn).
  rewrite chain_dot_chars.
  assert (H : (exists c, s = c :: js ("{" ++ number_to_string (policy_minLength options)
                                          ++ ",}")
                         /\ negb (is_line_terminator c) = true)
              <-> literal_quantifier (policy_minLength options) s = true).
  { unfold literal_quantifier. destruct s as [|c rest].
    - split; [intros (c & H & _); discriminate|discriminate].
    - rewrite andb_true_iff, jsstring_eqb_eq. split.
      + intros (c' & [= -> ->] & Hlt). now split.
      + intros [Hlt ->]. exists c. now split. }
  now rewrite H.
Qed.

(** With a minimum that is no count the brace is matched as it stands:
    what the pattern accepts has a brace as its second character. *)
Lemma strong_rule_brace options s :
  count_of (policy_minLength options) = None ->
  test up (strong_rule (strong_lookaheads options) (policy_minLength options)) s = true ->
  exists c rest, s = c :: N_of_ascii "{" :: rest.
Proof.
  intros Hn. rewrite strong_rule_test, chain_lookaheads
    by apply strong_lookaheads_are_lookaheads.
  unfold strong_length_terms. rewrite Hn. intros [_ H].
  destruct (number_simple_tail (policy_minLength options) ",}" simple_tail_end) as [_ Hp].
  change ("{" ++ number_to_string (policy_minLength options) ++ ",}")%string
    with (String "{" (number_to_string (policy_minLength options) ++ ",}")) in H.
  rewrite (text_terms_cons "{" _ Hp) in H.
  cbn [Shapes.chain Positions.positions text_atom] in H.
  change (Ascii.eqb "{" ".") with false in H. cbv iota in H.
  destruct H as (k1 & H1 & k2 & H2 & _).
  apply in_char_positions in H1 as (-> & c & Hc & _).
  apply in_char_positions in H2 as (_ & b & Hb & Eb).
  apply N.eqb_eq in Eb. rewrite !Canonicalize_sensitive in Eb. subst b.
  destruct s as [|c' [|b' rest]]; try discriminate.
  cbn in Hc, Hb. injection Hc as ->. injection Hb as ->. now exists c, rest.
Qed.

End StrongPattern.
End StrongFacts.

(** * The claims of the specification *)

Import Engine Positions Shapes EngineFacts CaseFacts RegExpObject Runtime Validator Spec.
Import ValidatorFacts ParserFacts UuidFacts StrongFacts.

(** ** Shared facts *)

Lemma RegExp_new_strong options w :
  RegExp_new (strong_pattern options) w
  = (Ok (mkRegExp (strong_regex options) 0 flags_none), w).
Proof. unfold RegExp_new. now rewrite parse_strong_pattern. Qed.

Lemma isStrongPassword_eval up this password options mode w :
  isStrongPassword up this password options mode w
  = validate up this password (VRegExp (mkRegExp (strong_regex options) 0 flags_none)) mode w.
Proof. unfold isStrongPassword, bind. now rewrite RegExp_new_strong. Qed.

Lemma isValidCoordinates_returns up this lat lng mode w :
  exists r w', isValidCoordinates up this lat lng mode w = (Ok r, w') /\ has_shape mode r.
Proof.
  unfold isValidCoordinates, bind.
  destruct (validate_returns up this lat (get complexPatterns_coordinates "latitude") mode w)
    as (r1 & w1 & -> & _).
  destruct (validate_returns up this lng (get complexPatterns_coordinates "longitude") mode w1)
    as (r2 & w2 & -> & _).
  eexists _, _. split; [reflexivity|]. now destruct mode.
Qed.

Lemma call_returns up this op value mode w :
  exists r w', call up this op value mode w = (Ok r, w') /\ has_shape mode r.
Proof.
  destruct op; cbn [call]; try apply validate_returns.
  - apply isValidCoordinates_returns.
  - rewrite isStrongPassword_eval. apply validate_returns.
Qed.

(** Every literal of the tables parses. *)
Lemma catalog_parses :
  forallb (fun p => negb (is_fallback (snd p)))
          (patterns ++ complexPatterns_postalCode ++ complexPatterns_crypto
           ++ complexPatterns_password ++ complexPatterns_coordinates ++ date_patterns
           ++ [("uuidPattern"%string, uuidPattern)]) = true.
Proof. vm_compute. reflexivity. Qed.

(** ** C1: Coordinates *)

Lemma get_latitude : get complexPatterns_coordinates "latitude" = VRegExp latitude_rule.
Proof. vm_compute. reflexivity. Qed.

Lemma get_longitude : get complexPatterns_coordinates "longitude" = VRegExp longitude_rule.
Proof. vm_compute. reflexivity. Qed.

(** In default mode, with a clock within the budget, the coordinates are
    valid exactly when both rules match. *)
Lemma isValidCoordinates_default up this lat lng w :
  within_budget this w = true ->
  exists w',
    isValidCoordinates up this lat lng mode_undefined w
    = (Ok (RBool (test up latitude_rule lat && test up longitude_rule lng)), w').
Proof.
  intros Hw. unfold isValidCoordinates, bind.
  rewrite validate_eval, (within_budget_guard this w Hw).
  rewrite get_latitude.
  rewrite validate_eval, within_budget_guard by (now do 3 apply within_budget_elapse).
  rewrite get_longitude. eexists. unfold ret. cbn [match_result both_valid typeof_boolean].
  now destruct (test up latitude_rule lat), (test up longitude_rule lng).
Qed.

(** The examples of the specification, in default mode. *)
Lemma isValidCoordinates_examples up :
  test up latitude_rule (js "37.7749") && test up longitude_rule (js "-122.4194") = true
  /\ test up latitude_rule (js "90.0001") && test up longitude_rule (js "45") = false
  /\ test up latitude_rule (js "91") && test up longitude_rule (js "200") = false.
Proof. repeat split; vm_compute; reflexivity. Qed.

(** C1. In verbose mode [isValidCoordinates] passes the mode on to
    [validate], gets two records back, and its [typeof ... === 'boolean']
    tests fail: [isValid] is [false] whatever the coordinates are, also
    for the pair the specification gives as valid. *)
Theorem C1_verbose_coordinates_never_valid up this w :
  test up latitude_rule (js "37.7749") = true
  /\ test up longitude_rule (js "-122.4194") = true
  /\ (forall lat lng, exists w',
         isValidCoordinates up this lat lng mode_verbose w
         = (Ok (RRecord (mkResult false
                           (Some "Both latitude and longitude must be valid"%string) None)),
            w')).
Proof.
  split; [vm_compute; reflexivity|]. split; [vm_compute; reflexivity|].
  intros lat lng. unfold isValidCoordinates, bind.
  destruct (validate_returns up this lat (get complexPatterns_coordinates "latitude")
              mode_verbose w) as (r1 & w1 & -> & H1).
  destruct (validate_returns up this lng (get complexPatterns_coordinates "longitude")
              mode_verbose w1) as (r2 & w2 & -> & H2).
  destruct r1 as [b1|rec1]; [destruct H1|]. eexists. reflexivity.
Qed.

(** ** C2: The shape of the result *)

(** C2. Every operation returns, and returns a record in verbose mode and
    a plain boolean without a mode. *)
Theorem C2_output_shape up this op value mode w :
  exists r w', call up this op value mode w = (Ok r, w') /\ has_shape mode r.
Proof. apply call_returns. Qed.

(** ** C3: The strong-password policy *)

Lemma isStrongPassword_accepted up this password options mode w :
  exists r w',
    isStrongPassword up this password options mode w = (Ok r, w')
    /\ accepted r
       = negb (guard_trips this w)
         && test up (strong_rule (strong_lookaheads options) (policy_minLength options))
                 password.
Proof.
  rewrite isStrongPassword_eval, validate_eval. destruct (guard_trips this w).
  - eexists _, _. split; [reflexivity|]. now destruct mode.
  - eexists _, _. split; [reflexivity|]. now destruct mode.
Qed.

(** The examples of the specification: ['password123'] passes the policy
    [{minLength: 6, requireUppercase: false, requireSpecialChars: false}]
    and ['short'] fails the default policy. *)
Lemma isStrongPassword_examples up this w :
  guard_trips this w = false ->
  fst (isStrongPassword up this (js "password123") example_policy mode_undefined w)
  = Ok (RBool true)
  /\ fst (isStrongPassword up this (js "short") no_password_options mode_undefined w)
     = Ok (RBool false).
Proof.
  intros Hg. rewrite !isStrongPassword_eval, !validate_eval, Hg.
  cbn [fst match_result].
  change (mkRegExp (strong_regex example_policy) 0 flags_none)
    with (strong_rule (strong_lookaheads example_policy) (policy_minLength example_policy)).
  change (mkRegExp (strong_regex no_password_options) 0 flags_none)
    with (strong_rule (strong_lookaheads no_password_options)
                      (policy_minLength no_password_options)).
  rewrite (strong_rule_count up example_policy 6 _ _ eq_refl (Permutation_refl _)).
  rewrite (strong_rule_count up no_password_options 8 _ _ eq_refl (Permutation_refl _)).
  split; vm_compute; reflexivity.
Qed.

(** C3 (amended). For a policy whose minimum length is an integer from
    0 to [10^21 - 1], and when the elapsed-time check does not trip,
    [isStrongPassword] accepts exactly the passwords that contain no
    line terminator and satisfy the conjunction of the specification:
    the length at least [minLength], and an uppercase letter, a digit
    and a special character wherever the policy requires one.  The order
    of the look-aheads in the pattern does not matter. *)
Theorem C3_strong_password_conjunction up this password options n mode w :
  count_of (policy_minLength options) = Some n ->
  guard_trips this w = false ->
  (exists r w',
      isStrongPassword up this password options mode w = (Ok r, w')
      /\ accepted r = no_line_terminator password && claimed_strong options password)
  /\ (forall lookaheads,
         Permutation lookaheads (strong_lookaheads options) ->
         test up (strong_rule lookaheads (policy_minLength options)) password
         = no_line_terminator password && claimed_strong options password).
Proof.
  intros Hn Hg. split.
  - destruct (isStrongPassword_accepted up this password options mode w)
      as (r & w' & Hr & Hacc).
    exists r, w'. split; [exact Hr|].
    rewrite Hacc, Hg. cbn [negb andb].
    exact (strong_rule_count up options n _ password Hn (Permutation_refl _)).
  - intros las Hperm. exact (strong_rule_count up options n las password Hn Hperm).
Qed.

(** C3, as stated, fails: a password with a line terminator satisfies the
    conjunction and is rejected; under the minimum [-1] a password that
    satisfies the conjunction is rejected; and under the minimum [1e21],
    which prints as [1e+21], a password of eight characters is
    accepted. *)
Lemma C3_counterexample :
  (claimed_strong no_password_options (js "Abcdef1!" ++ [10%N]) = true
   /\ fst (isStrongPassword identity_upper (constructor no_options) (js "Abcdef1!" ++ [10%N])
             no_password_options mode_undefined (mkWorld 0 []))
      = Ok (RBool false))
  /\ (claimed_strong negative_policy (js "password") = true
      /\ fst (isStrongPassword identity_upper (constructor no_options) (js "password")
                negative_policy mode_undefined (mkWorld 0 []))
         = Ok (RBool false))
  /\ (claimed_strong huge_policy (js "x{1e21,}") = false
      /\ fst (isStrongPassword identity_upper (constructor no_options) (js "x{1e21,}")
                huge_policy mode_undefined (mkWorld 0 []))
         = Ok (RBool true)).
Proof. repeat split; vm_compute; reflexivity. Qed.

Lemma C3_strong_password_witness :
  count_of (policy_minLength example_policy) = Some 6%N
  /\ guard_trips (constructor no_options) (mkWorld 0 []) = false
  /\ exists r w',
       isStrongPassword identity_upper (constructor no_options) (js "password123")
                        example_policy mode_undefined (mkWorld 0 []) = (Ok r, w')
       /\ accepted r = true.
Proof.
  assert (H1 : count_of (policy_minLength example_policy) = Some 6%N) by reflexivity.
  assert (H2 : guard_trips (constructor no_options) (mkWorld 0 []) = false)
    by (vm_compute; reflexivity).
  split; [exact H1|]. split; [exact H2|].
  destruct (C3_strong_password_conjunction identity_upper (constructor no_options)
              (js "password123") example_policy 6%N mode_undefined (mkWorld 0 []) H1 H2)
    as [(r & w' & Hr & Hacc) _].
  exists r, w'. split; [exact Hr|]. rewrite Hacc. vm_compute. reflexivity.
Defined.

(** ** C4: The date selector *)

Lemma get_date_default :
  js_or (get date_patterns "DD/MM/YYYY") (get date_patterns "DD/MM/YYYY")
  = VRegExp (date_rule "DD/MM/YYYY").
Proof. vm_compute. reflexivity. Qed.

Lemma get_date_constructor :
  js_or (get date_patterns "constructor") (get date_patterns "DD/MM/YYYY")
  = VInherited "constructor".
Proof. vm_compute. reflexivity. Qed.

(** A selector that is neither a property of the table nor a member of
    [Object.prototype] falls back to [DD/MM/YYYY]. *)
Lemma isValidDate_fallback up this date format mode w :
  own_property date_patterns format = None ->
  existsb (String.eqb format) object_prototype_keys = false ->
  isValidDate up this date (Some format) mode w
  = isValidDate up this date (Some "DD/MM/YYYY"%string) mode w.
Proof.
  intros Hown Hproto. unfold isValidDate. cbn [or_default].
  unfold get at 1. rewrite Hown, Hproto. reflexivity.
Qed.

Lemma isValidDate_bad_format up this w :
  guard_trips this w = false ->
  fst (isValidDate up this (js "31/13/2023") (Some "BAD-FORMAT"%string) mode_undefined w)
  = Ok (RBool false)
  /\ isValidDate up this (js "31/13/2023") (Some "BAD-FORMAT"%string) mode_undefined w
     = isValidDate up this (js "31/13/2023") (Some "DD/MM/YYYY"%string) mode_undefined w.
Proof.
  intros Hg. split; [|apply isValidDate_fallback; vm_compute; reflexivity].
  rewrite isValidDate_fallback by (vm_compute; reflexivity).
  unfold isValidDate. cbn [or_default].
  rewrite get_date_default.
  rewrite validate_eval, Hg. cbn [fst match_result]. vm_compute. reflexivity.
Qed.

(** C4. The selector ['constructor'] is not one of the four orderings,
    yet the lookup finds [Object.prototype.constructor], which is truthy:
    the fallback is not taken, the call to [test] faults and a date that
    [DD/MM/YYYY] accepts is rejected. *)
Theorem C4_inherited_key_defeats_fallback up this w :
  guard_trips this w = false ->
  fst (isValidDate up this (js "31/12/2023") (Some "constructor"%string) mode_undefined w)
  = Ok (RBool false)
  /\ fst (isValidDate up this (js "31/12/2023") (Some "DD/MM/YYYY"%string) mode_undefined w)
     = Ok (RBool true).
Proof.
  intros Hg. unfold isValidDate. cbn [or_default].
  rewrite get_date_constructor, get_date_default.
  rewrite !validate_eval, Hg. cbn [fst match_result error_result].
  split; [reflexivity|vm_compute; reflexivity].
Qed.

Lemma C4_inherited_key_witness :
  guard_trips (constructor no_options) (mkWorld 0 []) = false
  /\ fst (isValidDate identity_upper (constructor no_options) (js "31/12/2023")
            (Some "constructor"%string) mode_undefined (mkWorld 0 []))
     = Ok (RBool false)
  /\ fst (isValidDate identity_upper (constructor no_options) (js "31/12/2023")
            (Some "DD/MM/YYYY"%string) mode_undefined (mkWorld 0 []))
     = Ok (RBool true).
Proof.
  assert (H : guard_trips (constructor no_options) (mkWorld 0 []) = false)
    by (vm_compute; reflexivity).
  split; [exact H|].
  exact (C4_inherited_key_defeats_fallback identity_upper (constructor no_options)
           (mkWorld 0 []) H).
Defined.

(** ** C5: Faults of the evaluation *)

(** C5. A fault raised by the evaluation of the rule is caught by
    [validate]: the call returns [false], or in verbose mode the record
    with [isValid: false] and the error message; and no operation throws. *)
Theorem C5_faults_are_caught up this value pattern mode w :
  (exists r w',
      validate up this value pattern mode w = (Ok r, w')
      /\ forall e, rule_fault pattern = Some e ->
                   accepted r = false
                   /\ (guard_trips this w = false -> r = error_result mode e))
  /\ (forall op, exists r w', call up this op value mode w = (Ok r, w')).
Proof.
  split.
  - rewrite validate_eval. destruct (guard_trips this w).
    + eexists _, _. split; [reflexivity|]. intros e _. split; [now destruct mode|discriminate].
    + destruct pattern; eexists _, _; (split; [reflexivity|]); intros e' [= <-];
        (split; [now destruct mode|reflexivity]).
  - intros op. destruct (call_returns up this op value mode w) as (r & w' & H & _).
    now exists r, w'.
Qed.

Lemma C5_faults_witness :
  rule_fault VUndefined
  = Some (TypeError "Cannot read properties of undefined (reading 'test')")
  /\ guard_trips (constructor no_options) (mkWorld 0 []) = false
  /\ exists r w',
       validate identity_upper (constructor no_options) (js "90210") VUndefined
                mode_verbose (mkWorld 0 []) = (Ok r, w')
       /\ r = error_result mode_verbose
                (TypeError "Cannot read properties of undefined (reading 'test')").
Proof.
  assert (H1 : rule_fault VUndefined
               = Some (TypeError "Cannot read properties of undefined (reading 'test')"))
    by reflexivity.
  assert (H2 : guard_trips (constructor no_options) (mkWorld 0 []) = false)
    by (vm_compute; reflexivity).
  split; [exact H1|]. split; [exact H2|].
  destruct (C5_faults_are_caught identity_upper (constructor no_options) (js "90210")
              VUndefined mode_verbose (mkWorld 0 []))
    as [(r & w' & Hr & Hfault) _].
  exists r, w'. split; [exact Hr|]. exact (proj2 (Hfault _ H1) H2).
Defined.

(** ** C6: The timeout *)

Lemma budget_positive this :
  match timeout (options this) with Some t => (0 <= t)%Z | None => True end ->
  (0 < budget this)%Z.
Proof.
  unfold budget. destruct (timeout (options this)) as [t|]; [|lia].
  intros Ht. destruct (Z.eqb_spec t 0); lia.
Qed.

(** C6. With a non-negative configured timeout the budget is positive,
    the timeout message is returned exactly when the time between the
    two readings of the clock, before the rule is evaluated, exceeds the
    budget, and the time that passes afterwards has no influence on the
    result. *)
Theorem C6_timeout_only_before_evaluation up this value pattern w :
  match timeout (options this) with Some t => (0 <= t)%Z | None => True end ->
  (0 < budget this)%Z
  /\ (exists rec w',
        validate up this value pattern mode_verbose w = (Ok (RRecord rec), w')
        /\ (message rec = Some timeout_message
            <-> (budget this < elapsed_before_evaluation w)%Z))
  /\ (forall mode, guard_trips this w = true ->
                   fst (validate up this value pattern mode w) = Ok (timeout_result mode))
  /\ (forall mode t0 e later later',
        fst (validate up this value pattern mode (mkWorld t0 (e :: later)))
        = fst (validate up this value pattern mode (mkWorld t0 (e :: later')))).
Proof.
  intros Ht. split; [now apply budget_positive|]. split; [|split].
  - rewrite validate_eval. unfold guard_trips.
    destruct (Z.gtb_spec (elapsed_before_evaluation w) (budget this)) as [Hgt|Hle].
    + eexists _, _. split; [reflexivity|]. cbn [timeout_result message]. split; [lia|reflexivity].
    + destruct pattern as [re| |key|e]; eexists _, _; (split; [reflexivity|]);
        cbn [match_result error_result message]; (split; [|lia]).
      * destruct (test up re value); discriminate.
      * discriminate.
      * discriminate.
      * discriminate.
  - intros mode Hg. rewrite validate_eval, Hg. reflexivity.
  - intros mode t0 e later later'. rewrite !validate_eval.
    unfold guard_trips. rewrite !elapsed_hd. cbn [ticks hd].
    destruct (e >? budget this)%Z; [reflexivity|]. now destruct pattern.
Qed.

Lemma C6_timeout_witness :
  match timeout (options (constructor no_options)) with
  | Some t => (0 <= t)%Z
  | None => True
  end
  /\ (0 < budget (constructor no_options))%Z
  /\ exists rec w',
       validate identity_upper (constructor no_options) (js "90210") VUndefined
                mode_verbose (mkWorld 0 [6000%Z]) = (Ok (RRecord rec), w')
       /\ message rec = Some timeout_message.
Proof.
  assert (H : match timeout (options (constructor no_options)) with
              | Some t => (0 <= t)%Z
              | None => True
              end) by (vm_compute; discriminate).
  split; [exact H|].
  destruct (C6_timeout_only_before_evaluation identity_upper (constructor no_options)
              (js "90210") VUndefined (mkWorld 0 [6000%Z]) H)
    as (Hpos & (rec & w' & Hr & Hmsg) & _).
  split; [exact Hpos|]. exists rec, w'. split; [exact Hr|].
  apply Hmsg. vm_compute. reflexivity.
Defined.

(** ** C7: UUIDs *)

(** C7. A string that [isValidUUID] accepts has its version nibble in
    [1-5] and its variant nibble among [8 9 a b] (in either case); a
    string of UUID shape that breaks either restriction is rejected; and
    when the elapsed-time check does not trip, the strings of UUID shape
    that keep both are accepted. *)
Theorem C7_uuid_version_and_variant up this uuid mode w :
  exists r w',
    isValidUUID up this uuid mode w = (Ok r, w')
    /\ (accepted r = true ->
        version_ok (version_nibble uuid) = true /\ variant_ok (variant_nibble uuid) = true)
    /\ (uuid_shape uuid = true ->
        version_ok (version_nibble uuid) && variant_ok (variant_nibble uuid) = false ->
        accepted r = false)
    /\ (guard_trips this w = false ->
        accepted r
        = uuid_shape uuid && version_ok (version_nibble uuid)
          && variant_ok (variant_nibble uuid)).
Proof.
  destruct (isValidUUID_accepted up this uuid mode w) as (r & w' & Hr & Hacc).
  exists r, w'. split; [exact Hr|]. rewrite Hacc, uuid_valid_shape. split; [|split].
  - intros H. apply andb_prop in H as [_ H]. apply andb_prop in H as [H Hvar].
    apply andb_prop in H as [_ Hver]. now split.
  - intros Hshape Hbad. rewrite Hshape. cbn [andb].
    destruct (version_ok (version_nibble uuid)), (variant_ok (variant_nibble uuid));
      try discriminate; now rewrite ?andb_false_r.
  - intros ->. reflexivity.
Qed.

Lemma C7_uuid_witness :
  guard_trips (constructor no_options) (mkWorld 0 []) = false
  /\ exists r w',
       isValidUUID identity_upper (constructor no_options)
                   (js "550e8400-e29b-41d4-a716-446655440000") mode_undefined (mkWorld 0 [])
       = (Ok r, w')
       /\ accepted r = true
       /\ version_ok (version_nibble (js "550e8400-e29b-41d4-a716-446655440000")) = true
       /\ variant_ok (variant_nibble (js "550e8400-e29b-41d4-a716-446655440000")) = true.
Proof.
  assert (H : guard_trips (constructor no_options) (mkWorld 0 []) = false)
    by (vm_compute; reflexivity).
  split; [exact H|].
  destruct (C7_uuid_version_and_variant identity_upper (constructor no_options)
              (js "550e8400-e29b-41d4-a716-446655440000") mode_undefined (mkWorld 0 []))
    as (r & w' & Hr & Hnibbles & _ & Hexact).
  assert (Hacc : accepted r = true) by (rewrite (Hexact H); vm_compute; reflexivity).
  exists r, w'. split; [exact Hr|]. split; [exact Hacc|]. exact (Hnibbles Hacc).
Defined.

(** ** C8: A minimum length of zero or less *)

Lemma negative_no_count x : is_negative x = true -> count_of x = None.
Proof. destruct x as [|[]|neg|[] s e]; try discriminate; reflexivity. Qed.

(** C8 (amended). With [minLength: 0], and when the elapsed-time check
    does not trip, the length requirement is absent: a password without
    line terminator, the empty one included, is accepted exactly when
    the character-class requirements hold.  A negative [minLength] is
    never absent: nothing is clamped, the brace after the dot opens no
    quantifier, and every accepted password has a brace as its second
    character, so that the empty password is rejected.  When the
    minimum is a negative integer above [-10^21], only a password made
    of one character and the text [{minLength,}] can be accepted, and
    with the three requirements off, the elapsed-time check not
    tripping, these are the accepted ones. *)
Theorem C8_zero_and_negative_minLength up this password options mode w :
  exists r w',
    isStrongPassword up this password options mode w = (Ok r, w')
    /\ (count_of (policy_minLength options) = Some 0%N ->
        guard_trips this w = false ->
        accepted r = no_line_terminator password && character_requirements options password)
    /\ (is_negative (policy_minLength options) = true ->
        (accepted r = true -> exists c rest, password = c :: N_of_ascii "{" :: rest)
        /\ (forall n,
               negative_count (policy_minLength options) = Some n ->
               (accepted r = true ->
                literal_quantifier (policy_minLength options) password = true)
               /\ (strong_lookaheads options = [] -> guard_trips this w = false ->
                   accepted r = literal_quantifier (policy_minLength options) password))).
Proof.
  destruct (isStrongPassword_accepted up this password options mode w)
    as (r & w' & Hr & Hacc).
  exists r, w'. split; [exact Hr|]. rewrite Hacc. split.
  - intros H0 Hg. rewrite Hg. cbn [negb andb].
    rewrite (strong_rule_count up options 0 _ password H0 (Permutation_refl _)).
    unfold claimed_strong. rewrite (at_least_count _ 0 _ H0).
    replace (0 <=? N.of_nat (length password))%N with true
      by (symmetry; apply N.leb_le; lia).
    reflexivity.
  - intros Hneg. split.
    + intros H. apply andb_prop in H as [_ H].
      exact (strong_rule_brace up options password (negative_no_count _ Hneg) H).
    + intros n Hn. split.
      * intros H. apply andb_prop in H as [_ H].
        now apply (strong_rule_negative up options n password Hn) in H as [_ H].
      * intros Hlas Hg. rewrite Hg. cbn [negb andb]. apply eq_iff_eq_true.
        rewrite (strong_rule_negative up options n password Hn).
        rewrite Hlas. split; [now intros [_ H]|intros H; split; [constructor|exact H]].
Qed.

(** C8, as stated, fails for a negative minimum: with [minLength: -1] and
    the three toggles off the empty password is rejected, and so is
    ['password']; with [minLength: -1.5] the empty password is rejected
    as well. *)
Lemma C8_counterexample :
  character_requirements negative_policy [] = true
  /\ fst (isStrongPassword identity_upper (constructor no_options) [] negative_policy
            mode_undefined (mkWorld 0 []))
     = Ok (RBool false)
  /\ fst (isStrongPassword identity_upper (constructor no_options) (js "password")
            negative_policy mode_undefined (mkWorld 0 []))
     = Ok (RBool false)
  /\ fst (isStrongPassword identity_upper (constructor no_options) [] fraction_policy
            mode_undefined (mkWorld 0 []))
     = Ok (RBool false).
Proof. repeat split; vm_compute; reflexivity. Qed.

Lemma C8_minLength_witness :
  count_of (policy_minLength zero_policy) = Some 0%N
  /\ guard_trips (constructor no_options) (mkWorld 0 []) = false
  /\ exists r w',
       isStrongPassword identity_upper (constructor no_options) [] zero_policy
                        mode_undefined (mkWorld 0 []) = (Ok r, w')
       /\ accepted r = true.
Proof.
  assert (H1 : count_of (policy_minLength zero_policy) = Some 0%N) by reflexivity.
  assert (H2 : guard_trips (constructor no_options) (mkWorld 0 []) = false)
    by (vm_compute; reflexivity).
  split; [exact H1|]. split; [exact H2|].
  destruct (C8_zero_and_negative_minLength identity_upper (constructor no_options) []
              zero_policy mode_undefined (mkWorld 0 []))
    as (r & w' & Hr & Hzero & _).
  exists r, w'. split; [exact Hr|]. rewrite (Hzero H1 H2). vm_compute. reflexivity.
Defined.

(** ** C9: Keys the sub-tables do not have *)

Lemma get_absent table key :
  own_property table key = None ->
  exists e, rule_fault (get table key) = Some e.
Proof.
  unfold get. intros ->.
  destruct (existsb (String.eqb key) object_prototype_keys); eexists; reflexivity.
Qed.

Lemma validate_fault up this value pattern mode w e :
  rule_fault pattern = Some e ->
  exists w', validate up this value pattern mode w
             = (Ok (if guard_trips this w then timeout_result mode else error_result mode e),
                w').
Proof.
  intros He. rewrite validate_eval. destruct (guard_trips this w); [eauto|].
  destruct pattern; try discriminate; injection He as <-; eauto.
Qed.

(** C9 (amended). A key that the sub-table does not have makes the call
    fail closed, and it never throws: the lookup yields no [RegExp];
    when the elapsed-time check does not trip, the evaluation faults
    inside [validate] and the call returns [false], or the record with
    [isValid: false] and the message of the error in verbose mode; when
    the check trips, nothing is evaluated and the call returns the
    timeout outcome, [false] or the record with [isValid: false] and
    the timeout message. *)
Theorem C9_unknown_key_fails_closed up this value key mode w :
  (~ In key ["US"; "UK"; "CA"; "ANY"]%string ->
   exists e w',
     rule_fault (get complexPatterns_postalCode key) = Some e
     /\ isValidPostalCode up this value key mode w
        = (Ok (if guard_trips this w then timeout_result mode else error_result mode e), w'))
  /\ (~ In key ["BTC"; "ETH"]%string ->
      exists e w',
        rule_fault (get complexPatterns_crypto key) = Some e
        /\ isValidCryptoAddress up this value key mode w
           = (Ok (if guard_trips this w then timeout_result mode else error_result mode e),
              w')).
Proof.
  split; intros Hkey.
  - assert (Hown : own_property complexPatterns_postalCode key = None).
    { cbn [own_property complexPatterns_postalCode].
      repeat match goal with
             | |- context [String.eqb ?k key] =>
                 destruct (String.eqb_spec k key) as [<-|_];
                 [exfalso; apply Hkey; cbn; tauto|]
             end. reflexivity. }
    destruct (get_absent _ _ Hown) as [e He]. exists e.
    destruct (validate_fault up this value _ mode w e He) as [w' Hv].
    exists w'. split; [exact He|exact Hv].
  - assert (Hown : own_property complexPatterns_crypto key = None).
    { cbn [own_property complexPatterns_crypto].
      repeat match goal with
             | |- context [String.eqb ?k key] =>
                 destruct (String.eqb_spec k key) as [<-|_];
                 [exfalso; apply Hkey; cbn; tauto|]
             end. reflexivity. }
    destruct (get_absent _ _ Hown) as [e He]. exists e.
    destruct (validate_fault up this value _ mode w e He) as [w' Hv].
    exists w'. split; [exact He|exact Hv].
Qed.

(** C9, as stated, fails when the elapsed-time check trips: under the
    timeout [-1] no fault is raised for the key ['FR'], and the verbose
    record carries the timeout message, not the message of an error. *)
Lemma C9_counterexample :
  ~ In "FR"%string ["US"; "UK"; "CA"; "ANY"]%string
  /\ fst (isValidPostalCode identity_upper
            (constructor (mkOptions (Some (-1)%Z) None None None)) (js "75001") "FR"
            mode_verbose (mkWorld 0 []))
     = Ok (RRecord (mkResult false (Some "Validation timeout exceeded"%string) None))
  /\ forall e : JsError,
       error_result mode_verbose e
       <> RRecord (mkResult false (Some "Validation timeout exceeded"%string) None).
Proof.
  split; [|split].
  - cbn. intros [E|[E|[E|[E|[]]]]]; discriminate E.
  - vm_compute. reflexivity.
  - intros e. cbn [error_result]. intros [=].
Qed.

Lemma C9_unknown_key_witness :
  ~ In "FR"%string ["US"; "UK"; "CA"; "ANY"]%string
  /\ exists e w',
       rule_fault (get complexPatterns_postalCode "FR") = Some e
       /\ isValidPostalCode identity_upper (constructor no_options) (js "75001") "FR"
                            mode_undefined (mkWorld 0 [])
          = (Ok (if guard_trips (constructor no_options) (mkWorld 0 [])
                 then timeout_result mode_undefined
                 else error_result mode_undefined e), w').
Proof.
  assert (H : ~ In "FR"%string ["US"; "UK"; "CA"; "ANY"]%string).
  { cbn. intros [E|[E|[E|[E|[]]]]]; discriminate E. }
  split; [exact H|].
  exact (proj1 (C9_unknown_key_fails_closed identity_upper (constructor no_options)
                  (js "75001") "FR"%string mode_undefined (mkWorld 0 [])) H).
Defined.

(** ** C10: A timeout of zero *)

Lemma validate_budget up this1 this2 value pattern mode w :
  budget this1 = budget this2 ->
  validate up this1 value pattern mode w = validate up this2 value pattern mode w.
Proof. intros H. rewrite !validate_eval. unfold guard_trips. now rewrite H. Qed.

Lemma call_budget up this1 this2 op value mode w :
  budget this1 = budget this2 ->
  call up this1 op value mode w = call up this2 op value mode w.
Proof.
  intros H. destruct op; cbn [call]; try (now apply validate_budget).
  - unfold isValidCoordinates, bind.
    rewrite (validate_budget up this1 this2 _ _ _ _ H).
    destruct (validate up this2 value _ mode w) as [[r1|e1] w1]; [|reflexivity].
    now rewrite (validate_budget up this1 this2 _ _ _ _ H).
  - rewrite !isStrongPassword_eval. now apply validate_budget.
Qed.

(** C10. A validator constructed with [timeout: 0] gives the results of
    one constructed with the default of 5000 (the timeout left out, or
    given as 5000), for every operation (the generic [isValid] with any
    rule included), value, mode and clock. *)
Theorem C10_zero_timeout_is_default up cs ml un op value mode w :
  call up (constructor (mkOptions (Some 0%Z) cs ml un)) op value mode w
  = call up (constructor (mkOptions None cs ml un)) op value mode w
  /\ call up (constructor (mkOptions (Some 0%Z) cs ml un)) op value mode w
     = call up (constructor (mkOptions (Some 5000%Z) cs ml un)) op value mode w.
Proof. split; apply call_budget; reflexivity. Qed.

(** * The engine and the language of a pattern *)

Module LanguageFacts.
Import Engine Positions EngineFacts Language.

Lemma slice_same (input : list N) i : slice input i i = [].
Proof. unfold slice. now rewrite Nat.sub_diag. Qed.

Lemma length_slice (input : list N) i j :
  i <= j <= length input -> length (slice input i j) = j - i.
Proof. intros H. unfold slice. rewrite length_firstn, length_skipn. lia. Qed.

Lemma slice_full (input : list N) : slice input 0 (length input) = input.
Proof. unfold slice. cbn [skipn]. rewrite Nat.sub_0_r. apply firstn_all. Qed.

Lemma slice_app (input : list N) i k j :
  i <= k <= j -> slice input i j = slice input i k ++ slice input k j.
Proof.
  intros H. unfold slice.
  replace (j - i) with ((k - i) + (j - k)) by lia.
  replace (skipn k input) with (skipn (k - i) (skipn i input)).
  - generalize (skipn i input) as l. generalize (k - i) as a. generalize (j - k) as b.
    intros b a. induction a as [|a IH]; intros l; [reflexivity|].
    destruct l as [|x l]; cbn [Nat.add firstn skipn app].
    + now rewrite firstn_nil.
    + now rewrite IH.
  - rewrite skipn_skipn. f_equal. lia.
Qed.

Lemma slice_split (input : list N) i j s1 s2 :
  i <= j <= length input -> slice input i j = s1 ++ s2 ->
  i + length s1 <= j
  /\ s1 = slice input i (i + length s1)
  /\ s2 = slice input (i + length s1) j.
Proof.
  intros H E.
  assert (Hlen : length s1 + length s2 = j - i).
  { rewrite <- length_app, <- E. now apply length_slice. }
  assert (Hk : i <= i + length s1 <= j) by lia.
  rewrite (slice_app input i (i + length s1) j Hk) in E.
  assert (L1 : length (slice input i (i + length s1)) = length s1).
  { rewrite length_slice; lia. }
  split; [lia|].
  apply app_eq_app in E as (l & [[E1 E2]|[E1 E2]]).
  - assert (l = []).
    { apply (f_equal (@length N)) in E1. rewrite length_app in E1.
      destruct l; [reflexivity|cbn in E1; lia]. }
    subst l. rewrite app_nil_r in E1. cbn in E2. now subst.
  - assert (l = []).
    { apply (f_equal (@length N)) in E1. rewrite length_app in E1.
      destruct l; [reflexivity|cbn in E1; lia]. }
    subst l. rewrite app_nil_r in E1. cbn in E2. now subst.
Qed.

Lemma slice_char (input : list N) i ch :
  nth_error input i = Some ch <-> i < length input /\ slice input i (S i) = [ch].
Proof.
  unfold slice. replace (S i - i) with 1 by lia. rewrite (skipn_nth_error _ input i).
  destruct (nth_error input i) as [c|] eqn:E.
  - cbn [firstn]. split.
    + intros [= ->]. split; [|reflexivity]. apply nth_error_Some. congruence.
    + intros [_ [= ->]]. reflexivity.
  - cbn [firstn]. split; [discriminate|]. intros [_ H]. discriminate.
Qed.

Section Facts.
Variable unicode_upper : N -> list N.
Variable ignoreCase : bool.

Local Abbreviation Lang := (Language.Lang unicode_upper ignoreCase).

Lemma length_concat_pieces (P : list N -> Prop) w pieces :
  (forall s, P s -> w <= length s) -> Forall P pieces ->
  length pieces * w <= length (concat pieces).
Proof.
  intros Hw. induction 1 as [|p ps Hp _ IH]; [reflexivity|].
  cbn [length concat Nat.mul]. rewrite length_app. specialize (Hw p Hp). lia.
Qed.

Lemma Lang_min_width r : forall s, Lang r s -> min_width r <= length s.
Proof.
  induction r as [ |c| |inv cs| | |a IHa b IHb|a IHa b IHb|min max greedy r IH|k r IH|neg r IH];
    intros s; cbn [Language.Lang min_width].
  - intros ->. reflexivity.
  - intros (ch & -> & _). reflexivity.
  - intros (ch & -> & _). reflexivity.
  - intros (ch & -> & _). reflexivity.
  - intros [].
  - intros [].
  - intros (s1 & s2 & -> & H1 & H2). rewrite length_app.
    specialize (IHa _ H1). specialize (IHb _ H2). lia.
  - intros [H|H]; [specialize (IHa _ H)|specialize (IHb _ H)]; lia.
  - intros (pieces & -> & Hall & Hmin & _).
    pose proof (length_concat_pieces _ _ pieces IH Hall). nia.
  - apply IH.
  - intros [].
Qed.

Variable input : list N.

Local Abbreviation positions := (Positions.positions unicode_upper ignoreCase input).

Lemma iterate_reaches_bounds p w k :
  (forall i j, In j (p i) -> i + w <= j /\ j <= Nat.max i (length input)) ->
  forall i j, iterate_reaches p k i j -> i + k * w <= j /\ j <= Nat.max i (length input).
Proof.
  intros Hp. induction k as [|k IH]; intros i j; cbn [iterate_reaches].
  - intros <-. lia.
  - intros (m & Hm & Hk). apply Hp in Hm. apply IH in Hk. lia.
Qed.

(** A match never ends before the least width of the pattern, nor
    beyond the end of the input. *)
Lemma positions_bounds r : plain r = true ->
  forall i j, In j (positions r i) -> i + min_width r <= j /\ j <= Nat.max i (length input).
Proof.
  induction r as [ |c| |inv cs| | |a IHa b IHb|a IHa b IHb|min max greedy r IH|k r IH|neg r IH];
    cbn [plain min_width]; intros Hplain i j; try discriminate.
  - cbn. intros [<-|[]]. lia.
  - cbn [Positions.positions]. intros H. apply char_positions_progress in H. lia.
  - cbn [Positions.positions]. intros H. apply char_positions_progress in H. lia.
  - cbn [Positions.positions]. intros H. apply char_positions_progress in H. lia.
  - apply andb_prop in Hplain as [Ha Hb]. rewrite in_positions_Seq.
    intros (m & Hm & Hj). apply (IHa Ha) in Hm. apply (IHb Hb) in Hj. lia.
  - apply andb_prop in Hplain as [Ha Hb]. cbn [Positions.positions]. rewrite in_app_iff.
    intros [H|H]; [apply (IHa Ha) in H|apply (IHb Hb) in H]; lia.
  - apply andb_prop in Hplain as [Hplain Hmax]. apply andb_prop in Hplain as [Hr Hw].
    apply Nat.ltb_lt in Hw. specialize (IH Hr).
    cbn [Positions.positions].
    rewrite (RepeatPositions_spec unicode_upper input (positions r) greedy).
    + intros (n & Hn & _ & Hreach).
      apply (iterate_reaches_bounds (positions r) (min_width r) n IH) in Hreach. nia.
    + intros a b H. apply IH in H. lia.
    + unfold repeat_fuel. lia.
    + intros mx ->. now apply N.leb_le.
  - cbn [Positions.positions]. now apply IH.
Qed.

Lemma iterate_reaches_pieces (p : nat -> list nat) (P : list N -> Prop) :
  (forall i j, i <= length input ->
               (In j (p i) <-> i <= j <= length input /\ P (slice input i j))) ->
  forall k i j, i <= length input ->
    (iterate_reaches p k i j
     <-> i <= j <= length input
         /\ exists pieces, length pieces = k /\ Forall P pieces
                           /\ slice input i j = concat pieces).
Proof.
  intros Hp. induction k as [|k IH]; intros i j Hi; cbn [iterate_reaches].
  - split.
    + intros <-. split; [lia|]. exists []. rewrite slice_same. now repeat split.
    + intros [Hj (pieces & Hlen & _ & E)].
      destruct pieces; [|discriminate]. cbn in E.
      apply (f_equal (@length N)) in E. rewrite length_slice in E by lia. cbn in E. lia.
  - split.
    + intros (m & Hm & Hk). apply (Hp _ _ Hi) in Hm as [Him Hm].
      apply IH in Hk as [Hmj (pieces & Hlen & Hall & E)]; [|lia].
      split; [lia|]. exists (slice input i m :: pieces). split; [cbn; lia|].
      split; [now constructor|]. cbn [concat]. rewrite <- E. apply slice_app. lia.
    + intros [Hj (pieces & Hlen & Hall & E)].
      destruct pieces as [|p1 pieces]; [discriminate|].
      cbn [concat] in E. apply slice_split in E as (Hm & E1 & E2); [|exact Hj].
      inversion Hall as [|? ? H1 Hrest]; subst.
      exists (i + length p1). split.
      * apply (Hp _ _ Hi). split; [lia|]. now rewrite <- E1.
      * apply IH; [lia|]. split; [lia|]. exists pieces.
        split; [cbn in Hlen; lia|]. split; [exact Hrest|]. now symmetry.
Qed.

(** The end positions of a plain pattern are the ends of the pieces of
    the input in its language. *)
Theorem positions_Lang r : plain r = true ->
  forall i j, i <= length input ->
    (In j (positions r i) <-> i <= j <= length input /\ Lang r (slice input i j)).
Proof.
  induction r as [ |c| |inv cs| | |a IHa b IHb|a IHa b IHb|min max greedy r IH|k r IH|neg r IH];
    cbn [plain]; intros Hplain i j Hi; try discriminate.
  - cbn [Positions.positions Language.Lang In]. split.
    + intros [<-|[]]. split; [lia|apply slice_same].
    + intros [Hj E]. left. apply (f_equal (@length N)) in E.
      rewrite length_slice in E by lia. cbn in E. lia.
  - cbn [Positions.positions Language.Lang]. rewrite in_char_positions. split.
    + intros [-> (ch & Hch & Ht)]. apply slice_char in Hch as [Hlt Hch].
      split; [lia|]. now exists ch.
    + intros [Hj (ch & E & Ht)].
      assert (j = S i).
      { apply (f_equal (@length N)) in E. rewrite length_slice in E by lia. cbn in E. lia. }
      subst j. split; [reflexivity|]. exists ch. split; [|exact Ht].
      apply slice_char. split; [lia|exact E].
  - cbn [Positions.positions Language.Lang]. rewrite in_char_positions. split.
    + intros [-> (ch & Hch & Ht)]. apply slice_char in Hch as [Hlt Hch].
      split; [lia|]. now exists ch.
    + intros [Hj (ch & E & Ht)].
      assert (j = S i).
      { apply (f_equal (@length N)) in E. rewrite length_slice in E by lia. cbn in E. lia. }
      subst j. split; [reflexivity|]. exists ch. split; [|exact Ht].
      apply slice_char. split; [lia|exact E].
  - cbn [Positions.positions Language.Lang]. rewrite in_char_positions. split.
    + intros [-> (ch & Hch & Ht)]. apply slice_char in Hch as [Hlt Hch].
      split; [lia|]. now exists ch.
    + intros [Hj (ch & E & Ht)].
      assert (j = S i).
      { apply (f_equal (@length N)) in E. rewrite length_slice in E by lia. cbn in E. lia. }
      subst j. split; [reflexivity|]. exists ch. split; [|exact Ht].
      apply slice_char. split; [lia|exact E].
  - apply andb_prop in Hplain as [Ha Hb]. rewrite in_positions_Seq.
    cbn [Language.Lang]. split.
    + intros (m & Hm & Hj). apply (IHa Ha) in Hm as [Him Hm]; [|exact Hi].
      apply (IHb Hb) in Hj as [Hmj Hj]; [|lia].
      split; [lia|]. exists (slice input i m), (slice input m j).
      split; [apply slice_app; lia|]. now split.
    + intros [Hj (s1 & s2 & E & H1 & H2)].
      apply slice_split in E as (Hm & E1 & E2); [|exact Hj].
      exists (i + length s1). split.
      * apply (IHa Ha); [exact Hi|]. split; [lia|]. now rewrite <- E1.
      * apply (IHb Hb); [lia|]. split; [lia|]. now rewrite <- E2.
  - apply andb_prop in Hplain as [Ha Hb]. cbn [Positions.positions Language.Lang].
    rewrite in_app_iff, (IHa Ha i j Hi), (IHb Hb i j Hi). tauto.
  - apply andb_prop in Hplain as [Hplain Hmax]. apply andb_prop in Hplain as [Hr Hw].
    apply Nat.ltb_lt in Hw.
    cbn [Positions.positions Language.Lang].
    rewrite (RepeatPositions_spec unicode_upper input (positions r) greedy).
    + split.
      * intros (n & Hmin & Hmx & Hreach).
        apply (iterate_reaches_pieces (positions r) (Lang r) (IH Hr)) in Hreach
          as [Hj (pieces & Hlen & Hall & E)]; [|exact Hi].
        split; [exact Hj|]. exists pieces. repeat split; auto; [lia|].
        destruct max as [mx|]; [|exact I]. specialize (Hmx mx eq_refl). lia.
      * intros [Hj (pieces & E & Hall & Hmin & Hmx)]. exists (length pieces).
        split; [exact Hmin|]. split.
        -- intros mx ->. exact Hmx.
        -- apply (iterate_reaches_pieces (positions r) (Lang r) (IH Hr)); [exact Hi|].
           split; [exact Hj|]. now exists pieces.
    + intros a b H. apply (positions_bounds r Hr) in H. lia.
    + unfold repeat_fuel. lia.
    + intros mx ->. now apply N.leb_le.
  - cbn [Positions.positions Language.Lang]. now apply IH.
Qed.

End Facts.

Section TestFacts.
Variable unicode_upper : N -> list N.
Import RegExpObject.

(** A rule [^ ... $] without assertions in between accepts the strings
    of the language of what is between the anchors. *)
Theorem test_anchored_Lang re s mids :
  re_pattern re = Parser.seq_of (AssertStart :: mids ++ [AssertEnd]) ->
  plain (Parser.seq_of mids) = true ->
  (test unicode_upper re s = true
   <-> Language.Lang unicode_upper (ignoreCase_of (re_flags re)) (Parser.seq_of mids)
         (input_of (re_flags re) s)).
Proof.
  intros Hre Hplain. rewrite (test_anchored unicode_upper re s mids Hre).
  rewrite <- positions_seq_of.
  rewrite (positions_Lang unicode_upper _ _ _ Hplain) by lia.
  rewrite slice_full. split; [tauto|]. intros H. split; [lia|exact H].
Qed.

(** A rule without assertions accepts the strings that contain a piece
    of its language. *)
Theorem test_plain_Lang re s :
  plain (re_pattern re) = true ->
  (test unicode_upper re s = true
   <-> exists a m b, input_of (re_flags re) s = a ++ m ++ b
                     /\ Language.Lang unicode_upper (ignoreCase_of (re_flags re))
                          (re_pattern re) m).
Proof.
  intros Hplain. rewrite test_true_iff. set (input := input_of (re_flags re) s). split.
  - intros (i & j & Hi & Hj).
    apply (positions_Lang unicode_upper _ _ _ Hplain) in Hj as [Hj HL]; [|exact Hi].
    exists (slice input 0 i), (slice input i j), (slice input j (length input)).
    split; [|exact HL].
    rewrite <- (slice_app input i j (length input)) by lia.
    rewrite <- (slice_app input 0 i (length input)) by lia.
    symmetry. apply slice_full.
  - intros (a & m & b & E & HL). exists (length a), (length a + length m).
    assert (Hlen : length input = length a + (length m + length b)).
    { rewrite E, !length_app. reflexivity. }
    split; [lia|].
    apply (positions_Lang unicode_upper _ _ _ Hplain); [lia|]. split; [lia|].
    replace (slice input (length a) (length a + length m)) with m; [exact HL|].
    unfold slice. rewrite E, skipn_app, Nat.sub_diag, skipn_all. cbn [skipn app].
    replace (length a + length m - length a) with (length m + 0) by lia.
    rewrite firstn_app_2. cbn. now rewrite app_nil_r.
Qed.

End TestFacts.

End LanguageFacts.

(** * The language of the usual terms *)

Module TermFacts.
Import Engine Positions EngineFacts Language LanguageFacts.

Section Terms.
Variable up : N -> list N.
Variable ic : bool.

Local Abbreviation Lang := (Language.Lang up ic).

Lemma Lang_char r t s :
  char_test up ic r = Some t -> (Lang r s <-> exists ch, s = [ch] /\ t ch = true).
Proof. destruct r; cbn [char_test]; intros [= <-]; reflexivity. Qed.

Lemma concat_singletons (s : list N) : concat (map (fun c => [c]) s) = s.
Proof. induction s as [|c s IH]; [reflexivity|]. cbn. now rewrite IH. Qed.

Lemma Forall_singletons (t : N -> bool) pieces :
  Forall (fun p => exists ch, p = [ch] /\ t ch = true) pieces ->
  length (concat pieces) = length pieces /\ forallb t (concat pieces) = true.
Proof.
  induction 1 as [|p ps (ch & -> & Ht) _ [IH1 IH2]]; [now split|].
  cbn [concat app length forallb]. rewrite Ht, IH1, IH2. now split.
Qed.

(** A quantified one-character term: the length within the bounds, and
    every character passing the test. *)
Lemma Lang_Repeat_char r t min max g s :
  char_test up ic r = Some t ->
  (Lang (Repeat min max g r) s
   <-> N.to_nat min <= length s
       /\ match max with Some mx => length s <= N.to_nat mx | None => True end
       /\ forallb t s = true).
Proof.
  intros Ht. cbn [Language.Lang]. split.
  - intros (pieces & -> & Hall & Hmin & Hmax).
    assert (H : Forall (fun p => exists ch, p = [ch] /\ t ch = true) pieces).
    { eapply Forall_impl; [|exact Hall]. intros p Hp. now apply (Lang_char r t p Ht). }
    apply Forall_singletons in H as [Hlen Hok]. rewrite Hlen. now repeat split.
  - intros (Hmin & Hmax & Hall). exists (map (fun c => [c]) s).
    rewrite concat_singletons, length_map. repeat split; auto.
    apply Forall_forall. intros p Hp. apply in_map_iff in Hp as (c & <- & Hc).
    apply (Lang_char r t [c] Ht). exists c. split; [reflexivity|].
    rewrite forallb_forall in Hall. now apply Hall.
Qed.

(** An optional term. *)
Lemma Lang_optional g r s : Lang (Repeat 0 (Some 1%N) g r) s <-> s = [] \/ Lang r s.
Proof.
  cbn [Language.Lang]. split.
  - intros (pieces & -> & Hall & _ & Hmax).
    destruct pieces as [|p [|q pieces]]; [now left| |cbn in Hmax; lia].
    right. cbn. rewrite app_nil_r. now inversion Hall.
  - intros [->|H].
    + exists []. repeat split; auto; try (cbn; lia).
    + exists [s]. cbn. rewrite app_nil_r. repeat split; auto; try lia.
Qed.

(** One more iteration in front. *)
Lemma Lang_Repeat_cons g r min max p s :
  Lang r p -> Lang (Repeat min max g r) s ->
  Lang (Repeat (N.succ min) (option_map N.succ max) g r) (p ++ s).
Proof.
  cbn [Language.Lang]. intros Hp (pieces & -> & Hall & Hmin & Hmax).
  exists (p :: pieces). cbn [concat length]. repeat split; auto; [lia|].
  destruct max as [mx|]; cbn [option_map]; [lia|exact I].
Qed.

(** The first iteration of a repetition. *)
Lemma Lang_Repeat_unfold g r min max s :
  Lang (Repeat min max g r) s
  <-> (min = 0%N /\ s = [])
      \/ (max <> Some 0%N
          /\ exists p s', s = p ++ s' /\ Lang r p
                          /\ Lang (Repeat (N.pred min) (option_map N.pred max) g r) s').
Proof.
  cbn [Language.Lang]. split.
  - intros (pieces & -> & Hall & Hmin & Hmax). destruct pieces as [|p pieces].
    + left. cbn in Hmin. split; [lia|reflexivity].
    + right. split.
      * intros ->. cbn in Hmax. lia.
      * exists p, (concat pieces). split; [reflexivity|].
        inversion Hall as [|? ? Hp Hrest]; subst. split; [exact Hp|].
        exists pieces. cbn [length] in *. repeat split; auto; [lia|].
        destruct max as [mx|]; cbn [option_map]; [lia|exact I].
  - intros [[-> ->]|[Hmax (p & s' & -> & Hp & pieces & -> & Hall & Hmin & Hmx)]].
    + exists []. split; [reflexivity|]. split; [constructor|]. split; [cbn; lia|].
      destruct max; cbn; [lia|exact I].
    + exists (p :: pieces). cbn [concat length]. repeat split; auto; [lia|].
      destruct max as [mx|]; cbn [option_map] in *; [|exact I].
      assert (mx <> 0%N) by congruence. lia.
Qed.

(** The language does not depend on the group numbers nor on
    greediness. *)
Lemma Lang_Group k r s : Lang (Group k r) s <-> Lang r s.
Proof. reflexivity. Qed.

(** A one-character term in front. *)
Lemma Lang_Seq_char r t b s :
  char_test up ic r = Some t ->
  (Lang (Seq r b) s
   <-> match s with
       | c :: s' => t c = true /\ Lang b s'
       | [] => False
       end).
Proof.
  intros Ht. cbn [Language.Lang]. split.
  - intros (s1 & s2 & -> & H1 & H2). apply (Lang_char r t s1 Ht) in H1 as (ch & -> & Hch).
    cbn. now split.
  - destruct s as [|c s']; [intros []|]. intros [Hc Hb]. exists [c], s'.
    split; [reflexivity|]. split; [|exact Hb]. apply (Lang_char r t [c] Ht). now exists c.
Qed.

(** An optional term in front. *)
Lemma Lang_Seq_optional g r b s :
  Lang (Seq (Repeat 0 (Some 1%N) g r) b) s <-> Lang b s \/ Lang (Seq r b) s.
Proof.
  change (Lang (Seq (Repeat 0 (Some 1%N) g r) b) s)
    with (exists s1 s2, s = s1 ++ s2 /\ Lang (Repeat 0 (Some 1%N) g r) s1 /\ Lang b s2).
  change (Lang (Seq r b) s) with (exists s1 s2, s = s1 ++ s2 /\ Lang r s1 /\ Lang b s2).
  split.
  - intros (s1 & s2 & -> & H1 & H2). apply Lang_optional in H1 as [->|H1].
    + now left.
    + right. now exists s1, s2.
  - intros [H|(s1 & s2 & -> & H1 & H2)].
    + exists [], s. split; [reflexivity|]. split; [|exact H]. apply Lang_optional. now left.
    + exists s1, s2. split; [reflexivity|]. split; [|exact H2]. apply Lang_optional. now right.
Qed.

(** An optional term at the end. *)
Lemma Lang_optional_last g a r s :
  Lang (Seq a (Repeat 0 (Some 1%N) g r)) s <-> Lang a s \/ Lang (Seq a r) s.
Proof.
  change (Lang (Seq a (Repeat 0 (Some 1%N) g r)) s)
    with (exists s1 s2, s = s1 ++ s2 /\ Lang a s1 /\ Lang (Repeat 0 (Some 1%N) g r) s2).
  change (Lang (Seq a r) s) with (exists s1 s2, s = s1 ++ s2 /\ Lang a s1 /\ Lang r s2).
  split.
  - intros (s1 & s2 & -> & H1 & H2). apply Lang_optional in H2 as [->|H2].
    + left. now rewrite app_nil_r.
    + right. now exists s1, s2.
  - intros [H|(s1 & s2 & -> & H1 & H2)].
    + exists s, []. split; [now rewrite app_nil_r|]. split; [exact H|].
      apply Lang_optional. now left.
    + exists s1, s2. split; [reflexivity|]. split; [exact H1|]. apply Lang_optional. now right.
Qed.

Lemma length_concat_width (P : list N -> Prop) n pieces :
  (forall s, P s -> length s = n) -> Forall P pieces ->
  length (concat pieces) = length pieces * n.
Proof.
  intros Hn. induction 1 as [|p ps Hp _ IH]; [reflexivity|].
  cbn [concat length Nat.mul]. rewrite length_app, IH, (Hn p Hp). reflexivity.
Qed.

Lemma Lang_width r : forall n s, width r = Some n -> Lang r s -> length s = n.
Proof.
  induction r as [ |c| |inv cs| | |a IHa b IHb|a IHa b IHb|min max greedy r IH|k r IH|neg r IH];
    intros n s; cbn [width Language.Lang]; try discriminate.
  - intros [= <-] ->. reflexivity.
  - intros [= <-] (ch & -> & _). reflexivity.
  - intros [= <-] (ch & -> & _). reflexivity.
  - intros [= <-] (ch & -> & _). reflexivity.
  - destruct (width a) as [na|]; [|discriminate]. destruct (width b) as [nb|]; [|discriminate].
    intros [= <-] (s1 & s2 & -> & H1 & H2). rewrite length_app.
    now rewrite (IHa na s1 eq_refl H1), (IHb nb s2 eq_refl H2).
  - destruct (width a) as [na|]; [|discriminate]. destruct (width b) as [nb|]; [|discriminate].
    destruct (Nat.eqb_spec na nb) as [<-|]; [|discriminate].
    intros [= <-] [H|H]; [now apply (IHa na s eq_refl)|now apply (IHb na s eq_refl)].
  - destruct max as [max|]; [|discriminate]. destruct (width r) as [w|]; [|discriminate].
    destruct (N.eqb_spec min max) as [<-|]; [|discriminate].
    intros [= <-] (pieces & -> & Hall & Hmin & Hmax).
    rewrite (length_concat_width (Lang r) w pieces (fun s => IH w s eq_refl) Hall).
    f_equal. lia.
  - apply IH.
Qed.

(** A term of fixed width in front takes so many characters. *)
Lemma Lang_Seq_width a b n s :
  width a = Some n ->
  (Lang (Seq a b) s <-> Lang a (firstn n s) /\ Lang b (skipn n s)).
Proof.
  intros Hn. cbn [Language.Lang]. split.
  - intros (s1 & s2 & -> & H1 & H2). pose proof (Lang_width a n s1 Hn H1) as <-.
    rewrite firstn_app, Nat.sub_diag, firstn_all, skipn_app, Nat.sub_diag, skipn_all.
    cbn. now rewrite app_nil_r.
  - intros [H1 H2]. exists (firstn n s), (skipn n s). split; [|now split].
    symmetry. apply firstn_skipn.
Qed.

(** A pattern of fixed width: so many characters, each passing its test. *)
Lemma Lang_fixed r ts s :
  fixed_tests up ic r = Some ts -> plain r = true ->
  (Lang r s <-> length s = length ts /\ prefix_ok ts s = true).
Proof.
  intros Hts Hplain.
  pose proof (positions_Lang up ic s r Hplain 0 (length s) (Nat.le_0_l _)) as H.
  rewrite slice_full in H.
  rewrite (positions_fixed up ic s r ts Hts 0 (length s)) in H. cbn [skipn Nat.add] in H.
  split.
  - intros HL. apply H. split; [lia|exact HL].
  - intros HL. now apply H.
Qed.

End Terms.

(** Without the [i] flag a class is its ranges and a character itself. *)
Lemma class_sensitive up inv cs ch :
  xorb inv (Engine.char_set_found up false cs ch) = xorb inv (in_ranges cs ch).
Proof. reflexivity. Qed.

Lemma char_sensitive up c ch :
  (Engine.Canonicalize up false ch =? Engine.Canonicalize up false c)%N = (ch =? c)%N.
Proof. reflexivity. Qed.

End TermFacts.

(** * Every operation is one call of [validate] *)

Module CallFacts.
Import Engine Positions EngineFacts RegExpObject Runtime Validator Spec ValidatorFacts.
Import ParserFacts Language LanguageFacts Formats.

Lemma isStrongPassword_validate up this password options mode w :
  isStrongPassword up this password options mode w
  = validate up this password
      (VRegExp (mkRegExp (Shapes.strong_regex options) 0 flags_none)) mode w.
Proof.
  unfold isStrongPassword, bind, RegExp_new. now rewrite parse_strong_pattern.
Qed.

Lemma call_validate up this op value mode w :
  is_coordinates op = false ->
  call up this op value mode w = validate up this value (op_pattern op) mode w.
Proof.
  destruct op; cbn [is_coordinates]; try discriminate; intros _;
    try reflexivity.
  apply isStrongPassword_validate.
Qed.

Lemma verdict_validate up this value pattern mode w :
  verdict (validate up this value pattern mode w)
  = Some (negb (guard_trips this w) && rule_accepts up pattern value).
Proof.
  rewrite validate_eval. unfold verdict. destruct (guard_trips this w).
  - now destruct mode.
  - destruct pattern, mode; reflexivity.
Qed.

Lemma verdict_call up this op value mode w :
  is_coordinates op = false ->
  verdict (call up this op value mode w)
  = Some (negb (guard_trips this w) && rule_accepts up (op_pattern op) value).
Proof. intros H. rewrite (call_validate _ _ _ _ _ _ H). apply verdict_validate. Qed.

Lemma test_exec up re s :
  test up re s = true <-> exists arr, string_match up s re = Some arr.
Proof.
  unfold test, string_match, exec. destruct (RegExpBuiltinExec up re s) as [[[i e] caps]|].
  - split; eauto.
  - split; [discriminate|intros [arr [=]]].
Qed.

Lemma utf16_decode_pair hi lo t :
  utf16_decode (hi :: lo :: t)
  = if is_high_surrogate hi && is_low_surrogate lo
    then (65536 + (hi - 55296) * 1024 + (lo - 56320))%N :: utf16_decode t
    else hi :: utf16_decode (lo :: t).
Proof. reflexivity. Qed.

Lemma utf16_encode_cons cp cps :
  utf16_encode (cp :: cps) = utf16_encode_char cp ++ utf16_encode cps.
Proof. reflexivity. Qed.

(** Encoding the code points of a string of 16-bit code units gives the
    string back, lone surrogates included. *)
Lemma utf16_encode_decode : forall s,
  forallb (fun c => (c <? 65536)%N) s = true -> utf16_encode (utf16_decode s) = s.
Proof.
  assert (H : forall n s, length s <= n ->
            forallb (fun c => (c <? 65536)%N) s = true ->
            utf16_encode (utf16_decode s) = s).
  { induction n as [|n IH]; intros s Hn Hs.
    - destruct s; [reflexivity|cbn in Hn; lia].
    - destruct s as [|hi [|lo t]]; [reflexivity| |].
      + cbn in Hs. rewrite andb_true_r in Hs. apply N.ltb_lt in Hs.
        cbn. unfold utf16_encode_char.
        destruct (N.leb_spec 65536 hi); [lia|reflexivity].
      + cbn [forallb] in Hs. apply andb_prop in Hs as [Hhi Hs].
        pose proof Hs as Hrest. cbn [forallb] in Hs. apply andb_prop in Hs as [Hlo Ht].
        apply N.ltb_lt in Hhi. apply N.ltb_lt in Hlo.
        rewrite utf16_decode_pair.
        destruct (is_high_surrogate hi && is_low_surrogate lo) eqn:E.
        * apply andb_prop in E as [E1 E2]. unfold is_high_surrogate in E1.
          unfold is_low_surrogate in E2.
          apply andb_prop in E1 as [E1 E1']. apply andb_prop in E2 as [E2 E2'].
          apply N.leb_le in E1, E1', E2, E2'.
          rewrite utf16_encode_cons, IH; [|cbn in Hn; lia|exact Ht].
          unfold utf16_encode_char.
          destruct (N.leb_spec 65536 (65536 + (hi - 55296) * 1024 + (lo - 56320))); [|lia].
          replace (65536 + (hi - 55296) * 1024 + (lo - 56320) - 65536)%N
            with ((lo - 56320) + (hi - 55296) * 1024)%N by lia.
          rewrite N.div_add by lia. rewrite N.Div0.mod_add.
          rewrite N.div_small by lia. rewrite N.mod_small by lia.
          cbn [app]. f_equal; [lia|]. f_equal. lia.
        * rewrite utf16_encode_cons, IH; [|cbn in Hn |- *; lia|exact Hrest].
          unfold utf16_encode_char. destruct (N.leb_spec 65536 hi); [lia|reflexivity]. }
  intros s. now apply (H (length s)).
Qed.


Section Anchors.
Variable up : N -> list N.
Variable ic : bool.
Variable input : list N.

Local Abbreviation positions := (Positions.positions up ic input).

Lemma starts_anchored_positions r :
  starts_anchored r = true -> forall i j, In j (positions r i) -> i = 0.
Proof.
  induction r as [ |c| |inv cs| | |a IHa b IHb|a IHa b IHb|min max greedy r IH|k r IH|neg r IH];
    cbn [starts_anchored]; intros Hr i j; try discriminate.
  - cbn [Positions.positions]. destruct (Nat.eqb_spec i 0); [auto|intros []].
  - rewrite in_positions_Seq. intros (m & Hm & _). now apply (IHa Hr i m).
  - apply andb_prop in Hr as [Ha Hb]. cbn [Positions.positions]. rewrite in_app_iff.
    intros [H|H]; [now apply (IHa Ha i j)|now apply (IHb Hb i j)].
  - cbn [Positions.positions]. now apply IH.
Qed.

Lemma ends_anchored_positions r :
  ends_anchored r = true -> forall i j, In j (positions r i) -> j = length input.
Proof.
  induction r as [ |c| |inv cs| | |a IHa b IHb|a IHa b IHb|min max greedy r IH|k r IH|neg r IH];
    cbn [ends_anchored]; intros Hr i j; try discriminate.
  - rewrite in_positions_AssertEnd. intros [-> ->]. reflexivity.
  - rewrite in_positions_Seq. intros (m & _ & Hj). now apply (IHb Hr m j).
  - apply andb_prop in Hr as [Ha Hb]. cbn [Positions.positions]. rewrite in_app_iff.
    intros [H|H]; [now apply (IHa Ha i j)|now apply (IHb Hb i j)].
  - cbn [Positions.positions]. now apply IH.
Qed.

End Anchors.

Lemma first_some_In (A : Type) (f : nat -> option A) l r :
  first_some f l = Some r -> exists i, In i l /\ f i = Some r.
Proof.
  induction l as [|a l IH]; cbn [first_some]; [discriminate|].
  destruct (f a) as [x|] eqn:E.
  - intros [= <-]. exists a. split; [now left|exact E].
  - intros H. apply IH in H as (i & Hi & H). exists i. split; [now right|exact H].
Qed.

(** What [exec] finds is a match of the pattern. *)
Lemma RegExpBuiltinExec_positions up re s i e caps :
  RegExpBuiltinExec up re s = Some (i, e, caps) ->
  i <= length (input_of (re_flags re) s)
  /\ In e (Positions.positions up (ignoreCase_of (re_flags re)) (input_of (re_flags re) s)
             (re_pattern re) i).
Proof.
  unfold RegExpBuiltinExec. intros H. apply first_some_In in H as (k & Hk & H).
  apply in_seq in Hk. unfold match_at in H.
  pose proof (run_positions up (ignoreCase_of (re_flags re)) (input_of (re_flags re) s)
                (re_pattern re) (k, repeat None (re_groups re))) as Hrun.
  cbn [fst] in Hrun.
  destruct (Engine.run _ _ _ _ _) as [|y l]; [discriminate|].
  injection H as <- <- <-. split; [lia|]. rewrite <- Hrun. now left.
Qed.

(** A rule anchored at both ends matches the whole value or nothing. *)
Lemma string_match_anchored up re s arr :
  anchored re = true ->
  forallb (fun c => (c <? 65536)%N) s = true ->
  string_match up s re = Some arr -> exists groups, arr = Some s :: groups.
Proof.
  intros Ha Hs. unfold string_match, exec.
  destruct (RegExpBuiltinExec up re s) as [[[i e] caps]|] eqn:E; [|discriminate].
  intros [= <-]. apply RegExpBuiltinExec_positions in E as [_ E].
  apply andb_prop in Ha as [H1 H2].
  pose proof (starts_anchored_positions _ _ _ _ H1 _ _ E) as ->.
  pose proof (ends_anchored_positions _ _ _ _ H2 _ _ E) as ->.
  cbn [map option_map]. eexists. f_equal. f_equal.
  unfold substring. cbn [fst snd skipn]. rewrite Nat.sub_0_r, firstn_all.
  destruct (re_flags re); cbn [input_of output_of]; try reflexivity.
  now apply utf16_encode_decode.
Qed.

Lemma VRegExp_inj a b : VRegExp a = VRegExp b -> a = b.
Proof. now intros [= ->]. Qed.

Lemma own_property_In t key re : own_property t key = Some re -> In (key, re) t.
Proof.
  induction t as [|[k r] t IH]; cbn [own_property]; [discriminate|].
  destruct (String.eqb_spec k key) as [->|].
  - intros [= ->]. now left.
  - intros H. right. now apply IH.
Qed.

Lemma get_In t key re : get t key = VRegExp re -> In (key, re) t.
Proof.
  unfold get. destruct (own_property t key) as [r|] eqn:E.
  - intros [= <-]. now apply own_property_In.
  - destruct (existsb _ _); discriminate.
Qed.

Lemma table_rule (P : string -> RegExp -> bool) t key re :
  forallb (fun kv => P (fst kv) (snd kv)) t = true ->
  get t key = VRegExp re -> P key re = true.
Proof.
  intros Hall H. apply get_In in H. rewrite forallb_forall in Hall.
  exact (Hall _ H).
Qed.

Lemma js_or_rule a b re :
  js_or a b = VRegExp re -> a = VRegExp re \/ b = VRegExp re.
Proof. unfold js_or. destruct (truthy a); auto. Qed.

Lemma ends_anchored_seq_of rs :
  ends_anchored (Parser.seq_of (rs ++ [AssertEnd])) = true.
Proof.
  induction rs as [|r rs IH]; [reflexivity|].
  cbn [app]. destruct (rs ++ [AssertEnd]) as [|r' l] eqn:E.
  - now destruct rs.
  - exact IH.
Qed.

Lemma anchored_strong_regex options :
  anchored (mkRegExp (Shapes.strong_regex options) 0 flags_none) = true.
Proof.
  unfold anchored, Shapes.strong_regex. cbn [re_pattern].
  apply andb_true_intro. split.
  - destruct ((_ ++ _) ++ [AssertEnd]) as [|r l] eqn:E; [|reflexivity].
    now destruct (Shapes.strong_lookaheads options ++ _).
  - exact (ends_anchored_seq_of
             (AssertStart
              :: (Shapes.strong_lookaheads options
                  ++ Shapes.strong_length_terms
                       (or_default (Finite false 8 0) (minLength options))))).
Qed.

Local Open Scope string_scope.

(** Every rule of the tables is anchored at both ends, but [htmlTag]. *)
Lemma anchored_op op re :
  matches_whole_value op = true -> op_pattern op = VRegExp re -> anchored re = true.
Proof.
  assert (Hp : forallb (fun kv => String.eqb (fst kv) "htmlTag" || anchored (snd kv))
                 patterns = true) by (vm_compute; reflexivity).
  assert (Hall : forall t, forallb (fun kv => anchored (snd kv)) t = true ->
            forall key, get t key = VRegExp re -> anchored re = true).
  { intros t Ht key H. exact (table_rule (fun _ r => anchored r) t key re Ht H). }
  assert (Hpat : forall key, String.eqb key "htmlTag" = false ->
            get patterns key = VRegExp re -> anchored re = true).
  { intros key Hk H.
    pose proof (table_rule (fun k r => String.eqb k "htmlTag" || anchored r) _ _ _ Hp H) as E.
    cbn beta in E. now rewrite Hk in E. }
  assert (H1 : forallb (fun kv => anchored (snd kv)) complexPatterns_password = true)
    by (vm_compute; reflexivity).
  assert (H2 : forallb (fun kv => anchored (snd kv)) complexPatterns_postalCode = true)
    by (vm_compute; reflexivity).
  assert (H3 : forallb (fun kv => anchored (snd kv)) complexPatterns_crypto = true)
    by (vm_compute; reflexivity).
  assert (H4 : forallb (fun kv => anchored (snd kv)) date_patterns = true)
    by (vm_compute; reflexivity).
  destruct op; cbn [matches_whole_value has_own_rule op_pattern]; intros Hw H;
    try (discriminate Hw);
    try (match type of H with get patterns ?k = _ => exact (Hpat k eq_refl H) end).
  - exact (Hall _ H1 _ H).
  - exact (Hall _ H2 _ H).
  - exact (Hall _ H3 _ H).
  - apply js_or_rule in H as [H|H]; exact (Hall _ H4 _ H).
  - apply VRegExp_inj in H. subst re. vm_compute. reflexivity.
  - apply VRegExp_inj in H. subst re. apply anchored_strong_regex.
  - apply VRegExp_inj in H. subst re. vm_compute. reflexivity.
  - apply VRegExp_inj in H. subst re. vm_compute. reflexivity.
Qed.

End CallFacts.

(** * Further properties of the validator *)

Import Language LanguageFacts TermFacts Formats CallFacts.

(** ** [validate] and the options *)

(** X1. Apart from [isValidCoordinates], every operation gives the same
    verdict in both modes: the [isValid] of the verbose record is the
    boolean that the call without a mode returns. *)
Theorem X1_modes_agree up this op value w :
  is_coordinates op = false ->
  exists b,
    verdict (call up this op value mode_verbose w) = Some b
    /\ verdict (call up this op value mode_undefined w) = Some b.
Proof.
  intros H. rewrite !(verdict_call _ _ _ _ _ _ H). eexists. split; reflexivity.
Qed.

Lemma X1_modes_agree_witness :
  exists b,
    verdict (call identity_upper (constructor no_options) op_isValidEmail
               (js "user@example.com") mode_verbose (mkWorld 0 [])) = Some b
    /\ verdict (call identity_upper (constructor no_options) op_isValidEmail
                  (js "user@example.com") mode_undefined (mkWorld 0 [])) = Some b.
Proof.
  exact (X1_modes_agree identity_upper (constructor no_options) op_isValidEmail
           (js "user@example.com") (mkWorld 0 []) eq_refl).
Defined.

(** X2. The options [caseSensitive], [multiline] and [unicode] are stored
    by the constructor and read by nothing: two validators that differ
    only in them give the same result, for every operation, value, mode
    and clock. *)
Theorem X2_flag_options_unused up t cs ml un cs' ml' un' op value mode w :
  call up (constructor (mkOptions t cs ml un)) op value mode w
  = call up (constructor (mkOptions t cs' ml' un')) op value mode w.
Proof. apply call_budget. reflexivity. Qed.

Lemma negative_budget_trips t cs ml un w :
  (t < 0)%Z -> (0 <= elapsed_before_evaluation w)%Z ->
  guard_trips (constructor (mkOptions (Some t) cs ml un)) w = true.
Proof.
  intros Ht Hw. unfold guard_trips, budget. cbn [constructor options timeout or_default].
  destruct (Z.eqb_spec t 0); [lia|]. rewrite Z.gtb_ltb. apply Z.ltb_lt. lia.
Qed.

(** X3. A negative timeout is taken as it is: when the clock does not run
    backwards between the two readings, every call ends in the timeout
    outcome and no value is accepted. *)
Theorem X3_negative_timeout_rejects up t cs ml un op value mode w :
  (t < 0)%Z -> (0 <= elapsed_before_evaluation w)%Z ->
  verdict (call up (constructor (mkOptions (Some t) cs ml un)) op value mode w) = Some false
  /\ (is_coordinates op = false ->
      fst (call up (constructor (mkOptions (Some t) cs ml un)) op value mode w)
      = Ok (timeout_result mode)).
Proof.
  intros Ht Hw. pose proof (negative_budget_trips t cs ml un w Ht Hw) as Hg. split.
  - destruct (is_coordinates op) eqn:E.
    + destruct op; try discriminate E. cbn [call]. unfold isValidCoordinates, bind.
      rewrite validate_eval, Hg. cbv beta iota.
      destruct (validate_returns up (constructor (mkOptions (Some t) cs ml un)) lng
                  (get complexPatterns_coordinates "longitude"%string) mode
                  (elapse (elapse w))) as (r2 & w2 & Hr2 & _).
      rewrite Hr2. now destruct mode.
    + rewrite (verdict_call _ _ _ _ _ _ E), Hg. reflexivity.
  - intros E. rewrite (call_validate _ _ _ _ _ _ E), validate_eval, Hg. reflexivity.
Qed.

Lemma X3_negative_timeout_witness :
  verdict (call identity_upper (constructor (mkOptions (Some (-1)%Z) None None None))
             op_isBinary (js "0101") mode_undefined (mkWorld 0 [])) = Some false
  /\ (is_coordinates op_isBinary = false ->
      fst (call identity_upper (constructor (mkOptions (Some (-1)%Z) None None None))
             op_isBinary (js "0101") mode_undefined (mkWorld 0 []))
      = Ok (timeout_result mode_undefined)).
Proof.
  apply (X3_negative_timeout_rejects identity_upper (-1)%Z None None None op_isBinary
           (js "0101") mode_undefined (mkWorld 0 [])).
  - reflexivity.
  - vm_compute. discriminate.
Defined.

(** X4. The verbose record is consistent, for every operation that
    hands [validate] a rule of the class (all but [isValid], whose rule
    is the caller's and may carry state, and [isValidCoordinates]): its
    message is ['Validation successful'] exactly when [isValid] is true,
    and [matches] is an array exactly then; otherwise [matches] is
    [null] or left out. *)
Theorem X4_verbose_record_consistent up this op value w :
  has_own_rule op = true ->
  exists rec w',
    call up this op value mode_verbose w = (Ok (RRecord rec), w')
    /\ (isValid_field rec = true <-> message rec = Some "Validation successful"%string)
    /\ (isValid_field rec = true <-> exists arr, matches rec = Some (Some arr))
    /\ (isValid_field rec = false -> matches rec = None \/ matches rec = Some None).
Proof.
  intros Hown.
  assert (H : is_coordinates op = false) by (now destruct op).
  rewrite (call_validate _ _ _ _ _ _ H), validate_eval.
  assert (Hrej : forall msg,
            Some msg <> Some "Validation successful"%string ->
            let rec := mkResult false (Some msg) None in
            (isValid_field rec = true <-> message rec = Some "Validation successful"%string)
            /\ (isValid_field rec = true <-> exists arr, matches rec = Some (Some arr))
            /\ (isValid_field rec = false -> matches rec = None \/ matches rec = Some None)).
  { intros msg Hmsg. cbn. split; [|split].
    - split; [discriminate|intros E; now elim Hmsg].
    - split; [discriminate|intros [arr [=]]].
    - intros _. now left. }
  destruct (guard_trips this w).
  - eexists _, _. split; [reflexivity|]. apply Hrej. discriminate.
  - destruct (op_pattern op) as [re| |key|e].
    + eexists _, _. split; [reflexivity|]. cbn [match_result isValid_field message matches].
      pose proof (test_exec up re value) as Hx.
      destruct (test up re value).
      * destruct (proj1 Hx eq_refl) as [arr Harr]. rewrite Harr. split; [|split].
        -- split; reflexivity.
        -- split; [intros _; now exists arr|reflexivity].
        -- discriminate.
      * destruct (string_match up value re) as [arr|].
        -- assert (false = true) by (apply Hx; now exists arr). discriminate.
        -- split; [|split].
           ++ split; discriminate.
           ++ split; [discriminate|intros [arr [=]]].
           ++ intros _. now right.
    + eexists _, _. split; [reflexivity|]. apply Hrej. discriminate.
    + eexists _, _. split; [reflexivity|]. apply Hrej. discriminate.
    + eexists _, _. split; [reflexivity|]. apply Hrej. discriminate.
Qed.

Lemma X4_verbose_record_witness :
  exists rec w',
    call identity_upper (constructor no_options) (op_isValidPostalCode "FR")
      (js "75001") mode_verbose (mkWorld 0 []) = (Ok (RRecord rec), w')
    /\ (isValid_field rec = true <-> message rec = Some "Validation successful"%string)
    /\ (isValid_field rec = true <-> exists arr, matches rec = Some (Some arr))
    /\ (isValid_field rec = false -> matches rec = None \/ matches rec = Some None).
Proof.
  exact (X4_verbose_record_consistent identity_upper (constructor no_options)
           (op_isValidPostalCode "FR") (js "75001") (mkWorld 0 []) eq_refl).
Defined.

(** X5. When an operation with a rule of the class that is anchored at
    both ends accepts a value in verbose mode, the first entry of
    [matches] is the value itself.  These are all the operations but
    [isValid] (whose rule is the caller's), [containsHtmlTag] (which
    searches) and [isValidCoordinates] (whose record has no
    [matches]). *)
Theorem X5_match_is_whole_value up this op value w rec w' :
  matches_whole_value op = true ->
  forallb (fun c => (c <? 65536)%N) value = true ->
  call up this op value mode_verbose w = (Ok (RRecord rec), w') ->
  isValid_field rec = true ->
  exists groups, matches rec = Some (Some (Some value :: groups)).
Proof.
  intros Hop Hvalue.
  assert (H : is_coordinates op = false) by (destruct op; try reflexivity; discriminate Hop).
  rewrite (call_validate _ _ _ _ _ _ H), validate_eval.
  destruct (guard_trips this w); [intros [= <- _]; discriminate|].
  destruct (op_pattern op) as [re| |key|e] eqn:E; try (intros [= <- _]; discriminate).
  intros [= <- _]. cbn [match_result isValid_field matches]. intros Ht.
  apply test_exec in Ht as [arr Harr]. rewrite Harr.
  destruct (string_match_anchored up re value arr (anchored_op op re Hop E) Hvalue Harr)
    as [groups ->].
  now exists groups.
Qed.

Lemma X5_match_is_whole_value_witness :
  exists groups,
    matches (mkResult true (Some "Validation successful"%string)
               (Some (Some [Some (js "2024-02-29"); Some (js "02"); Some (js "29")])))
    = Some (Some (Some (js "2024-02-29") :: groups)).
Proof.
  apply (X5_match_is_whole_value identity_upper (constructor no_options)
           (op_isValidDate (Some "YYYY-MM-DD"%string)) (js "2024-02-29") (mkWorld 0 [])
           _ (mkWorld 0 [])).
  - reflexivity.
  - vm_compute. reflexivity.
  - vm_compute. reflexivity.
  - reflexivity.
Defined.

(** * The rules of the tables as languages *)

Module RuleFacts.
Import Engine Positions EngineFacts RegExpObject Runtime Validator Spec ValidatorFacts.
Import Language LanguageFacts TermFacts Formats CallFacts.

Section Rules.
Variable up : N -> list N.

Lemma strip_end_positions ic input b : forall m,
  strip_end b = Some m ->
  forall i j, In j (Positions.positions up ic input b i)
              <-> In j (Positions.positions up ic input m i) /\ j = length input.
Proof.
  induction b as [ |c| |inv cs| | |a IHa b IHb|a IHa b IHb|min max greedy r IH|k r IH|neg r IH];
    intros m; cbn [strip_end]; try discriminate.
  intros Hm i j. rewrite in_positions_Seq.
  assert (Hend : b = AssertEnd -> m = a).
  { intros ->. now injection Hm as <-. }
  assert (Hother : b <> AssertEnd -> option_map (Seq a) (strip_end b) = Some m).
  { intros Hb. destruct b; try exact Hm. now elim Hb. }
  clear Hm. destruct (strip_end b) as [m'|] eqn:E.
  - assert (Hb : b <> AssertEnd) by (intros ->; discriminate E).
    specialize (Hother Hb). cbn in Hother. injection Hother as <-.
    rewrite in_positions_Seq. split.
    + intros (k & Hk & Hj). apply (IHb m' eq_refl) in Hj as [Hj ->]. split; eauto.
    + intros [(k & Hk & Hj) ->]. exists k. split; [exact Hk|]. now apply (IHb m' eq_refl).
  - destruct b; try (discriminate (Hother ltac:(discriminate))).
    rewrite (Hend eq_refl). split.
    + intros (k & Hk & Hj). apply in_positions_AssertEnd in Hj as [-> ->]. now split.
    + intros [Hj ->]. exists (length input). split; [exact Hj|].
      now apply in_positions_AssertEnd.
Qed.

(** A rule [^ ... $] without assertions in between accepts the strings
    of the language of what is between the anchors. *)
Lemma test_between_anchors re f m s :
  between_anchors (re_pattern re) = Some m -> re_flags re = f -> plain m = true ->
  (test up re s = true <-> Lang up (ignoreCase_of f) m (input_of f s)).
Proof.
  intros Hm <- Hplain. rewrite test_true_iff.
  destruct (re_pattern re) as [ |c| |inv cs| | |a b|a b|min max greedy r|k r|neg r];
    try discriminate Hm.
  destruct a; try discriminate Hm. cbn [between_anchors] in Hm.
  set (input := input_of (re_flags re) s). split.
  - intros (i & j & Hi & Hj). apply in_positions_Seq in Hj as (k & Hk & Hj).
    apply (strip_end_positions _ _ _ _ Hm) in Hj as [Hj ->].
    cbn [Positions.positions] in Hk. destruct (Nat.eqb_spec i 0) as [->|]; [|destruct Hk].
    destruct Hk as [<-|[]].
    apply (positions_Lang up _ _ _ Hplain) in Hj as [_ Hj]; [|lia].
    now rewrite slice_full in Hj.
  - intros HL. exists 0, (length input). split; [lia|].
    apply in_positions_Seq. exists 0. split; [now left|].
    apply (strip_end_positions _ _ _ _ Hm). split; [|reflexivity].
    apply (positions_Lang up _ _ _ Hplain); [lia|]. split; [lia|].
    now rewrite slice_full.
Qed.

Lemma rule_accepts_anchored pattern re f m s :
  pattern = VRegExp re ->
  between_anchors (re_pattern re) = Some m -> re_flags re = f -> plain m = true ->
  (rule_accepts up pattern s = true <-> Lang up (ignoreCase_of f) m (input_of f s)).
Proof. intros -> Hm Hf Hplain. now apply test_between_anchors. Qed.

End Rules.

End RuleFacts.

(** ** Strings over an alphabet, numbers *)

Import RuleFacts.

(** Reads the rule of an operation as the language between its anchors. *)
Ltac rule_language f :=
  match goal with
  | |- context [rule_accepts ?up ?p ?s = true] =>
      erewrite (rule_accepts_anchored up p _ f _ s);
      [ cbn [ignoreCase_of input_of]
      | vm_compute; reflexivity
      | vm_compute; reflexivity
      | reflexivity
      | vm_compute; reflexivity ]
  end.

Lemma nonempty_length (s : JsString) : nonempty s = true <-> 1 <= length s.
Proof. destruct s; cbn; split; intros; try discriminate; try lia; reflexivity. Qed.

Lemma alphabet_rule up op cs s :
  alphabet op = Some cs ->
  rule_accepts up (op_pattern op) s = nonempty s && all_in cs s.
Proof.
  intros H. apply eq_iff_eq_true. rewrite andb_true_iff, nonempty_length.
  destruct op; try discriminate H; injection H as <-; cbn [op_pattern];
    rule_language flags_none;
    (rewrite Lang_Repeat_char by reflexivity); cbn [N.to_nat Pos.to_nat Pos.iter_op];
    unfold all_in; tauto.
Qed.

(** X6. [isAlpha], [isAlphanumeric], [isHexadecimal], [isBinary],
    [isPositiveInteger] and [isAnsiArt] accept exactly the non-empty
    strings over their alphabet, when the elapsed-time check does not
    trip; the empty string is rejected by each. *)
Theorem X6_alphabets up this op cs value mode w :
  alphabet op = Some cs ->
  verdict (call up this op value mode w)
  = Some (negb (guard_trips this w) && (nonempty value && all_in cs value)).
Proof.
  intros H. rewrite verdict_call by (destruct op; try reflexivity; discriminate H).
  now rewrite (alphabet_rule up op cs value H).
Qed.

Lemma X6_alphabets_witness :
  verdict (call identity_upper (constructor no_options) op_isHexadecimal (js "c0ffee")
             mode_undefined (mkWorld 0 []))
  = Some (negb (guard_trips (constructor no_options) (mkWorld 0 []))
          && (nonempty (js "c0ffee") && all_in [(48, 57); (97, 102); (65, 70)]%N (js "c0ffee"))).
Proof.
  exact (X6_alphabets identity_upper (constructor no_options) op_isHexadecimal _
           (js "c0ffee") mode_undefined (mkWorld 0 []) eq_refl).
Defined.

Lemma split_at_app sep a b :
  forallb (fun c => negb (c =? sep)%N) a = true -> split_at sep (a ++ sep :: b) = Some (a, b).
Proof.
  induction a as [|c a IH]; cbn [app split_at forallb].
  - intros _. now rewrite N.eqb_refl.
  - intros H. apply andb_prop in H as [Hc Ha]. apply negb_true_iff in Hc.
    now rewrite Hc, (IH Ha).
Qed.

Lemma split_at_Some sep s a b : split_at sep s = Some (a, b) -> s = a ++ sep :: b.
Proof.
  revert a. induction s as [|c s IH]; intros a; cbn [split_at]; [discriminate|].
  destruct (N.eqb_spec c sep) as [->|_].
  - intros [= <- <-]. reflexivity.
  - destruct (split_at sep s) as [[a' b']|]; [|discriminate].
    intros [= <- <-]. cbn. f_equal. now apply IH.
Qed.

Lemma all_in_forallb cs (P : N -> bool) s :
  (forall c, in_ranges cs c = true -> P c = true) -> all_in cs s = true -> forallb P s = true.
Proof.
  intros H. unfold all_in. rewrite !forallb_forall. intros Hs c Hc. apply H, Hs, Hc.
Qed.

Section Numbers.
Variable up : N -> list N.

Local Abbreviation Lang := (Language.Lang up false).
Local Abbreviation digit := (Class false [(48, 57)]%N).

Lemma digits_language g s : Lang (Repeat 1 None g digit) s <-> digit_text s = true.
Proof.
  rewrite Lang_Repeat_char by reflexivity. unfold digit_text.
  rewrite andb_true_iff, nonempty_length. cbn [N.to_nat Pos.to_nat Pos.iter_op].
  unfold all_in. tauto.
Qed.

Lemma after_minus_language b (body : JsString -> bool) s :
  (forall t, Lang b t <-> body t = true) ->
  (Lang (Seq (Char 45) b) s <-> after_minus body s = true).
Proof.
  intros Hb. rewrite (Lang_Seq_char up false (Char 45) _ b s eq_refl).
  destruct s as [|c t]; cbn [after_minus]; [split; [intros []|discriminate]|].
  rewrite andb_true_iff, Hb. reflexivity.
Qed.

Lemma optional_minus_language g b (body : JsString -> bool) s :
  (forall t, Lang b t <-> body t = true) ->
  (Lang (Seq (Repeat 0 (Some 1%N) g (Char 45)) b) s <-> optional_minus body s = true).
Proof.
  intros Hb. rewrite Lang_Seq_optional, (after_minus_language b body s Hb), Hb.
  unfold optional_minus. now rewrite orb_true_iff.
Qed.

Lemma nonzero_language g s :
  Lang (Seq (Class false [(49, 57)]%N) (Repeat 0 None g digit)) s <-> nonzero_text s = true.
Proof.
  rewrite (Lang_Seq_char up false (Class false [(49, 57)]%N) _ _ s eq_refl).
  destruct s as [|c t]; cbn [nonzero_text]; [split; [intros []|discriminate]|].
  rewrite andb_true_iff, Lang_Repeat_char by reflexivity.
  unfold all_in. cbn [N.to_nat]. split.
  - intros [Hc (_ & _ & Ht)]. now split.
  - intros [Hc Ht]. split; [exact Hc|]. split; [lia|]. now split.
Qed.

Lemma decimal_language g g' g'' k s :
  Lang (Seq (Repeat 1 None g digit)
            (Repeat 0 (Some 1%N) g' (Group k (Seq (Char 46) (Repeat 1 None g'' digit))))) s
  <-> decimal_text s = true.
Proof.
  rewrite Lang_optional_last, digits_language. unfold decimal_text.
  rewrite orb_true_iff. apply or_iff_compat_l.
  change (Lang (Seq (Repeat 1 None g digit)
                    (Group k (Seq (Char 46) (Repeat 1 None g'' digit)))) s)
    with (exists s1 s2, s = s1 ++ s2 /\ Lang (Repeat 1 None g digit) s1
                        /\ Lang (Seq (Char 46) (Repeat 1 None g'' digit)) s2).
  split.
  - intros (s1 & s2 & -> & H1 & H2). apply digits_language in H1.
    apply (Lang_Seq_char up false (Char 46) _ _ s2 eq_refl) in H2.
    destruct s2 as [|c t]; [destruct H2|]. destruct H2 as [Hc Ht].
    change ((c =? 46)%N = true) in Hc. apply N.eqb_eq in Hc. subst c. apply digits_language in Ht.
    rewrite split_at_app; [now rewrite H1, Ht|].
    unfold digit_text in H1. apply andb_prop in H1 as [_ H1].
    apply (all_in_forallb decimal_digits); [|exact H1].
    intros c Hc. cbn in Hc. rewrite orb_false_r in Hc. apply andb_prop in Hc as [Hc _].
    apply N.leb_le in Hc. apply negb_true_iff, N.eqb_neq. lia.
  - destruct (split_at 46 s) as [[a b]|] eqn:E; [|discriminate].
    intros H. apply andb_prop in H as [Ha Hb]. apply split_at_Some in E as ->.
    exists a, (46%N :: b). split; [reflexivity|]. split; [now apply digits_language|].
    apply (Lang_Seq_char up false (Char 46) _ _ _ eq_refl). split; [reflexivity|].
    now apply digits_language.
Qed.

Lemma number_rule op (f : JsString -> bool) s :
  number_format op = Some f -> rule_accepts up (op_pattern op) s = f s.
Proof.
  intros H. apply eq_iff_eq_true.
  destruct op; try discriminate H; injection H as <-; cbn [op_pattern];
    rule_language flags_none.
  - apply optional_minus_language. intros t. apply digits_language.
  - apply digits_language.
  - apply after_minus_language. intros t. apply digits_language.
  - apply optional_minus_language. intros t. apply nonzero_language.
  - apply optional_minus_language. intros t. apply decimal_language.
  - apply decimal_language.
  - apply after_minus_language. intros t. apply decimal_language.
Qed.

End Numbers.

Lemma number_verdict up this op (f : JsString -> bool) value mode w :
  number_format op = Some f ->
  verdict (call up this op value mode w) = Some (negb (guard_trips this w) && f value).
Proof.
  intros H. rewrite verdict_call by (destruct op; try reflexivity; discriminate H).
  now rewrite (number_rule up op f value H).
Qed.

(** X7. The seven operations on numerals accept exactly these texts
    (when the elapsed-time check does not trip): [isPositiveInteger] a
    non-empty string of digits, zero and leading zeros included;
    [isNonZeroInteger] a digit from 1 to 9 followed by digits;
    [isPositiveFloat] digits, or digits, a point and digits;
    [isNegativeInteger] and [isNegativeFloat] the same after a minus
    sign; [isInteger], [isNonZeroInteger] and [isFloat] with or without
    the minus sign.  No exponent, no plus sign, no point without digits
    on both sides. *)
Theorem X7_number_formats up this op (f : JsString -> bool) value mode w :
  number_format op = Some f ->
  verdict (call up this op value mode w) = Some (negb (guard_trips this w) && f value).
Proof. apply number_verdict. Qed.

Lemma X7_number_formats_witness :
  verdict (call identity_upper (constructor no_options) op_isFloat (js "-12.50")
             mode_undefined (mkWorld 0 []))
  = Some (negb (guard_trips (constructor no_options) (mkWorld 0 []))
          && optional_minus decimal_text (js "-12.50")).
Proof.
  exact (X7_number_formats identity_upper (constructor no_options) op_isFloat _
           (js "-12.50") mode_undefined (mkWorld 0 []) eq_refl).
Defined.

Lemma digit_text_no_minus s : digit_text s = true -> after_minus digit_text s = false.
Proof.
  destruct s as [|c t]; [reflexivity|]. unfold digit_text. cbn [nonempty all_in forallb andb].
  intros H. apply andb_prop in H as [Hc _]. cbn in Hc. rewrite orb_false_r in Hc.
  apply andb_prop in Hc as [Hc _]. apply N.leb_le in Hc.
  cbn [after_minus]. destruct (N.eqb_spec c 45); [lia|reflexivity].
Qed.

Lemma decimal_text_no_minus s : decimal_text s = true -> after_minus decimal_text s = false.
Proof.
  destruct s as [|c t]; [reflexivity|]. cbn [after_minus].
  destruct (N.eqb_spec c 45) as [->|]; [|reflexivity].
  unfold decimal_text, digit_text. cbn [nonempty all_in forallb in_ranges decimal_digits
    existsb fst snd split_at andb orb N.leb N.eqb Pos.eqb N.compare Pos.compare
    Pos.compare_cont].
  destruct (split_at 46 t) as [[a b]|]; discriminate.
Qed.

Lemma nonzero_text_digit_text s : nonzero_text s = true -> digit_text s = true.
Proof.
  destruct s as [|c t]; [discriminate|]. unfold nonzero_text, digit_text.
  cbn [nonempty all_in forallb andb]. intros H. apply andb_prop in H as [Hc Ht].
  unfold all_in in Ht. rewrite Ht, andb_true_r. cbn in Hc |- *.
  rewrite orb_false_r in *. apply andb_prop in Hc as [H1 H2].
  apply N.leb_le in H1. rewrite H2, andb_true_r. apply N.leb_le. lia.
Qed.

(** X8. The sign splits the numerals: [isInteger] accepts a value exactly
    when [isPositiveInteger] or [isNegativeInteger] does, and [isFloat]
    exactly when [isPositiveFloat] or [isNegativeFloat] does, never
    both; and what [isNonZeroInteger] accepts [isInteger] accepts, and
    what [isInteger] accepts [isFloat] accepts. *)
Theorem X8_numbers_compose up this value mode w :
  exists pi ni pf nf i z f,
    verdict (call up this op_isPositiveInteger value mode w) = Some pi
    /\ verdict (call up this op_isNegativeInteger value mode w) = Some ni
    /\ verdict (call up this op_isPositiveFloat value mode w) = Some pf
    /\ verdict (call up this op_isNegativeFloat value mode w) = Some nf
    /\ verdict (call up this op_isInteger value mode w) = Some i
    /\ verdict (call up this op_isNonZeroInteger value mode w) = Some z
    /\ verdict (call up this op_isFloat value mode w) = Some f
    /\ i = pi || ni /\ pi && ni = false
    /\ f = pf || nf /\ pf && nf = false
    /\ (z = true -> i = true) /\ (i = true -> f = true).
Proof.
  rewrite (number_verdict up this op_isPositiveInteger _ value mode w eq_refl).
  rewrite (number_verdict up this op_isNegativeInteger _ value mode w eq_refl).
  rewrite (number_verdict up this op_isPositiveFloat _ value mode w eq_refl).
  rewrite (number_verdict up this op_isNegativeFloat _ value mode w eq_refl).
  rewrite (number_verdict up this op_isInteger _ value mode w eq_refl).
  rewrite (number_verdict up this op_isNonZeroInteger _ value mode w eq_refl).
  rewrite (number_verdict up this op_isFloat _ value mode w eq_refl).
  do 7 eexists. do 7 (split; [reflexivity|]).
  unfold optional_minus.
  pose proof (digit_text_no_minus value) as Hi.
  pose proof (decimal_text_no_minus value) as Hf.
  pose proof (nonzero_text_digit_text value) as Hz.
  assert (Hzn : after_minus nonzero_text value = true -> after_minus digit_text value = true).
  { destruct value as [|c t]; [discriminate|]. cbn [after_minus].
    rewrite !andb_true_iff. intros [Hc Ht]. split; [exact Hc|].
    now apply nonzero_text_digit_text. }
  assert (Hid : digit_text value = true -> decimal_text value = true).
  { intros H. unfold decimal_text. now rewrite H. }
  assert (Hin : after_minus digit_text value = true -> after_minus decimal_text value = true).
  { destruct value as [|c t]; [discriminate|]. cbn [after_minus].
    rewrite !andb_true_iff. intros [Hc Ht]. split; [exact Hc|].
    unfold decimal_text. now rewrite Ht. }
  destruct (guard_trips this w); cbn [negb andb]; [repeat split; discriminate|].
  destruct (digit_text value), (after_minus digit_text value),
    (decimal_text value), (after_minus decimal_text value),
    (nonzero_text value), (after_minus nonzero_text value);
    cbn [orb andb]; repeat split; auto; try discriminate;
    try (discriminate (Hi eq_refl)); try (discriminate (Hf eq_refl));
    try (discriminate (Hz eq_refl)); try (discriminate (Hzn eq_refl));
    try (discriminate (Hid eq_refl)); try (discriminate (Hin eq_refl)).
Qed.

(** ** Digests, user names and passwords *)

Lemma forallb_eq (A : Type) (P Q : A -> bool) l :
  (forall a, P a = Q a) -> forallb P l = forallb Q l.
Proof. intros H. induction l as [|a l IH]; [reflexivity|]. cbn. now rewrite H, IH. Qed.

Lemma bounds_leb lo hi n :
  (lo <= n /\ n <= hi) <-> ((lo <=? n)%nat && (n <=? hi)%nat = true).
Proof. rewrite andb_true_iff, !Nat.leb_le. reflexivity. Qed.

Section Texts.
Variable up : N -> list N.

(** [[a-f0-9]] under the [i] flag. *)
Lemma digest_class_spec ch :
  xorb false (Engine.char_set_found up true [(97, 102); (48, 57)]%N ch) = is_hex_digit ch.
Proof.
  rewrite xorb_false_l. revert ch. apply char_set_found_ignoreCase.
  - vm_compute. reflexivity.
  - vm_compute. reflexivity.
  - apply in_ranges_ascii. reflexivity.
Qed.

Lemma digest_rule op n s :
  digest_length op = Some n -> rule_accepts up (op_pattern op) s = hex_text n s.
Proof.
  intros H. apply eq_iff_eq_true. unfold hex_text. rewrite andb_true_iff, Nat.eqb_eq.
  destruct op; try discriminate H; injection H as <-; cbn [op_pattern];
    rule_language flags_i;
    (rewrite Lang_Repeat_char by reflexivity);
    rewrite (forallb_eq _ _ _ _ digest_class_spec);
    (split; [intros (H1 & H2 & H3); split; [|exact H3]
            |intros [H1 H2]; rewrite H1; repeat split; auto]).
  - change (N.to_nat 32) with 32 in *. lia.
  - change (N.to_nat 40) with 40 in *. lia.
  - change (N.to_nat 64) with 64 in *. lia.
Qed.

Lemma username_rule s : rule_accepts up (op_pattern op_isValidUsername) s = username_text s.
Proof.
  apply eq_iff_eq_true. cbn [op_pattern]. rule_language flags_none.
  rewrite Lang_Repeat_char by reflexivity. unfold username_text.
  rewrite andb_true_iff, <- bounds_leb.
  change (N.to_nat 3) with 3. change (N.to_nat 16) with 16. unfold all_in. tauto.
Qed.

Lemma long_line_language n g s :
  Language.Lang up false (Repeat n None g Dot) s <-> long_line (N.to_nat n) s = true.
Proof.
  rewrite Lang_Repeat_char by reflexivity. unfold long_line, no_line_terminator.
  rewrite andb_true_iff, Nat.leb_le. tauto.
Qed.

(** The class of level ['complex'] has no line terminator. *)
Lemma complex_chars_line c : in_ranges complex_chars c = true -> is_line_terminator c = false.
Proof.
  intros H. destruct (N.ltb_spec c 128) as [Hc|Hc].
  - assert (Hall : forallb (fun c => implb (in_ranges complex_chars c)
                                           (negb (is_line_terminator c)))
                           (range_members 0 128) = true) by (vm_compute; reflexivity).
    pose proof (forall_ascii _ Hall c Hc) as E. cbv beta in E. rewrite H in E.
    cbn [implb] in E.
    now apply negb_true_iff.
  - rewrite (in_ranges_ascii complex_chars eq_refl c Hc) in H. discriminate.
Qed.

Lemma complex_text_line s : all_in complex_chars s = true -> no_line_terminator s = true.
Proof.
  unfold all_in, no_line_terminator. rewrite !forallb_forall. intros H c Hc.
  apply negb_true_iff, complex_chars_line, H, Hc.
Qed.

Lemma complex_rule_parsed :
  get complexPatterns_password "complex" = VRegExp complex_rule.
Proof. vm_compute. reflexivity. Qed.

Lemma complex_rule_spec s : test up complex_rule s = complex_text s.
Proof.
  apply eq_iff_eq_true.
  rewrite (test_anchored up complex_rule s _ eq_refl). cbn [re_flags complex_rule
    ignoreCase_of input_of].
  rewrite chain_lookaheads
    by (repeat constructor; eexists; reflexivity).
  assert (Hbody : Shapes.chain up false s [Repeat 8 None true (Class false complex_chars)]
                    0 (length s)
                  <-> (8 <=? length s)%nat && all_in complex_chars s = true).
  { cbn [Shapes.chain].
    assert (E : (exists k, In k (Positions.positions up false s
                                   (Repeat 8 None true (Class false complex_chars)) 0)
                           /\ k = length s)
                <-> In (length s) (Positions.positions up false s
                                     (Repeat 8 None true (Class false complex_chars)) 0)).
    { split; [intros (k & H & ->); exact H|intros H; eauto]. }
    rewrite E.
    rewrite (in_positions_Repeat_char up false s (Class false complex_chars)
               (fun ch => xorb false (Engine.char_set_found up false complex_chars ch))
               8 None true 0 (length s) eq_refl) by discriminate.
    rewrite andb_true_iff, Nat.leb_le. unfold all_in.
    rewrite (forallb_nth_error s (in_ranges complex_chars)).
    change (N.to_nat 8) with 8. split.
    - intros (k & Hk & Hn & _ & Hall). split; [lia|]. intros t Ht. apply Hall. lia.
    - intros [Hn Hall]. exists (length s). split; [reflexivity|]. split; [exact Hn|].
      split; [discriminate|]. intros t Ht. apply Hall. lia. }
  rewrite Hbody. unfold complex_text, complex_lookaheads.
  rewrite !Forall_cons_iff, Forall_nil_iff, !andb_true_iff.
  rewrite !lookahead_holds.
  split.
  - intros [(H1 & H2 & H3 & H4 & _) [Hn Hall]].
    pose proof (complex_text_line s Hall) as Hlt.
    apply (lookahead_class up s _ Hlt) in H1, H2, H3, H4. tauto.
  - intros [[[[[Hn Hall] H1] H2] H3] H4].
    pose proof (complex_text_line s Hall) as Hlt.
    apply (lookahead_class up s _ Hlt) in H1, H2, H3, H4. tauto.
Qed.

Local Open Scope string_scope.

Lemma password_rule level (f : JsString -> bool) s :
  password_level level = Some f ->
  rule_accepts up (op_pattern (op_isValidPassword level)) s = f s.
Proof.
  unfold password_level. cbn [op_pattern].
  destruct (String.eqb_spec (or_default "medium" level) "simple") as [->|_].
  { intros [= <-]. apply eq_iff_eq_true. rule_language flags_none.
    apply (long_line_language 6). }
  destruct (String.eqb_spec (or_default "medium" level) "medium") as [->|_].
  { intros [= <-]. apply eq_iff_eq_true. rule_language flags_none.
    apply (long_line_language 8). }
  destruct (String.eqb_spec (or_default "medium" level) "complex") as [->|_];
    [|discriminate].
  intros [= <-]. rewrite complex_rule_parsed. apply complex_rule_spec.
Qed.

Lemma strong_policy_accepts options n s :
  count_of (policy_minLength options) = Some n ->
  rule_accepts up (op_pattern (op_isStrongPassword options)) s
  = no_line_terminator s && claimed_strong options s.
Proof.
  intros Hn.
  exact (strong_rule_count up options n (strong_lookaheads options) s Hn
           (Permutation_refl _)).
Qed.

End Texts.

(** X9. [isValidMD5], [isValidSHA1] and [isValidSHA256] accept exactly the
    strings of 32, 40 and 64 hexadecimal digits, in either case. *)
Theorem X9_digests up this op n value mode w :
  digest_length op = Some n ->
  verdict (call up this op value mode w)
  = Some (negb (guard_trips this w) && hex_text n value).
Proof.
  intros H. rewrite verdict_call by (destruct op; try reflexivity; discriminate H).
  now rewrite (digest_rule up op n value H).
Qed.

Lemma X9_digests_witness :
  verdict (call identity_upper (constructor no_options) op_isValidMD5
             (js "D41D8CD98F00B204e9800998ecf8427e") mode_undefined (mkWorld 0 []))
  = Some (negb (guard_trips (constructor no_options) (mkWorld 0 []))
          && hex_text 32 (js "D41D8CD98F00B204e9800998ecf8427e")).
Proof.
  exact (X9_digests identity_upper (constructor no_options) op_isValidMD5 32
           (js "D41D8CD98F00B204e9800998ecf8427e") mode_undefined (mkWorld 0 []) eq_refl).
Defined.

(** X10. [isValidUsername] accepts exactly the strings of 3 to 16
    characters among letters, digits, point, underscore and hyphen. *)
Theorem X10_username up this value mode w :
  verdict (call up this op_isValidUsername value mode w)
  = Some (negb (guard_trips this w) && username_text value).
Proof. rewrite verdict_call by reflexivity. now rewrite username_rule. Qed.

(** X11. The levels of [isValidPassword]: ['simple'] is at least 6
    characters and ['medium'] (the default) at least 8, none of them a
    line terminator; ['complex'] is at least 8 characters, all of its
    class, with a lowercase letter, an uppercase letter, a digit and one
    of [@ $ ! % * ? &] among them. *)
Theorem X11_password_levels up this level (f : JsString -> bool) value mode w :
  password_level level = Some f ->
  verdict (call up this (op_isValidPassword level) value mode w)
  = Some (negb (guard_trips this w) && f value).
Proof.
  intros H. rewrite verdict_call by reflexivity.
  now rewrite (password_rule up level f value H).
Qed.

Lemma X11_password_levels_witness :
  verdict (call identity_upper (constructor no_options) (op_isValidPassword None)
             (js "correct horse") mode_undefined (mkWorld 0 []))
  = Some (negb (guard_trips (constructor no_options) (mkWorld 0 []))
          && long_line 8 (js "correct horse")).
Proof.
  exact (X11_password_levels identity_upper (constructor no_options) None _
           (js "correct horse") mode_undefined (mkWorld 0 []) eq_refl).
Defined.

(** X12. The levels are nested: a password that passes ['complex'] passes
    ['medium'], and one that passes ['medium'] passes ['simple']. *)
Theorem X12_password_levels_nested up this value mode w :
  (verdict (call up this (op_isValidPassword (Some "complex"%string)) value mode w)
   = Some true ->
   verdict (call up this (op_isValidPassword (Some "medium"%string)) value mode w)
   = Some true)
  /\ (verdict (call up this (op_isValidPassword (Some "medium"%string)) value mode w)
      = Some true ->
      verdict (call up this (op_isValidPassword (Some "simple"%string)) value mode w)
      = Some true).
Proof.
  rewrite !verdict_call by reflexivity.
  rewrite (password_rule up (Some "complex"%string) _ value eq_refl).
  rewrite (password_rule up (Some "medium"%string) _ value eq_refl).
  rewrite (password_rule up (Some "simple"%string) _ value eq_refl).
  destruct (guard_trips this w); cbn [negb andb]; [split; discriminate|].
  split.
  - intros [= H]. f_equal. unfold complex_text in H. rewrite !andb_true_iff in H.
    destruct H as [[[[[Hn Hall] _] _] _] _].
    unfold long_line. apply andb_true_intro. split; [exact Hn|].
    now apply complex_text_line.
  - intros [= H]. f_equal. unfold long_line in *. apply andb_prop in H as [Hn Hlt].
    apply Nat.leb_le in Hn. apply andb_true_intro. split; [|exact Hlt].
    apply Nat.leb_le. lia.
Qed.

Lemma X12_password_levels_witness :
  verdict (call identity_upper (constructor no_options)
             (op_isValidPassword (Some "medium"%string)) (js "Tr0ub4dor&3")
             mode_undefined (mkWorld 0 [])) = Some true
  /\ verdict (call identity_upper (constructor no_options)
                (op_isValidPassword (Some "simple"%string)) (js "Tr0ub4dor&3")
                mode_undefined (mkWorld 0 [])) = Some true.
Proof.
  pose proof (X12_password_levels_nested identity_upper (constructor no_options)
                (js "Tr0ub4dor&3") mode_undefined (mkWorld 0 [])) as [H1 H2].
  assert (Hm : verdict (call identity_upper (constructor no_options)
                          (op_isValidPassword (Some "medium"%string)) (js "Tr0ub4dor&3")
                          mode_undefined (mkWorld 0 [])) = Some true).
  { apply H1. vm_compute. reflexivity. }
  split; [exact Hm|exact (H2 Hm)].
Defined.

(** X13. Relaxing the policy of [isStrongPassword] never turns an
    accepted password into a rejected one, as long as the two minimum
    lengths are integers from 0 to [10^21 - 1]: a password that passes
    such a policy passes every such policy with a minimum length that
    is not larger and with no requirement switched on that the first
    has off. *)
Theorem X13_strong_policy_monotone up this weaker policy value mode w :
  policy_weaker weaker policy = true ->
  verdict (call up this (op_isStrongPassword policy) value mode w) = Some true ->
  verdict (call up this (op_isStrongPassword weaker) value mode w) = Some true.
Proof.
  unfold policy_weaker. rewrite !andb_true_iff.
  destruct (count_of (policy_minLength weaker)) as [a|] eqn:Ha;
    [|intros [[[[=] _] _] _]].
  destruct (count_of (policy_minLength policy)) as [b|] eqn:Hb;
    [|intros [[[[=] _] _] _]].
  rewrite N.leb_le. intros [[[Hn HU] HN] HS].
  rewrite !verdict_call by reflexivity.
  rewrite (strong_policy_accepts up policy b value Hb).
  rewrite (strong_policy_accepts up weaker a value Ha).
  destruct (guard_trips this w); cbn [negb andb]; [discriminate|].
  intros [= H]. f_equal. apply andb_prop in H as [Hlt H]. rewrite Hlt. cbn [andb].
  unfold claimed_strong in *.
  rewrite (at_least_count _ a _ Ha). rewrite (at_least_count _ b _ Hb) in H.
  unfold character_requirements in *.
  rewrite !andb_true_iff in *. destruct H as [Hlen [[H1 H2] H3]].
  apply N.leb_le in Hlen. split; [apply N.leb_le; lia|].
  destruct (or_default true (requireUppercase weaker)),
           (or_default true (requireUppercase policy)),
           (or_default true (requireNumbers weaker)),
           (or_default true (requireNumbers policy)),
           (or_default true (requireSpecialChars weaker)),
           (or_default true (requireSpecialChars policy));
    cbn [implb] in *; try discriminate; repeat split; auto.
Qed.

Lemma X13_strong_policy_witness :
  verdict (call identity_upper (constructor no_options)
             (op_isStrongPassword example_policy) (js "Passw0rd!") mode_undefined
             (mkWorld 0 [])) = Some true.
Proof.
  apply (X13_strong_policy_monotone identity_upper (constructor no_options)
           example_policy no_password_options (js "Passw0rd!") mode_undefined
           (mkWorld 0 [])).
  - reflexivity.
  - vm_compute. reflexivity.
Defined.

(** X14. With the three requirements switched off, [isStrongPassword] is
    the length rule alone: with [minLength] 6 it gives the verdict of
    [isValidPassword] at level ['simple'], with [minLength] 8 that of
    level ['medium']. *)
Theorem X14_strong_policy_levels up this options level n value mode w :
  no_character_requirements options = true ->
  In (level, n) [("simple"%string, Finite false 6 0); ("medium"%string, Finite false 8 0)] ->
  policy_minLength options = n ->
  verdict (call up this (op_isStrongPassword options) value mode w)
  = verdict (call up this (op_isValidPassword (Some level)) value mode w).
Proof.
  intros Hoff Hlevel Hn.
  rewrite !verdict_call by reflexivity.
  assert (Hreq : character_requirements options value = true).
  { unfold no_character_requirements in Hoff. unfold character_requirements.
    rewrite !andb_true_iff, !negb_true_iff in Hoff. destruct Hoff as [[-> ->] ->].
    reflexivity. }
  destruct Hlevel as [[= <- <-]|[[= <- <-]|[]]].
  - assert (Hc : count_of (policy_minLength options) = Some 6%N) by now rewrite Hn.
    rewrite (strong_policy_accepts up options 6 value Hc).
    unfold claimed_strong. rewrite Hreq, andb_true_r, (at_least_count _ 6 _ Hc).
    rewrite (password_rule up (Some "simple"%string) _ value eq_refl).
    unfold long_line. f_equal. f_equal. rewrite andb_comm. f_equal.
    apply eq_iff_eq_true. rewrite N.leb_le, Nat.leb_le. lia.
  - assert (Hc : count_of (policy_minLength options) = Some 8%N) by now rewrite Hn.
    rewrite (strong_policy_accepts up options 8 value Hc).
    unfold claimed_strong. rewrite Hreq, andb_true_r, (at_least_count _ 8 _ Hc).
    rewrite (password_rule up (Some "medium"%string) _ value eq_refl).
    unfold long_line. f_equal. f_equal. rewrite andb_comm. f_equal.
    apply eq_iff_eq_true. rewrite N.leb_le, Nat.leb_le. lia.
Qed.

Lemma X14_strong_policy_levels_witness :
  verdict (call identity_upper (constructor no_options)
             (op_isStrongPassword
                (mkPasswordOptions None (Some false) (Some false) (Some false)))
             (js "long enough") mode_undefined (mkWorld 0 []))
  = verdict (call identity_upper (constructor no_options)
               (op_isValidPassword (Some "medium"%string))
               (js "long enough") mode_undefined (mkWorld 0 [])).
Proof.
  apply (X14_strong_policy_levels identity_upper (constructor no_options)
           (mkPasswordOptions None (Some false) (Some false) (Some false))
           "medium"%string (Finite false 8 0) (js "long enough") mode_undefined
           (mkWorld 0 [])).
  - reflexivity.
  - right. left. reflexivity.
  - reflexivity.
Defined.

(** * Patterns with bounded quantifiers *)

Module LayoutFacts.
Import Engine Positions EngineFacts Language LanguageFacts TermFacts.

Lemma has_layout_nil s : has_layout [] s = true <-> s = [].
Proof.
  unfold has_layout. destruct s; cbn; [tauto|]. split; discriminate.
Qed.

Lemma has_layout_app ta tb s1 s2 :
  has_layout ta s1 = true -> has_layout tb s2 = true ->
  has_layout (ta ++ tb) (s1 ++ s2) = true.
Proof.
  unfold has_layout. rewrite !andb_true_iff, !Nat.eqb_eq, !length_app.
  intros [L1 H1] [L2 H2]. split; [lia|]. rewrite prefix_ok_app.
  apply andb_true_intro. split.
  - clear H2 L2. revert s1 L1 H1. induction ta as [|t ta IH]; intros s1 L1 H1; [reflexivity|].
    destruct s1 as [|c s1]; [discriminate|]. cbn [prefix_ok app] in *.
    apply andb_prop in H1 as [Hc H1]. rewrite Hc. cbn in L1. apply IH; [lia|exact H1].
  - rewrite <- L1, skipn_app, Nat.sub_diag, skipn_all. exact H2.
Qed.

Lemma has_layout_split ta tb s :
  has_layout (ta ++ tb) s = true ->
  has_layout ta (firstn (length ta) s) = true /\ has_layout tb (skipn (length ta) s) = true.
Proof.
  unfold has_layout. rewrite !andb_true_iff, !Nat.eqb_eq, length_app, prefix_ok_app.
  rewrite andb_true_iff. intros [L [H1 H2]]. rewrite length_firstn, length_skipn.
  repeat split; try lia; [|exact H2].
  clear H2 L. revert s H1. induction ta as [|t ta IH]; intros s H1; [reflexivity|].
  destruct s as [|c s]; [discriminate|]. cbn [prefix_ok length firstn] in *.
  apply andb_prop in H1 as [Hc H1]. rewrite Hc. now apply IH.
Qed.

Lemma in_product la lb ts :
  In ts (product la lb) <-> exists ta tb, ts = ta ++ tb /\ In ta la /\ In tb lb.
Proof.
  unfold product. rewrite in_flat_map. split.
  - intros (ta & Ha & H). apply in_map_iff in H as (tb & <- & Hb). now exists ta, tb.
  - intros (ta & tb & -> & Ha & Hb). exists ta. split; [exact Ha|]. now apply in_map.
Qed.

Section Layouts.
Variable up : N -> list N.
Variable ic : bool.

Local Abbreviation Lang := (Language.Lang up ic).

Lemma among_product la lb s :
  among (product la lb) s <-> exists s1 s2, s = s1 ++ s2 /\ among la s1 /\ among lb s2.
Proof.
  unfold among. split.
  - intros (ts & Hts & H). apply in_product in Hts as (ta & tb & -> & Ha & Hb).
    apply has_layout_split in H as [H1 H2].
    exists (firstn (length ta) s), (skipn (length ta) s).
    split; [symmetry; apply firstn_skipn|]. split; eauto.
  - intros (s1 & s2 & -> & (ta & Ha & H1) & (tb & Hb & H2)).
    exists (ta ++ tb). split; [apply in_product; now exists ta, tb|].
    now apply has_layout_app.
Qed.

Lemma among_power l (P : list N -> Prop) :
  (forall s, P s <-> among l s) ->
  forall k s, among (power l k) s
              <-> exists pieces, s = concat pieces /\ Forall P pieces /\ length pieces = k.
Proof.
  intros HP. induction k as [|k IH]; intros s; cbn [power].
  - split.
    + intros (ts & [<-|[]] & H). apply has_layout_nil in H as ->.
      exists []. now repeat split.
    + intros (pieces & -> & _ & Hlen). destruct pieces; [|discriminate].
      exists []. split; [now left|reflexivity].
  - rewrite among_product. split.
    + intros (s1 & s2 & -> & H1 & H2). apply IH in H2 as (pieces & -> & Hall & Hlen).
      exists (s1 :: pieces). cbn [concat length]. repeat split; [|lia].
      constructor; [now apply HP|exact Hall].
    + intros (pieces & -> & Hall & Hlen). destruct pieces as [|p pieces]; [discriminate|].
      inversion Hall as [|? ? Hp Hrest]; subst. exists p, (concat pieces).
      split; [reflexivity|]. split; [now apply HP|]. apply IH. exists pieces.
      repeat split; [exact Hrest|]. cbn in Hlen. lia.
Qed.

(** The language of a pattern with bounded quantifiers is that of its
    layouts. *)
Theorem Lang_layouts r : forall ls s,
  layouts up ic r = Some ls -> (Lang r s <-> among ls s).
Proof.
  assert (Hchar : forall r0 t s, char_test up ic r0 = Some t ->
            (Lang r0 s <-> among [[t]] s)).
  { intros r0 t s Ht. rewrite (Lang_char up ic r0 t s Ht). unfold among. split.
    - intros (ch & -> & Hch). exists [t]. split; [now left|].
      unfold has_layout. cbn. now rewrite Hch.
    - intros (ts & [<-|[]] & H). unfold has_layout in H.
      destruct s as [|c [|c' s]]; try discriminate.
      cbn in H. rewrite andb_true_r in H. now exists c. }
  induction r as [ |c| |inv cs| | |a IHa b IHb|a IHa b IHb|min max greedy r IH|k r IH|neg r IH];
    intros ls s; cbn [layouts]; try discriminate.
  - intros [= <-]. cbn [Language.Lang]. unfold among. split.
    + intros ->. exists []. split; [now left|reflexivity].
    + intros (ts & [<-|[]] & H). now apply has_layout_nil.
  - cbn [char_test option_map]. intros [= <-]. now apply Hchar.
  - cbn [char_test option_map]. intros [= <-]. now apply Hchar.
  - cbn [char_test option_map]. intros [= <-]. now apply Hchar.
  - destruct (layouts up ic a) as [la|]; [|discriminate].
    destruct (layouts up ic b) as [lb|]; [|discriminate].
    intros [= <-]. rewrite among_product. cbn [Language.Lang].
    split; intros (s1 & s2 & -> & H1 & H2); exists s1, s2; (split; [reflexivity|]);
      (split; [now apply (IHa la s1 eq_refl)|now apply (IHb lb s2 eq_refl)]).
  - destruct (layouts up ic a) as [la|]; [|discriminate].
    destruct (layouts up ic b) as [lb|]; [|discriminate].
    intros [= <-]. cbn [Language.Lang].
    rewrite (IHa la s eq_refl), (IHb lb s eq_refl). unfold among. split.
    + intros [(ts & Hts & H)|(ts & Hts & H)]; exists ts; (split; [|exact H]);
        apply in_or_app; auto.
    + intros (ts & Hts & H). apply in_app_or in Hts as [Hts|Hts]; [left|right]; eauto.
  - destruct max as [max|]; [|discriminate].
    destruct (layouts up ic r) as [l|]; [|discriminate].
    intros [= <-]. cbn [Language.Lang].
    pose proof (among_power l (Lang r) (fun t => IH l t eq_refl)) as Hpow.
    unfold among at 1. split.
    + intros (pieces & -> & Hall & Hmin & Hmax).
      assert (Hk : among (power l (length pieces)) (concat pieces)).
      { apply Hpow. now exists pieces. }
      destruct Hk as (ts & Hts & H). exists ts. split; [|exact H].
      apply in_flat_map. exists (length pieces). split; [|exact Hts].
      apply in_seq. destruct (N.to_nat min); lia.
    + intros (ts & Hts & H). apply in_flat_map in Hts as (k & Hk & Hts).
      apply in_seq in Hk.
      assert (Hs : among (power l k) s) by (exists ts; now split).
      apply Hpow in Hs as (pieces & -> & Hall & Hlen). exists pieces.
      repeat split; auto; destruct (N.to_nat min); lia.
  - cbn [Language.Lang]. apply IH.
Qed.

End Layouts.

Lemma among_has_layout_among ls s : among ls s <-> has_layout_among ls s = true.
Proof. unfold among, has_layout_among. now rewrite existsb_exists. Qed.

(** Layouts whose tests agree accept the same strings. *)
Lemma has_layout_ext ts ts' :
  Forall2 (fun t t' => forall c : N, t c = t' c) ts ts' ->
  forall s, has_layout ts s = has_layout ts' s.
Proof.
  intros H s. unfold has_layout. now rewrite (Forall2_length H), (prefix_ok_ext ts ts' H).
Qed.

Lemma has_layout_among_ext ls ls' :
  Forall2 (Forall2 (fun t t' => forall c : N, t c = t' c)) ls ls' ->
  forall s, has_layout_among ls s = has_layout_among ls' s.
Proof.
  unfold has_layout_among. induction 1 as [|ts ts' ls ls' Hts _ IH]; intros s; [reflexivity|].
  cbn [existsb]. now rewrite (has_layout_ext ts ts' Hts), IH.
Qed.

End LayoutFacts.

(** * Rules with a finite list of layouts *)

Module LayoutRules.
Import Engine Positions EngineFacts CaseFacts RegExpObject Runtime Validator Spec.
Import Language LanguageFacts TermFacts Formats CallFacts RuleFacts LayoutFacts.

(** Two tests that are false from 128 on and agree on ASCII agree. *)
Lemma pointwise_ascii (f g : N -> bool) :
  (forall ch, (128 <= ch)%N -> f ch = false) ->
  (forall ch, (128 <= ch)%N -> g ch = false) ->
  forallb (fun ch => Bool.eqb (f ch) (g ch)) (range_members 0 128) = true ->
  forall ch, f ch = g ch.
Proof.
  intros Hf Hg Hall ch. destruct (N.ltb_spec ch 128) as [Hlt|Hge].
  - apply eqb_prop. exact (forall_ascii _ Hall ch Hlt).
  - now rewrite (Hf ch Hge), (Hg ch Hge).
Qed.

Lemma is_char_ascii c : (c < 128)%N -> forall ch, (128 <= ch)%N -> is_char c ch = false.
Proof. intros Hc ch Hch. unfold is_char. apply N.eqb_neq. lia. Qed.

Lemma rule_accepts_layouts up pattern re f m ls ls' s :
  pattern = VRegExp re ->
  between_anchors (re_pattern re) = Some m -> re_flags re = f -> plain m = true ->
  layouts up (ignoreCase_of f) m = Some ls ->
  Forall2 (Forall2 (fun t t' => forall c : N, t c = t' c)) ls ls' ->
  rule_accepts up pattern s = has_layout_among ls' (input_of f s).
Proof.
  intros Hp Hm Hf Hplain Hls Hext. apply eq_iff_eq_true.
  rewrite (rule_accepts_anchored up pattern re f m s Hp Hm Hf Hplain).
  rewrite (Lang_layouts up _ m ls _ Hls), among_has_layout_among.
  now rewrite (has_layout_among_ext ls ls' Hext).
Qed.

End LayoutRules.

Import LayoutFacts LayoutRules.

(** A test of a rule against the test of the same name. *)
Ltac ascii_false :=
  first [ apply in_ranges_ascii; reflexivity
        | apply is_char_ascii; reflexivity ].

Ltac test_ext :=
  lazymatch goal with
  | |- forall c, xorb false (Engine.char_set_found _ true _ c) = _ =>
      intros c; rewrite xorb_false_l; revert c;
      apply char_set_found_ignoreCase;
      [ vm_compute; reflexivity | vm_compute; reflexivity | ascii_false ]
  | |- forall c, (Engine.Canonicalize _ true c =? Engine.Canonicalize _ true _)%N = _ =>
      apply char_ignoreCase;
      [ reflexivity | vm_compute; reflexivity | ascii_false ]
  | |- forall c, xorb false (Engine.char_set_found _ false ?cs c) = ?g c =>
      change (forall c, in_ranges cs c = g c);
      apply pointwise_ascii; [ ascii_false | ascii_false | vm_compute; reflexivity ]
  | |- forall c, (Engine.Canonicalize _ false c =? Engine.Canonicalize _ false _)%N = _ =>
      intros c; reflexivity
  end.

Ltac layouts_ext :=
  repeat (first [ apply Forall2_nil
                | apply Forall2_cons; [ test_ext | ]
                | apply Forall2_cons ]).

(** Reads the rule of an operation as a list of layouts. *)
Ltac rule_layouts f :=
  match goal with
  | |- rule_accepts ?up ?p ?s = has_layout_among ?ls' _ =>
      refine (rule_accepts_layouts up p _ f _ _ ls' s _ _ _ _ _ _);
      [ vm_compute; reflexivity
      | vm_compute; reflexivity
      | reflexivity
      | vm_compute; reflexivity
      | cbv -[Engine.char_set_found Engine.Canonicalize is_line_terminator xorb N.eqb];
        reflexivity
      | cbv -[Engine.char_set_found Engine.Canonicalize is_line_terminator xorb N.eqb
              is_char digit letter letter_or_digit is_hex_digit is_mac_separator
              ca_first ca_letter in_ranges];
        layouts_ext ]
  end.

(** ** Addresses, postal codes and colours *)

Section Layouts.
Variable up : N -> list N.

Lemma has_layout_one ts s : has_layout_among [ts] s = has_layout ts s.
Proof. unfold has_layout_among. cbn. apply orb_false_r. Qed.

Lemma mac_rule s :
  rule_accepts up (op_pattern op_isValidMacAddress) s = has_layout mac_layout s.
Proof.
  rewrite <- has_layout_one. cbn [op_pattern].
  change s with (input_of flags_none s) at 2. rule_layouts flags_none.
Qed.

Local Open Scope string_scope.

Lemma btc_language g s :
  Language.Lang up false
    (Seq (Class false [(49, 49); (51, 51)]%N)
         (Repeat 25 (Some 34%N) g (Class false base58_chars))) s
  <-> btc_text s = true.
Proof.
  rewrite (Lang_Seq_char up false (Class false [(49, 49); (51, 51)]%N) _ _ s eq_refl).
  destruct s as [|c t]; cbn [btc_text]; [split; [intros []|discriminate]|].
  rewrite andb_true_iff, Lang_Repeat_char by reflexivity.
  rewrite !andb_true_iff, !Nat.leb_le.
  change (N.to_nat 25) with 25. change (N.to_nat 34) with 34. unfold all_in. tauto.
Qed.

Lemma crypto_rule type (f : JsString -> bool) s :
  crypto_format type = Some f ->
  rule_accepts up (op_pattern (op_isValidCryptoAddress type)) s = f s.
Proof.
  unfold crypto_format. cbn [op_pattern].
  destruct (String.eqb_spec type "BTC") as [->|_].
  { intros [= <-]. apply eq_iff_eq_true. rule_language flags_none. apply btc_language. }
  destruct (String.eqb_spec type "ETH") as [->|_]; [|discriminate].
  intros [= <-]. rewrite <- has_layout_one.
  change s with (input_of flags_none s) at 2. rule_layouts flags_none.
Qed.

Lemma postal_rule country ls s :
  postal_layouts country = Some ls ->
  rule_accepts up (op_pattern (op_isValidPostalCode country)) s = has_layout_among ls s.
Proof.
  unfold postal_layouts. cbn [op_pattern].
  destruct (String.eqb_spec country "US") as [->|_].
  { intros [= <-]. change s with (input_of flags_none s) at 2. rule_layouts flags_none. }
  destruct (String.eqb_spec country "UK") as [->|_].
  { intros [= <-]. change s with (input_of flags_i s) at 2. rule_layouts flags_i. }
  destruct (String.eqb_spec country "CA") as [->|_].
  { intros [= <-]. change s with (input_of flags_i s) at 2. rule_layouts flags_i. }
  destruct (String.eqb_spec country "ANY") as [->|_]; [|discriminate].
  intros [= <-]. change s with (input_of flags_i s) at 2. rule_layouts flags_i.
Qed.

Lemma hex_color_rule s :
  rule_accepts up (op_pattern op_isValidHexColor) s = has_layout_among hex_color_layouts s.
Proof.
  cbn [op_pattern]. change s with (input_of flags_none s) at 2. rule_layouts flags_none.
Qed.

End Layouts.

(** X15. [isValidMacAddress] accepts exactly the strings of 17 characters
    made of six pairs of hexadecimal digits with a [:] or a [-] after
    each pair but the last; the separators need not be the same. *)
Theorem X15_mac_address up this value mode w :
  verdict (call up this op_isValidMacAddress value mode w)
  = Some (negb (guard_trips this w) && has_layout mac_layout value).
Proof. rewrite verdict_call by reflexivity. now rewrite mac_rule. Qed.

(** X16. [isValidCryptoAddress]: an ['ETH'] address is [0x] (lowercase
    [x]) and forty hexadecimal digits; a ['BTC'] address is [1] or [3]
    followed by 25 to 34 characters of the Base58 alphabet.  No checksum
    is verified. *)
Theorem X16_crypto_addresses up this type (f : JsString -> bool) value mode w :
  crypto_format type = Some f ->
  verdict (call up this (op_isValidCryptoAddress type) value mode w)
  = Some (negb (guard_trips this w) && f value).
Proof.
  intros H. rewrite verdict_call by reflexivity. now rewrite (crypto_rule up type f value H).
Qed.

Lemma X16_crypto_addresses_witness :
  verdict (call identity_upper (constructor no_options) (op_isValidCryptoAddress "ETH")
             (js "0x52908400098527886E0F7030069857D2E4169EE7") mode_undefined
             (mkWorld 0 []))
  = Some (negb (guard_trips (constructor no_options) (mkWorld 0 []))
          && has_layout eth_layout (js "0x52908400098527886E0F7030069857D2E4169EE7")).
Proof.
  exact (X16_crypto_addresses identity_upper (constructor no_options) "ETH" _
           (js "0x52908400098527886E0F7030069857D2E4169EE7") mode_undefined
           (mkWorld 0 []) eq_refl).
Defined.

(** X17. [isValidPostalCode] accepts, for ['US'], five digits, or five
    digits, a hyphen and four digits; for ['UK'], one or two letters, a
    digit, an optional letter or digit, an optional space, a digit and
    two letters; for ['CA'], letter digit letter, an optional space,
    digit letter digit, with the letters of the Canadian alphabet; for
    ['ANY'], 3 to 10 letters or digits.  The letters are of either case
    but for ['US']. *)
Theorem X17_postal_codes up this country ls value mode w :
  postal_layouts country = Some ls ->
  verdict (call up this (op_isValidPostalCode country) value mode w)
  = Some (negb (guard_trips this w) && has_layout_among ls value).
Proof.
  intros H. rewrite verdict_call by reflexivity.
  now rewrite (postal_rule up country ls value H).
Qed.

Lemma X17_postal_codes_witness :
  exists ls,
    postal_layouts "CA" = Some ls
    /\ verdict (call identity_upper (constructor no_options) (op_isValidPostalCode "CA")
                  (js "k1a 0B1") mode_undefined (mkWorld 0 []))
       = Some (negb (guard_trips (constructor no_options) (mkWorld 0 []))
               && has_layout_among ls (js "k1a 0B1")).
Proof.
  eexists. split; [reflexivity|].
  exact (X17_postal_codes identity_upper (constructor no_options) "CA" _
           (js "k1a 0B1") mode_undefined (mkWorld 0 []) eq_refl).
Defined.

(** X18. [isValidHexColor] accepts exactly six or three hexadecimal
    digits, with or without a [#] in front. *)
Theorem X18_hex_color up this value mode w :
  verdict (call up this op_isValidHexColor value mode w)
  = Some (negb (guard_trips this w) && has_layout_among hex_color_layouts value).
Proof. rewrite verdict_call by reflexivity. now rewrite hex_color_rule. Qed.

(** ** Dates and times *)

(** Turns an equation between tests on characters into arithmetic. *)
Ltac chars_arith :=
  apply eq_iff_eq_true;
  cbv [has_layout_among has_layout existsb prefix_ok length Nat.eqb digits_between
       forallb decimal_value fold_left in_ranges is_char digit fst snd];
  rewrite ?orb_false_r, ?andb_true_r, ?andb_true_l, ?andb_false_l, ?orb_false_l;
  repeat (rewrite andb_true_iff || rewrite orb_true_iff);
  rewrite ?N.leb_le, ?N.eqb_eq;
  lia.

Section Dates.
Variable up : N -> list N.

Local Abbreviation Lang := (Language.Lang up false).

Lemma day_language t : Lang DAY t <-> day_text t = true.
Proof.
  rewrite (Lang_layouts up false DAY _ t eq_refl), among_has_layout_among.
  apply eq_iff_eq_true. unfold day_text.
  destruct t as [|a [|b [|c t]]]; try reflexivity.
  cbv [DAY layouts char_test option_map product flat_map map app
       Engine.char_set_found Engine.Canonicalize xorb]. chars_arith.
Qed.


Lemma month_language t : Lang MONTH t <-> month_text t = true.
Proof.
  rewrite (Lang_layouts up false MONTH _ t eq_refl), among_has_layout_among.
  apply eq_iff_eq_true. unfold month_text.
  destruct t as [|a [|b [|c t]]]; try reflexivity.
  cbv [MONTH layouts char_test option_map product flat_map map app
       Engine.char_set_found Engine.Canonicalize xorb]. chars_arith.
Qed.

Lemma year_language g t :
  Lang (Repeat 4 (Some 4%N) g (Class false [(48, 57)]%N)) t <-> year_text t = true.
Proof.
  rewrite (Lang_fixed up false (Repeat 4 (Some 4%N) g (Class false [(48, 57)]%N))
             (repeat digit 4) t eq_refl eq_refl).
  unfold year_text, has_layout. rewrite andb_true_iff, Nat.eqb_eq. reflexivity.
Qed.

Lemma separator_language c t : Lang (Char c) t <-> separator c t = true.
Proof.
  rewrite (Lang_fixed up false (Char c) [is_char c] t eq_refl eq_refl).
  unfold separator, has_layout. rewrite andb_true_iff, Nat.eqb_eq. reflexivity.
Qed.

Lemma dmy_language k1 k2 g c D M s :
  width D = Some 2 -> width M = Some 2 ->
  Lang (Seq (Group k1 D)
            (Seq (Char c)
                 (Seq (Group k2 M)
                      (Seq (Char c) (Repeat 4 (Some 4%N) g (Class false [(48, 57)]%N)))))) s
  <-> Lang D (field s 0 2) /\ separator c (field s 2 1) = true
      /\ Lang M (field s 3 2) /\ separator c (field s 5 1) = true
      /\ year_text (skipn 6 s) = true.
Proof.
  intros HD HM.
  rewrite (Lang_Seq_width up false (Group k1 D) _ 2 s HD).
  rewrite (Lang_Seq_width up false (Char c) _ 1 _ eq_refl).
  rewrite (Lang_Seq_width up false (Group k2 M) _ 2 _ HM).
  rewrite (Lang_Seq_width up false (Char c) _ 1 _ eq_refl).
  rewrite !skipn_skipn. cbn [Nat.add]. rewrite !separator_language, year_language.
  reflexivity.
Qed.

Lemma ymd_language k1 k2 g c M D s :
  width M = Some 2 ->
  Lang (Seq (Repeat 4 (Some 4%N) g (Class false [(48, 57)]%N))
            (Seq (Char c) (Seq (Group k1 M) (Seq (Char c) (Group k2 D))))) s
  <-> year_text (field s 0 4) = true /\ separator c (field s 4 1) = true
      /\ Lang M (field s 5 2) /\ separator c (field s 7 1) = true
      /\ Lang D (skipn 8 s).
Proof.
  intros HM.
  rewrite (Lang_Seq_width up false (Repeat 4 (Some 4%N) g (Class false [(48, 57)]%N))
             _ 4 s eq_refl).
  rewrite (Lang_Seq_width up false (Char c) _ 1 _ eq_refl).
  rewrite (Lang_Seq_width up false (Group k1 M) _ 2 _ HM).
  rewrite (Lang_Seq_width up false (Char c) _ 1 _ eq_refl).
  rewrite !skipn_skipn. cbn [Nat.add]. rewrite !separator_language, year_language.
  reflexivity.
Qed.

Local Open Scope string_scope.

Lemma date_format_rule format (f : JsString -> bool) s :
  date_format format = Some f ->
  rule_accepts up (op_pattern (op_isValidDate format)) s = f s.
Proof.
  unfold date_format. cbn [op_pattern].
  destruct (String.eqb_spec (or_default "DD/MM/YYYY" format) "DD/MM/YYYY") as [->|_].
  { intros [= <-]. apply eq_iff_eq_true. rule_language flags_none.
    rewrite (dmy_language 1 2 true 47 DAY MONTH s eq_refl eq_refl).
    rewrite day_language, month_language, !andb_true_iff. tauto. }
  destruct (String.eqb_spec (or_default "DD/MM/YYYY" format) "MM/DD/YYYY") as [->|_].
  { intros [= <-]. apply eq_iff_eq_true. rule_language flags_none.
    rewrite (dmy_language 1 2 true 47 MONTH DAY s eq_refl eq_refl).
    rewrite day_language, month_language, !andb_true_iff. tauto. }
  destruct (String.eqb_spec (or_default "DD/MM/YYYY" format) "YYYY-MM-DD") as [->|_].
  { intros [= <-]. apply eq_iff_eq_true. rule_language flags_none.
    rewrite (ymd_language 1 2 true 45 MONTH DAY s eq_refl).
    rewrite day_language, month_language, !andb_true_iff. tauto. }
  destruct (String.eqb_spec (or_default "DD/MM/YYYY" format) "YYYY/MM/DD") as [->|_];
    [|discriminate].
  intros [= <-]. apply eq_iff_eq_true. rule_language flags_none.
  rewrite (ymd_language 1 2 true 47 MONTH DAY s eq_refl).
  rewrite day_language, month_language, !andb_true_iff. tauto.
Qed.

Lemma time_rule s :
  rule_accepts up (op_pattern op_isValidTime) s = has_layout_among time_layouts s.
Proof.
  cbn [op_pattern]. change s with (input_of flags_i s) at 2. rule_layouts flags_i.
Qed.

End Dates.

(** X19. [isValidDate] accepts, for each of its four formats (the format
    left out is ['DD/MM/YYYY']), exactly the strings with the fields in
    the order of the format and its separator between them: a day of
    two digits from 01 to 31, a month of two digits from 01 to 12 and a
    year of four digits.  The day is not checked against the month nor
    the year. *)
Theorem X19_date_formats up this format (f : JsString -> bool) value mode w :
  date_format format = Some f ->
  verdict (call up this (op_isValidDate format) value mode w)
  = Some (negb (guard_trips this w) && f value).
Proof.
  intros H. rewrite verdict_call by reflexivity.
  now rewrite (date_format_rule up format f value H).
Qed.

Lemma X19_date_formats_witness :
  exists f,
    date_format (Some "YYYY-MM-DD"%string) = Some f
    /\ f (js "2023-02-30") = true
    /\ verdict (call identity_upper (constructor no_options)
                  (op_isValidDate (Some "YYYY-MM-DD"%string)) (js "2023-02-30")
                  mode_undefined (mkWorld 0 []))
       = Some (negb (guard_trips (constructor no_options) (mkWorld 0 []))
               && f (js "2023-02-30")).
Proof.
  eexists. split; [reflexivity|]. split; [vm_compute; reflexivity|].
  exact (X19_date_formats identity_upper (constructor no_options)
           (Some "YYYY-MM-DD"%string) _ (js "2023-02-30") mode_undefined (mkWorld 0 [])
           eq_refl).
Defined.

(** X20. [isValidTime] accepts exactly: hours from 00 to 23, a colon,
    minutes from 00 to 59, then optionally a colon and seconds from 00
    to 59, then optionally AM or PM in either case, with or without a
    space before it.  The hours are not checked against AM or PM. *)
Theorem X20_time up this value mode w :
  verdict (call up this op_isValidTime value mode w)
  = Some (negb (guard_trips this w) && has_layout_among time_layouts value).
Proof. rewrite verdict_call by reflexivity. now rewrite time_rule. Qed.

(** * Texts made of segments *)

Module SegmentFacts.
Import Engine Positions EngineFacts Language LanguageFacts TermFacts Formats.

Lemma split_all_nonempty sep s : split_all sep s <> [].
Proof.
  destruct s as [|c t]; cbn [split_all]; [discriminate|].
  destruct (c =? sep)%N; [discriminate|]. destruct (split_all sep t); discriminate.
Qed.

Lemma split_all_free sep s : sep_free sep s = true -> split_all sep s = [s].
Proof.
  induction s as [|c t IH]; cbn [sep_free forallb split_all]; [reflexivity|].
  intros H. apply andb_prop in H as [Hc Ht]. apply negb_true_iff in Hc.
  rewrite Hc, (IH Ht). reflexivity.
Qed.

Lemma split_all_cons sep a r :
  sep_free sep a = true -> split_all sep (a ++ sep :: r) = a :: split_all sep r.
Proof.
  induction a as [|c a IH]; cbn [sep_free forallb split_all app].
  - intros _. now rewrite N.eqb_refl.
  - intros H. apply andb_prop in H as [Hc Ha]. apply negb_true_iff in Hc.
    now rewrite Hc, (IH Ha).
Qed.

Lemma join_cons sep g gs :
  gs <> [] -> join sep (g :: gs) = g ++ sep :: join sep gs.
Proof.
  destruct gs as [|g' gs]; [intros H; now elim H|]. intros _. reflexivity.
Qed.

Lemma split_all_join sep gs :
  gs <> [] -> forallb (sep_free sep) gs = true -> split_all sep (join sep gs) = gs.
Proof.
  induction gs as [|g gs IH]; [intros H; now elim H|]. intros _ H.
  cbn [forallb] in H. apply andb_prop in H as [Hg Hgs].
  destruct gs as [|g' gs].
  - cbn [join map concat]. rewrite app_nil_r. now apply split_all_free.
  - rewrite join_cons by discriminate. rewrite (split_all_cons sep g _ Hg).
    f_equal. apply IH; [discriminate|exact Hgs].
Qed.

Lemma join_split_all sep s : join sep (split_all sep s) = s.
Proof.
  induction s as [|c t IH]; [reflexivity|]. cbn [split_all].
  pose proof (split_all_nonempty sep t) as Hne.
  destruct (N.eqb_spec c sep) as [->|_].
  - rewrite join_cons by exact Hne. now rewrite IH.
  - destruct (split_all sep t) as [|g gs]; [now elim Hne|].
    cbn [join] in *. cbn [app]. now rewrite IH.
Qed.

(** A text is made of segments that pass [Q] exactly when its segments
    pass [Q]. *)
Lemma segments_spec sep (Q : list JsString -> bool) s :
  (forall gs, Q gs = true -> gs <> [] /\ forallb (sep_free sep) gs = true) ->
  ((exists gs, s = join sep gs /\ Q gs = true) <-> Q (split_all sep s) = true).
Proof.
  intros HQ. split.
  - intros (gs & -> & H). destruct (HQ gs H) as [Hne Hfree].
    now rewrite (split_all_join sep gs Hne Hfree).
  - intros H. exists (split_all sep s). split; [|exact H]. symmetry. apply join_split_all.
Qed.

Lemma all_in_sep_free cs sep s :
  in_ranges cs sep = false -> all_in cs s = true -> sep_free sep s = true.
Proof.
  intros Hsep. unfold all_in, sep_free. rewrite !forallb_forall. intros H c Hc.
  apply negb_true_iff. destruct (N.eqb_spec c sep) as [->|]; [|reflexivity].
  rewrite (H sep Hc) in Hsep. discriminate.
Qed.

Lemma forallb_sep_free (P : N -> bool) sep s :
  P sep = false -> forallb P s = true -> sep_free sep s = true.
Proof.
  intros Hsep. unfold sep_free. rewrite !forallb_forall. intros H c Hc.
  apply negb_true_iff. destruct (N.eqb_spec c sep) as [->|]; [|reflexivity].
  rewrite (H sep Hc) in Hsep. discriminate.
Qed.

Section Segments.
Variable up : N -> list N.

Local Abbreviation Lang := (Language.Lang up false).

Lemma Lang_Seq_assoc a b c s : Lang (Seq a (Seq b c)) s <-> Lang (Seq (Seq a b) c) s.
Proof.
  cbn [Language.Lang]. split.
  - intros (s1 & s23 & -> & H1 & s2 & s3 & -> & H2 & H3).
    exists (s1 ++ s2), s3. rewrite app_assoc. split; [reflexivity|]. split; [|exact H3].
    now exists s1, s2.
  - intros (s12 & s3 & -> & (s1 & s2 & -> & H1 & H2) & H3).
    exists s1, (s2 ++ s3). rewrite app_assoc. split; [reflexivity|]. split; [exact H1|].
    now exists s2, s3.
Qed.

(** A separator in front of a segment. *)
Lemma separated_language sep B (PB : JsString -> bool) p :
  (forall t, Lang B t <-> PB t = true) ->
  (Lang (Seq (Char sep) B) p <-> exists b, p = sep :: b /\ PB b = true).
Proof.
  intros HB. rewrite (Lang_Seq_char up false (Char sep) _ B p eq_refl).
  destruct p as [|c b].
  - split; [intros []|intros (b & [=] & _)].
  - rewrite HB. split.
    + intros [Hc Hb]. change ((c =? sep)%N = true) in Hc. apply N.eqb_eq in Hc. subst c.
      now exists b.
    + intros (b' & [= -> ->] & Hb). split; [apply N.eqb_refl|exact Hb].
Qed.

Lemma Forall_separated sep B (PB : JsString -> bool) pieces :
  (forall t, Lang B t <-> PB t = true) ->
  (Forall (Lang (Seq (Char sep) B)) pieces
   <-> exists bs, pieces = map (cons sep) bs /\ forallb PB bs = true).
Proof.
  intros HB. induction pieces as [|p pieces IH].
  - split; [intros _; now exists []|intros _; constructor].
  - rewrite Forall_cons_iff, IH, (separated_language sep B PB p HB). split.
    + intros [(b & -> & Hb) (bs & -> & Hbs)]. exists (b :: bs). cbn. now rewrite Hb, Hbs.
    + intros (bs & E & Hbs). destruct bs as [|b bs]; [discriminate|].
      cbn [map forallb] in *. injection E as -> ->. apply andb_prop in Hbs as [Hb Hbs].
      split; [now exists b|now exists bs].
Qed.

(** A first segment and any number of other segments, a separator before
    each. *)
Lemma segmented_language sep g A B (PA PB : JsString -> bool) s :
  (forall t, Lang A t <-> PA t = true) -> (forall t, Lang B t <-> PB t = true) ->
  (forall t, PA t = true -> sep_free sep t = true) ->
  (forall t, PB t = true -> sep_free sep t = true) ->
  (Lang (Seq A (Repeat 0 None g (Seq (Char sep) B))) s <-> segmented sep PA PB s = true).
Proof.
  intros HA HB FA FB. unfold segmented.
  rewrite <- (segments_spec sep
                (fun gs => match gs with a :: bs => PA a && forallb PB bs | [] => false end)).
  - change (Lang (Seq A (Repeat 0 None g (Seq (Char sep) B))) s)
      with (exists s1 s2, s = s1 ++ s2 /\ Lang A s1
                          /\ exists pieces, s2 = concat pieces
                               /\ Forall (Lang (Seq (Char sep) B)) pieces
                               /\ N.to_nat 0 <= length pieces /\ True).
    split.
    + intros (a & t & -> & Ha & pieces & -> & Hall & _).
      apply (Forall_separated sep B PB pieces HB) in Hall as (bs & -> & Hbs).
      exists (a :: bs). split; [reflexivity|]. apply HA in Ha. now rewrite Ha, Hbs.
    + intros (gs & -> & H). destruct gs as [|a bs]; [discriminate|].
      apply andb_prop in H as [Ha Hbs]. exists a, (concat (map (cons sep) bs)).
      split; [reflexivity|]. split; [now apply HA|]. exists (map (cons sep) bs).
      split; [reflexivity|]. split; [|split; [cbn; lia|exact I]].
      apply (Forall_separated sep B PB _ HB). now exists bs.
  - intros [|a bs]; [discriminate|]. intros H. apply andb_prop in H as [Ha Hbs].
    split; [discriminate|]. cbn [forallb]. rewrite (FA a Ha). cbn [andb].
    rewrite forallb_forall in *. intros b Hb. apply FB, Hbs, Hb.
Qed.

(** A first segment, then a separator and what follows. *)
Lemma first_segment_language sep A R (PA : JsString -> bool) (Q : list JsString -> bool) s :
  (forall t, Lang A t <-> PA t = true) ->
  (forall t, Lang R t <-> exists gs, t = join sep gs /\ Q gs = true) ->
  (forall gs, Q gs = true -> gs <> []) ->
  (Lang (Seq A (Seq (Char sep) R)) s
   <-> exists gs, s = join sep gs
                  /\ match gs with a :: gs' => PA a && Q gs' | [] => false end = true).
Proof.
  intros HA HR HQ. cbn [Language.Lang]. split.
  - intros (a & t & -> & Ha & c & r & -> & (ch & -> & Hch) & Hr).
    apply N.eqb_eq in Hch. change (ch = sep) in Hch. subst ch.
    apply HA in Ha. apply HR in Hr as (gs & -> & Hgs).
    exists (a :: gs). split; [symmetry; exact (join_cons sep a gs (HQ gs Hgs))|].
    now rewrite Ha, Hgs.
  - intros (gs & -> & H). destruct gs as [|a gs]; [discriminate|].
    apply andb_prop in H as [Ha Hgs].
    exists a, (sep :: join sep gs). split; [exact (join_cons sep a gs (HQ gs Hgs))|].
    split; [now apply HA|].
    exists [sep], (join sep gs). split; [reflexivity|]. split.
    + exists sep. split; [reflexivity|]. apply N.eqb_refl.
    + apply HR. now exists gs.
Qed.

(** The last segment. *)
Lemma last_segment_language sep A (PA : JsString -> bool) s :
  (forall t, Lang A t <-> PA t = true) ->
  (Lang A s
   <-> exists gs, s = join sep gs
                  /\ match gs with [a] => PA a | _ => false end = true).
Proof.
  intros HA. rewrite HA. split.
  - intros H. exists [s]. cbn [join map concat]. now rewrite app_nil_r.
  - intros (gs & -> & H). destruct gs as [|a [|b gs]]; try discriminate.
    cbn [join map concat]. now rewrite app_nil_r.
Qed.

End Segments.

End SegmentFacts.

Import SegmentFacts.

(** ** Identifiers and network addresses *)

Lemma nonempty_leb (s : JsString) : (1 <=? length s)%nat = nonempty s.
Proof. now destruct s. Qed.

Section Identifiers.
Variable up : N -> list N.

Local Abbreviation Lang := (Language.Lang up false).

Lemma word_language g t :
  Lang (Repeat 1 None g (Class false lower_alnum)) t <-> word t = true.
Proof.
  rewrite Lang_Repeat_char by reflexivity. unfold word.
  rewrite andb_true_iff, nonempty_length. change (N.to_nat 1) with 1.
  unfold all_in. tauto.
Qed.

Lemma headed_language g first rest t :
  Lang (Seq (Class false first) (Repeat 0 None g (Class false rest))) t
  <-> headed first rest t = true.
Proof.
  rewrite (Lang_Seq_char up false (Class false first) _ _ t eq_refl).
  destruct t as [|c r]; cbn [headed]; [split; [intros []|discriminate]|].
  rewrite andb_true_iff, Lang_Repeat_char by reflexivity.
  unfold all_in. cbn [N.to_nat]. split.
  - intros [Hc (_ & _ & Hr)]. now split.
  - intros [Hc Hr]. split; [exact Hc|]. split; [lia|]. now split.
Qed.

Lemma word_sep_free sep t :
  in_ranges lower_alnum sep = false -> word t = true -> sep_free sep t = true.
Proof.
  intros Hsep H. apply andb_prop in H as [_ H]. exact (all_in_sep_free _ _ _ Hsep H).
Qed.

Lemma headed_sep_free first rest sep t :
  in_ranges first sep = false -> in_ranges rest sep = false ->
  headed first rest t = true -> sep_free sep t = true.
Proof.
  intros H1 H2. destruct t as [|c r]; [reflexivity|]. cbn [headed sep_free forallb].
  intros H. apply andb_prop in H as [Hc Hr]. apply andb_true_intro. split.
  - apply negb_true_iff. destruct (N.eqb_spec c sep) as [->|]; [|reflexivity].
    rewrite Hc in H1. discriminate.
  - exact (all_in_sep_free _ _ _ H2 Hr).
Qed.

Lemma identifier_rule op (f : JsString -> bool) s :
  identifier_format op = Some f -> rule_accepts up (op_pattern op) s = f s.
Proof.
  intros H. apply eq_iff_eq_true.
  destruct op; try discriminate H; injection H as <-; cbn [op_pattern];
    rule_language flags_none.
  - rewrite Lang_Seq_assoc.
    apply (segmented_language up 45 true _ _ (headed lowercase_letters lower_alnum) word).
    + intros t. apply headed_language.
    + intros t. apply word_language.
    + intros t. now apply headed_sep_free.
    + intros t. now apply word_sep_free.
  - apply headed_language.
  - rewrite Lang_Seq_assoc.
    apply (segmented_language up 95 true _ _ (headed lowercase_letters lower_alnum) word).
    + intros t. apply headed_language.
    + intros t. apply word_language.
    + intros t. now apply headed_sep_free.
    + intros t. now apply word_sep_free.
  - apply headed_language.
  - apply (segmented_language up 45 true _ _ word word).
    + intros t. apply word_language.
    + intros t. apply word_language.
    + intros t. now apply word_sep_free.
    + intros t. now apply word_sep_free.
Qed.

End Identifiers.

(** X21. The identifier formats: [isValidSlug] accepts non-empty words of
    lowercase letters and digits with single hyphens between them;
    [isKebabCase] the same with a letter first; [isSnakeCase] as
    [isKebabCase] with underscores for hyphens; [isCamelCase] a
    lowercase letter followed by letters and digits, [isPascalCase] an
    uppercase one.  No separator comes first, last or twice in a row,
    and [isCamelCase] asks for no uppercase letter at all. *)
Theorem X21_identifier_formats up this op (f : JsString -> bool) value mode w :
  identifier_format op = Some f ->
  verdict (call up this op value mode w) = Some (negb (guard_trips this w) && f value).
Proof.
  intros H. rewrite verdict_call by (destruct op; try reflexivity; discriminate H).
  now rewrite (identifier_rule up op f value H).
Qed.

Lemma X21_identifier_formats_witness :
  verdict (call identity_upper (constructor no_options) op_isKebabCase (js "my-kebab-case")
             mode_undefined (mkWorld 0 []))
  = Some (negb (guard_trips (constructor no_options) (mkWorld 0 []))
          && segmented 45 (headed lowercase_letters lower_alnum) word (js "my-kebab-case")).
Proof.
  exact (X21_identifier_formats identity_upper (constructor no_options) op_isKebabCase _
           (js "my-kebab-case") mode_undefined (mkWorld 0 []) eq_refl).
Defined.

Section Network.
Variable up : N -> list N.

Local Abbreviation Lang := (Language.Lang up false).

Lemma octet_language t : Lang OCTET t <-> octet t = true.
Proof.
  rewrite (Lang_layouts up false OCTET _ t eq_refl), among_has_layout_among.
  apply eq_iff_eq_true. unfold octet.
  destruct t as [|a [|b [|c [|d t]]]]; try reflexivity;
    cbv [OCTET layouts char_test option_map product flat_map map app power seq
         N.to_nat Pos.to_nat Pos.iter_op Nat.sub Nat.add
         Engine.char_set_found Engine.Canonicalize xorb];
    apply eq_iff_eq_true;
    cbv [has_layout_among has_layout existsb prefix_ok length Nat.eqb Nat.leb
         forallb decimal_value fold_left in_ranges is_char digit fst snd];
    rewrite ?orb_false_r, ?andb_true_r, ?andb_true_l, ?andb_false_l, ?orb_false_l;
    repeat (rewrite andb_true_iff || rewrite orb_true_iff);
    rewrite ?N.leb_le, ?N.eqb_eq; try lia.
  all: split; [intros H; repeat destruct H as [H|H]; discriminate H|].
  all: intros H; discriminate H || (destruct H as [H _]; discriminate H).
Qed.

Lemma octet_sep_free t : octet t = true -> sep_free 46 t = true.
Proof.
  unfold octet. rewrite !andb_true_iff. intros [[_ H] _].
  exact (forallb_sep_free digit 46 t eq_refl H).
Qed.

Lemma ipv4_rule s : rule_accepts up (op_pattern op_isValidIPv4) s = ipv4_text s.
Proof.
  apply eq_iff_eq_true. cbn [op_pattern]. rule_language flags_none.
  set (Q1 := fun gs : list JsString => match gs with [a] => octet a | _ => false end).
  set (Q2 := fun gs : list JsString =>
               match gs with a :: gs' => octet a && Q1 gs' | [] => false end).
  set (Q3 := fun gs : list JsString =>
               match gs with a :: gs' => octet a && Q2 gs' | [] => false end).
  set (Q4 := fun gs : list JsString =>
               match gs with a :: gs' => octet a && Q3 gs' | [] => false end).
  assert (H1 : forall t, Lang (Group 4 OCTET) t
                         <-> exists gs, t = join 46 gs /\ Q1 gs = true).
  { intros t. apply (last_segment_language up 46 (Group 4 OCTET) octet t).
    intros t'. apply octet_language. }
  assert (N1 : forall gs, Q1 gs = true -> gs <> []) by (intros [|? ?]; discriminate).
  assert (H2 : forall t, Lang (Seq (Group 3 OCTET) (Seq (Char 46) (Group 4 OCTET))) t
                         <-> exists gs, t = join 46 gs /\ Q2 gs = true).
  { intros t. apply (first_segment_language up 46 (Group 3 OCTET) _ octet Q1 t);
      [intros t'; apply octet_language|exact H1|exact N1]. }
  assert (N2 : forall gs, Q2 gs = true -> gs <> []) by (intros [|? ?]; discriminate).
  assert (H3 : forall t,
            Lang (Seq (Group 2 OCTET)
                      (Seq (Char 46) (Seq (Group 3 OCTET) (Seq (Char 46) (Group 4 OCTET))))) t
            <-> exists gs, t = join 46 gs /\ Q3 gs = true).
  { intros t. apply (first_segment_language up 46 (Group 2 OCTET) _ octet Q2 t);
      [intros t'; apply octet_language|exact H2|exact N2]. }
  assert (N3 : forall gs, Q3 gs = true -> gs <> []) by (intros [|? ?]; discriminate).
  rewrite (first_segment_language up 46 (Group 1 OCTET) _ octet Q3 s
             (fun t' => octet_language t') H3 N3).
  change ((exists gs, s = join 46 gs /\ Q4 gs = true) <-> ipv4_text s = true).
  rewrite (segments_spec 46 Q4 s).
  - unfold ipv4_text, Q4, Q3, Q2, Q1.
    destruct (split_all 46 s) as [|a [|b [|c [|d [|e gs]]]]];
      rewrite ?andb_false_r, ?andb_assoc; reflexivity.
  - intros gs H. split; [intros ->; discriminate|].
    unfold Q4, Q3, Q2, Q1 in H.
    destruct gs as [|a [|b [|c [|d [|e gs]]]]];
      rewrite ?andb_false_r in H; try discriminate.
    rewrite !andb_true_iff in H. destruct H as (Ha & Hb & Hc & Hd).
    cbn [forallb]. now rewrite !octet_sep_free.
Qed.

End Network.

(** X22. [isValidIPv4] accepts exactly four groups with points between
    them, each of one to three digits that stand for a number up to
    255.  Leading zeros pass, and nothing else may stand before or
    after. *)
Theorem X22_ipv4 up this value mode w :
  verdict (call up this op_isValidIPv4 value mode w)
  = Some (negb (guard_trips this w) && ipv4_text value).
Proof. rewrite verdict_call by reflexivity. now rewrite ipv4_rule. Qed.

Section Groups.
Variable up : N -> list N.

Local Abbreviation Lang := (Language.Lang up false).

Lemma join_snoc sep hs h :
  concat (map (fun g => g ++ [sep]) hs) ++ h = join sep (hs ++ [h]).
Proof.
  induction hs as [|g hs IH]; cbn [map concat app].
  - cbn. now rewrite app_nil_r.
  - rewrite <- !app_assoc, IH. cbn [app].
    symmetry. apply (join_cons sep g (hs ++ [h])). now destruct hs.
Qed.

(** A segment with its separator after it. *)
Lemma Forall_terminated sep H (PH : JsString -> bool) pieces :
  (forall t, Lang H t <-> PH t = true) ->
  (Forall (Lang (Seq H (Char sep))) pieces
   <-> exists hs, pieces = map (fun g => g ++ [sep]) hs /\ forallb PH hs = true).
Proof.
  intros HH.
  assert (Hp : forall p, Lang (Seq H (Char sep)) p <-> exists g, p = g ++ [sep] /\ PH g = true).
  { intros p. cbn [Language.Lang]. split.
    - intros (g & c & -> & Hg & ch & -> & Hch). change ((ch =? sep)%N = true) in Hch.
      apply N.eqb_eq in Hch. subst ch. exists g. split; [reflexivity|now apply HH].
    - intros (g & -> & Hg). exists g, [sep]. split; [reflexivity|]. split; [now apply HH|].
      exists sep. split; [reflexivity|]. apply N.eqb_refl. }
  induction pieces as [|p pieces IH].
  - split; [intros _; now exists []|intros _; constructor].
  - rewrite Forall_cons_iff, IH, Hp. split.
    + intros [(g & -> & Hg) (hs & -> & Hhs)]. exists (g :: hs). cbn. now rewrite Hg, Hhs.
    + intros (hs & E & Hhs). destruct hs as [|g hs]; [discriminate|].
      cbn [map forallb] in *. injection E as -> ->. apply andb_prop in Hhs as [Hg Hhs].
      split; [now exists g|now exists hs].
Qed.

(** [n] segments with their separator, then a last segment. *)
Lemma counted_segments_language sep g n H (PH : JsString -> bool) s :
  (forall t, Lang H t <-> PH t = true) ->
  (Lang (Seq (Repeat n (Some n) g (Seq H (Char sep))) H) s
   <-> exists gs, s = join sep gs
                  /\ (length gs =? S (N.to_nat n))%nat && forallb PH gs = true).
Proof.
  intros HH.
  change (Lang (Seq (Repeat n (Some n) g (Seq H (Char sep))) H) s)
    with (exists s1 s2, s = s1 ++ s2
            /\ (exists pieces, s1 = concat pieces
                  /\ Forall (Lang (Seq H (Char sep))) pieces
                  /\ N.to_nat n <= length pieces /\ length pieces <= N.to_nat n)
            /\ Lang H s2).
  split.
  - intros (s1 & h & -> & (pieces & -> & Hall & Hmin & Hmax) & Hh).
    apply (Forall_terminated sep H PH pieces HH) in Hall as (hs & -> & Hhs).
    rewrite length_map in Hmin, Hmax. exists (hs ++ [h]). split; [apply join_snoc|].
    apply andb_true_intro. split.
    + apply Nat.eqb_eq. rewrite length_app. cbn [length]. lia.
    + rewrite forallb_app. apply andb_true_intro. split; [exact Hhs|].
      cbn. rewrite andb_true_r. now apply HH.
  - intros (gs & -> & Hgs). apply andb_prop in Hgs as [Hlen Hall].
    apply Nat.eqb_eq in Hlen.
    destruct (exists_last (l := gs)) as (hs & h & ->); [intros ->; discriminate|].
    rewrite length_app in Hlen. cbn [length] in Hlen.
    rewrite forallb_app in Hall. apply andb_prop in Hall as [Hhs Hh].
    cbn in Hh. rewrite andb_true_r in Hh.
    exists (concat (map (fun g0 => g0 ++ [sep]) hs)), h.
    split; [symmetry; apply join_snoc|]. split; [|now apply HH].
    exists (map (fun g0 => g0 ++ [sep]) hs). rewrite length_map.
    split; [reflexivity|]. split; [|unfold JsString in *; lia].
    apply (Forall_terminated sep H PH _ HH). now exists hs.
Qed.

Lemma hextet_language g t :
  Lang (Repeat 1 (Some 4%N) g (Class false [(48, 57); (97, 102); (65, 70)]%N)) t
  <-> hextet t = true.
Proof.
  rewrite Lang_Repeat_char by reflexivity. unfold hextet.
  rewrite !andb_true_iff, !Nat.leb_le.
  change (N.to_nat 1) with 1. change (N.to_nat 4) with 4.
  assert (E : forall c, xorb false (Engine.char_set_found up false
                                      [(48, 57); (97, 102); (65, 70)]%N c)
                        = is_hex_digit c) by test_ext.
  rewrite (forallb_eq _ _ _ _ E). tauto.
Qed.

Lemma ipv6_rule s : rule_accepts up (op_pattern op_isValidIPv6) s = ipv6_text s.
Proof.
  apply eq_iff_eq_true. cbn [op_pattern]. rule_language flags_none.
  rewrite (counted_segments_language 58 true 7 _ hextet s (hextet_language true)).
  change (N.to_nat 7) with 7.
  rewrite (segments_spec 58 (fun gs => (length gs =? 8)%nat && forallb hextet gs) s).
  - reflexivity.
  - intros gs H. apply andb_prop in H as [Hlen Hall]. split.
    + intros ->. discriminate.
    + rewrite forallb_forall in *. intros t Ht. specialize (Hall t Ht).
      unfold hextet in Hall. apply andb_prop in Hall as [_ Hall].
      exact (forallb_sep_free is_hex_digit 58 t eq_refl Hall).
Qed.

Lemma base64url_language n g t :
  Lang (Repeat n None g (Class false base64url_chars)) t
  <-> (N.to_nat n <=? length t)%nat && all_in base64url_chars t = true.
Proof.
  rewrite Lang_Repeat_char by reflexivity. rewrite andb_true_iff, Nat.leb_le.
  unfold all_in. tauto.
Qed.

Lemma jwt_rule s : rule_accepts up (op_pattern op_isValidJwt) s = jwt_text s.
Proof.
  apply eq_iff_eq_true. cbn [op_pattern]. rule_language flags_none.
  set (P := fun n (t : JsString) => (n <=? length t)%nat && all_in base64url_chars t).
  set (Q1 := fun gs : list JsString => match gs with [a] => P 0 a | _ => false end).
  set (Q2 := fun gs : list JsString =>
               match gs with a :: gs' => P 1 a && Q1 gs' | [] => false end).
  set (Q3 := fun gs : list JsString =>
               match gs with a :: gs' => P 1 a && Q2 gs' | [] => false end).
  assert (H1 : forall t, Lang (Repeat 0 None true (Class false base64url_chars)) t
                         <-> exists gs, t = join 46 gs /\ Q1 gs = true).
  { intros t. apply (last_segment_language up 46 _ (P 0) t).
    intros t'. apply (base64url_language 0). }
  assert (N1 : forall gs, Q1 gs = true -> gs <> []) by (intros [|? ?]; discriminate).
  assert (H2 : forall t,
            Lang (Seq (Repeat 1 None true (Class false base64url_chars))
                      (Seq (Char 46) (Repeat 0 None true (Class false base64url_chars)))) t
            <-> exists gs, t = join 46 gs /\ Q2 gs = true).
  { intros t. apply (first_segment_language up 46 _ _ (P 1) Q1 t);
      [intros t'; apply (base64url_language 1)|exact H1|exact N1]. }
  assert (N2 : forall gs, Q2 gs = true -> gs <> []) by (intros [|? ?]; discriminate).
  rewrite (first_segment_language up 46 _ _ (P 1) Q2 s
             (fun t' => base64url_language 1 true t') H2 N2).
  change ((exists gs, s = join 46 gs /\ Q3 gs = true) <-> jwt_text s = true).
  rewrite (segments_spec 46 Q3 s).
  - unfold jwt_text, Q3, Q2, Q1, P.
    destruct (split_all 46 s) as [|a [|b [|c [|d gs]]]];
      rewrite ?andb_false_r; try reflexivity.
    rewrite !nonempty_leb, !andb_true_l, !andb_assoc. reflexivity.
  - intros gs H. split; [intros ->; discriminate|].
    unfold Q3, Q2, Q1, P in H.
    destruct gs as [|a [|b [|c [|d gs]]]]; rewrite ?andb_false_r in H; try discriminate.
    rewrite !andb_true_iff in H. destruct H as ([_ Ha] & [_ Hb] & [_ Hc]).
    cbn [forallb].
    now rewrite !(all_in_sep_free base64url_chars 46 _ eq_refl) by assumption.
Qed.

End Groups.

(** X23. [isValidIPv6] accepts exactly eight groups of one to four
    hexadecimal digits with colons between them. *)
Theorem X23_ipv6 up this value mode w :
  verdict (call up this op_isValidIPv6 value mode w)
  = Some (negb (guard_trips this w) && ipv6_text value).
Proof. rewrite verdict_call by reflexivity. now rewrite ipv6_rule. Qed.

(** X24. [isValidJwt] accepts exactly three segments of letters, digits,
    hyphens and underscores with points between them, of which the
    first two are not empty; the third (the signature) may be empty.
    Nothing is decoded. *)
Theorem X24_jwt up this value mode w :
  verdict (call up this op_isValidJwt value mode w)
  = Some (negb (guard_trips this w) && jwt_text value).
Proof. rewrite verdict_call by reflexivity. now rewrite jwt_rule. Qed.

(** ** Payment cards and emoji *)

Section Cards.
Variable up : N -> list N.

Lemma card_rule s :
  rule_accepts up (op_pattern op_isValidCreditCard) s = has_layout_among card_layouts s.
Proof.
  cbn [op_pattern]. change s with (input_of flags_none s) at 2. rule_layouts flags_none.
Qed.

Lemma utf16_decode_nonempty s : nonempty (utf16_decode s) = nonempty s.
Proof.
  destruct s as [|hi [|lo t]]; try reflexivity.
  rewrite utf16_decode_pair. now destruct (is_high_surrogate hi && is_low_surrogate lo).
Qed.

Lemma emoji_rule s : rule_accepts up (op_pattern op_isEmoji) s = emoji_text s.
Proof.
  apply eq_iff_eq_true. cbn [op_pattern]. rule_language flags_u.
  rewrite Lang_Repeat_char by reflexivity. unfold emoji_text.
  rewrite andb_true_iff, <- utf16_decode_nonempty, nonempty_length.
  change (N.to_nat 1) with 1. unfold all_in. tauto.
Qed.

End Cards.

(** X25. [isValidCreditCard] accepts exactly the digit strings of these
    shapes: [4] and 12 or 15 more digits; [51] to [55] and 14 more;
    [34] or [37] and 13 more; [6011] or [65] and two digits, and 12
    more.  No space or hyphen is allowed and no check digit is
    verified. *)
Theorem X25_credit_card up this value mode w :
  verdict (call up this op_isValidCreditCard value mode w)
  = Some (negb (guard_trips this w) && has_layout_among card_layouts value).
Proof. rewrite verdict_call by reflexivity. now rewrite card_rule. Qed.

(** X26. [isEmoji] reads the value by code points (a surrogate pair is
    one) and accepts it exactly when it is not empty and every code
    point lies in one of the listed blocks. *)
Theorem X26_emoji up this value mode w :
  verdict (call up this op_isEmoji value mode w)
  = Some (negb (guard_trips this w) && emoji_text value).
Proof. rewrite verdict_call by reflexivity. now rewrite emoji_rule. Qed.

(** ** E-mail addresses *)

Lemma split_last_app sep a b :
  sep_free sep b = true -> split_last sep (a ++ sep :: b) = Some (a, b).
Proof.
  intros H. unfold split_last. rewrite rev_app_distr. cbn [rev]. rewrite <- app_assoc.
  cbn [app]. rewrite split_at_app.
  - now rewrite !rev_involutive.
  - unfold sep_free in H. rewrite forallb_forall in *. intros c Hc. apply H.
    now apply in_rev.
Qed.

Lemma split_last_Some sep s a b : split_last sep s = Some (a, b) -> s = a ++ sep :: b.
Proof.
  unfold split_last. destruct (split_at sep (rev s)) as [[b' a']|] eqn:E; [|discriminate].
  intros [= <- <-]. apply split_at_Some in E. rewrite <- (rev_involutive s), E.
  rewrite rev_app_distr. cbn [rev]. now rewrite <- app_assoc.
Qed.

Section Email.
Variable up : N -> list N.

Local Abbreviation Lang := (Language.Lang up false).

Lemma host_language g1 g2 h :
  Lang (Seq (Repeat 1 None g1 (Class false host_chars))
          (Seq (Char 46) (Repeat 2 None g2 (Class false latin_letters)))) h
  <-> host_text h = true.
Proof.
  unfold host_text. split.
  - intros (d & r & -> & Hd & Hr).
    apply (Lang_Seq_char up false (Char 46) _ _ r eq_refl) in Hr.
    destruct r as [|c tld]; [destruct Hr|]. destruct Hr as [Hc Htld].
    change ((c =? 46)%N = true) in Hc. apply N.eqb_eq in Hc. subst c.
    rewrite Lang_Repeat_char in Hd by reflexivity. destruct Hd as (Hd1 & _ & Hd2).
    rewrite Lang_Repeat_char in Htld by reflexivity. destruct Htld as (Ht1 & _ & Ht2).
    rewrite split_last_app.
    + apply andb_true_intro; split; [apply andb_true_intro; split;
        [apply andb_true_intro; split|]|].
      * now apply nonempty_length.
      * exact Hd2.
      * now apply Nat.leb_le.
      * exact Ht2.
    + now apply (all_in_sep_free latin_letters).
  - destruct (split_last 46 h) as [[d tld]|] eqn:E; [|discriminate].
    apply split_last_Some in E. subst h. rewrite !andb_true_iff.
    intros [[[Hd1 Hd2] Ht1] Ht2]. exists d, (46%N :: tld). split; [reflexivity|]. split.
    + rewrite Lang_Repeat_char by reflexivity.
      split; [now apply nonempty_length|]. now split.
    + rewrite (Lang_Seq_char up false (Char 46) _ _ _ eq_refl). split; [reflexivity|].
      rewrite Lang_Repeat_char by reflexivity.
      split; [now apply Nat.leb_le|]. now split.
Qed.

Lemma email_rule s : rule_accepts up (op_pattern op_isValidEmail) s = email_text s.
Proof.
  apply eq_iff_eq_true. cbn [op_pattern]. rule_language flags_none.
  unfold email_text. split.
  - intros (l & r & -> & Hl & Hr).
    apply (Lang_Seq_char up false (Char 64) _ _ r eq_refl) in Hr.
    destruct r as [|c h]; [destruct Hr|]. destruct Hr as [Hc Hh].
    change ((c =? 64)%N = true) in Hc. apply N.eqb_eq in Hc. subst c.
    rewrite Lang_Repeat_char in Hl by reflexivity. destruct Hl as (Hl1 & _ & Hl2).
    apply host_language in Hh.
    rewrite split_at_app by exact (all_in_sep_free local_chars 64 l eq_refl Hl2).
    rewrite Hh, andb_true_r. apply andb_true_intro; split; [now apply nonempty_length|].
    exact Hl2.
  - destruct (split_at 64 s) as [[l h]|] eqn:E; [|discriminate].
    apply split_at_Some in E. subst s. rewrite !andb_true_iff. intros [[Hl1 Hl2] Hh].
    exists l, (64%N :: h). split; [reflexivity|]. split.
    + rewrite Lang_Repeat_char by reflexivity.
      split; [now apply nonempty_length|]. now split.
    + rewrite (Lang_Seq_char up false (Char 64) _ _ _ eq_refl). split; [reflexivity|].
      now apply host_language.
Qed.

End Email.

(** X27. [isValidEmail] accepts exactly the strings with one [@] that
    have, before it, one or more letters, digits and [._%+-], and after
    it letters, digits, points and hyphens (one at least), then a point
    and two or more letters up to the end.  So the part after the last
    point is letters only, and points may begin, end or repeat in the
    other parts. *)
Theorem X27_email up this value mode w :
  verdict (call up this op_isValidEmail value mode w)
  = Some (negb (guard_trips this w) && email_text value).
Proof. rewrite verdict_call by reflexivity. now rewrite email_rule. Qed.

(** ** Social security numbers *)

Section Guards.
Variable up : N -> list N.
Variable ic : bool.
Variable input : list N.

Local Abbreviation positions := (Positions.positions up ic input).
Local Abbreviation chain := (Shapes.chain up ic input).

(** A negative look-ahead passes where its body has no match. *)
Lemma chain_refusal r rs i j :
  chain (LookAhead true r :: rs) i j <-> positions r i = [] /\ chain rs i j.
Proof.
  cbn [Shapes.chain Positions.positions]. destruct (positions r i) as [|a l].
  - split.
    + intros (k & [<-|[]] & H). now split.
    + intros [_ H]. exists i. split; [now left|exact H].
  - split; [intros (k & [] & _)|intros [[=] _]].
Qed.

Lemma chain_fixed r ts rs i j :
  fixed_tests up ic r = Some ts ->
  (chain (r :: rs) i j
   <-> prefix_ok ts (skipn i input) = true /\ chain rs (i + length ts) j).
Proof.
  intros Hts. cbn [Shapes.chain]. split.
  - intros (k & Hk & H). apply (positions_fixed up ic input r ts Hts) in Hk as [-> Hk].
    now split.
  - intros [Hk H]. exists (i + length ts). split; [|exact H].
    apply (positions_fixed up ic input r ts Hts). now split.
Qed.

(** A body whose layouts are all [n] long matches at [i] when the [n]
    characters from [i] have one of the layouts. *)
Lemma body_layouts r ls n i :
  plain r = true -> layouts up ic r = Some ls -> Forall (fun ts => length ts = n) ls ->
  i <= length input ->
  (positions r i = [] <-> has_layout_among ls (field input i n) = false).
Proof.
  intros Hplain Hls Hn Hi.
  assert (E : (exists k, In k (positions r i))
              <-> has_layout_among ls (field input i n) = true).
  { rewrite <- among_has_layout_among. split.
    - intros (k & Hk). apply (positions_Lang up ic input r Hplain i k Hi) in Hk as [Hb Hk].
      apply (Lang_layouts up ic r ls _ Hls) in Hk as (ts & Hin & Hts).
      exists ts. split; [exact Hin|].
      rewrite Forall_forall in Hn. specialize (Hn ts Hin).
      assert (Hlen : length (slice input i k) = n).
      { unfold has_layout in Hts. apply andb_prop in Hts as [Hl _].
        apply Nat.eqb_eq in Hl. lia. }
      rewrite length_slice in Hlen by exact Hb. unfold field.
      unfold slice in Hts. now rewrite Hlen in Hts.
    - intros (ts & Hin & Hts). rewrite Forall_forall in Hn. specialize (Hn ts Hin).
      assert (Hlen : length (field input i n) = n).
      { unfold has_layout in Hts. apply andb_prop in Hts as [Hl _].
        apply Nat.eqb_eq in Hl. lia. }
      unfold field in Hlen. rewrite length_firstn, length_skipn in Hlen.
      exists (i + n). apply (positions_Lang up ic input r Hplain i (i + n) Hi).
      split; [lia|]. apply (Lang_layouts up ic r ls _ Hls). exists ts.
      split; [exact Hin|]. unfold slice. replace (i + n - i) with n by lia. exact Hts. }
  destruct (positions r i) as [|a l].
  - split; [intros _|reflexivity]. apply not_true_is_false. intros H.
    apply E in H as [k []].
  - split; [discriminate|]. intros H.
    assert (H' : has_layout_among ls (field input i n) = true)
      by (apply E; exists a; now left).
    congruence.
Qed.

End Guards.

Section Ssn.
Variable up : N -> list N.

Lemma ssn_rule_parsed : get patterns "ssn" = VRegExp ssn_rule.
Proof. vm_compute. reflexivity. Qed.

Lemma ssn_rule_spec s : test up ssn_rule s = ssn_text s.
Proof.
  apply eq_iff_eq_true.
  rewrite (test_anchored up ssn_rule s ssn_terms eq_refl).
  cbn [re_flags ssn_rule ignoreCase_of input_of]. unfold ssn_terms.
  rewrite chain_refusal.
  rewrite (chain_fixed up false s (Repeat 3 (Some 3%N) true (Class false [(48, 57)]%N))
             _ _ _ _ eq_refl).
  rewrite (chain_fixed up false s (Char 45) _ _ _ _ eq_refl).
  rewrite chain_refusal.
  rewrite (chain_fixed up false s (Repeat 2 (Some 2%N) true (Class false [(48, 57)]%N))
             _ _ _ _ eq_refl).
  rewrite (chain_fixed up false s (Char 45) _ _ _ _ eq_refl).
  rewrite chain_refusal.
  rewrite (chain_fixed up false s (Repeat 4 (Some 4%N) true (Class false [(48, 57)]%N))
             _ _ _ _ eq_refl).
  cbn [Shapes.chain].
  change (Positions.positions up false s
            (Alt (Seq (Char 48) (Seq (Char 48) (Char 48)))
               (Alt (Seq (Char 54) (Seq (Char 54) (Char 54)))
                  (Seq (Char 57) (Repeat 2 (Some 2%N) true (Class false [(48, 57)]%N))))) 0
          = []
          /\ prefix_ok (repeat digit 3) s = true
          /\ prefix_ok [is_char 45] (skipn 3 s) = true
          /\ Positions.positions up false s (Seq (Char 48) (Char 48)) 4 = []
          /\ prefix_ok (repeat digit 2) (skipn 4 s) = true
          /\ prefix_ok [is_char 45] (skipn 6 s) = true
          /\ Positions.positions up false s
               (Seq (Char 48) (Seq (Char 48) (Seq (Char 48) (Char 48)))) 7 = []
          /\ prefix_ok (repeat digit 4) (skipn 7 s) = true
          /\ 11 = length s
          <-> ssn_text s = true).
  assert (Hlay : has_layout ssn_layout s = true
                 <-> prefix_ok (repeat digit 3) s = true
                     /\ prefix_ok [is_char 45] (skipn 3 s) = true
                     /\ prefix_ok (repeat digit 2) (skipn 4 s) = true
                     /\ prefix_ok [is_char 45] (skipn 6 s) = true
                     /\ prefix_ok (repeat digit 4) (skipn 7 s) = true
                     /\ 11 = length s).
  { unfold has_layout, ssn_layout.
    rewrite andb_true_iff, Nat.eqb_eq, !prefix_ok_app, !andb_true_iff, !skipn_skipn.
    cbn [length repeat app Nat.add]. intuition. }
  assert (Hareas : forall i, i <= length s ->
            (Positions.positions up false s
               (Alt (Seq (Char 48) (Seq (Char 48) (Char 48)))
                  (Alt (Seq (Char 54) (Seq (Char 54) (Char 54)))
                     (Seq (Char 57) (Repeat 2 (Some 2%N) true (Class false [(48, 57)]%N)))))
               i = []
             <-> has_layout_among refused_areas (field s i 3) = false)).
  { intros i Hi.
    apply (body_layouts up false s _ refused_areas 3 i);
      [reflexivity|reflexivity|repeat constructor|exact Hi]. }
  assert (Hgroup : forall i, i <= length s ->
            (Positions.positions up false s (Seq (Char 48) (Char 48)) i = []
             <-> has_layout_among [repeat (is_char 48) 2] (field s i 2) = false)).
  { intros i Hi.
    apply (body_layouts up false s _ [repeat (is_char 48) 2] 2 i);
      [reflexivity|reflexivity|repeat constructor|exact Hi]. }
  assert (Hserial : forall i, i <= length s ->
            (Positions.positions up false s
               (Seq (Char 48) (Seq (Char 48) (Seq (Char 48) (Char 48)))) i = []
             <-> has_layout_among [repeat (is_char 48) 4] (field s i 4) = false)).
  { intros i Hi.
    apply (body_layouts up false s _ [repeat (is_char 48) 4] 4 i);
      [reflexivity|reflexivity|repeat constructor|exact Hi]. }
  unfold ssn_text. rewrite !andb_true_iff, !negb_true_iff, Hlay. split.
  - intros (H1 & H2 & H3 & H4 & H5 & H6 & H7 & H8 & H9).
    rewrite <- Hareas, <- Hgroup, <- Hserial by lia. tauto.
  - intros [[[(H2 & H3 & H5 & H6 & H8 & H9) H1] H4] H7].
    rewrite Hareas, Hgroup, Hserial by lia. tauto.
Qed.

Lemma ssn_rule_accepts s : rule_accepts up (op_pattern op_isValidSSN) s = ssn_text s.
Proof. cbn [op_pattern]. rewrite ssn_rule_parsed. apply ssn_rule_spec. Qed.

End Ssn.

(** X28. [isValidSSN] accepts exactly the strings of three digits, a
    hyphen, two digits, a hyphen and four digits whose first group is
    not [000], [666] or [900] to [999], whose second group is not [00]
    and whose last group is not [0000]. *)
Theorem X28_ssn up this value mode w :
  verdict (call up this op_isValidSSN value mode w)
  = Some (negb (guard_trips this w) && ssn_text value).
Proof. rewrite verdict_call by reflexivity. now rewrite ssn_rule_accepts. Qed.

(** ** Base64 *)

Section Base64.
Variable up : N -> list N.

Local Abbreviation Lang := (Language.Lang up false).
Local Abbreviation b64 := (Class false base64_chars).
Local Abbreviation quads g1 g2 := (Repeat 0 None g1 (Repeat 4 (Some 4%N) g2 b64)).
Local Abbreviation padding :=
  (Alt (Seq (Repeat 2 (Some 2%N) true b64) (Seq (Char 61) (Char 61)))
     (Seq (Repeat 3 (Some 3%N) true b64) (Char 61))).

Lemma quad_language g p :
  Lang (Repeat 4 (Some 4%N) g b64) p <-> length p = 4 /\ all_in base64_chars p = true.
Proof.
  rewrite Lang_Repeat_char by reflexivity. change (N.to_nat 4) with 4. unfold all_in.
  split; [intros (H1 & H2 & H3)|intros [H1 H2]]; repeat split; try lia; assumption.
Qed.

Lemma quads_of_text g1 g2 : forall k t,
  length t = 4 * k -> all_in base64_chars t = true -> Lang (quads g1 g2) t.
Proof.
  induction k as [|k IH]; intros t Hlen Hall.
  - destruct t; [|discriminate]. exists []. repeat split; [constructor|cbn; lia].
  - destruct t as [|c1 [|c2 [|c3 [|c4 t]]]]; try (cbn in Hlen; lia).
    unfold all_in in Hall. cbn [forallb] in Hall.
    apply andb_prop in Hall as [H1 Hall]. apply andb_prop in Hall as [H2 Hall].
    apply andb_prop in Hall as [H3 Hall]. apply andb_prop in Hall as [H4 Hall].
    destruct (IH t) as (pieces & -> & Hp & _); [cbn in Hlen; lia|exact Hall|].
    exists ([c1; c2; c3; c4] :: pieces). split; [reflexivity|]. split; [|cbn; lia].
    constructor; [|exact Hp]. apply quad_language. split; [reflexivity|].
    unfold all_in. cbn [forallb]. now rewrite H1, H2, H3, H4.
Qed.

Lemma quads_language g1 g2 t :
  Lang (quads g1 g2) t <-> length t mod 4 = 0 /\ all_in base64_chars t = true.
Proof.
  split.
  - intros (pieces & -> & Hp & _).
    assert (H : Forall (fun p => length p = 4 /\ all_in base64_chars p = true) pieces).
    { eapply Forall_impl; [|exact Hp]. intros p. apply quad_language. }
    clear Hp. induction H as [|p ps [Hl Ha] _ [IH1 IH2]]; [now split|].
    cbn [concat]. rewrite length_app. unfold all_in in *. rewrite forallb_app, Ha, IH2.
    split; [|reflexivity]. rewrite Hl.
    replace (4 + length (concat ps)) with (length (concat ps) + 1 * 4) by lia.
    now rewrite Nat.Div0.mod_add.
  - intros [Hlen Hall]. apply (quads_of_text g1 g2 (length t / 4)); [|exact Hall].
    pose proof (Nat.div_mod_eq (length t) 4). lia.
Qed.

Lemma all_in_rev cs (s : JsString) : all_in cs (rev s) = all_in cs s.
Proof.
  apply eq_iff_eq_true. unfold all_in. rewrite !forallb_forall.
  split; intros H c Hc; apply H; [now apply in_rev in Hc|now apply in_rev].
Qed.

Lemma base64_endings_spec x y :
  has_layout_among base64_endings [x; y]
  = (in_ranges base64_chars x && in_ranges base64_chars y)
    || (in_ranges base64_chars x && is_char 61 y)
    || (is_char 61 x && is_char 61 y).
Proof.
  unfold has_layout_among, has_layout, base64_endings.
  cbn [existsb length Nat.eqb prefix_ok andb]. now rewrite !andb_true_r, orb_false_r, orb_assoc.
Qed.

Lemma base64_padding_spec p :
  Lang padding p
  <-> exists x1 x2 x3 x4,
        p = [x1; x2; x3; x4]
        /\ in_ranges base64_chars x1 = true /\ in_ranges base64_chars x2 = true
        /\ (in_ranges base64_chars x3 || is_char 61 x3) = true /\ is_char 61 x4 = true.
Proof.
  rewrite (Lang_layouts up false padding
             [[in_ranges base64_chars; in_ranges base64_chars; is_char 61; is_char 61];
              [in_ranges base64_chars; in_ranges base64_chars;
               in_ranges base64_chars; is_char 61]] p eq_refl).
  rewrite among_has_layout_among. split.
  - intros H. destruct p as [|x1 [|x2 [|x3 [|x4 [|x5 p]]]]]; try discriminate H.
    exists x1, x2, x3, x4. split; [reflexivity|]. revert H.
    unfold has_layout_among, has_layout. cbn [existsb length Nat.eqb prefix_ok andb].
    destruct (in_ranges base64_chars x1), (in_ranges base64_chars x2),
      (in_ranges base64_chars x3), (is_char 61 x3), (is_char 61 x4);
      cbn; intros H; try discriminate H; repeat split.
  - intros (x1 & x2 & x3 & x4 & -> & H1 & H2 & H3 & H4).
    unfold has_layout_among, has_layout. cbn [existsb length Nat.eqb prefix_ok andb].
    rewrite H1, H2, H4. cbn [andb]. rewrite !andb_true_r, orb_false_r.
    now rewrite orb_comm.
Qed.

Lemma base64_rule s : rule_accepts up (op_pattern op_isBase64) s = base64_text s.
Proof.
  apply eq_iff_eq_true. cbn [op_pattern]. rule_language flags_none.
  rewrite Lang_optional_last. unfold base64_text. rewrite andb_true_iff, Nat.eqb_eq.
  split.
  - intros [H|(t & p & -> & Ht & Hp)].
    + apply quads_language in H as [Hlen Hall]. split; [exact Hlen|].
      rewrite <- all_in_rev in Hall. rewrite <- length_rev in Hlen.
      destruct (rev s) as [|y [|x r]]; [reflexivity|cbn in Hlen; discriminate|].
      unfold all_in in *. cbn [forallb] in Hall.
      apply andb_prop in Hall as [Hy Hall]. apply andb_prop in Hall as [Hx Hall].
      now rewrite Hall, base64_endings_spec, Hx, Hy.
    + apply quads_language in Ht as [Hlen Hall].
      apply base64_padding_spec in Hp as (x1 & x2 & x3 & x4 & -> & H1 & H2 & H3 & H4).
      rewrite length_app. split.
      { cbn [length]. replace (length t + 4) with (length t + 1 * 4) by lia.
        now rewrite Nat.Div0.mod_add. }
      rewrite rev_app_distr. cbn [rev app]. rewrite base64_endings_spec, H4.
      unfold all_in in *. cbn [forallb]. rewrite H1, H2. cbn [andb].
      fold (all_in base64_chars (rev t)). rewrite all_in_rev. unfold all_in. rewrite Hall.
      cbn [andb]. rewrite !andb_true_r.
      destruct (in_ranges base64_chars x3), (in_ranges base64_chars x4), (is_char 61 x3);
        try reflexivity; discriminate H3.
  - intros [Hlen H]. pose proof (rev_involutive s) as Hs.
    rewrite <- length_rev in Hlen.
    destruct (rev s) as [|y [|x r]]; [|discriminate|].
    + left. cbn in Hs. subst s. apply quads_language. now split.
    + apply andb_prop in H as [Hall Hend]. cbn [rev] in Hs. rewrite <- app_assoc in Hs.
      cbn [app] in Hs. rewrite <- all_in_rev in Hall. rewrite base64_endings_spec in Hend.
      destruct (in_ranges base64_chars x && in_ranges base64_chars y) eqn:Exy.
      * left. apply andb_prop in Exy as [Hx Hy]. apply quads_language.
        subst s. split.
        { rewrite length_app, length_rev. cbn [length] in *.
          now replace (length r + 2) with (S (S (length r))) by lia. }
        unfold all_in in *. rewrite forallb_app, Hall. cbn [forallb]. now rewrite Hx, Hy.
      * right. destruct r as [|x2 [|x1 r]]; try (cbn in Hlen; discriminate).
        cbn [rev] in Hs, Hall. rewrite <- !app_assoc in Hall. cbn [app] in Hall.
        repeat (rewrite <- app_assoc in Hs; cbn [app] in Hs).
        exists (rev r), [x1; x2; x; y]. split; [now symmetry|].
        unfold all_in in Hall. rewrite forallb_app in Hall. cbn [forallb] in Hall.
        apply andb_prop in Hall as [Hr Hall]. apply andb_prop in Hall as [H1 Hall].
        apply andb_prop in Hall as [H2 _].
        cbn [length] in Hlen. split.
        -- apply quads_language. rewrite length_rev. split; [|exact Hr].
           replace (S (S (S (S (length r))))) with (length r + 1 * 4) in Hlen by lia.
           now rewrite Nat.Div0.mod_add in Hlen.
        -- apply base64_padding_spec. exists x1, x2, x, y. split; [reflexivity|].
           split; [exact H1|]. split; [exact H2|]. cbn [orb] in Hend.
           destruct (in_ranges base64_chars x), (is_char 61 x), (is_char 61 y),
             (in_ranges base64_chars y); try discriminate; now split.
Qed.

End Base64.

(** X29. [isBase64] accepts exactly the strings whose length is a
    multiple of four, whose characters but the last two are letters,
    digits, [+] or [/], and whose last two characters are two of these,
    or one of these and [=], or [==].  The empty string is accepted. *)
Theorem X29_base64 up this value mode w :
  verdict (call up this op_isBase64 value mode w)
  = Some (negb (guard_trips this w) && base64_text value).
Proof. rewrite verdict_call by reflexivity. now rewrite base64_rule. Qed.

(** ** HTML tags *)

Lemma first_occurrence c (r : JsString) :
  existsb (is_char c) r = true ->
  exists a b, r = a ++ c :: b /\ forallb (fun x => negb (is_char c x)) a = true.
Proof.
  induction r as [|x r IH]; cbn [existsb]; [discriminate|].
  destruct (is_char c x) eqn:E.
  - intros _. apply N.eqb_eq in E. subst x. now exists [], r.
  - intros H. destruct (IH H) as (a & b & -> & Ha). exists (x :: a), b.
    split; [reflexivity|]. cbn [forallb]. now rewrite E, Ha.
Qed.

Section Html.
Variable up : N -> list N.

Local Abbreviation Lang := (Language.Lang up true).
Local Abbreviation TAIL :=
  (Seq (Class false [(97, 122)]%N) (Seq (Repeat 0 None true (Class true [(62, 62)]%N)) (Char 62))).

Lemma is_char_test c :
  (c < 128)%N ->
  forallb (fun ch => Bool.eqb (Canonicalize up true ch =? Canonicalize up true c)%N
                       (is_char c ch)) (range_members 0 128) = true ->
  forall ch, (Canonicalize up true ch =? Canonicalize up true c)%N = is_char c ch.
Proof. intros Hc H. apply char_ignoreCase; [exact Hc|exact H|now apply is_char_ascii]. Qed.

Lemma letter_test ch : char_set_found up true [(97, 122)]%N ch = letter ch.
Proof.
  revert ch. apply char_set_found_ignoreCase;
    [vm_compute; reflexivity|vm_compute; reflexivity|apply in_ranges_ascii; reflexivity].
Qed.

Lemma gt_test ch : char_set_found up true [(62, 62)]%N ch = is_char 62 ch.
Proof.
  revert ch. apply char_set_found_ignoreCase;
    [vm_compute; reflexivity|vm_compute; reflexivity|now apply is_char_ascii].
Qed.

(** The rule from its letter on matches a prefix of [u]. *)
Lemma opens_language u :
  (exists m b, u = m ++ b /\ Lang TAIL m) <-> opens u = true.
Proof.
  unfold opens. split.
  - intros (m & b & -> & Hm).
    rewrite (Lang_Seq_char up true (Class false [(97, 122)]%N) _ _ m eq_refl) in Hm.
    destruct m as [|l r]; [destruct Hm|]. destruct Hm as [Hl (body & p & -> & _ & Hp)].
    destruct Hp as (ch & -> & Hch). cbn [app]. rewrite xorb_false_l, letter_test in Hl.
    rewrite Hl. cbn [andb]. rewrite <- app_assoc, existsb_app. cbn [app existsb].
    rewrite (is_char_test 62 eq_refl) in Hch by (vm_compute; reflexivity).
    rewrite Hch. apply orb_true_r.
  - destruct u as [|l r]; [discriminate|]. intros H. apply andb_prop in H as [Hl Hr].
    apply first_occurrence in Hr as (body & b & -> & Hbody).
    exists (l :: body ++ [62%N]), b. split; [cbn [app]; now rewrite <- app_assoc|].
    rewrite (Lang_Seq_char up true (Class false [(97, 122)]%N) _ _ _ eq_refl).
    split; [now rewrite xorb_false_l, letter_test|].
    exists body, [62%N]. split; [reflexivity|]. split.
    + rewrite Lang_Repeat_char by reflexivity. split; [cbn; lia|]. split; [exact I|].
      rewrite forallb_forall in *. intros x Hx. rewrite gt_test. now apply Hbody.
    + exists 62%N. split; [reflexivity|].
      rewrite (is_char_test 62 eq_refl) by (vm_compute; reflexivity). reflexivity.
Qed.

Lemma tag_at_language t :
  (exists m b, t = m ++ b
               /\ Lang (Seq (Char 60) (Seq (Repeat 0 (Some 1%N) true (Char 47)) TAIL)) m)
  <-> tag_at t = true.
Proof.
  unfold tag_at. split.
  - intros (m & b & -> & Hm).
    rewrite (Lang_Seq_char up true (Char 60) _ _ m eq_refl) in Hm.
    destruct m as [|c u]; [destruct Hm|]. destruct Hm as [Hc Hu]. cbn [app].
    rewrite (is_char_test 60 eq_refl) in Hc by (vm_compute; reflexivity). rewrite Hc.
    cbn [andb]. apply Lang_Seq_optional in Hu as [Hu|Hu].
    + assert (H : opens (u ++ b) = true) by (apply opens_language; now exists u, b).
      now rewrite H.
    + rewrite (Lang_Seq_char up true (Char 47) _ _ u eq_refl) in Hu.
      destruct u as [|d v]; [destruct Hu|]. destruct Hu as [Hd Hv]. cbn [app].
      rewrite (is_char_test 47 eq_refl) in Hd by (vm_compute; reflexivity). rewrite Hd.
      assert (H : opens (v ++ b) = true) by (apply opens_language; now exists v, b).
      rewrite H. apply orb_true_r.
  - destruct t as [|c u]; [discriminate|]. intros H. apply andb_prop in H as [Hc H].
    apply N.eqb_eq in Hc. subst c. apply orb_prop in H as [H|H].
    + apply opens_language in H as (m & b & -> & Hm). exists (60%N :: m), b.
      split; [reflexivity|]. rewrite (Lang_Seq_char up true (Char 60) _ _ _ eq_refl).
      split; [now rewrite (is_char_test 60 eq_refl) by (vm_compute; reflexivity)|].
      apply Lang_Seq_optional. now left.
    + destruct u as [|d v]; [discriminate|]. apply andb_prop in H as [Hd H].
      apply N.eqb_eq in Hd. subst d.
      apply opens_language in H as (m & b & -> & Hm). exists (60%N :: 47%N :: m), b.
      split; [reflexivity|]. rewrite (Lang_Seq_char up true (Char 60) _ _ _ eq_refl).
      split; [now rewrite (is_char_test 60 eq_refl) by (vm_compute; reflexivity)|].
      apply Lang_Seq_optional. right.
      rewrite (Lang_Seq_char up true (Char 47) _ _ _ eq_refl).
      split; [now rewrite (is_char_test 47 eq_refl) by (vm_compute; reflexivity)|exact Hm].
Qed.

Lemma html_text_spec s :
  html_text s = true <-> exists a t, s = a ++ t /\ tag_at t = true.
Proof.
  induction s as [|c s IH]; cbn [html_text].
  - split; [discriminate|]. intros (a & t & E & H). symmetry in E.
    apply app_eq_nil in E as [_ ->]. discriminate H.
  - rewrite orb_true_iff, IH. split.
    + intros [H|(a & t & -> & H)]; [now exists [], (c :: s)|now exists (c :: a), t].
    + intros (a & t & E & H). destruct a as [|x a].
      * left. cbn [app] in E. now subst t.
      * right. injection E as -> ->. now exists a, t.
Qed.

Lemma html_rule s : rule_accepts up (op_pattern op_containsHtmlTag) s = html_text s.
Proof.
  apply eq_iff_eq_true. cbn [op_pattern].
  assert (E : get patterns "htmlTag"
              = VRegExp (mkRegExp
                           (Seq (Char 60) (Seq (Repeat 0 (Some 1%N) true (Char 47)) TAIL))
                           0 flags_i)) by (vm_compute; reflexivity).
  rewrite E. cbn [rule_accepts]. rewrite test_plain_Lang by reflexivity.
  cbn [re_flags re_pattern ignoreCase_of input_of]. rewrite html_text_spec. split.
  - intros (a & m & b & -> & Hm). exists a, (m ++ b). split; [reflexivity|].
    apply tag_at_language. now exists m, b.
  - intros (a & t & -> & H). apply tag_at_language in H as (m & b & -> & Hm).
    now exists a, m, b.
Qed.

End Html.

(** X30. [containsHtmlTag] searches the value: it accepts exactly the
    strings in which, somewhere, a [<] is followed by a letter of either
    case, or by [/] and a letter, and a [>] comes later, whatever there
    is between them and around them, line breaks included. *)
Theorem X30_html_tag up this value mode w :
  verdict (call up this op_containsHtmlTag value mode w)
  = Some (negb (guard_trips this w) && html_text value).
Proof. rewrite verdict_call by reflexivity. now rewrite html_rule. Qed.
